(* ===== verification/_CoqProject ===== *)
-Q . S2P
Prelude.v
StateRules.v
GoStrings.v
GoTime.v
GoHash.v
GoPath.v
GoRunes.v
Redact.v
LifecycleModel.v
LifecycleGraph.v
LifecycleJournal.v
LifecycleStatus.v
LifecycleMutation.v
LifecycleCoordinator.v
LifecycleRegistry.v
LifecycleAttach.v
LifecycleStop.v
LifecycleDisposalOps.v
LifecycleReconcile.v
LifecycleSample.v
LifecycleFrame.v
LifecycleInvariant.v
LifecycleSafety.v
LifecycleSystem.v
LifecycleDurable.v
LifecycleRules.v
LifecycleStopSpec.v
LifecycleReleaseOrder.v
LifecycleReconcileSpec.v
LifecycleAttachSpec.v
LifecycleFindings.v
WorkspacePath.v
SessionWire.v
MigrationBundle.v
MigrationBundleSpec.v
MigrationAdoption.v
MigrationAdoptionSpec.v
Decision.v
DecisionStore.v
DecisionSpec.v
GoGlob.v
HostPathRisk.v
HostFS.v
HostFSSpec.v
HostTree.v
Overlay.v
OverlaySpec.v
OverlayStageSpec.v
OverlayApplySpec.v
OverlayFindings.v
HostFSService.v
HostFSServiceSpec.v
HostFSFindings.v
ReadGrant.v
HostFSRead.v
HostFSWrite.v
DecisionCenter.v
HostAppResource.v
HostFSReadSpec.v
HostFSWriteFrame.v
HostFSWriteSpec.v
HostFSReadInvariant.v
