(* ===== verification/Prelude.v ===== *)
(** * Verification of the hideout core

    hideout runs agent sessions in virtual machine environments.  The
    development models the parts of the repository that decide, and leaves out
    those that only perform I/O.  Paths below are under src/.

    ** The parts and the files that model them

    - Shared vocabulary.  [Prelude] (this file): Go's value-and-error pairs
      ([result]), code that mutates its receiver and may fail ([SE], whose state
      survives an early error return), fixed-width counters, record update, and
      the tactics and generic lemmas of the other files.  [StateRules]: rules to
      reason about such code without running it.  [GoStrings],
      [GoRunes], [GoPath], [GoGlob], [GoTime] and [GoHash]: what the sources use
      of Go's packages strings, regexp and strconv, of UTF-8 decoding, of
      path/filepath and its Match, of time and of SHA-256.
    - Lifecycle of environments, internal/lifecycle.  A coordinator decides when
      an environment may be attached to, stopped, destroyed or reconciled.
      [LifecycleModel] is model.go, catalog.go and internal/backend/lifecycle.go;
      [LifecycleGraph] is reducer.go (resource graph and stop predicate);
      [LifecycleJournal] is journal.go and disposal.go; [LifecycleStatus] is
      status.go; [LifecycleMutation] is mutation.go (claims and leases).
      [LifecycleCoordinator] holds the coordinator's state and shared steps;
      [LifecycleRegistry] (registry.go), [LifecycleAttach] (establishment.go and
      incarnation.go), [LifecycleStop] and [LifecycleDisposalOps]
      (coordinator.go) and [LifecycleReconcile] (reconcile.go and
      reconciliation_fence.go) are its operations.  One critical section of the
      source is one definition; [LifecycleSystem] interleaves them.
    - Migration, internal/migration/state.go.  [MigrationBundle] is the export
      machine, [MigrationAdoption] the machine of the imports of one bundle.
      [MigrationBundleSpec] states formal/MigrationBundle.tla as a step relation.
    - Session wire, internal/sessionwire/frame.go and stream.go: [SessionWire].
    - Workspace paths, internal/workspacepath/path.go: [WorkspacePath].
    - Audit redaction, internal/audit/audit.go: [Redact].
    - Operator decisions, internal/decision.  [Decision] is types.go and
      redaction.go, [DecisionStore] the operations of store.go: one operation
      under the file lock is one definition over the maps of stored records.
    - Host files, internal/hostfs.  [HostPathRisk] is the catalogue of
      internal/hostpathrisk; [HostFS] is hostfs.go and visibility.go (rules, the
      policy built from three configurations, the decision on an operation and
      the visibility of a path); [HostFSService] is service.go (stat, read, list,
      staged writes, hand-over to host applications).
    - Approved reads.  [ReadGrant] is internal/hostfs/readgrant (the records and
      their checks), [HostFSRead] is internal/manager/hostfs_read.go with the
      read store: a session proposes a read, an operator claims and resolves the
      decision, an approval writes a grant, and the service asks for it.  Its
      state [World] joins the decision store, the read files of the sessions,
      the owners' locks, the audit log and the lifecycle calls.
      [HostAppResource] is internal/manager/host_app_resource.go: the authority
      these give to the service of a session.
    - Staged writes.  [HostTree] is the host's tree with the file calls the
      sources make on it; [Overlay] is internal/hostfs/overlay (staging a write,
      the views of a session, applying a decision); [HostFSWrite] is
      internal/manager/hostfs_write.go: operators plan, claim, apply and discard
      over the overlays of all sessions.  Its state [HostWorld] adds the
      overlays, the tree and their audit log to [World].
    - The decision service, internal/manager/decisions.go and
      decision_service.go: [DecisionCenter] dispatches over the kinds of
      decisions, mirrors the staged writes, expires decisions and claims.

    ** What the theorems show

    - [LifecycleSystem]: in every interleaving, with any clock and any failing
      write, an exclusive operation on an environment meets no session, is the
      only one, and refuses attaches; a running callback stays alone.  The
      argument is an ownership invariant of leases ([LifecycleInvariant], proved
      against the interface [LeaseTable] that [LifecycleMutation] implements),
      kept by each operation ([LifecycleSafety]) and by everything within the
      frame of [LifecycleFrame].
    - [LifecycleDurable]: every journal a run leaves on disk can be loaded.
      [LifecycleJournal]: round trip of the store, bounds and generations of a
      valid journal, and the transition tables.
    - [LifecycleStopSpec], [LifecycleReconcileSpec], [LifecycleAttachSpec] and
      [LifecycleReleaseOrder]: what a stop, a reconciliation, an attach and the
      end of a session do, on success and on failure ([LifecycleRules] runs
      critical sections symbolically).  [LifecycleGraph] and [LifecycleStatus]:
      the stop predicate, the path search and the status against declarative
      definitions.
    - [MigrationBundleSpec]: the export machine refines its TLA+ specification
      in both directions, every export ends within a computed bound, and an
      export that was not cancelled can be completed.  [MigrationAdoptionSpec]:
      imports never share identities or names, a step is accepted exactly when
      its guards hold, and an import that holds its name can be settled.
    - [SessionWire]: a reader delivers exactly the valid frames of its stream,
      and frames survive any behaviour of the underlying writer up to a
      truncated tail.  [WorkspacePath]: which paths resolve, that workspaces do
      not overlap, and that both names of a file resolve to it.
    - [Redact]: minted tokens and control-plane fields do not reach the log.
    - [DecisionSpec]: every operation of the store, whatever the clock, the file
      operations and the random bytes do, makes one move of an abstract machine
      of decisions; hence only the holder of a live claim's token decides, a
      claim is protected while its lease runs, every stored decision is valid,
      and a time-out sweep misses only decisions whose identifier is no plain
      file name.
    - [HostFSSpec]: the exact condition of a policy decision, what building a
      policy establishes, that credentials are never discoverable, and globs
      element by element.  [HostFSServiceSpec]: what entitles the service to
      bytes, metadata, names and writes, and that a tree handed to a host
      application is no wider than the policy, but for the deny rules
      [overlooked] describes.
    - [HostFSReadSpec] composes the chain: over all histories of the read
      provider, the operators and the decision store, the bytes a guest reads
      are of its own staged writes, or granted by policy or by an approval of
      exactly that file.
      [HostFSReadInvariant]: manifests stay loadable, and a hand-over agrees
      with the profile as it is now.
    - [OverlaySpec]: the bytes a staged edit makes, and what each operation of
      the overlay does to records, objects and the tree.  [OverlayStageSpec]: a
      staged write reads back.  [OverlayApplySpec]: an application changes the
      host exactly as the operation says or reports an error, and goes through
      under the conditions listed there.
    - [HostFSWriteSpec] composes the second chain: over all histories of
      sessions, operators and the decision service, the host's tree changes only
      by the approval, with the token of a live claim, of a write the policy
      permitted or of a share of evidence.  [HostFSWriteFrame] holds what each operation of the chain
      leaves alone.
    - Where the code does not do what it means to, for all runs of a kind:
      [LifecycleFindings] (an abort whose write fails, an expiry that unblocks),
      [HostFSFindings] (expired deny rules, case folding, what a staged append
      shows), [OverlayFindings] (staged changes of mode and renames),
      [failed_creation_blocks_file] in [HostFSReadInvariant],
      [hidden_decision_outlives_sweeps] in [DecisionSpec] and
      [replacement_race_strands] in [MigrationAdoptionSpec].  Concrete runs of
      the same sort: [explicit_stop_write_failure_wedges],
      [negated_class_widens_tree], [case_variant_evades_deny],
      [remoded_file_overwritten], [staged_size_panics] and
      [overlay_object_tail_leaks].

    Witnesses evaluate on concrete data ([LifecycleSample] and the Sample
    modules).

    ** Fuel and bounds

    The graph searches take one more unit of fuel than there are resources:
    [visit_total] shows that the cycle search never uses it up, [pathMode_spec]
    that the path search does not on the acyclic graphs [ValidateGraph] accepts.
    The release order takes one more than the session's resources, and its
    theorem that every resource is released covers the fuel.  Trimming, decoding
    of runes and replacement consume a byte or a rune a step and take the length
    of their input; that no pattern of [Redact] matches the empty string is read
    off the patterns and is not a theorem.  [writeAll]
    takes as much as there are bytes, and [writeAll_spec] shows it is enough;
    a reader that expects [n] frames takes [n + 1] units, the last for the end
    of the stream.  The glob matcher takes the length of its pattern;
    [Match_spec] shows it enough on patterns without classes and escapes.  The
    loop that shortens a reason removes a byte a turn and takes its length.
    The search for the name of a temporary file takes the 10000 attempts of
    os.CreateTemp and fails after them, as that does.
    Counters keep their Go width; where a theorem needs that one
    does not wrap, the invariant of its machine bounds it or the bound is a
    hypothesis of the theorem.

    ** Outside code

    The backend, the stop and mutation callbacks, the clock and the disk are
    arguments: an observation or result is any value, the clock any sequence of
    readings, each file operation succeeds, fails, or fails after it took
    effect.  A decision store and a read store consume a sequence of outcomes, one
    for each file operation, and a failed atomic write leaves the file as it was;
    random bytes and outcomes of lock probes are sequences too.  The host's files
    are a record ([Host], [FileSystem]) that one operation sees as one snapshot;
    the profiles on disk, the table of printable runes and the
    order in which a map is ranged over are arguments.  For staged writes the
    host is a tree of nodes by path: how the kernel resolves symbolic links and
    whom a new file belongs to is a record ([Kernel]) of which nothing is
    assumed, two hard links are two nodes, and operations interleave as wholes.
    slices.SortFunc is any function that sorts by time ([TimeSort]).  The export
    behind an approved evidence share is an argument that may change the tree
    and leaves the records of the overlays alone ([sharesSpare]); two draws of
    random bytes are never equal ([distinctDraws]).  The check of a wire
    control payload (internal/sessionwire/control.go) is repository code that is
    not modelled yet; it is an argument too, and nothing is assumed of it.

    ** Not modelled

    JSON and TOML text, file modes and directory walks: encodings of the records
    modelled here.  A nil slice is the empty list: reflect.DeepEqual, with which
    a joining resource is compared ([resourcesJoinCompatible]), also tells these
    two apart.  Timers, condition variables and event channels: the steps
    they trigger are modelled, their scheduling is any interleaving.  The
    backends, daemon, user interfaces, network path, the FUSE server, collectors
    and packaging: drivers of external programs, sockets and kernels.
    Left for later, being decision code: internal/policy, internal/envpolicy,
    internal/cmdgrammar, the control records and observer of
    internal/sessionwire, the archive formats of internal/migration, and the
    other specifications under formal/, MigrationAdoption.tla among them. *)
From stdpp Require Export gmap strings pretty sorting list fin_maps relations.
From Stdlib Require Import ZArith.

(** ** Results: Go's pair of a value and an error *)

Inductive result (E A : Type) : Type :=
  | Ok (a : A)
  | Err (e : E).
Arguments Ok {E A} a.
Arguments Err {E A} e.

Definition is_ok {E A} (r : result E A) : bool :=
  match r with Ok _ => true | Err _ => false end.

#[global] Instance result_ret {E} : MRet (result E) := λ A, Ok.
#[global] Instance result_bind {E} : MBind (result E) := λ A B f r,
  match r with Ok a => f a | Err e => Err e end.

(** [guard_err b e] is Go's [if !b { return e }]. *)
Definition guard_err {E} (b : bool) (e : E) : result E unit :=
  if b then Ok tt else Err e.

Lemma result_bind_ok {E A B} (m : result E A) (f : A → result E B) b :
  m ≫= f = Ok b ↔ ∃ a, m = Ok a ∧ f a = Ok b.
Proof. destruct m; simpl; naive_solver. Qed.

(** ** Stateful, fallible code

    A method that mutates the receiver and may return an error.  The state
    survives the error: an early [return err] keeps every mutation made
    before it, as in the source. *)

Definition SE (S E A : Type) : Type := S → S * result E A.

#[global] Instance SE_ret {S E} : MRet (SE S E) := λ A a s, (s, Ok a).
#[global] Instance SE_bind {S E} : MBind (SE S E) := λ A B f m s,
  match m s with
  | (s', Ok a) => f a s'
  | (s', Err e) => (s', Err e)
  end.

Section state_error.
Context {S E : Type}.

Definition get_state : SE S E S := λ s, (s, Ok s).
Definition modify (f : S → S) : SE S E () := λ s, (f s, Ok tt).
Definition fail {A} (e : E) : SE S E A := λ s, (s, Err e).
Definition lift {A} (r : result E A) : SE S E A := λ s, (s, r).
Definition when (b : bool) (m : SE S E ()) : SE S E () :=
  if b then m else mret tt.

(** Go's [_ = f()]: run, keep the state, drop the error. *)
Definition ignore_err {A} (m : SE S E A) : SE S E () := λ s, ((m s).1, Ok tt).

(** Run and hand the error back as a value, for [err := f(); if err != nil]. *)
Definition attempt {A} (m : SE S E A) : SE S E (result E A) := λ s,
  ((m s).1, Ok (m s).2).

(** Go's [defer]: the cleanup runs on every return path. *)
Definition finally {A} (m : SE S E A) (d : S → S) : SE S E A := λ s,
  (d (m s).1, (m s).2).

Fixpoint for_each {X} (f : X → SE S E ()) (l : list X) : SE S E () :=
  match l with
  | [] => mret tt
  | x :: l => f x;; for_each f l
  end.

(** [preserves R m]: every run of [m], failing or not, relates the state
    before to the state after. *)
Definition preserves (R : relation S) {A} (m : SE S E A) : Prop :=
  ∀ s, R s (m s).1.

Context (R : relation S) `{!PreOrder R}.

Lemma preserves_ret {A} (a : A) : preserves R (mret a).
Proof. intros s; simpl; reflexivity. Qed.

Lemma preserves_fail {A} (e : E) : preserves R (A := A) (fail e).
Proof. intros s; simpl; reflexivity. Qed.

Lemma preserves_lift {A} (r : result E A) : preserves R (lift r).
Proof. intros s; simpl; reflexivity. Qed.

Lemma preserves_get : preserves R get_state.
Proof. intros s; simpl; reflexivity. Qed.

Lemma preserves_bind {A B} (m : SE S E A) (f : A → SE S E B) :
  preserves R m → (∀ a, preserves R (f a)) → preserves R (m ≫= f).
Proof.
  intros Hm Hf s. unfold mbind, SE_bind. specialize (Hm s).
  destruct (m s) as [s' [a|e]]; simpl in *; [|done].
  etrans; [done|]. apply Hf.
Qed.

Lemma preserves_modify (f : S → S) : (∀ s, R s (f s)) → preserves R (modify f).
Proof. intros Hf s. apply Hf. Qed.

Lemma preserves_when b m : preserves R m → preserves R (when b m).
Proof. destruct b; [done|]. intros _. apply preserves_ret. Qed.

Lemma preserves_ignore_err {A} (m : SE S E A) :
  preserves R m → preserves R (ignore_err m).
Proof. intros Hm s. apply Hm. Qed.

Lemma preserves_attempt {A} (m : SE S E A) :
  preserves R m → preserves R (attempt m).
Proof. intros Hm s. apply Hm. Qed.

Lemma preserves_finally {A} (m : SE S E A) (d : S → S) :
  preserves R m → (∀ s, R s (d s)) → preserves R (finally m d).
Proof. intros Hm Hd s. simpl. etrans; [apply Hm|apply Hd]. Qed.

Lemma preserves_for_each {X} (f : X → SE S E ()) l :
  (∀ x, preserves R (f x)) → preserves R (for_each f l).
Proof.
  intros Hf. induction l as [|x l IH]; simpl; [apply preserves_ret|].
  apply preserves_bind; [apply Hf|done].
Qed.
End state_error.

Create HintDb preserve discriminated.
#[export] Hint Resolve preserves_ret preserves_fail preserves_lift preserves_get
  preserves_bind preserves_modify preserves_when preserves_ignore_err
  preserves_attempt preserves_finally preserves_for_each : preserve.

(** Preservation statement by statement; [db] closes the leaves. *)
Ltac keep_step :=
  lazymatch goal with
  | |- preserves _ (mret _) => apply preserves_ret; apply _
  | |- preserves _ (fail _) => apply preserves_fail; apply _
  | |- preserves _ (lift _) => apply preserves_lift; apply _
  | |- preserves _ get_state => apply preserves_get; apply _
  | |- preserves _ (when _ _) => apply preserves_when; [apply _|]
  | |- preserves _ (attempt _) => apply preserves_attempt
  | |- preserves _ (ignore_err _) => apply preserves_ignore_err
  | |- preserves _ (for_each _ _) => apply preserves_for_each; [apply _|intros ?]
  | |- preserves _ (mbind _ _) => apply preserves_bind; [apply _| |intros ?]
  | |- preserves _ (match ?x with _ => _ end) => destruct x
  end.
Tactic Notation "keeps" tactic3(db) := repeat first [solve [db] | keep_step].

(** ** Functional record update

    [r <| f := v |>] is [r] with field [f] replaced, Go's [r.f = v].  A record
    declares its eta-expansion once ([Eta]); the setter of a field is found by
    abstracting that field out of it. *)

Class Eta (R : Type) := eta : R → R.
Class Setter {R T : Type} (p : R → T) := set_field : (T → T) → R → R.
Arguments set_field {R T} p {_} _ _.

Ltac derive_setter :=
  lazymatch goal with
  | |- @Setter ?R ?T ?p =>
      let e := constr:(_ : Eta R) in
      let e := eval hnf in e in
      lazymatch eval pattern p in e with
      | ?k _ => let s := eval cbv beta in (λ f : T → T, k (λ r, f (p r))) in exact s
      end
  end.
#[global] Hint Extern 0 (Setter _) => derive_setter : typeclass_instances.

Notation "r <| f := v |>" := (set_field f (λ _, v) r)
  (at level 1, left associativity, format "r  <| f  :=  v |>").
Notation "r <| f ::= g |>" := (set_field f g r)
  (at level 1, left associativity, format "r  <| f  ::=  g |>").

(** ** Tactics *)

(** Split every [match] and [if] of the goal, discarding impossible branches. *)
Ltac case_all := repeat (case_match; simplify_eq/=; try done).

(** Turn boolean tests of the source into propositions. *)
Ltac bool_prop :=
  repeat match goal with
  | H : _ && _ = true |- _ => apply andb_true_iff in H as [??]
  | H : _ || _ = false |- _ => apply orb_false_iff in H as [??]
  | H : negb _ = true |- _ => apply negb_true_iff in H
  | H : negb _ = false |- _ => apply negb_false_iff in H
  | H : bool_decide _ = true |- _ => apply bool_decide_eq_true in H
  | H : bool_decide _ = false |- _ => apply bool_decide_eq_false in H
  | H : String.eqb _ _ = true |- _ => apply String.eqb_eq in H
  | H : String.eqb _ _ = false |- _ => apply String.eqb_neq in H
  end; simplify_eq.

Lemma guard_then {E A} b (e : E) (k : result E A) a :
  (guard_err b e;; k) = Ok a ↔ b = true ∧ k = Ok a.
Proof. destruct b; simpl; naive_solver. Qed.

Lemma guard_ok {E} b (e : E) : guard_err b e = Ok tt ↔ b = true.
Proof. destruct b; naive_solver. Qed.

Lemma and_iff (A B C D : Prop) : (A ↔ B) → (C ↔ D) → (A ∧ C ↔ B ∧ D).
Proof. tauto. Qed.

(** Decide a relation between a boolean test and its meaning: split the
    booleans, then arithmetic and congruence. *)
Ltac bool_meaning :=
  repeat match goal with
  | |- context [bool_decide ?P] => destruct (bool_decide_reflect P)
  | |- context [String.eqb ?x ?y] => destruct (String.eqb_spec x y)
  | |- context [Z.eqb ?x ?y] => destruct (Z.eqb_spec x y)
  | |- context [Z.ltb ?x ?y] => destruct (Z.ltb_spec x y)
  | |- context [Z.leb ?x ?y] => destruct (Z.leb_spec x y)
  | |- context [?f ?x] =>
      lazymatch type of x with bool => fail | _ => idtac end;
      lazymatch type of (f x) with bool => destruct (f x) end
  end; simpl; try done; split; intros; first [done | tauto | lia | intuition (congruence || lia)].

(** ** Machine integers *)

Definition two64 : Z := 18446744073709551616.

(** Go's [uint64] arithmetic wraps. *)
Definition u64 (z : Z) : Z := z mod two64.
Definition u64_succ (z : Z) : Z := u64 (z + 1).

Lemma u64_range z : (0 ≤ u64 z < two64)%Z.
Proof. apply Z.mod_pos_bound. done. Qed.

Lemma u64_succ_nowrap z : (0 ≤ z)%Z → (z + 1 < two64)%Z → u64_succ z = (z + 1)%Z.
Proof. intros. apply Z.mod_small. lia. Qed.

(** Go's [uint8] increment. *)
Definition u8_succ (z : Z) : Z := ((z + 1) mod 256)%Z.

Lemma u8_succ_nowrap z : (0 ≤ z)%Z → (z < 255)%Z → u8_succ z = (z + 1)%Z.
Proof. intros. apply Z.mod_small. lia. Qed.

(** ** Lists *)

Section lists.
Context {A : Type}.

(** The first element satisfying [f], with its index: Go's
    [for index, x := range l { if f(x) {...} }]. *)
Fixpoint find_index (f : A → bool) (l : list A) : option (nat * A) :=
  match l with
  | [] => None
  | x :: l =>
      if f x then Some (0, x)
      else match find_index f l with
           | Some (i, y) => Some (S i, y)
           | None => None
           end
  end.

(** [append(l[:i], l[i+1:]...)] *)
Definition remove_at (i : nat) (l : list A) : list A := take i l ++ drop (S i) l.

Lemma find_index_Some f l i x :
  find_index f l = Some (i, x) → l !! i = Some x ∧ f x = true.
Proof.
  revert i. induction l as [|y l IH]; intros i; simpl; [done|].
  destruct (f y) eqn:?; [intros; by simplify_eq|].
  destruct (find_index f l) as [[j z]|]; [|done].
  intros; simplify_eq/=. by apply IH.
Qed.

Lemma find_index_None f l :
  find_index f l = None ↔ Forall (λ x, f x = false) l.
Proof.
  induction l as [|y l IH]; simpl; [done|].
  rewrite Forall_cons, <-IH.
  destruct (f y); [naive_solver|].
  destruct (find_index f l) as [[??]|]; naive_solver.
Qed.

Lemma elem_of_remove_at i l x : x ∈ remove_at i l → x ∈ l.
Proof.
  unfold remove_at. rewrite elem_of_app.
  intros [?|?]; [by eapply subseteq_take|by eapply subseteq_drop].
Qed.
End lists.

Lemma existsb_false {A} (f : A → bool) l : existsb f l = false ↔ ∀ x, x ∈ l → f x = false.
Proof.
  induction l as [|y l IH]; simpl; [set_solver|].
  rewrite orb_false_iff, IH. setoid_rewrite elem_of_cons. naive_solver.
Qed.

Lemma existsb_true {A} (f : A → bool) l : existsb f l = true ↔ ∃ x, x ∈ l ∧ f x = true.
Proof. rewrite existsb_exists. by setoid_rewrite list_elem_of_In. Qed.

Lemma merge_sort_elem_of {A} (R : relation A) `{∀ x y, Decision (R x y)} l x :
  x ∈ merge_sort R l ↔ x ∈ l.
Proof. by rewrite (merge_sort_Permutation R l). Qed.

(** An invariant of the start that every step keeps holds at every reachable
    state. *)
Lemma rtc_invariant {A} (R : relation A) (P : A → Prop) x z :
  P x → (∀ y y', P y → R y y' → P y') → rtc R x z → P z.
Proof. intros Hx Hstep. induction 1; eauto. Qed.
