(* ===== verification/StateRules.v ===== *)
(** * Rules for stateful, fallible code

    Running a method symbolically ([mwp]), inverting a run that succeeded, and
    relations that a run keeps as long as a condition holds ([guarded]). *)
From S2P Require Import Prelude.

Section rules.
Context {S E : Type}.
Implicit Types (s : S).

Definition mwp {A} (m : SE S E A) s (Q : S → result E A → Prop) : Prop := Q (m s).1 (m s).2.

Lemma mwp_mono {A} (m : SE S E A) s Q Q' : mwp m s Q → (∀ s' r, Q s' r → Q' s' r) → mwp m s Q'.
Proof. intros H HQ. apply HQ, H. Qed.
Lemma mwp_ret {A} (a : A) s (Q : S → result E A → Prop) : Q s (Ok a) → mwp (mret a) s Q.
Proof. done. Qed.
Lemma mwp_fail {A} e s (Q : S → result E A → Prop) : Q s (Err e) → mwp (fail e) s Q.
Proof. done. Qed.
Lemma mwp_lift {A} r s (Q : S → result E A → Prop) : Q s r → mwp (lift r) s Q.
Proof. done. Qed.
Lemma mwp_get s (Q : S → result E S → Prop) : Q s (Ok s) → mwp get_state s Q.
Proof. done. Qed.
Lemma mwp_modify f s (Q : S → result E () → Prop) : Q (f s) (Ok tt) → mwp (modify f) s Q.
Proof. done. Qed.
Lemma mwp_bind {A B} (m : SE S E B) (f : B → SE S E A) s Q :
  mwp m s (λ s' r, match r with Ok b => mwp (f b) s' Q | Err e => Q s' (Err e) end) → mwp (m ≫= f) s Q.
Proof. unfold mwp, mbind, SE_bind. by destruct (m s) as [s' [b|e]]. Qed.
Lemma mwp_attempt {A} (m : SE S E A) s (Q : S → result E (result E A) → Prop) :
  mwp m s (λ s' r, Q s' (Ok r)) → mwp (attempt m) s Q.
Proof. done. Qed.
Lemma mwp_ignore {A} (m : SE S E A) s (Q : S → result E () → Prop) :
  mwp m s (λ s' _, Q s' (Ok tt)) → mwp (ignore_err m) s Q.
Proof. done. Qed.
Lemma mwp_by {A} (R : relation S) (m : SE S E A) s Q : preserves R m → (∀ s' r, R s s' → Q s' r) → mwp m s Q.
Proof. intros H HQ. apply HQ, H. Qed.
Lemma mwp_run {A} (m : SE S E A) s Q s' r : mwp m s Q → m s = (s', r) → Q s' r.
Proof. unfold mwp. intros H Hm. by rewrite Hm in H. Qed.
Lemma mwp_bind_by {A B} (R : relation S) (m : SE S E A) (f : A → SE S E B) s Q :
  preserves R m → (∀ s1 e, R s s1 → Q s1 (Err e)) →
  (∀ s1 a, m s = (s1, Ok a) → R s s1 → mwp (f a) s1 Q) → mwp (m ≫= f) s Q.
Proof.
  intros Hm He Hf. apply mwp_bind. unfold mwp at 1. specialize (Hm s).
  destruct (m s) as [s1 [a|e]] eqn:Er; cbn [fst snd] in *; eauto.
Qed.

(** ** Runs that succeeded *)

Lemma bind_ok {A B} (m : SE S E A) (f : A → SE S E B) s s' b :
  (m ≫= f) s = (s', Ok b) → ∃ s1 a, m s = (s1, Ok a) ∧ f a s1 = (s', Ok b).
Proof. unfold mbind, SE_bind. destruct (m s) as [s1 [a|e]]; [eauto|done]. Qed.
Lemma bind_inv {A B} (m : SE S E A) (f : A → SE S E B) s s' r :
  (m ≫= f) s = (s', r) → (∃ s1 a, m s = (s1, Ok a) ∧ f a s1 = (s', r)) ∨ ∃ e, m s = (s', Err e) ∧ r = Err e.
Proof. unfold mbind, SE_bind. destruct (m s) as [s1 [a|e]]; [eauto|intros [= <- <-]; eauto]. Qed.
Lemma attempt_ok {A} (m : SE S E A) s s' r : attempt m s = (s', Ok r) → m s = (s', r).
Proof. unfold attempt. destruct (m s). by intros [= <- <-]. Qed.
Lemma quiet_run {A} (R : relation S) (m : SE S E A) s s' r : preserves R m → m s = (s', r) → R s s'.
Proof. intros H Hm. specialize (H s). by rewrite Hm in H. Qed.

(** ** Relations that hold under a condition *)

Definition guarded (P : S → Prop) (R : relation S) : relation S := λ s s', P s → P s' ∧ R s s'.
#[global] Instance guarded_pre P R : PreOrder R → PreOrder (guarded P R).
Proof.
  intros HR. split; [by intros s|]. intros s1 s2 s3 H12 H23 H1. destruct (H12 H1) as [H2 R12].
  destruct (H23 H2) as [H3 R23]. split; [done|]. by etrans.
Qed.
Lemma guarded_stable {A} (P : S → Prop) (R : relation S) (m : SE S E A) :
  (∀ s s', P s → R s s' → P s') → preserves R m → preserves (guarded P R) m.
Proof. intros HP Hm s Hs. split; [by eapply HP|apply Hm]. Qed.
Lemma preserves_lift_bind {A B} (R : relation S) `{!PreOrder R} (r : result E A) (f : A → SE S E B) :
  (∀ a, r = Ok a → preserves R (f a)) → preserves R (lift r ≫= f).
Proof. intros H s. destruct r as [a|e]; [by apply (H a)|]. cbn. reflexivity. Qed.
Lemma preserves_mono {A} (R R' : relation S) (m : SE S E A) :
  (∀ s s', R s s' → R' s s') → preserves R m → preserves R' m.
Proof. intros HR Hm s. apply HR, Hm. Qed.
End rules.
