(* ===== verification/GoStrings.v ===== *)
(** * Go strings

    A Go string is a sequence of bytes, here a [string] of [ascii].  The file
    models the parts of the packages [strings], [regexp], [strconv] and
    [unicode] that the sources use, with the identifier patterns of
    [internal/lifecycle/model.go]. *)
From Stdlib Require Import Ascii.
From S2P Require Import Prelude.

Open Scope list_scope.

(** ** Bytes and byte classes *)

Definition byte_of (a : ascii) : N := N_of_ascii a.
Definition in_range (lo hi : N) (a : ascii) : bool :=
  (lo <=? byte_of a)%N && (byte_of a <=? hi)%N.

Definition is_digit : ascii → bool := in_range 48 57.
Definition is_lower : ascii → bool := in_range 97 122.
Definition is_upper : ascii → bool := in_range 65 90.
Definition is_alnum (a : ascii) : bool := is_digit a || is_lower a || is_upper a.
Definition is_lower_hex (a : ascii) : bool := is_digit a || in_range 97 102 a.

(** The class [[A-Za-z0-9._:-]]. *)
Definition is_id_char (a : ascii) : bool :=
  is_alnum a || Ascii.eqb a "." || Ascii.eqb a "_" || Ascii.eqb a ":" || Ascii.eqb a "-".

Fixpoint str_forall (f : ascii → bool) (s : string) : bool :=
  match s with
  | EmptyString => true
  | String a s => f a && str_forall f s
  end.

Definition str_exists (f : ascii → bool) (s : string) : bool :=
  negb (str_forall (λ a, negb (f a)) s).

Definition len (s : string) : Z := Z.of_nat (String.length s).

(** ** Patterns of [internal/lifecycle/model.go] *)

(** [^[A-Za-z0-9][A-Za-z0-9._:-]{0,127}$] *)
Definition idPattern (s : string) : bool :=
  match s with
  | EmptyString => false
  | String a rest => is_alnum a && str_forall is_id_char rest && (String.length rest <=? 127)
  end.

(** Consume [n] lowercase hexadecimal digits. *)
Fixpoint hex_run (n : nat) (s : string) : option string :=
  match n, s with
  | O, _ => Some s
  | S n, String a s => if is_lower_hex a then hex_run n s else None
  | S _, EmptyString => None
  end.

Definition dash (s : string) : option string :=
  match s with String a s => if Ascii.eqb a "-" then Some s else None | _ => None end.

(** [^[a-f0-9]{8}-[a-f0-9]{4}-[a-f0-9]{4}-[a-f0-9]{4}-[a-f0-9]{12}$] *)
Definition bootIDPattern (s : string) : bool :=
  match s ← hex_run 8 s; s ← dash s; s ← hex_run 4 s; s ← dash s; s ← hex_run 4 s;
        s ← dash s; s ← hex_run 4 s; s ← dash s; hex_run 12 s with
  | Some EmptyString => true
  | _ => false
  end.

(** ** Package [strings] *)

Definition HasPrefix (s p : string) : bool := String.prefix p s.

Fixpoint drop_str (n : nat) (s : string) : string :=
  match n, s with
  | S n, String _ s => drop_str n s
  | _, _ => s
  end.

Fixpoint take_str (n : nat) (s : string) : string :=
  match n, s with
  | S n, String a s => String a (take_str n s)
  | _, _ => EmptyString
  end.

Definition TrimPrefix (s p : string) : string :=
  if HasPrefix s p then drop_str (String.length p) s else s.

Fixpoint HasSuffix (s p : string) : bool :=
  String.eqb s p ||
  match s with
  | EmptyString => false
  | String _ s => HasSuffix s p
  end.

(** [strings.Contains(s, string(c))] for a single byte. *)
Definition ContainsByte (s : string) (c : ascii) : bool := str_exists (Ascii.eqb c) s.

(** [strings.Contains(s, p)] *)
Fixpoint Contains (s p : string) : bool :=
  HasPrefix s p || match s with String _ s => Contains s p | EmptyString => false end.

(** [strings.Trim(s, cutset)] for a set of bytes. *)
Fixpoint TrimLeftSet (f : ascii → bool) (s : string) : string :=
  match s with
  | String a s' => if f a then TrimLeftSet f s' else s
  | EmptyString => s
  end.
Fixpoint TrimRightSet (f : ascii → bool) (s : string) : string :=
  if str_forall f s then EmptyString
  else match s with
       | String a s' => String a (TrimRightSet f s')
       | EmptyString => s
       end.
Definition TrimSet (f : ascii → bool) (s : string) : string := TrimRightSet f (TrimLeftSet f s).

(** [strings.Cut(s, string(c))]: around the first [c]. *)
Fixpoint Cut (s : string) (c : ascii) : option (string * string) :=
  match s with
  | EmptyString => None
  | String a s =>
      if Ascii.eqb a c then Some (EmptyString, s)
      else match Cut s c with
           | Some (l, r) => Some (String a l, r)
           | None => None
           end
  end.

Definition bytes (l : list N) : string := foldr (λ n s, String (ascii_of_N n) s) EmptyString l.

(** The UTF-8 encodings of the code points of [unicode.IsSpace]. *)
Definition space_encodings : list string :=
  bytes <$> ([[9]; [10]; [11]; [12]; [13]; [32]; [194; 133]; [194; 160]; [225; 154; 128];
    [226; 128; 128]; [226; 128; 129]; [226; 128; 130]; [226; 128; 131]; [226; 128; 132];
    [226; 128; 133]; [226; 128; 134]; [226; 128; 135]; [226; 128; 136]; [226; 128; 137];
    [226; 128; 138]; [226; 128; 168]; [226; 128; 169]; [226; 128; 175]; [226; 129; 159];
    [227; 128; 128]])%N.

Definition leading_space (s : string) : option string :=
  list_find (λ p, HasPrefix s p = true) space_encodings ≫= λ '(_, p), Some p.

Fixpoint trim_left (fuel : nat) (s : string) : string :=
  match fuel with
  | O => s
  | S fuel =>
      match leading_space s with
      | Some p => trim_left fuel (drop_str (String.length p) s)
      | None => s
      end
  end.

(** Is [s] a (possibly empty) run of encoded spaces? *)
Definition all_space (s : string) : bool := String.eqb (trim_left (String.length s) s) EmptyString.

(** Drop the longest suffix that is a run of encoded spaces. *)
Fixpoint trim_right (s : string) : string :=
  if all_space s then EmptyString
  else match s with
       | EmptyString => EmptyString
       | String a s => String a (trim_right s)
       end.

Definition TrimSpace (s : string) : string :=
  trim_right (trim_left (String.length s) s).

(** [for _, r := range s { if unicode.IsControl(r) }]: a C0 byte, DEL, or the
    two-byte encoding of a C1 code point. *)
Fixpoint has_control (s : string) : bool :=
  match s with
  | EmptyString => false
  | String a s =>
      in_range 0 31 a || Ascii.eqb a (ascii_of_N 127) ||
      (Ascii.eqb a (ascii_of_N 194) &&
       match s with String b _ => in_range 128 159 b | _ => false end) ||
      has_control s
  end.

(** [fmt.Sprintf("%d", n)] for an unsigned [n]. *)
Definition show_u64 (n : Z) : string := pretty (Z.to_N n).

(** ** [sort.Strings] and friends *)

Definition sort_strings : list string → list string := merge_sort String.le.

(** [sort.Slice(l, func(i, j) { return key(l[i]) < key(l[j]) })] *)
Definition sort_by {A} (key : A → string) : list A → list A :=
  merge_sort (λ x y, String.le (key x) (key y)).

(** ** Lemmas *)

Lemma str_forall_app f s1 s2 : str_forall f (s1 +:+ s2) = str_forall f s1 && str_forall f s2.
Proof. induction s1 as [|a s1 IH]; simpl; [done|]. by rewrite IH, andb_assoc. Qed.

Lemma str_forall_impl f g s :
  (∀ a, f a = true → g a = true) → str_forall f s = true → str_forall g s = true.
Proof. intros Hfg. induction s as [|a s IH]; simpl; [done|]. rewrite !andb_true_iff. naive_solver. Qed.

Lemma is_alnum_id_char a : is_alnum a = true → is_id_char a = true.
Proof. unfold is_id_char. by intros ->. Qed.

Lemma idPattern_id_chars s : idPattern s = true → str_forall is_id_char s = true.
Proof.
  destruct s as [|a s]; simpl; [done|]. intros H. bool_prop.
  rewrite andb_true_iff. auto using is_alnum_id_char.
Qed.

Lemma idPattern_nonempty s : idPattern s = true → s ≠ "".
Proof. by destruct s. Qed.

Lemma idPattern_length s : idPattern s = true → String.length s ≤ 128.
Proof.
  destruct s as [|a s]; simpl; [done|]. intros H. bool_prop.
  match goal with H : (_ <=? _)%nat = true |- _ => apply Nat.leb_le in H end. lia.
Qed.

Lemma str_forall_no_byte f c s :
  f c = false → str_forall f s = true → ContainsByte s c = false.
Proof.
  intros Hc Hs. unfold ContainsByte, str_exists. apply negb_false_iff.
  eapply str_forall_impl, Hs. intros a Ha. apply negb_true_iff, Ascii.eqb_neq. congruence.
Qed.

(** A separator outside a class splits a concatenation uniquely. *)
Lemma sep_inj f c s1 s2 r1 r2 :
  f c = false → str_forall f s1 = true → str_forall f s2 = true →
  s1 +:+ String c r1 = s2 +:+ String c r2 → s1 = s2 ∧ r1 = r2.
Proof.
  intros Hc. revert s2. induction s1 as [|a s1 IH]; intros [|b s2]; simpl; intros H1 H2 Heq;
    simplify_eq; bool_prop; try congruence; [done|].
  edestruct IH as [-> ->]; naive_solver.
Qed.

Lemma string_app_inj_l (s r1 r2 : string) : s +:+ r1 = s +:+ r2 → r1 = r2.
Proof. induction s; simpl; intros; [done|]. simplify_eq; auto. Qed.

Lemma Cut_app s c r : ContainsByte s c = false → Cut (s +:+ String c r) c = Some (s, r).
Proof.
  unfold ContainsByte, str_exists. rewrite negb_false_iff.
  induction s as [|a s IH]; simpl.
  - intros _. by rewrite Ascii.eqb_refl.
  - intros [Ha Hs]%andb_true_iff. apply negb_true_iff in Ha.
    rewrite Ascii.eqb_sym, Ha. by rewrite IH.
Qed.

Lemma Cut_Some s c l r : Cut s c = Some (l, r) → s = l +:+ String c r ∧ ContainsByte l c = false.
Proof.
  revert l. induction s as [|a s IH]; simpl; intros l H; [done|].
  destruct (Ascii.eqb a c) eqn:Ha.
  - simplify_eq. apply Ascii.eqb_eq in Ha as ->. done.
  - destruct (Cut s c) as [[l' r']|]; simplify_eq/=.
    destruct (IH l' eq_refl) as [-> Hl]. split; [done|].
    unfold ContainsByte, str_exists in *. rewrite negb_false_iff in *. simpl.
    rewrite Hl, Ascii.eqb_sym, Ha. done.
Qed.

Lemma show_u64_inj x y : (0 ≤ x)%Z → (0 ≤ y)%Z → show_u64 x = show_u64 y → x = y.
Proof. intros ?? H. unfold show_u64 in H. apply (inj (R := (=)) (pretty (A := N))) in H. lia. Qed.

#[global] Instance string_le_key_total {A} (key : A → string) :
  Total (λ x y : A, String.le (key x) (key y)).
Proof. intros x y. apply (total String.le). Qed.

#[global] Instance string_le_key_trans {A} (key : A → string) :
  Transitive (λ x y : A, String.le (key x) (key y)).
Proof. intros x y z. apply (transitivity (R := String.le)). Qed.

Lemma sort_by_permutation {A} (key : A → string) l : sort_by key l ≡ₚ l.
Proof. apply merge_sort_Permutation. Qed.

Lemma sort_by_elem_of {A} (key : A → string) l x : x ∈ sort_by key l ↔ x ∈ l.
Proof. by rewrite sort_by_permutation. Qed.

Lemma sort_by_sorted {A} (key : A → string) l :
  StronglySorted (λ x y, String.le (key x) (key y)) (sort_by key l).
Proof. apply (StronglySorted_merge_sort _). Qed.

(** ** Trimming *)

Lemma str_app_assoc (s1 s2 s3 : string) : (s1 +:+ s2) +:+ s3 = s1 +:+ (s2 +:+ s3).
Proof. induction s1 as [|a s1 IH]; simpl; [done|]. exact (f_equal (String a) IH). Qed.

Lemma HasPrefix_app p s : HasPrefix (p +:+ s) p = true.
Proof. unfold HasPrefix. induction p as [|a p IH]; simpl; [by destruct s|]. case_match; [done|congruence]. Qed.
Lemma HasPrefix_Some s p : HasPrefix s p = true → s = p +:+ drop_str (String.length p) s.
Proof.
  unfold HasPrefix. revert s. induction p as [|a p IH]; intros s H; simpl; [by destruct s|].
  destruct s as [|b s]; simpl in *; [done|]. case_match; [subst|done].
  exact (f_equal (String b) (IH s H)).
Qed.
Lemma HasPrefix_iff s p : HasPrefix s p = true ↔ ∃ r, s = p +:+ r.
Proof. split; [intros H%HasPrefix_Some; eauto|intros [r ->]; apply HasPrefix_app]. Qed.

Lemma leading_space_Some s p :
  leading_space s = Some p → p ∈ space_encodings ∧ HasPrefix s p = true.
Proof.
  unfold leading_space. intros ([i q]&H&Hq)%bind_Some. injection Hq as ->.
  apply list_find_Some in H as (Hi&Hp&_). split; [by eapply list_elem_of_lookup_2|done].
Qed.
Lemma leading_space_None s :
  leading_space s = None ↔ ∀ p, p ∈ space_encodings → HasPrefix s p = false.
Proof.
  unfold leading_space. rewrite bind_None. split.
  - intros [H|([i q]&_&?)]; [|done]. apply list_find_None in H. rewrite Forall_forall in H.
    intros p Hp. specialize (H p Hp). by destruct (HasPrefix s p).
  - intros H. left. apply list_find_None, Forall_forall. intros p Hp. by rewrite H.
Qed.

(** No encoded space is a prefix of another. *)
Lemma leading_space_app p s : p ∈ space_encodings → leading_space (p +:+ s) = Some p.
Proof.
  intros Hp. unfold space_encodings in Hp. repeat (apply elem_of_cons in Hp as [->|Hp]; [by destruct s|]).
  by apply elem_of_nil in Hp.
Qed.
Lemma space_nonempty p : p ∈ space_encodings → 0 < String.length p.
Proof.
  intros Hp. unfold space_encodings in Hp.
  repeat (apply elem_of_cons in Hp as [->|Hp]; [vm_compute; lia|]). by apply elem_of_nil in Hp.
Qed.

Inductive Spaces : string → Prop :=
  | Spaces_nil : Spaces ""
  | Spaces_cons p s : p ∈ space_encodings → Spaces s → Spaces (p +:+ s).
Lemma str_length_app s1 s2 : String.length (s1 +:+ s2) = String.length s1 + String.length s2.
Proof. induction s1 as [|a s1 IH]; simpl; [done|]. by rewrite IH. Qed.
Lemma drop_str_app p s : drop_str (String.length p) (p +:+ s) = s.
Proof. induction p as [|a p IH]; [by destruct s|exact IH]. Qed.

(** What [trim_left] drops, and that its fuel is enough. *)
Lemma trim_left_spec fuel s :
  String.length s ≤ fuel →
  ∃ w, Spaces w ∧ s = w +:+ trim_left fuel s ∧ leading_space (trim_left fuel s) = None.
Proof.
  revert s. induction fuel as [|fuel IH]; intros s Hlen; simpl.
  - destruct s; simpl in Hlen; [|lia]. exists "". by split; [constructor|].
  - destruct (leading_space s) as [p|] eqn:E; [|exists ""; by split; [constructor|]].
    apply leading_space_Some in E as [Hp Hs%HasPrefix_Some]. pose proof (space_nonempty p Hp).
    destruct (IH (drop_str (String.length p) s)) as (w&Hw&Heq&Hn).
    { rewrite Hs in Hlen. rewrite str_length_app in Hlen. lia. }
    exists (p +:+ w). split_and!; [by constructor| |done]. by rewrite str_app_assoc, <-Heq.
Qed.
Lemma all_space_spec s : all_space s = true ↔ Spaces s.
Proof.
  unfold all_space. rewrite String.eqb_eq. destruct (trim_left_spec (String.length s) s) as (w&Hw&Heq&Hn); [lia|].
  split; [intros E; rewrite E in Heq; rewrite Heq; clear -Hw|].
  - induction Hw; simpl; [constructor|]. rewrite str_app_assoc. by constructor.
  - intros Hs. clear Hw Heq Hn. revert Hs. generalize (le_n (String.length s)). generalize (String.length s) at 2 3.
    intros n Hn Hs. revert n Hn. induction Hs as [|p s Hp Hs IH]; intros n Hn; [by destruct n|].
    pose proof (space_nonempty p Hp). rewrite str_length_app in Hn. destruct n as [|n]; [lia|]. simpl.
    rewrite leading_space_app by done. rewrite drop_str_app. apply IH. lia.
Qed.
Lemma Spaces_app u w : Spaces u → Spaces w → Spaces (u +:+ w).
Proof. induction 1; intros Hw; simpl; [done|]. rewrite str_app_assoc. constructor; auto. Qed.

Lemma trim_right_spec s : ∃ w, Spaces w ∧ s = trim_right s +:+ w.
Proof.
  induction s as [|a s (w&Hw&IH)]; simpl; [exists ""; by split; [constructor|]|].
  destruct (all_space (String a s)) eqn:E; [exists (String a s); by split; [apply all_space_spec|]|].
  exists w. split; [done|]. exact (f_equal (String a) IH).
Qed.
Lemma trim_right_idem s : trim_right (trim_right s) = trim_right s.
Proof.
  induction s as [|a s IH]; [done|]. simpl. destruct (all_space (String a s)) eqn:E; [done|].
  simpl. destruct (all_space (String a (trim_right s))) eqn:E'; [|by rewrite IH].
  destruct (trim_right_spec s) as (w&Hw&Hs). exfalso. apply not_true_iff_false in E. apply E, all_space_spec.
  rewrite Hs. apply (Spaces_app (String a (trim_right s))); [by apply all_space_spec|done].
Qed.

(** Trimming twice trims nothing more. *)
Lemma TrimSpace_idem s : TrimSpace (TrimSpace s) = TrimSpace s.
Proof.
  unfold TrimSpace. destruct (trim_left_spec (String.length s) s) as (_&_&_&Hn); [lia|].
  set (y := trim_left _ s) in *. destruct (trim_right_spec y) as (w&_&Hy).
  assert (leading_space (trim_right y) = None) as Ht.
  { apply leading_space_None. intros p Hp. destruct (HasPrefix (trim_right y) p) eqn:E; [|done].
    apply HasPrefix_Some in E. rewrite leading_space_None in Hn. specialize (Hn p Hp).
    rewrite Hy, E, str_app_assoc, HasPrefix_app in Hn. done. }
  assert (∀ n, trim_left n (trim_right y) = trim_right y) as ->.
  { intros [|n]; simpl; [done|]. by rewrite Ht. }
  apply trim_right_idem.
Qed.

Lemma HasSuffix_app s p : HasSuffix (s +:+ p) p = true.
Proof.
  induction s as [|a s IH].
  { destruct p as [|a p]; [done|].
    change (String.eqb (String a p) (String a p) || HasSuffix p (String a p) = true). by rewrite String.eqb_refl. }
  change (String.eqb (String a (s +:+ p)) p || HasSuffix (s +:+ p) p = true). by rewrite IH, orb_true_r.
Qed.

(** A string that starts with a byte no encoded space starts with is not blank. *)
Lemma TrimSpace_head a s :
  forallb (λ p, negb (HasPrefix p (String a EmptyString))) space_encodings = true →
  TrimSpace (String a s) ≠ "".
Proof.
  intros Ha. assert (leading_space (String a s) = None) as Hl.
  { apply leading_space_None. intros p Hp. pose proof (space_nonempty p Hp). rewrite forallb_forall in Ha.
    apply list_elem_of_In, Ha in Hp. destruct p as [|b p]; [simpl in *; lia|].
    destruct (HasPrefix (String a s) (String b p)) eqn:E; [|done]. apply HasPrefix_Some in E.
    injection E as -> _. 
    pose proof (HasPrefix_app (String b "") p) as Hpre.
    change (String b "" +:+ p) with (String b p) in Hpre. by rewrite Hpre in Hp. }
  assert (∀ n, trim_left n (String a s) = String a s) as Ht by (intros [|n]; [done|simpl; by rewrite Hl]).
  unfold TrimSpace. rewrite Ht. simpl. unfold all_space. by rewrite Ht.
Qed.
