(* ===== verification/GoTime.v ===== *)
(** * Go's package [time]

    Instants, durations and the comparisons the sources use.  Durations are
    nanoseconds in an [int64]. *)
From S2P Require Import Prelude.
Open Scope Z_scope.

(** [time.Time]: the instant and the offset of its zone.  Instants are counted
    in nanoseconds from the zero time, which is the instant 0. *)
Record Time := mkTime { unixNano : Z; zoneOffset : Z }.
#[global] Instance Time_eq_dec : EqDecision Time.
Proof. solve_decision. Defined.

Definition zeroTime : Time := mkTime 0 0.
Definition IsZero (t : Time) : bool := unixNano t =? 0.
Definition UTC (t : Time) : Time := mkTime (unixNano t) 0.
Definition AddDur (t : Time) (d : Z) : Time := mkTime (unixNano t + d) (zoneOffset t).
Definition After (t u : Time) : bool := unixNano u <? unixNano t.
Definition Before (t u : Time) : bool := unixNano t <? unixNano u.
Definition isUTC (t : Time) : bool := zoneOffset t =? 0.

Definition Millisecond : Z := 1000000.
Definition Second : Z := 1000 * Millisecond.
Definition Minute : Z := 60 * Second.
Definition Hour : Z := 60 * Minute.

(** [t.Sub(u)] saturates at the ends of [int64]. *)
Definition maxInt64 : Z := 9223372036854775807.
Definition Sub (t u : Time) : Z := Z.max (- maxInt64 - 1) (Z.min maxInt64 (unixNano t - unixNano u)).

(** Go's [int] increment. *)
Definition int_succ (z : Z) : Z := (z + 1 + (maxInt64 + 1)) mod two64 - (maxInt64 + 1).

Lemma int_succ_nowrap z : - maxInt64 - 1 ≤ z → z < maxInt64 → int_succ z = z + 1.
Proof. unfold int_succ, maxInt64, two64. intros. rewrite Z.mod_small; lia. Qed.
