(* ===== verification/GoHash.v ===== *)
(** * SHA-256 and hexadecimal

    What the sources use of [crypto/sha256] and [encoding/hex]: the digest of a
    byte string as FIPS 180-4 defines it, on 32-bit words kept at their width,
    and lower-case hexadecimal text.  The examples at the end are the standard's
    own test vectors. *)
From S2P Require Import Prelude GoStrings.
From Stdlib Require Import Ascii.
Open Scope Z_scope.

(** ** Words *)

Definition two32 : Z := 4294967296.
Definition w32 (z : Z) : Z := z mod two32.
Definition add32 (a b : Z) : Z := w32 (a + b).
Definition rotr (n x : Z) : Z := Z.lor (Z.shiftr x n) (w32 (Z.shiftl x (32 - n))).
Definition not32 (x : Z) : Z := two32 - 1 - x.

Definition Ch (x y z : Z) : Z := Z.lxor (Z.land x y) (Z.land (not32 x) z).
Definition Maj (x y z : Z) : Z := Z.lxor (Z.lxor (Z.land x y) (Z.land x z)) (Z.land y z).
Definition bigSigma0 (x : Z) : Z := Z.lxor (Z.lxor (rotr 2 x) (rotr 13 x)) (rotr 22 x).
Definition bigSigma1 (x : Z) : Z := Z.lxor (Z.lxor (rotr 6 x) (rotr 11 x)) (rotr 25 x).
Definition smallSigma0 (x : Z) : Z := Z.lxor (Z.lxor (rotr 7 x) (rotr 18 x)) (Z.shiftr x 3).
Definition smallSigma1 (x : Z) : Z := Z.lxor (Z.lxor (rotr 17 x) (rotr 19 x)) (Z.shiftr x 10).

(** The constants are the first 32 fractional bits of the cube roots (the
    rounds) and the square roots (the initial state) of the first primes.
    [root] is the integer [k]-th root, found bit by bit. *)
Definition root (bits : nat) (k n : Z) : Z :=
  foldr (λ i r, let r' := r + Z.shiftl 1 (Z.of_nat i) in if r' ^ k <=? n then r' else r) 0 (seq 0 bits).
Definition fractionBits (k p : Z) : Z := w32 (root 37 k (Z.shiftl p (32 * k))).

Definition prime (n : nat) : bool :=
  forallb (λ d, negb (n mod d =? 0)%nat) (seq 2 (n - 2)).
Definition primes (upto : nat) : list Z := Z.of_nat <$> List.filter prime (seq 2 (upto - 1)).

Definition roundConstants : list Z := Eval vm_compute in fractionBits 3 <$> primes 311.

Record HashState := mkHash { h0 : Z; h1 : Z; h2 : Z; h3 : Z; h4 : Z; h5 : Z; h6 : Z; h7 : Z }.
Definition hashOf (ws : list Z) : HashState :=
  let at_ i := nth i ws 0 in
  mkHash (at_ 0%nat) (at_ 1%nat) (at_ 2%nat) (at_ 3%nat) (at_ 4%nat) (at_ 5%nat) (at_ 6%nat) (at_ 7%nat).
Definition initialHash : HashState := Eval vm_compute in hashOf (fractionBits 2 <$> primes 19).

(** ** Blocks *)

(** The message schedule, newest word first: [rev] of it is the standard's. *)
Definition nextWord (ws : list Z) : Z :=
  let at_ i := nth i ws 0 in
  add32 (add32 (smallSigma1 (at_ 1%nat)) (at_ 6%nat)) (add32 (smallSigma0 (at_ 14%nat)) (at_ 15%nat)).
Fixpoint extend (n : nat) (ws : list Z) : list Z :=
  match n with O => ws | S n => extend n (nextWord ws :: ws) end.
Definition schedule (block : list Z) : list Z := rev (extend 48 (rev block)).

Definition round (s : HashState) (kw : Z * Z) : HashState :=
  let t1 := add32 (add32 (add32 (h7 s) (bigSigma1 (h4 s))) (add32 (Ch (h4 s) (h5 s) (h6 s)) kw.1)) kw.2 in
  let t2 := add32 (bigSigma0 (h0 s)) (Maj (h0 s) (h1 s) (h2 s)) in
  mkHash (add32 t1 t2) (h0 s) (h1 s) (h2 s) (add32 (h3 s) t1) (h4 s) (h5 s) (h6 s).

Definition compress (s : HashState) (block : list Z) : HashState :=
  let r := foldl round s (combine roundConstants (schedule block)) in
  mkHash (add32 (h0 s) (h0 r)) (add32 (h1 s) (h1 r)) (add32 (h2 s) (h2 r)) (add32 (h3 s) (h3 r))
    (add32 (h4 s) (h4 r)) (add32 (h5 s) (h5 r)) (add32 (h6 s) (h6 r)) (add32 (h7 s) (h7 r)).

(** ** Messages of bytes *)

Definition bytesBE (n : nat) (v : Z) : list Z :=
  (λ i, Z.land (Z.shiftr v (8 * Z.of_nat i)) 255) <$> rev (seq 0 n).

Definition padding (n : nat) : list Z :=
  128 :: replicate ((119 - n mod 64) mod 64)%nat 0 ++ bytesBE 8 (8 * Z.of_nat n).

Fixpoint words (bs : list Z) : list Z :=
  match bs with
  | a :: b :: c :: d :: bs => (((a * 256 + b) * 256 + c) * 256 + d) :: words bs
  | _ => []
  end.

Fixpoint blocks (fuel : nat) (ws : list Z) (s : HashState) : HashState :=
  match fuel with
  | O => s
  | S fuel => match ws with [] => s | _ => blocks fuel (drop 16 ws) (compress s (take 16 ws)) end
  end.

(** [sha256.Sum256] *)
Definition Sum256 (message : list Z) : list Z :=
  let ws := words (message ++ padding (length message)) in
  let s := blocks (length ws) ws initialHash in
  bytesBE 4 (h0 s) ++ bytesBE 4 (h1 s) ++ bytesBE 4 (h2 s) ++ bytesBE 4 (h3 s) ++
  bytesBE 4 (h4 s) ++ bytesBE 4 (h5 s) ++ bytesBE 4 (h6 s) ++ bytesBE 4 (h7 s).

(** ** Strings and hexadecimal *)

Fixpoint stringBytes (s : string) : list Z :=
  match s with EmptyString => [] | String a s => Z.of_N (N_of_ascii a) :: stringBytes s end.

Definition hexDigit (n : Z) : ascii :=
  ascii_of_N (Z.to_N (if n <? 10 then 48 + n else 87 + n)).
Fixpoint EncodeToString (bs : list Z) : string :=
  match bs with
  | [] => ""
  | b :: bs => String (hexDigit (Z.land (Z.shiftr b 4) 15)) (String (hexDigit (Z.land b 15)) (EncodeToString bs))
  end.

(** [hex.EncodeToString(sum[:])] of [sha256.Sum256([]byte(s))] *)
Definition hexSum256 (s : string) : string := EncodeToString (Sum256 (stringBytes s)).

(** ** Facts *)

Lemma bytesBE_length n v : length (bytesBE n v) = n.
Proof. unfold bytesBE. by rewrite length_fmap, length_rev, length_seq. Qed.

Lemma Sum256_length m : length (Sum256 m) = 32%nat.
Proof. unfold Sum256. rewrite !length_app, !bytesBE_length. done. Qed.

Lemma EncodeToString_length bs : String.length (EncodeToString bs) = (2 * length bs)%nat.
Proof. induction bs as [|b bs IH]; simpl; [done|]. rewrite IH. lia. Qed.

Lemma hexDigit_lower_hex n : 0 ≤ n < 16 → is_lower_hex (hexDigit n) = true.
Proof.
  intros Hn. assert (n ∈ seqZ 0 16) as Hin by (apply elem_of_seqZ; lia).
  revert n Hin Hn. apply (proj1 (Forall_forall (λ n, 0 ≤ n < 16 → is_lower_hex (hexDigit n) = true) _)).
  repeat (apply Forall_cons; split; [intros _; reflexivity|]). by apply Forall_nil.
Qed.

Lemma land15 z : 0 ≤ Z.land z 15 < 16.
Proof. change 15 with (Z.ones 4). rewrite Z.land_ones by lia. apply Z.mod_pos_bound. lia. Qed.

Lemma EncodeToString_hex bs : str_forall is_lower_hex (EncodeToString bs) = true.
Proof.
  induction bs as [|b bs IH]; simpl; [done|].
  by rewrite !hexDigit_lower_hex, IH by apply land15.
Qed.

Lemma hexSum256_length s : String.length (hexSum256 s) = 64%nat.
Proof. unfold hexSum256. by rewrite EncodeToString_length, Sum256_length. Qed.

Lemma hexSum256_hex s : str_forall is_lower_hex (hexSum256 s) = true.
Proof. apply EncodeToString_hex. Qed.

#[global] Arguments hexSum256 : simpl never.
#[global] Arguments Sum256 : simpl never.

(** ** The test vectors of the standard *)

Example sha256_empty :
  hexSum256 "" = "e3b0c44298fc1c149afbf4c8996fb92427ae41e4649b934ca495991b7852b855".
Proof. vm_compute. reflexivity. Qed.

Example sha256_abc :
  hexSum256 "abc" = "ba7816bf8f01cfea414140de5dae2223b00361a396177a9cb410ff61f20015ad".
Proof. vm_compute. reflexivity. Qed.

Example sha256_two_blocks :
  hexSum256 "abcdbcdecdefdefgefghfghighijhijkijkljklmklmnlmnomnopnopq" =
    "248d6a61d20638b8e5c026930c3e6039a33ce45964ff2167f6ecedd419db06c1".
Proof. vm_compute. reflexivity. Qed.
