(* ===== verification/GoPath.v ===== *)
(** * Go's package [path]

    Slash-separated paths: [Split], [Join], [Clean], [IsAbs], [Dir] and [Base]
    as the standard library documents them, on the elements of a path, and the
    lemmas that relate a clean absolute path to its elements. *)
From Stdlib Require Import Ascii.
From S2P Require Import Prelude GoStrings.

Open Scope list_scope.

Definition slash : ascii := "/".

(** [strings.Split(s, "/")] *)
Fixpoint SplitSlash (s : string) : list string :=
  match s with
  | EmptyString => [EmptyString]
  | String a s =>
      if Ascii.eqb a slash then EmptyString :: SplitSlash s
      else match SplitSlash s with
           | [] => [String a EmptyString]
           | x :: xs => String a x :: xs
           end
  end.

(** [strings.Join(l, "/")] *)
Fixpoint JoinSlash (l : list string) : string :=
  match l with
  | [] => EmptyString
  | [x] => x
  | x :: l => x +:+ String slash (JoinSlash l)
  end.

Definition IsAbs (p : string) : bool :=
  match p with String a _ => Ascii.eqb a slash | EmptyString => false end.

(** One element of [Clean], on the reversed list of the elements kept: an empty
    element and a dot are dropped, a dot-dot drops the element before it, is
    kept at the start of a relative path and dropped at the root. *)
Definition cleanElement (rooted : bool) (kept : list string) (e : string) : list string :=
  if String.eqb e "" || String.eqb e "." then kept
  else if String.eqb e ".." then
    match kept with
    | top :: kept' => if String.eqb top ".." then e :: kept else kept'
    | [] => if rooted then [] else [e]
    end
  else e :: kept.

Definition cleanElements (rooted : bool) (l : list string) : list string :=
  rev (foldl (cleanElement rooted) [] l).

(** [path.Clean] *)
Definition Clean (p : string) : string :=
  let l := cleanElements (IsAbs p) (SplitSlash p) in
  if IsAbs p then String slash (JoinSlash l)
  else if decide (l = []) then "." else JoinSlash l.

(** [path.Join(a, b)] *)
Definition Join (a b : string) : string :=
  match filter (λ e, e ≠ EmptyString) [a; b] with
  | [] => EmptyString
  | l => Clean (JoinSlash l)
  end.

(** [path.Dir]: everything up to the last slash, cleaned. *)
Definition Dir (p : string) : string :=
  match removelast (SplitSlash p) with
  | [] => Clean EmptyString
  | l => Clean (JoinSlash l +:+ String slash EmptyString)
  end.

(** [path.Base]: the last element, trailing slashes dropped. *)
Definition Base (p : string) : string :=
  if String.eqb p EmptyString then "."
  else match last (filter (λ e, e ≠ EmptyString) (SplitSlash p)) with
       | Some e => e
       | None => "/"
       end.

(** [filepath.Rel(base, target)]: the elements of the target after those it
    shares with the base, behind one dot-dot for every element of the base that
    is left.  [None] is its error. *)
Fixpoint relElements (b t : list string) : list string * list string :=
  match b, t with
  | x :: b', y :: t' => if String.eqb x y then relElements b' t' else (b, t)
  | _, _ => (b, t)
  end.
Definition Rel (base target : string) : option string :=
  let parts p := cleanElements (IsAbs p) (SplitSlash p) in
  if negb (Bool.eqb (IsAbs base) (IsAbs target)) then None
  else match relElements (parts base) (parts target) with
       | ([], []) => Some "."
       | (".." :: _, _) => None
       | (b, t) => Some (JoinSlash (map (λ _, "..") b ++ t))
       end.

(** ** Elements *)

(** A name that may be an element of a clean path. *)
Definition noSlash (s : string) : bool := str_forall (λ a, negb (Ascii.eqb a slash)) s.
Definition isName (s : string) : Prop := noSlash s = true ∧ s ≠ "" ∧ s ≠ "." ∧ s ≠ "..".

(** The elements of a path that a clean path keeps. *)
Definition elements (p : string) : list string :=
  filter (λ e, e ≠ "" ∧ e ≠ ".") (SplitSlash p).

Lemma SplitSlash_nonempty s : SplitSlash s ≠ [].
Proof. destruct s as [|a s]; simpl; [done|]. destruct (Ascii.eqb a slash); [done|]. by destruct (SplitSlash s). Qed.

Lemma SplitSlash_noSlash s : Forall (λ e, noSlash e = true) (SplitSlash s).
Proof.
  induction s as [|a s IH]; simpl; [by constructor|].
  destruct (Ascii.eqb a slash) eqn:Ha; [by constructor|].
  destruct (SplitSlash s) as [|x xs]; [constructor; [|done]; unfold noSlash; simpl; by rewrite Ha|].
  inversion IH; subst. constructor; [|done]. unfold noSlash in *. simpl. by rewrite Ha.
Qed.

Lemma SplitSlash_app s r :
  SplitSlash (s +:+ String slash r) = SplitSlash s ++ SplitSlash r.
Proof.
  induction s as [|a s IH]; simpl; [done|]. rewrite IH.
  destruct (Ascii.eqb a slash); [done|]. pose proof (SplitSlash_nonempty s).
  by destruct (SplitSlash s).
Qed.

Lemma SplitSlash_single s : noSlash s = true → SplitSlash s = [s].
Proof.
  unfold noSlash. induction s as [|a s IH]; simpl; [done|].
  intros [Ha%negb_true_iff Hs]%andb_true_iff. by rewrite Ha, IH.
Qed.

Lemma JoinSlash_cons x l : l ≠ [] → JoinSlash (x :: l) = x +:+ String slash (JoinSlash l).
Proof. by destruct l. Qed.

Lemma JoinSlash_app l1 l2 :
  l1 ≠ [] → l2 ≠ [] → JoinSlash (l1 ++ l2) = JoinSlash l1 +:+ String slash (JoinSlash l2).
Proof.
  intros H1 H2. induction l1 as [|x l1 IH]; [done|]. destruct l1 as [|y l1].
  - by apply JoinSlash_cons.
  - rewrite <-app_comm_cons, !JoinSlash_cons by done. rewrite IH by done. by rewrite str_app_assoc.
Qed.

Lemma SplitSlash_Join l : l ≠ [] → Forall (λ e, noSlash e = true) l → SplitSlash (JoinSlash l) = l.
Proof.
  intros Hne Hl. induction Hl as [|x l Hx Hl IH]; [done|]. destruct l as [|y l].
  - by apply SplitSlash_single.
  - rewrite JoinSlash_cons, SplitSlash_app, SplitSlash_single, IH by done. done.
Qed.

Lemma Join_SplitSlash s : JoinSlash (SplitSlash s) = s.
Proof.
  induction s as [|a s IH]; simpl; [done|]. destruct (Ascii.eqb a slash) eqn:Ha.
  - rewrite JoinSlash_cons, IH by apply SplitSlash_nonempty. by apply Ascii.eqb_eq in Ha as ->.
  - pose proof (SplitSlash_nonempty s). destruct (SplitSlash s) as [|x xs]; [done|].
    destruct xs; simpl in *; by rewrite <-IH.
Qed.

(** ** Cleaning an absolute path without dot-dot elements *)

Lemma foldl_clean rooted l kept :
  ".." ∉ l →
  foldl (cleanElement rooted) kept l = rev (filter (λ e, e ≠ "" ∧ e ≠ ".") l) ++ kept.
Proof.
  revert kept. induction l as [|e l IH]; intros kept Hl; simpl; [done|].
  rewrite IH by set_solver. unfold cleanElement.
  destruct (String.eqb_spec e "") as [->|H1]; simpl; [by rewrite filter_cons_False by naive_solver|].
  destruct (String.eqb_spec e ".") as [->|H2]; simpl; [by rewrite filter_cons_False by naive_solver|].
  destruct (String.eqb_spec e "..") as [->|H3]; [set_solver|].
  rewrite filter_cons_True by done. simpl. by rewrite <-(assoc_L (++)).
Qed.

Lemma Clean_abs p :
  IsAbs p = true → ".." ∉ SplitSlash p → Clean p = String slash (JoinSlash (elements p)).
Proof.
  intros Hp Hdd. unfold Clean, cleanElements. rewrite Hp, foldl_clean by done.
  by rewrite (right_id_L [] (++)), rev_involutive.
Qed.

Lemma elements_names p : ".." ∉ SplitSlash p → Forall isName (elements p).
Proof.
  intros Hdd. apply Forall_forall. intros e [[??] He]%list_elem_of_filter.
  pose proof (SplitSlash_noSlash p) as Hn. rewrite Forall_forall in Hn.
  split_and!; [by apply Hn|done..|by intros ->].
Qed.

(** The absolute path of a list of elements. *)
Definition absPath (l : list string) : string := String slash (JoinSlash l).

Lemma absPath_split l : l ≠ [] → Forall isName l → SplitSlash (absPath l) = "" :: l.
Proof.
  intros Hne Hl. unfold absPath. simpl. f_equal. apply SplitSlash_Join; [done|].
  eapply Forall_impl; [done|]. by intros x [? _].
Qed.

Lemma absPath_elements l : l ≠ [] → Forall isName l →
  elements (absPath l) = l ∧ ".." ∉ SplitSlash (absPath l).
Proof.
  intros Hne Hl. unfold elements. rewrite absPath_split by done. split.
  - rewrite filter_cons_False by naive_solver. clear Hne. induction Hl as [|x l [_ [? [? _]]] Hl IH]; [done|].
    rewrite filter_cons_True by done. by rewrite IH.
  - rewrite elem_of_cons. intros [?|Hin]; [done|]. rewrite Forall_forall in Hl.
    by destruct (Hl ".." Hin) as (_&_&_&?).
Qed.

Lemma absPath_inj l1 l2 :
  l1 ≠ [] → l2 ≠ [] → Forall isName l1 → Forall isName l2 → absPath l1 = absPath l2 → l1 = l2.
Proof.
  intros H1 H2 F1 F2 Heq. pose proof (absPath_split l1 H1 F1) as E. rewrite Heq, absPath_split in E by done.
  by injection E.
Qed.

Lemma Clean_absPath l : l ≠ [] → Forall isName l → Clean (absPath l) = absPath l.
Proof.
  intros Hne Hl. destruct (absPath_elements l Hne Hl) as [He Hdd].
  rewrite Clean_abs by done. by rewrite He.
Qed.

(** Appending a name, or a relative path of names, to a clean path. *)
Lemma Join_absPath l r :
  l ≠ [] → Forall isName l → r ≠ [] → Forall isName r → Join (absPath l) (JoinSlash r) = absPath (l ++ r).
Proof.
  intros Hl Fl Hr Fr. unfold Join. rewrite filter_cons_True by done.
  assert (JoinSlash r ≠ "") as Hne.
  { intros E. pose proof (SplitSlash_Join r Hr) as Hs. rewrite E in Hs.
    assert (r = [""]) as ->. { symmetry. apply Hs. eapply Forall_impl; [done|]. by intros x [? _]. }
    inversion Fr as [|?? (_&?&_)]; subst. done. }
  rewrite filter_cons_True by done. rewrite filter_nil. simpl.
  assert (String slash (JoinSlash l +:+ String slash (JoinSlash r)) = absPath (l ++ r)) as E.
  { unfold absPath. by rewrite JoinSlash_app. }
  change (Clean (String slash (JoinSlash l +:+ String slash (JoinSlash r))) = absPath (l ++ r)).
  rewrite E. apply Clean_absPath; [by destruct l|by apply Forall_app].
Qed.

(** A clean path starts with a root and a slash exactly when its elements
    start with those of the root. *)
Lemma absPath_prefix l root rest :
  l ≠ [] → Forall isName l → root ≠ [] → Forall isName root →
  absPath l = absPath root +:+ String slash rest ↔
  ∃ l', l = root ++ l' ∧ l' ≠ [] ∧ rest = JoinSlash l'.
Proof.
  intros Hl Fl Hr Fr. split.
  - intros Heq. pose proof (absPath_split l Hl Fl) as E.
    rewrite Heq, SplitSlash_app, absPath_split in E by done. simpl in E. injection E as E.
    exists (SplitSlash rest). split_and!; [done|apply SplitSlash_nonempty|by rewrite Join_SplitSlash].
  - intros (l'&->&Hne&->). unfold absPath. simpl. by rewrite JoinSlash_app.
Qed.

(** The directory and the last element of a clean path. *)
Lemma Dir_absPath l x : l ≠ [] → Forall isName l → isName x → Dir (absPath (l ++ [x])) = absPath l.
Proof.
  intros Hl Fl Hx. unfold Dir. rewrite absPath_split; [|by destruct l|apply Forall_app; auto].
  rewrite app_comm_cons, removelast_last. destruct l as [|y l]; [done|].
  change (JoinSlash ("" :: y :: l)) with (absPath (y :: l)).
  pose proof (absPath_split (y :: l) Hl Fl) as Hs. destruct (absPath_elements _ Hl Fl) as [He Hdd].
  rewrite Clean_abs; [|done|].
  - unfold elements. rewrite SplitSlash_app, filter_app. fold (elements (absPath (y :: l))). rewrite He.
    simpl. by rewrite filter_cons_False, filter_nil, (right_id_L [] (++)) by naive_solver.
  - rewrite SplitSlash_app, elem_of_app. intros [?|Hin]; [done|]. apply list_elem_of_singleton in Hin. done.
Qed.
Lemma Base_absPath l x : Forall isName l → isName x → Base (absPath (l ++ [x])) = x.
Proof.
  intros Fl Hx. unfold Base. change (String.eqb (absPath (l ++ [x])) "") with false. cbv iota.
  rewrite absPath_split; [|by destruct l|apply Forall_app; auto].
  rewrite app_comm_cons, filter_app, (filter_cons_True _ x) by (by destruct Hx as (_&?&_)).
  by rewrite filter_nil, last_snoc.
Qed.

(** Cleaning any absolute path gives a path of names, or the root. *)
Lemma foldl_clean_names l kept :
  Forall (λ e, noSlash e = true) l → Forall isName kept → Forall isName (foldl (cleanElement true) kept l).
Proof.
  intros Hl. revert kept. induction Hl as [|e l He Hl IH]; intros kept Hk; [done|]. simpl. apply IH.
  unfold cleanElement. destruct (String.eqb_spec e "") as [|H1]; [done|].
  destruct (String.eqb_spec e ".") as [|H2]; [done|]. simpl.
  destruct (String.eqb_spec e "..") as [->|H3]; [|by constructor].
  destruct Hk as [|top kept (Ht&_&_&Hd) Hk]; [done|]. by apply String.eqb_neq in Hd as ->.
Qed.
Lemma Clean_names p :
  IsAbs p = true → ∃ l, Clean p = absPath l ∧ Forall isName l.
Proof.
  intros Hp. unfold Clean. rewrite Hp. exists (cleanElements true (SplitSlash p)). split; [done|].
  unfold cleanElements. apply Forall_rev, foldl_clean_names; [apply SplitSlash_noSlash|done].
Qed.
Lemma absPath_cleanElements l :
  l ≠ [] → Forall isName l → cleanElements true (SplitSlash (absPath l)) = l.
Proof.
  intros Hne Hl. destruct (absPath_elements l Hne Hl) as [He Hdd]. unfold cleanElements.
  rewrite foldl_clean by done. fold (elements (absPath l)). by rewrite He, (right_id_L [] (++)), rev_involutive.
Qed.
