(* ===== verification/GoRunes.v ===== *)
(** * UTF-8

    [utf8.DecodeRuneInString] and the runes of a string: an invalid byte is the
    rune U+FFFD of width one. *)
From Stdlib Require Import Ascii.
From S2P Require Import Prelude GoStrings.

Open Scope list_scope.

(** A rune with the bytes it was decoded from. *)
Definition Tok : Type := N * string.

Definition RuneError : N := 65533.

Definition cont (lo hi : N) (a : ascii) : bool := in_range lo hi a.

(** The bounds of the second byte of a multi-byte sequence. *)
Definition second_bounds (b0 : N) : N * N :=
  if (b0 =? 224)%N then (160, 191)%N
  else if (b0 =? 237)%N then (128, 159)%N
  else if (b0 =? 240)%N then (144, 191)%N
  else if (b0 =? 244)%N then (128, 143)%N
  else (128, 191)%N.

(** [utf8.DecodeRuneInString] on a non-empty string: the rune and its width. *)
Definition DecodeRune (a : ascii) (s : string) : N * nat :=
  let b0 := byte_of a in
  let '(lo, hi) := second_bounds b0 in
  let bits a := N.land (byte_of a) 63 in
  if (b0 <? 128)%N then (b0, 1)
  else if in_range 194 223 a then
    match s with
    | String b _ => if cont 128 191 b then ((N.land b0 31 * 64 + bits b)%N, 2) else (RuneError, 1)
    | _ => (RuneError, 1)
    end
  else if in_range 224 239 a then
    match s with
    | String b (String c _) =>
        if cont lo hi b && cont 128 191 c
        then (((N.land b0 15 * 64 + bits b) * 64 + bits c)%N, 3) else (RuneError, 1)
    | _ => (RuneError, 1)
    end
  else if in_range 240 244 a then
    match s with
    | String b (String c (String d _)) =>
        if cont lo hi b && cont 128 191 c && cont 128 191 d
        then ((((N.land b0 7 * 64 + bits b) * 64 + bits c) * 64 + bits d)%N, 4) else (RuneError, 1)
    | _ => (RuneError, 1)
    end
  else (RuneError, 1).

(** The runes of a string; each step drops at least one byte, so the length
    of the string is enough fuel. *)
Fixpoint runes_go (fuel : nat) (s : string) : list Tok :=
  match fuel, s with
  | S fuel, String a rest =>
      let '(r, w) := DecodeRune a rest in
      (r, take_str w s) :: runes_go fuel (drop_str w s)
  | _, _ => []
  end.
Definition runes (s : string) : list Tok := runes_go (String.length s) s.
Definition text (ts : list Tok) : string := foldr (λ t s, t.2 +:+ s) EmptyString ts.
(** [utf8.ValidString] *)
Definition ValidString (s : string) : bool :=
  forallb (λ t : Tok, negb ((t.1 =? RuneError)%N && (String.length t.2 =? 1)%nat)) (runes s).

Lemma take_drop_str n s : take_str n s +:+ drop_str n s = s.
Proof. revert n. induction s as [|a s IH]; intros [|n]; simpl; [done..|].
  exact (f_equal (String a) (IH n)). Qed.

Lemma DecodeRune_width a s : (1 ≤ (DecodeRune a s).2)%nat.
Proof. unfold DecodeRune. destruct (second_bounds _). repeat (case_match; simpl; try lia). Qed.

Lemma drop_str_length n s : String.length (drop_str n s) = (String.length s - n)%nat.
Proof. revert n. induction s as [|a s IH]; intros [|n]; simpl; done || apply IH. Qed.

(** Splitting a string into runes loses no byte. *)
Lemma text_runes s : text (runes s) = s.
Proof.
  unfold runes. assert (String.length s ≤ String.length s)%nat as Hf by lia. revert Hf.
  generalize (String.length s) at 2 3 as fuel. intros fuel. revert s.
  induction fuel as [|fuel IH]; intros [|a s] Hf; simpl in *; [done|lia|done|].
  pose proof (DecodeRune_width a s) as Hw. destruct (DecodeRune a s) as [r w]; simpl in *.
  rewrite IH; [apply take_drop_str|]. rewrite drop_str_length. simpl. lia.
Qed.
