(* ===== verification/Redact.v ===== *)
(** * Redaction of control-plane material

    [internal/audit/audit.go]: the deterministic patterns that strip what the
    core minted itself from audit details and status strings.  The patterns
    are syntax trees of a small regular expression type; the matcher is the
    backtracking one whose choices Go's [regexp] package reproduces
    (leftmost match, first alternative, greedy repetition) over the runes of
    the UTF-8 string, an invalid byte being the rune U+FFFD of width one. *)
From Stdlib Require Import Ascii.
From S2P Require Import Prelude GoStrings GoRunes.

Open Scope list_scope.

(** ** Regular expressions *)

Inductive regex :=
  | REps
  | RChar (f : N → bool)
  | RSeq (r1 r2 : regex)
  | RAlt (r1 r2 : regex)
  | RMany (f : N → bool)   (** a greedy [class*] *)
  | RWordB                 (** [\b] *)
  | RStart.                (** [^] without the multi-line flag *)

Definition rune (a : ascii) : N := N_of_ascii a.
Definition between (lo hi : ascii) (c : N) : bool := (rune lo <=? c)%N && (c <=? rune hi)%N.
Definition oneOf (s : string) (c : N) : bool := str_exists (λ a, (rune a =? c)%N) s.

(** The ASCII word class of [\b], and [\s]. *)
Definition isWord (c : N) : bool :=
  between "0" "9" c || between "A" "Z" c || between "a" "z" c || (c =? 95)%N.
Definition isSpace (c : N) : bool := existsb (N.eqb c) [9; 10; 12; 13; 32]%N.

Section matcher.
Context {A : Type}.

(** A greedy repetition of a class, longest first. *)
Fixpoint many (f : N → bool) (k : option N → list Tok → option A) (prev : option N) (ts : list Tok)
    : option A :=
  match ts with
  | t :: ts' =>
      if f t.1 then
        match many f k (Some t.1) ts' with
        | Some x => Some x
        | None => k prev ts
        end
      else k prev ts
  | [] => k prev ts
  end.

Definition wordBoundary (prev : option N) (ts : list Tok) : bool :=
  xorb (match prev with Some c => isWord c | None => false end)
       (match ts with t :: _ => isWord t.1 | [] => false end).

(** Match [r] at the current position and continue with [k]. *)
Fixpoint rmatch (r : regex) (k : option N → list Tok → option A) (prev : option N) (ts : list Tok)
    : option A :=
  match r with
  | REps => k prev ts
  | RChar f => match ts with t :: ts' => if f t.1 then k (Some t.1) ts' else None | [] => None end
  | RSeq r1 r2 => rmatch r1 (rmatch r2 k) prev ts
  | RAlt r1 r2 => match rmatch r1 k prev ts with Some x => Some x | None => rmatch r2 k prev ts end
  | RMany f => many f k prev ts
  | RWordB => if wordBoundary prev ts then k prev ts else None
  | RStart => match prev with None => k prev ts | Some _ => None end
  end.
End matcher.

(** A compiled pattern: the part before the end of capture group 1, the part
    after it, and the replacement template as the text put after the text of
    the group ([keep] tells whether the template begins with [${1}]). *)
Record Replacer := mkReplacer { rp_group : regex; rp_rest : regex; rp_keep : bool; rp_text : string }.

(** The match at a position: the text that replaces it, the last rune
    consumed and the runes after it. *)
Definition matchAt (p : Replacer) (prev : option N) (ts : list Tok) : option (string * option N * list Tok) :=
  rmatch (rp_group p)
    (λ prev1 ts1, rmatch (rp_rest p)
      (λ prev2 ts2,
        let group := text (take (length ts - length ts1) ts) in
        Some ((if rp_keep p then group else EmptyString) +:+ rp_text p, prev2, ts2)) prev1 ts1) prev ts.

(** [ReplaceAllString]; no pattern below matches the empty string, so the
    number of runes is enough fuel. *)
Fixpoint replaceFrom (fuel : nat) (p : Replacer) (prev : option N) (ts : list Tok) : string :=
  match fuel, ts with
  | S fuel, t :: ts' =>
      match matchAt p prev ts with
      | Some (out, prev', ts'') => out +:+ replaceFrom fuel p prev' ts''
      | None => t.2 +:+ replaceFrom fuel p (Some t.1) ts'
      end
  | _, _ => text ts
  end.

Definition ReplaceAllString (p : Replacer) (s : string) : string :=
  let ts := runes s in replaceFrom (length ts) p None ts.

(** ** The patterns of [audit.go] *)

(** [(?i)]: a letter matches its simple case folds, among them U+017F for [s]
    and U+212A for [k]. *)
Definition toLower (c : N) : N := if between "A" "Z" c then (c + 32)%N else c.
Definition fold (c : N) : N :=
  if (c =? 383)%N then rune "s" else if (c =? 8490)%N then rune "k" else toLower c.
Definition foldChar (a : ascii) : regex := RChar (λ c, (fold c =? fold (rune a))%N).
Definition exactChar (a : ascii) : regex := RChar (λ c, (c =? rune a)%N).

Fixpoint lit (ch : ascii → regex) (s : string) : regex :=
  match s with EmptyString => REps | String a s => RSeq (ch a) (lit ch s) end.
Definition ilit : string → regex := lit foldChar.
Definition xlit : string → regex := lit exactChar.

Definition seqs (rs : list regex) : regex := foldr RSeq REps rs.
Fixpoint alts (r : regex) (rs : list regex) : regex :=
  match rs with [] => r | r' :: rs => RAlt r (alts r' rs) end.
Definition opt (r : regex) : regex := RAlt r REps.
Definition plus (f : N → bool) : regex := RSeq (RChar f) (RMany f).
Definition atLeast (n : nat) (f : N → bool) : regex := RSeq (seqs (replicate n (RChar f))) (RMany f).

Definition quote : ascii := ascii_of_N 34.
Definition backslash : ascii := ascii_of_N 92.

(** [[A-Z0-9_]] under [(?i)]. *)
Definition nameClass (c : N) : bool :=
  between "a" "z" (fold c) || between "0" "9" c || (c =? 95)%N.
Definition spaces : regex := RMany isSpace.
Definition assign : regex := RChar (oneOf ":=").
(** [[^\s&;]+] *)
Definition valueText : regex := plus (λ c, negb (isSpace c || oneOf "&;" c)).
Definition lowerHexClass (c : N) : bool := between "0" "9" c || between "a" "f" c.
Definition anyHexClass (c : N) : bool := between "0" "9" c || between "a" "f" (fold c).

Definition plain (r : regex) (t : string) : Replacer := mkReplacer REps r false t.

Definition secretName : regex := RSeq (ilit "HIDEOUT_SECRET_") (RMany nameClass).

Definition hideoutSecretNameRE : regex := seqs [RWordB; secretName; RWordB].
Definition hideoutSecretAssignmentRE : regex := seqs [RWordB; secretName; spaces; assign; spaces; valueText].
Definition hideoutSecretJSONRE : regex :=
  seqs [exactChar quote; secretName; exactChar quote; spaces; exactChar ":"; spaces; exactChar quote;
        RMany (λ c, negb (c =? rune quote)%N); exactChar quote].
Definition setupSecretAssignmentRE : regex :=
  seqs [RWordB;
        alts (ilit "setupPrivateKey")
          [ilit "setupToken"; ilit "setupCredential"; ilit "rootControlSSH"; ilit "rootControlSSHConfig"];
        spaces; assign; spaces; valueText].
Definition controlPlaneTokenRE : regex :=
  seqs [RWordB; alts (xlit "cap") [xlit "ui"; xlit "claim"]; exactChar "_"; atLeast 16 lowerHexClass; RWordB].
Definition slash : regex := RChar (λ c, (c =? rune "/")%N || (c =? rune backslash)%N).
(** The class as written is [[^\\s\QUOTE']]: everything but a backslash, the
    letter [s], a double quote and an apostrophe. *)
Definition objectClass (c : N) : bool :=
  negb ((c =? rune backslash)%N || (c =? rune "s")%N || (c =? rune quote)%N || (c =? rune "'")%N).
Definition hostFSOverlayObjectPathRE : regex :=
  seqs [RAlt RStart slash; xlit "hostfs-overlay"; slash; xlit "objects"; slash; plus objectClass].
Definition dashClass : regex := opt (RChar (oneOf "-_ ")).
Definition machineIDPrefix : regex :=
  seqs [RWordB; opt (RSeq (ilit "guest") dashClass); ilit "machine"; dashClass; ilit "id";
        spaces; RAlt (RChar (oneOf ":=")) (plus isSpace); spaces].
Definition machineIDValue : regex := RSeq (seqs (replicate 32 (RChar anyHexClass))) RWordB.

Definition quoted (s : string) : string := String quote s +:+ String quote EmptyString.

(** The seven replacements, in order. *)
Definition passes : list Replacer :=
  [ plain hideoutSecretJSONRE (quoted "HIDEOUT_*" +:+ ":" +:+ quoted "REDACTED");
    plain hideoutSecretAssignmentRE "HIDEOUT_*=REDACTED";
    plain hideoutSecretNameRE "HIDEOUT_*";
    plain setupSecretAssignmentRE "setupCredential=REDACTED";
    plain controlPlaneTokenRE "REDACTED";
    plain hostFSOverlayObjectPathRE "/hostfs-overlay/objects/REDACTED";
    mkReplacer machineIDPrefix machineIDValue true "REDACTED" ].

Definition RedactString (s : string) : string := foldl (λ s p, ReplaceAllString p s) s passes.
Definition RedactKey (key : string) : string := ReplaceAllString (plain hideoutSecretNameRE "HIDEOUT_*") key.

#[global] Arguments RedactString : simpl never.

(** ** Details *)

Definition controlPlaneKeys : list string :=
  ["capabilitytoken"; "brokertoken"; "uitoken"; "managertoken"; "setupcredential"; "setupcredentialpath";
   "setupidentityprivatekey"; "setupprivatekey"; "setuptoken"; "rootcontrolssh"; "rootcontrolsshconfig";
   "claimtoken"; "tokenhash"; "overlayobject"; "overlayobjectpath"; "contentobject"].

(** [strings.ToLower] followed by the filter on [a-z0-9]: the only runes
    outside ASCII whose lower case is in the filter are U+212A and U+0130
    (whose lower case is [i]). *)
Definition lowerRune (c : N) : N :=
  if (c =? 8490)%N then rune "k" else if (c =? 304)%N then rune "i" else toLower c.
Definition normalizeKey (key : string) : string :=
  bytes (List.filter (λ c, between "a" "z" c || between "0" "9" c) (lowerRune ∘ fst <$> runes key)).

Definition isControlPlaneKey (key : string) : bool :=
  let normalized := normalizeKey key in
  if String.eqb normalized EmptyString then false
  else if String.eqb normalized "machineid" || String.eqb normalized "guestmachineid" then true
  else if HasPrefix normalized "hideoutsecret" then true
  else existsb (String.eqb normalized) controlPlaneKeys.

(** The dynamic values of [map[string]any]: a map is the list of its entries
    in the order the [range] loop visits them; a redacted map is the list of
    the assignments the loop makes. *)
Inductive Value :=
  | VString (s : string)
  | VStrings (l : list string)
  | VList (l : list Value)
  | VMap (m : list (string * Value))
  | VStringMap (m : list (string * string))
  | VOther (n : Z).

Definition RedactArgv (argv : list string) : list string := RedactString <$> argv.

(** [RedactValue]; an [[]any] of strings goes through [RedactArgv], which is
    [RedactValue] with an empty key on each item. *)
Fixpoint RedactValue (key : string) (value : Value) : Value :=
  if isControlPlaneKey key then VString "REDACTED"
  else match value with
       | VString v => VString (RedactString v)
       | VStrings v => VStrings (RedactArgv v)
       | VList v => VList (map (RedactValue EmptyString) v)
       | VMap v => VMap (map (λ '(k, x), (RedactKey k, RedactValue k x)) v)
       | VStringMap v =>
           VStringMap (map (λ '(k, x), (RedactKey k,
             if isControlPlaneKey k then "REDACTED" else RedactString x)) v)
       | VOther _ => value
       end.
Definition RedactDetails (m : list (string * Value)) : list (string * Value) :=
  map (λ '(k, x), (RedactKey k, RedactValue k x)) m.

(** ** Lemmas *)

(** Can a match of [r] consume nothing, and which rune can it start with? *)
Fixpoint nullable (r : regex) : bool :=
  match r with
  | RChar _ => false
  | RSeq r1 r2 => nullable r1 && nullable r2
  | RAlt r1 r2 => nullable r1 || nullable r2
  | _ => true
  end.
Fixpoint starts (r : regex) (c : N) : bool :=
  match r with
  | RChar f | RMany f => f c
  | RSeq r1 r2 => starts r1 c || (nullable r1 && starts r2 c)
  | RAlt r1 r2 => starts r1 c || starts r2 c
  | REps | RWordB | RStart => false
  end.

Definition startsWith (r : regex) (ts : list Tok) : Prop :=
  ∃ t ts', ts = t :: ts' ∧ starts r t.1 = true.

Lemma many_starts {A} f (k : option N → list Tok → option A) prev ts x :
  many f k prev ts = Some x → startsWith (RMany f) ts ∨ k prev ts = Some x.
Proof.
  destruct ts as [|t ts]; simpl; [by right|]. destruct (f t.1) eqn:Hf; [|by right].
  intros _. left. by exists t, ts.
Qed.

Lemma rmatch_starts {A} r (k : option N → list Tok → option A) prev ts x :
  rmatch r k prev ts = Some x →
  startsWith r ts ∨ (nullable r = true ∧ ∃ prev', k prev' ts = Some x).
Proof.
  unfold startsWith.
  revert k prev x. induction r as [|f|r1 IH1 r2 IH2|r1 IH1 r2 IH2|f| |]; intros k prev x; simpl; intros Hm.
  - eauto.
  - destruct ts as [|t ts]; [done|]. destruct (f t.1) eqn:Hf; [|done]. left; eauto.
  - destruct (IH1 _ _ _ Hm) as [(t&ts'&->&Ht)|(->&prev'&Hm')]; [left; exists t, ts'; by rewrite Ht|].
    destruct (IH2 _ _ _ Hm') as [(t&ts'&->&Ht)|(->&?)]; [|eauto].
    left. exists t, ts'. by rewrite Ht, orb_true_r.
  - destruct (rmatch r1 k prev ts) as [y|] eqn:H1.
    + simplify_eq. destruct (IH1 _ _ _ H1) as [(t&ts'&->&Ht)|(->&?)]; [|eauto].
      left; exists t, ts'; by rewrite Ht.
    + destruct (IH2 _ _ _ Hm) as [(t&ts'&->&Ht)|(->&?)]; [left; exists t, ts'; by rewrite Ht, orb_true_r|].
      right. rewrite orb_true_r. eauto.
  - destruct (many_starts _ _ _ _ _ Hm) as [?|?]; [by left|eauto].
  - destruct (wordBoundary prev ts); [eauto|done].
  - destruct prev; [done|eauto].
Qed.

(** A pattern that consumes something leaves a text alone in which no rune
    can start a match. *)
Lemma replaceFrom_none p fuel prev ts :
  nullable (rp_group p) && nullable (rp_rest p) = false →
  Forall (λ t, starts (RSeq (rp_group p) (rp_rest p)) t.1 = false) ts →
  replaceFrom fuel p prev ts = text ts.
Proof.
  intros Hnull. revert prev ts. induction fuel as [|fuel IH]; intros prev ts Hall; [done|].
  destruct Hall as [|t ts Ht Hall]; [done|]. simpl.
  destruct (matchAt p prev (t :: ts)) as [[[out prev'] ts'']|] eqn:Hm; [|by rewrite IH].
  exfalso. simpl in Ht. apply orb_false_iff in Ht as [Ht1 Ht2].
  apply rmatch_starts in Hm as [(t'&ts'&[= <- <-]&?)|(Hn&prev1&Hm)]; [congruence|].
  rewrite Hn in *; simpl in *. apply rmatch_starts in Hm as [(t'&ts'&[= <- <-]&?)|(?&_)]; congruence.
Qed.

Lemma ReplaceAll_none p s :
  nullable (rp_group p) && nullable (rp_rest p) = false →
  Forall (λ t, starts (RSeq (rp_group p) (rp_rest p)) t.1 = false) (runes s) →
  ReplaceAllString p s = s.
Proof. intros ??. unfold ReplaceAllString. rewrite replaceFrom_none by done. apply text_runes. Qed.

(** *** Runes of ASCII text *)

Definition is_ascii (a : ascii) : bool := (byte_of a <? 128)%N.
Fixpoint asciiRunes (s : string) : list Tok :=
  match s with EmptyString => [] | String a s => (rune a, String a EmptyString) :: asciiRunes s end.

Lemma runes_ascii s : str_forall is_ascii s = true → runes s = asciiRunes s.
Proof.
  unfold runes. induction s as [|a s IH]; simpl; [done|]. intros [Ha Hs]%andb_true_iff.
  unfold DecodeRune. unfold is_ascii in Ha. rewrite Ha. destruct (second_bounds _). simpl.
  by rewrite IH.
Qed.

Lemma asciiRunes_app s1 s2 : asciiRunes (s1 +:+ s2) = asciiRunes s1 ++ asciiRunes s2.
Proof.
  induction s1 as [|a s1 IH]; [done|]. change (String a s1 +:+ s2) with (String a (s1 +:+ s2)).
  simpl. by rewrite IH.
Qed.

Lemma asciiRunes_length s : length (asciiRunes s) = String.length s.
Proof. induction s; simpl; auto. Qed.

Lemma asciiRunes_Forall (P : N → Prop) f s :
  (∀ a, f a = true → P (rune a)) → str_forall f s = true → Forall (λ t, P t.1) (asciiRunes s).
Proof.
  intros HP. induction s as [|a s IH]; simpl; [constructor|]. intros [Ha Hs]%andb_true_iff.
  constructor; [by apply HP|by apply IH].
Qed.

(** *** Repetitions of a class *)

Lemma many_last {A} f (k : option N → list Tok → option A) c ts :
  Forall (λ t, f t.1 = true) ts → f c = true →
  ∃ c', f c' = true ∧ (many f k (Some c) ts = k (Some c') [] ∨ k (Some c') [] = None).
Proof.
  intros Hall. revert c. induction Hall as [|t ts Ht Hall IH]; intros c Hc; simpl; [eauto|].
  destruct (IH t.1 Ht) as (c'&Hc'&[Hm|Hm]); exists c'; split; auto. rewrite Ht, Hm.
  destruct (k (Some c') []); auto.
Qed.

Lemma replicate_all {A} f n (k : option N → list Tok → option A) prev ts :
  Forall (λ t, f t.1 = true) ts → (n ≤ length ts)%nat →
  (∃ c, prev = Some c ∧ f c = true) ∨ (0 < n)%nat →
  ∃ c, f c = true ∧ rmatch (seqs (replicate n (RChar f))) k prev ts = k (Some c) (drop n ts).
Proof.
  intros Hall. revert prev ts Hall. induction n as [|n IH]; intros prev ts Hall Hlen Hp.
  - destruct Hp as [(c&->&Hc)|]; [|lia]. exists c. done.
  - destruct Hall as [|t ts Ht Hall]; simpl in *; [lia|]. rewrite Ht. apply IH; [done|lia|]. left; eauto.
Qed.

(** *** Tokens minted by the core *)

Definition tokenPrefix (p : string) : Prop := p = "cap_" ∨ p = "ui_" ∨ p = "claim_".

Lemma lower_hex_cases a : is_lower_hex a = true → between "0" "9" (rune a) = true ∨ between "a" "f" (rune a) = true.
Proof. intros [?|?]%orb_true_iff; [by left|by right]. Qed.

Ltac by_ascii := intros [[] [] [] [] [] [] [] []]; vm_compute; intros ?; congruence.

(** No rune of a minted token starts a match of the first four passes. *)
Definition tokenRune (a : ascii) : bool :=
  is_lower_hex a || str_exists (Ascii.eqb a) "cap_uilm".

Lemma tokenRune_quiet p a :
  p ∈ take 4 passes → tokenRune a = true → starts (RSeq (rp_group p) (rp_rest p)) (rune a) = false.
Proof.
  intros Hp. revert a. simpl in Hp. repeat (apply elem_of_cons in Hp as [->|Hp]; [by_ascii|]).
  by apply elem_of_nil in Hp.
Qed.

Lemma token_ascii a : tokenRune a = true → is_ascii a = true.
Proof. revert a. by_ascii. Qed.

Lemma tokenRune_hex a : is_lower_hex a = true → tokenRune a = true.
Proof. unfold tokenRune. by intros ->. Qed.

Lemma str_forall_imp f g s : (∀ a, f a = true → g a = true) → str_forall f s = true → str_forall g s = true.
Proof.
  intros Himp. induction s as [|a s IH]; simpl; [done|]. intros [??]%andb_true_iff.
  apply andb_true_iff. auto.
Qed.

Lemma token_runes pre h :
  tokenPrefix pre → str_forall is_lower_hex h = true → str_forall tokenRune (pre +:+ h) = true.
Proof.
  intros Hp Hh. rewrite str_forall_app. apply andb_true_iff. split.
  - by destruct Hp as [->|[->| ->]].
  - eapply str_forall_imp; [apply tokenRune_hex|done].
Qed.

Lemma token_quiet p s : p ∈ take 4 passes → str_forall tokenRune s = true → ReplaceAllString p s = s.
Proof.
  intros Hp Hs. apply ReplaceAll_none.
  - simpl in Hp. repeat (apply elem_of_cons in Hp as [->|Hp]; [done|]). by apply elem_of_nil in Hp.
  - rewrite runes_ascii by (eapply str_forall_imp; [apply token_ascii|done]).
    eapply (asciiRunes_Forall (λ c, starts _ c = false)); [|done]. intros a. by apply tokenRune_quiet.
Qed.

Lemma hexTail {A} (k : option N → list Tok → option A) prev h :
  str_forall is_lower_hex h = true → (16 ≤ String.length h)%nat →
  ∃ c, rmatch (RSeq (atLeast 16 lowerHexClass) (RSeq RWordB REps)) k prev (asciiRunes h) = k (Some c) [] ∨
       k (Some c) [] = None.
Proof.
  intros Hh Hlen.
  assert (Forall (λ t, lowerHexClass t.1 = true) (asciiRunes h)) as Hall.
  { eapply (asciiRunes_Forall (λ c, lowerHexClass c = true)); [|done]. by_ascii. }
  assert (∀ c, lowerHexClass c = true → isWord c = true) as Hword.
  { unfold lowerHexClass, isWord. intros c [Hc|Hc]%orb_true_iff; rewrite Hc || idtac; [done|].
    assert (between "a" "z" c = true) as ->; [|by rewrite !orb_true_r].
    unfold between in *. simpl in *. apply andb_true_iff in Hc as [? Hf%N.leb_le]. apply andb_true_iff.
    split; [done|]. apply N.leb_le. etrans; [exact Hf|]. by vm_compute. }
  destruct (replicate_all lowerHexClass 16
    (many lowerHexClass (λ prev ts, if wordBoundary prev ts then k prev ts else None)) prev _ Hall)
    as (c&Hc&Heq); [by rewrite asciiRunes_length|right; lia|].
  cbn [rmatch atLeast]. unfold atLeast. cbn [rmatch]. setoid_rewrite Heq. set (ts := drop 16 (asciiRunes h)) in *.
  destruct (many_last lowerHexClass (λ prev ts, if wordBoundary prev ts then k prev ts else None) c ts)
    as (c'&Hc'&Hm); [by apply Forall_drop|done|]. exists c'.
  unfold wordBoundary in Hm. rewrite (Hword c' Hc') in Hm. done.
Qed.

Lemma replaceFrom_whole p ts out prev' :
  ts ≠ [] → matchAt p None ts = Some (out, prev', []) → replaceFrom (length ts) p None ts = out.
Proof.
  destruct ts as [|t ts]; [done|]. intros _ Hm. simpl length. cbn [replaceFrom]. rewrite Hm.
  assert (replaceFrom (length ts) p prev' [] = EmptyString) as -> by (by destruct (length ts)).
  clear Hm. induction out as [|a out IH]; [done|]. exact (f_equal (String a) IH).
Qed.

Lemma prefix_match {A} (k : option N → list Tok → option A) X pre ts x :
  tokenPrefix pre → rmatch X k (Some (rune "_")) ts = Some x →
  rmatch (seqs [RWordB; alts (xlit "cap") [xlit "ui"; xlit "claim"]; exactChar "_"; X]) k None
    (asciiRunes pre ++ ts) = Some x.
Proof.
  intros Hpre Hx.
  assert (rmatch (RSeq X REps) k (Some (rune "_")) ts = Some x) as Hx' by done.
  unfold seqs. cbn [foldr]. revert Hx'. generalize (RSeq X REps) as Y. intros Y Hy.
  destruct Hpre as [->|[->| ->]]; vm_compute; vm_compute in Hy; by rewrite Hy.
Qed.

Lemma token_pass pre h :
  tokenPrefix pre → str_forall is_lower_hex h = true → (16 ≤ String.length h)%nat →
  ReplaceAllString (plain controlPlaneTokenRE "REDACTED") (pre +:+ h) = "REDACTED".
Proof.
  intros Hpre Hh Hlen. pose proof (token_runes pre h Hpre Hh) as Hall. unfold ReplaceAllString.
  rewrite runes_ascii by (eapply str_forall_imp; [apply token_ascii|done]). rewrite asciiRunes_app.
  set (k := λ (prev2 : option N) (ts2 : list Tok), Some ("REDACTED", prev2, ts2)).
  destruct (hexTail k (Some (rune "_")) h Hh Hlen) as (c&[Hc|]); [|done].
  erewrite replaceFrom_whole; [done| |].
  - by destruct Hpre as [->|[->| ->]].
  - exact (prefix_match k (RSeq (atLeast 16 lowerHexClass) (RSeq RWordB REps)) pre _ _ Hpre Hc).
Qed.

Lemma RedactString_unfold s :
  RedactString s = foldl (λ s p, ReplaceAllString p s)
    (foldl (λ s p, ReplaceAllString p s) s (take 4 passes)) (drop 4 passes).
Proof. done. Qed.

Lemma tokens_quiet l s :
  l ⊆ take 4 passes → str_forall tokenRune s = true → foldl (λ s p, ReplaceAllString p s) s l = s.
Proof.
  intros Hl Hs. induction l as [|p l IH]; simpl; [done|].
  rewrite token_quiet by set_solver. apply IH. set_solver.
Qed.

Lemma token_redacted pre h :
  tokenPrefix pre → str_forall is_lower_hex h = true → (16 ≤ String.length h)%nat →
  RedactString (pre +:+ h) = "REDACTED".
Proof.
  intros Hpre Hh Hlen. pose proof (token_runes pre h Hpre Hh) as Hall. rewrite RedactString_unfold.
  assert (foldl (λ s p, ReplaceAllString p s) (pre +:+ h) (take 4 passes) = pre +:+ h) as ->.
  { by apply tokens_quiet. }
  simpl drop. cbn [foldl]. rewrite token_pass by done. vm_compute. done.
Qed.

(** Every control-plane token the core mints (a [cap_], [ui_] or [claim_]
    prefix and at least sixteen lower-case hexadecimal digits) that is recorded
    as a value is replaced as a whole: nothing of the token survives, under whichever field name. *)
Theorem minted_tokens_redacted key pre h :
  tokenPrefix pre → str_forall is_lower_hex h = true → (16 ≤ String.length h)%nat →
  RedactValue key (VString (pre +:+ h)) = VString "REDACTED".
Proof. intros. simpl. destruct (isControlPlaneKey key); [done|]. by rewrite token_redacted.
Qed.

Lemma minted_tokens_redacted_witness :
  RedactValue "value" (VString "cap_0123456789abcdef00") = VString "REDACTED".
Proof.
  apply (minted_tokens_redacted "value" "cap_" "0123456789abcdef00"); [by left|reflexivity|simpl; lia].
Defined.

(** The entry (field name and value) of nested details at a path: each number
    selects an entry of a map or an item of a list on the way down. *)
Fixpoint entryAt (path : list nat) (value : Value) : option (string * Value) :=
  match path with
  | [] => None
  | i :: path' =>
      match value with
      | VMap m => match m !! i with
                  | Some (k, x) => if decide (path' = []) then Some (k, x) else entryAt path' x
                  | None => None
                  end
      | VStringMap m => if decide (path' = []) then prod_map id VString <$> m !! i else None
      | VList l => l !! i ≫= entryAt path'
      | _ => None
      end
  end.

Lemma RedactValue_dropped k v : isControlPlaneKey k = true → RedactValue k v = VString "REDACTED".
Proof. intros Hk. destruct v; simpl; by rewrite Hk. Qed.

Lemma entryAt_redacted path key v k x :
  entryAt path v = Some (k, x) → isControlPlaneKey k = true →
  entryAt path (RedactValue key v) = None ∨
  entryAt path (RedactValue key v) = Some (RedactKey k, VString "REDACTED").
Proof.
  intros Hat Hk. revert key v Hat. induction path as [|i path IH]; intros key v Hat; [done|].
  destruct (isControlPlaneKey key) eqn:Hkey; [left; by rewrite RedactValue_dropped|].
  destruct v as [s|l|l|m|m|n]; simpl in *; rewrite ?Hkey; try done.
  - rewrite list_lookup_fmap. destruct (l !! i) as [y|]; simpl in *; [by apply IH|done].
  - rewrite list_lookup_fmap. destruct (m !! i) as [[k' y]|]; simpl in *; [|done].
    case_decide; simplify_eq; [right; by rewrite RedactValue_dropped|by apply IH].
  - rewrite list_lookup_fmap. case_decide; [|done].
    destruct (m !! i) as [[k' y]|]; simplify_eq/=. right. by rewrite Hk.
Qed.

(** wherever in nested details a field carries one of the core's own
    control-plane names, at any depth through maps, string maps and lists, the
    recorded details hold either nothing at that place (a field above it was
    already dropped) or the redacted name with the value REDACTED. *)
Theorem control_plane_fields_dropped details path k v :
  entryAt path (VMap details) = Some (k, v) → isControlPlaneKey k = true →
  entryAt path (VMap (RedactDetails details)) = None ∨
  entryAt path (VMap (RedactDetails details)) = Some (RedactKey k, VString "REDACTED").
Proof. exact (entryAt_redacted path EmptyString (VMap details) k v). Qed.

Lemma control_plane_fields_dropped_witness :
  let details := [("req", VList [VOther 1; VMap [("Capability-Token", VOther 7)]])] in
  entryAt [0; 1; 0] (VMap (RedactDetails details)) = None ∨
  entryAt [0; 1; 0] (VMap (RedactDetails details)) =
    Some (RedactKey "Capability-Token", VString "REDACTED").
Proof. apply (control_plane_fields_dropped _ _ "Capability-Token" (VOther 7)); reflexivity. Defined.

(** The overlay object class excludes the letter [s] instead of white space:
    the tail of an object name from its first [s] on stays in the output, and
    the words after a name without one are eaten. *)
Lemma overlay_object_tail_leaks :
  RedactString "/hostfs-overlay/objects/a-session-7" = "/hostfs-overlay/objects/REDACTEDsession-7" ∧
  RedactString "/hostfs-overlay/objects/0a1b denied by user policy" =
    "/hostfs-overlay/objects/REDACTEDser policy".
Proof. by vm_compute. Qed.
