(* ===== verification/LifecycleModel.v ===== *)
(** * Lifecycle: data model and closed catalog

    The types of [internal/lifecycle/model.go], the closed resource and fact
    catalogs of [catalog.go] with [validateResource], and the backend
    observation of [internal/backend/lifecycle.go].  Go's string-typed
    enumerations with a fixed set of constants are inductive types with one
    constructor per constant and an [Other] constructor for any other string;
    open identifiers ([ResourceKind], ids) stay strings. *)
From S2P Require Import Prelude GoStrings GoTime.
Open Scope Z_scope.

(** ** Enumerations *)

Abbreviation ResourceKind := string.

Inductive KindStatus := KindImplemented | KindDesignReady | KindFixtureOnly.
#[global] Instance KindStatus_eq_dec : EqDecision KindStatus.
Proof. solve_decision. Defined.

Inductive ResourceState :=
  | StatePlanned | StateStarting | StateActive | StateDraining
  | StateReleased | StateFailed | StateOrphaned
  | StateOther (s : string).
#[global] Instance ResourceState_eq_dec : EqDecision ResourceState.
Proof. solve_decision. Defined.

Inductive PersistenceClass :=
  | PersistenceEphemeral | PersistenceRetained | PersistenceEvidence
  | PersistenceOther (s : string).
#[global] Instance PersistenceClass_eq_dec : EqDecision PersistenceClass.
Proof. solve_decision. Defined.

Inductive ClosePolicy :=
  | ClosePreStopDrain | CloseCoTerminateWithRoot | CloseSurviveRoot
  | CloseExternalUnmanaged | ClosePolicyOther (s : string).
#[global] Instance ClosePolicy_eq_dec : EqDecision ClosePolicy.
Proof. solve_decision. Defined.

Inductive StopMode := StopModePin | StopModeDrain | StopModeOther (s : string).
#[global] Instance StopMode_eq_dec : EqDecision StopMode.
Proof. solve_decision. Defined.

Inductive FactClass := FactRetained | FactHandoff | FactOther (s : string).
#[global] Instance FactClass_eq_dec : EqDecision FactClass.
Proof. solve_decision. Defined.

(** [backend.LifecycleState] *)
Inductive LifecycleState :=
  | LifecycleRunning | LifecycleStopped | LifecycleAbsent | LifecycleUnknown
  | LifecycleOther (s : string).
#[global] Instance LifecycleState_eq_dec : EqDecision LifecycleState.
Proof. solve_decision. Defined.

Definition LifecycleState_string (s : LifecycleState) : string :=
  match s with
  | LifecycleRunning => "running"
  | LifecycleStopped => "stopped"
  | LifecycleAbsent => "absent"
  | LifecycleUnknown => "unknown"
  | LifecycleOther s => s
  end.

(** ** Errors *)

(** [mutation.go]: the identity shown when one operation blocks another. *)
Record MutationOwner := mkOwner {
  mo_Kind : string; mo_ID : string; mo_Phase : string; mo_Recovery : string;
  mo_StartedAt : Time }.
#[global] Instance MutationOwner_eq_dec : EqDecision MutationOwner.
Proof. solve_decision. Defined.

(** The error values of the package: sentinels, typed errors, [errors.New],
    wrapping ([fmt.Errorf] with [%w]) and [errors.Join]. *)
Inductive error :=
  | ErrMsg (m : string)
  | ErrAttachBlocked
  | ErrReconciliationInFlight
  | ErrStopInFlight
  | ErrCoordinatorClosed
  | ErrMutationBlockedByActivity
  | AttachBlockedError (reasonCode : string)
  | MutationConflictError (key : string) (owner requested : MutationOwner) (cause : error)
  | ErrWrap (m : string) (e : error)
  | ErrJoin (e1 e2 : error)
  | ErrNotExist
  | ErrIO
  | ContextCanceled
  | ContextDeadlineExceeded.
#[global] Instance error_eq_dec : EqDecision error.
Proof. solve_decision. Defined.

(** [errors.Is]: the target somewhere in the chain of [Unwrap]s. *)
Fixpoint errors_Is (e target : error) : bool :=
  bool_decide (e = target) ||
  match e with
  | AttachBlockedError _ => bool_decide (ErrAttachBlocked = target)
  | MutationConflictError _ _ _ cause => errors_Is cause target
  | ErrWrap _ e => errors_Is e target
  | ErrJoin e1 e2 => errors_Is e1 target || errors_Is e2 target
  | _ => false
  end.

(** [errors.Join] of two possibly nil errors. *)
Definition join_err (e1 e2 : option error) : option error :=
  match e1, e2 with
  | None, e | e, None => e
  | Some e1, Some e2 => Some (ErrJoin e1 e2)
  end.

Abbreviation res := (result error).

(** The error of a result, Go's [err != nil]. *)
Definition err_of {A} (r : res A) : option error :=
  match r with Ok _ => None | Err e => Some e end.
Definition of_err (e : option error) : res () :=
  match e with None => Ok tt | Some e => Err e end.

(** ** References and resources (model.go) *)

Record EnvironmentRef := mkEnvRef {
  er_EnvironmentID : string; er_StartGeneration : Z;
  er_InstanceName : string; er_BootID : string }.
#[global] Instance EnvironmentRef_eq_dec : EqDecision EnvironmentRef.
Proof. solve_decision. Defined.
#[global] Instance EnvironmentRef_eta : Eta EnvironmentRef := λ r,
  mkEnvRef (er_EnvironmentID r) (er_StartGeneration r) (er_InstanceName r) (er_BootID r).

Definition EnvironmentRef_Validate (r : EnvironmentRef) (active : bool) : res () :=
  if negb (idPattern (er_EnvironmentID r)) then Err (ErrMsg "environment reference id is invalid")
  else if er_StartGeneration r =? 0 then Err (ErrMsg "environment start generation is required")
  else if negb (idPattern (er_InstanceName r)) then Err (ErrMsg "environment instance name is invalid")
  else if active && negb (bootIDPattern (er_BootID r)) then Err (ErrMsg "active environment boot id is invalid")
  else if negb active && negb (String.eqb (er_BootID r) "") && negb (bootIDPattern (er_BootID r))
  then Err (ErrMsg "environment boot id is invalid")
  else Ok tt.

Definition EnvironmentRef_Equal (r other : EnvironmentRef) : bool :=
  String.eqb (er_EnvironmentID r) (er_EnvironmentID other) &&
  (er_StartGeneration r =? er_StartGeneration other) &&
  String.eqb (er_InstanceName r) (er_InstanceName other) &&
  String.eqb (er_BootID r) (er_BootID other).

Record ResourceRef := mkRef { rr_Kind : ResourceKind; rr_ID : string; rr_Generation : Z }.
#[global] Instance ResourceRef_eq_dec : EqDecision ResourceRef.
Proof. solve_decision. Defined.
#[global] Instance ResourceRef_eta : Eta ResourceRef := λ r,
  mkRef (rr_Kind r) (rr_ID r) (rr_Generation r).

Definition ResourceRef_Validate (r : ResourceRef) : res () :=
  if negb (idPattern (rr_Kind r)) || negb (idPattern (rr_ID r))
  then Err (ErrMsg "resource reference is invalid")
  else if rr_Generation r =? 0 then Err (ErrMsg "resource generation is required")
  else Ok tt.

(** [fmt.Sprintf("%s/%s/%d", r.Kind, r.ID, r.Generation)] *)
Definition Key (r : ResourceRef) : string :=
  rr_Kind r +:+ "/" +:+ rr_ID r +:+ "/" +:+ show_u64 (rr_Generation r).

Record OwnerRef := mkOwnerRef { or_Kind : string; or_ID : string; or_Generation : Z }.
#[global] Instance OwnerRef_eq_dec : EqDecision OwnerRef.
Proof. solve_decision. Defined.

Definition OwnerRef_Validate (r : OwnerRef) : res () :=
  if negb (idPattern (or_Kind r)) || negb (idPattern (or_ID r)) || (or_Generation r =? 0)
  then Err (ErrMsg "resource owner is invalid") else Ok tt.

Record DependencySpec := mkDep { dep_Ref : ResourceRef; dep_StopMode : StopMode }.
#[global] Instance DependencySpec_eq_dec : EqDecision DependencySpec.
Proof. solve_decision. Defined.
#[global] Instance DependencySpec_eta : Eta DependencySpec := λ d,
  mkDep (dep_Ref d) (dep_StopMode d).

Record Resource := mkResource {
  res_Ref : ResourceRef; res_Owner : OwnerRef; res_State : ResourceState;
  res_Dependencies : list DependencySpec; res_Persistence : PersistenceClass;
  res_ClosePolicy : ClosePolicy; res_Incarnation : option EnvironmentRef;
  res_PossibleVMDependency : bool; res_UpdatedAt : Time }.
#[global] Instance Resource_eq_dec : EqDecision Resource.
Proof. solve_decision. Defined.
#[global] Instance Resource_eta : Eta Resource := λ r,
  mkResource (res_Ref r) (res_Owner r) (res_State r) (res_Dependencies r) (res_Persistence r)
    (res_ClosePolicy r) (res_Incarnation r) (res_PossibleVMDependency r) (res_UpdatedAt r).

(** The key under which a resource is indexed everywhere. *)
Definition rkey (r : Resource) : string := Key (res_Ref r).

Record Fact_ := mkFact {
  fact_Kind : ResourceKind; fact_ID : string; fact_Class : FactClass;
  fact_Generation : Z; fact_RecordedAt : Time }.
#[global] Instance Fact_eq_dec : EqDecision Fact_.
Proof. solve_decision. Defined.

Definition IsPossiblyLive (r : Resource) : bool :=
  bool_decide (res_State r ∈
    [StatePlanned; StateStarting; StateActive; StateDraining; StateOrphaned]).

Definition allowedTransitions (from : ResourceState) : list ResourceState :=
  match from with
  | StatePlanned => [StateStarting; StateFailed; StateOrphaned]
  | StateStarting => [StateActive; StateFailed; StateOrphaned]
  | StateActive => [StateDraining; StateFailed; StateOrphaned]
  | StateDraining => [StateReleased; StateFailed; StateOrphaned]
  | StateOrphaned => [StateDraining]
  | _ => []
  end.

Definition ValidateTransition (from to : ResourceState) : res () :=
  if bool_decide (from = to) then Ok tt
  else if bool_decide (to ∈ allowedTransitions from) then Ok tt
  else Err (ErrMsg "invalid lifecycle transition").

Definition validState (s : ResourceState) : bool :=
  bool_decide (s ∈ [StatePlanned; StateStarting; StateActive; StateDraining;
                    StateReleased; StateFailed; StateOrphaned]).

Definition boundedReason (value : string) : string :=
  let value := TrimSpace value in
  if 128 <? len value then take_str 128 value else value.

(** ** Backend observation (internal/backend/lifecycle.go) *)

Record LifecycleObservation := mkObs {
  obs_State : LifecycleState; obs_InstanceName : string; obs_BootID : string;
  obs_ObservedAt : Time; obs_ReasonCode : string }.
#[global] Instance LifecycleObservation_eq_dec : EqDecision LifecycleObservation.
Proof. solve_decision. Defined.

(** [backend.LifecycleObservation{}] *)
Definition zeroObservation : LifecycleObservation :=
  mkObs (LifecycleOther "") "" "" zeroTime "".

Definition Observation_Validate (o : LifecycleObservation) : res () :=
  if IsZero (obs_ObservedAt o) then Err (ErrMsg "lifecycle observation time is required")
  else match obs_State o with
  | LifecycleRunning =>
      if String.eqb (TrimSpace (obs_InstanceName o)) "" || negb (bootIDPattern (obs_BootID o))
         || negb (String.eqb (obs_ReasonCode o) "")
      then Err (ErrMsg "running lifecycle observation is invalid") else Ok tt
  | LifecycleStopped | LifecycleAbsent =>
      if String.eqb (TrimSpace (obs_InstanceName o)) "" || negb (String.eqb (obs_BootID o) "")
         || negb (String.eqb (obs_ReasonCode o) "")
      then Err (ErrMsg "terminal lifecycle observation is invalid") else Ok tt
  | LifecycleUnknown =>
      if String.eqb (TrimSpace (obs_ReasonCode o)) "" || (128 <? len (obs_ReasonCode o))
         || negb (String.eqb (obs_BootID o) "")
      then Err (ErrMsg "unknown lifecycle observation is invalid") else Ok tt
  | LifecycleOther _ => Err (ErrMsg "unknown lifecycle observation state")
  end.

(** ** The closed catalog (catalog.go) *)

Definition KindBackendIncarnation : ResourceKind := "backend.incarnation".
Definition KindRunSession : ResourceKind := "run.session".
Definition KindGuestSupervisor : ResourceKind := "guest.supervisor".
Definition KindGuestTarget : ResourceKind := "guest.target".
Definition KindBrokerListener : ResourceKind := "broker.listener".
Definition KindHostFSReadProvider : ResourceKind := "hostfs.read-provider".
Definition KindHostFSLiveGrant : ResourceKind := "hostfs.live-read-grant".
Definition KindWorkspaceHostProvider : ResourceKind := "workspace.host-provider".
Definition KindWorkspaceGuestView : ResourceKind := "workspace.guest-view".
Definition KindNetworkService : ResourceKind := "network.environment-service".
Definition KindRunBridge : ResourceKind := "endpoint.run-bridge".
Definition KindHostAppHandoff : ResourceKind := "hostapp.handoff".
Definition KindHostFSStaged : ResourceKind := "hostfs.staged-object".
Definition KindDecisionRecord : ResourceKind := "decision.record".
Definition KindMaterializationSnapshot : ResourceKind := "host.materialization.snapshot".
Definition KindMaterializationLive : ResourceKind := "host.materialization.live-projection".

Record DependencyRule := mkRule { rule_Kind : ResourceKind; rule_Modes : list StopMode }.

Record Descriptor := mkDescriptor {
  d_Kind : ResourceKind; d_Status : KindStatus; d_OwnerKinds : list string;
  d_Dependencies : list DependencyRule; d_Persistence : list PersistenceClass;
  d_ClosePolicies : list ClosePolicy; d_RecoveryProbe : string; d_PublicLabel : string;
  d_ProductionRegistrar : bool }.

Record FactDescriptor := mkFactDescriptor {
  fd_Kind : ResourceKind; fd_Class : FactClass; fd_Label : string }.

Definition RecoveryBackendObservation := "backend-observation".
Definition RecoverySessionAbsence := "session-absence".
Definition RecoveryWorkspaceProvider := "workspace-provider-absence".
Definition RecoveryWorkspaceView := "workspace-view-absence".
Definition RecoveryNetworkRuntime := "network-runtime".

Definition productionCatalog : list Descriptor :=
  let pin := [StopModePin] in let drain := [StopModeDrain] in
  let eph := [PersistenceEphemeral] in
  [ mkDescriptor KindBackendIncarnation KindImplemented ["daemon"] [] eph
      [CloseCoTerminateWithRoot] RecoveryBackendObservation "backend incarnation" true;
    mkDescriptor KindRunSession KindImplemented ["daemon"] [mkRule KindBackendIncarnation pin] eph
      [ClosePreStopDrain; CloseCoTerminateWithRoot] RecoverySessionAbsence "run session" true;
    mkDescriptor KindGuestSupervisor KindImplemented ["session"]
      [mkRule KindBackendIncarnation drain; mkRule KindRunSession drain] eph
      [ClosePreStopDrain; CloseCoTerminateWithRoot] RecoverySessionAbsence "guest supervisor" true;
    mkDescriptor KindGuestTarget KindImplemented ["session"] [mkRule KindGuestSupervisor drain] eph
      [ClosePreStopDrain; CloseCoTerminateWithRoot] RecoverySessionAbsence "guest target" true;
    mkDescriptor KindBrokerListener KindImplemented ["session"] [mkRule KindRunSession drain] eph
      [ClosePreStopDrain] RecoverySessionAbsence "broker listener" true;
    mkDescriptor KindHostFSReadProvider KindImplemented ["session"] [mkRule KindRunSession drain] eph
      [ClosePreStopDrain] RecoverySessionAbsence "HostFS read provider" true;
    mkDescriptor KindHostFSLiveGrant KindImplemented ["manager"]
      [mkRule KindHostFSReadProvider drain; mkRule KindRunSession drain] eph
      [ClosePreStopDrain] RecoverySessionAbsence "HostFS live read grant" true;
    mkDescriptor KindWorkspaceHostProvider KindImplemented ["manager"]
      [mkRule KindBackendIncarnation drain] eph
      [ClosePreStopDrain] RecoveryWorkspaceProvider "workspace host provider" true;
    mkDescriptor KindWorkspaceGuestView KindImplemented ["session"]
      [mkRule KindBackendIncarnation drain; mkRule KindRunSession drain;
       mkRule KindWorkspaceHostProvider drain] eph
      [ClosePreStopDrain] RecoveryWorkspaceView "workspace guest view" true;
    mkDescriptor KindNetworkService KindImplemented ["manager"]
      [mkRule KindBackendIncarnation drain] eph
      [ClosePreStopDrain] RecoveryNetworkRuntime "environment network service" true;
    mkDescriptor KindRunBridge KindImplemented ["session"]
      [mkRule KindBackendIncarnation pin; mkRule KindRunSession drain] eph
      [ClosePreStopDrain] RecoverySessionAbsence "run endpoint bridge" true;
    mkDescriptor KindMaterializationSnapshot KindDesignReady ["manager"] []
      [PersistenceRetained] [CloseSurviveRoot] "" "host materialization snapshot" false;
    mkDescriptor KindMaterializationLive KindDesignReady ["manager"]
      [mkRule KindBackendIncarnation pin] eph
      [ClosePreStopDrain] "" "live host materialization projection" false ].

Definition productionFactCatalog : list FactDescriptor :=
  [ mkFactDescriptor KindHostAppHandoff FactHandoff "host application handoff";
    mkFactDescriptor KindHostFSStaged FactRetained "HostFS staged object";
    mkFactDescriptor KindDecisionRecord FactRetained "decision record" ].

Definition Lookup (kind : ResourceKind) : option Descriptor :=
  List.find (λ d, String.eqb (d_Kind d) kind) productionCatalog.

Definition LookupFact (kind : ResourceKind) : option FactDescriptor :=
  List.find (λ d, String.eqb (fd_Kind d) kind) productionFactCatalog.

(** The unique probe contracts, in catalog order. *)
Fixpoint recoveryProbes_go (ds : list Descriptor) (seen : list string) : list string :=
  match ds with
  | [] => []
  | d :: ds =>
      if negb (bool_decide (d_Status d = KindImplemented)) || negb (d_ProductionRegistrar d)
         || String.eqb (d_RecoveryProbe d) "" || bool_decide (d_RecoveryProbe d ∈ seen)
      then recoveryProbes_go ds seen
      else d_RecoveryProbe d :: recoveryProbes_go ds (d_RecoveryProbe d :: seen)
  end.
Definition RecoveryProbes : list string := recoveryProbes_go productionCatalog [].

Definition validRecoveryProbe (probe : string) : bool :=
  bool_decide (probe ∈ [RecoveryBackendObservation; RecoverySessionAbsence;
    RecoveryWorkspaceProvider; RecoveryWorkspaceView; RecoveryNetworkRuntime]).

Definition validateFact (f : Fact_) : res () :=
  if negb (idPattern (fact_Kind f)) || negb (idPattern (fact_ID f)) || (fact_Generation f =? 0)
     || IsZero (fact_RecordedAt f)
  then Err (ErrMsg "lifecycle fact identity is invalid")
  else match LookupFact (fact_Kind f) with
  | Some d =>
      if bool_decide (fd_Class d = fact_Class f) then Ok tt
      else Err (ErrMsg "lifecycle fact does not match the closed fact catalog")
  | None => Err (ErrMsg "lifecycle fact does not match the closed fact catalog")
  end.

(** The dependency loop of [validateResource]: returns the kinds seen. *)
Fixpoint validateDependencies (d : Descriptor) (deps : list DependencySpec) (seen : list ResourceKind)
    : res (list ResourceKind) :=
  match deps with
  | [] => Ok seen
  | dep :: deps =>
      _ ← ResourceRef_Validate (dep_Ref dep);
      if bool_decide (rr_Kind (dep_Ref dep) ∈ seen)
      then Err (ErrMsg "resource repeats a catalog dependency kind")
      else if existsb (λ rule, String.eqb (rule_Kind rule) (rr_Kind (dep_Ref dep)) &&
                               bool_decide (dep_StopMode dep ∈ rule_Modes rule)) (d_Dependencies d)
      then validateDependencies d deps (rr_Kind (dep_Ref dep) :: seen)
      else Err (ErrMsg "resource dependency is not allowed by catalog")
  end.

Definition validateResource (r : Resource) (production : bool) : res () :=
  _ ← ResourceRef_Validate (res_Ref r);
  _ ← OwnerRef_Validate (res_Owner r);
  match Lookup (rr_Kind (res_Ref r)) with
  | None => Err (ErrMsg "unknown lifecycle resource kind")
  | Some d =>
      if production && (negb (bool_decide (d_Status d = KindImplemented)) || negb (d_ProductionRegistrar d))
      then Err (ErrMsg "resource kind is not implemented in production")
      else if negb (bool_decide (or_Kind (res_Owner r) ∈ d_OwnerKinds d)) ||
              negb (bool_decide (res_Persistence r ∈ d_Persistence d)) ||
              negb (bool_decide (res_ClosePolicy r ∈ d_ClosePolicies d))
      then Err (ErrMsg "resource does not match its catalog descriptor")
      else if negb (validState (res_State r)) then Err (ErrMsg "resource state is invalid")
      else
        kinds ← validateDependencies d (res_Dependencies r) [];
        if negb (bool_decide (res_State r = StateOrphaned)) &&
           existsb (λ rule, negb (bool_decide (rule_Kind rule ∈ kinds))) (d_Dependencies d)
        then Err (ErrMsg "resource is missing a required catalog dependency")
        else if String.eqb (rr_Kind (res_Ref r)) KindBackendIncarnation
        then match res_Incarnation r with
             | None => Err (ErrMsg "backend incarnation identity is required")
             | Some inc =>
                 EnvironmentRef_Validate inc (negb (bool_decide (res_State r = StatePlanned)))
             end
        else Ok tt
  end.
