(* ===== verification/LifecycleGraph.v ===== *)
(** * Lifecycle: the dependency graph and the stop predicate

    [ValidateGraph], [pathMode] and [EvaluateAutoStop] of
    [internal/lifecycle/reducer.go], with the depth-first searches of the
    source.  The searches carry fuel, one more unit than there are indexed
    resources: [visit_total] shows that the cycle search never exhausts it,
    [pathMode_spec] that the path search of an acyclic graph does not. *)
From S2P Require Import Prelude GoStrings GoTime LifecycleModel.
Open Scope Z_scope.

Implicit Types (byKey : gmap string Resource) (rs : list Resource) (key : string).

(** ** Indexing *)

(** The first loop of [ValidateGraph]: validate, refuse duplicates, index. *)
Fixpoint indexResources rs (production : bool) byKey : res (gmap string Resource) :=
  match rs with
  | [] => Ok byKey
  | r :: rs =>
      match validateResource r production with
      | Err e => Err (ErrWrap "resource" e)
      | Ok _ =>
          match byKey !! rkey r with
          | Some _ => Err (ErrMsg "duplicate lifecycle resource")
          | None => indexResources rs production (<[rkey r := r]> byKey)
          end
      end
  end.

Definition depKey (d : DependencySpec) : string := Key (dep_Ref d).

(** [byKey[key].Dependencies]: none for an absent key. *)
Definition dependenciesOf byKey key : list DependencySpec :=
  match byKey !! key with Some r => res_Dependencies r | None => [] end.

(** Every dependency is indexed. *)
Definition dependenciesPresent byKey rs : bool :=
  forallb (λ r, forallb (λ d, bool_decide (is_Some (byKey !! depKey d))) (res_Dependencies r)) rs.

(** ** Cycle search *)

Record Search := mkSearch { visiting : gset string; visited : gset string }.

Section visit_all.
Context (visit1 : string → Search → option (res Search)).

Fixpoint visitAll (keys : list string) (st : Search) : option (res Search) :=
  match keys with
  | [] => Some (Ok st)
  | k :: keys =>
      match visit1 k st with
      | Some (Ok st) => visitAll keys st
      | r => r
      end
  end.
End visit_all.

Definition errCycle : error := ErrMsg "lifecycle dependency graph contains a cycle".

(** The closure [visit]; [None] is exhausted fuel. *)
Fixpoint visit (fuel : nat) byKey key (st : Search) : option (res Search) :=
  match fuel with
  | O => None
  | S fuel =>
      if bool_decide (key ∈ visiting st) then Some (Err errCycle)
      else if bool_decide (key ∈ visited st) then Some (Ok st)
      else
        match visitAll (visit fuel byKey) (depKey <$> dependenciesOf byKey key)
                (mkSearch ({[key]} ∪ visiting st) (visited st)) with
        | Some (Ok st) => Some (Ok (mkSearch (visiting st ∖ {[key]}) ({[key]} ∪ visited st)))
        | r => r
        end
  end.

(** [for key := range byKey { visit(key) }] *)
Definition checkAcyclic byKey : res () :=
  match visitAll (visit (S (size byKey)) byKey) (fst <$> map_to_list byKey) (mkSearch ∅ ∅) with
  | Some (Ok _) => Ok tt
  | Some (Err e) => Err e
  | None => Err (ErrMsg "fuel")
  end.

Definition ValidateGraph rs (production : bool) : res () :=
  byKey ← indexResources rs production ∅;
  if negb (dependenciesPresent byKey rs) then Err (ErrMsg "resource has missing dependency")
  else checkAcyclic byKey.

(** ** The stop mode of a path to the root *)

Definition noMode : StopMode := StopModeOther "".

Section path_loop.
Context (child : string → option (StopMode * bool)) (root : string).

(** [mode, found] for one dependency: the edge itself when it hits the root,
    otherwise the child's verdict, whose [pin] overrides the edge's mode. *)
Definition edgeMode (d : DependencySpec) : option (StopMode * bool) :=
  if String.eqb (depKey d) root then Some (dep_StopMode d, true)
  else match child (depKey d) with
       | None => None
       | Some (childMode, childFound) =>
           Some (if bool_decide (childMode = StopModePin) then StopModePin else dep_StopMode d,
                 childFound)
       end.

(** The loop over the dependencies of one resource. *)
Fixpoint pathLoop (deps : list DependencySpec) (best : StopMode) : option (StopMode * bool) :=
  match deps with
  | [] => Some (best, negb (bool_decide (best = noMode)))
  | d :: deps =>
      match edgeMode d with
      | None => None
      | Some (mode, found) =>
          if negb found then pathLoop deps best
          else if bool_decide (mode = StopModePin) then Some (StopModePin, true)
          else pathLoop deps StopModeDrain
      end
  end.
End path_loop.

Fixpoint pathMode (fuel : nat) (current root : string) byKey (seen : gset string)
    : option (StopMode * bool) :=
  match fuel with
  | O => None
  | S fuel =>
      if bool_decide (current ∈ seen) then Some (noMode, false)
      else pathLoop (λ k, pathMode fuel k root byKey ({[current]} ∪ seen)) root
             (dependenciesOf byKey current) noMode
  end.

(** The call of [EvaluateAutoStop] and [BuildStatus]: nothing seen yet. *)
Definition pathModeOf (current root : string) byKey : StopMode * bool :=
  default (noMode, false) (pathMode (S (size byKey)) current root byKey ∅).

(** ** The stop predicate *)

Record EvaluationInput := mkInput {
  in_Incarnation : EnvironmentRef; in_Resources : list Resource;
  in_Observation : LifecycleObservation; in_TransitionInFlight : bool;
  in_GraceExpired : bool; in_ReconciliationComplete : bool;
  in_CurrentDaemonOwnsAttempt : bool }.

Record Evaluation := mkEvaluation {
  ev_Allowed : bool; ev_Pins : list ResourceRef; ev_Drains : list ResourceRef;
  ev_Reasons : list string }.

(** [byKey[...] = resource] over the list. *)
Definition indexAll rs : gmap string Resource :=
  foldl (λ m r, <[rkey r := r]> m) ∅ rs.

(** Is this the root resource of the incarnation? *)
Definition isRootOf (inc : EnvironmentRef) (r : Resource) : bool :=
  String.eqb (rr_Kind (res_Ref r)) KindBackendIncarnation &&
  match res_Incarnation r with
  | Some i => EnvironmentRef_Equal i inc
  | None => false
  end.

(** The last match of the loop wins; [""] when there is none. *)
Definition rootKeyOf (inc : EnvironmentRef) rs : string :=
  foldl (λ k r, if isRootOf inc r then rkey r else k) "" rs.

Inductive StopClass := ClassPin | ClassDrain | ClassNone.
#[global] Instance StopClass_eq_dec : EqDecision StopClass.
Proof. solve_decision. Defined.

(** One iteration of the classification loop. *)
Definition classify byKey (rootKey : string) (r : Resource) : StopClass :=
  if negb (IsPossiblyLive r) || String.eqb (rkey r) rootKey then ClassNone
  else
    let '(mode, found) := pathModeOf (rkey r) rootKey byKey in
    if bool_decide (res_State r = StateOrphaned) && (found || res_PossibleVMDependency r)
    then ClassPin
    else if negb found then ClassNone
    else if bool_decide (mode = StopModePin) then ClassPin else ClassDrain.

Definition classified byKey (rootKey : string) (c : StopClass) rs : list ResourceRef :=
  sort_by Key (res_Ref <$> filter (λ r, classify byKey rootKey r = c) rs).

Definition reason_if (b : bool) (s : string) : list string := if b then [s] else [].

Definition EvaluateAutoStop (input : EvaluationInput) : res Evaluation :=
  let inc := in_Incarnation input in
  let rs := in_Resources input in
  let obs := in_Observation input in
  _ ← EnvironmentRef_Validate inc true;
  _ ← Observation_Validate obs;
  _ ← ValidateGraph rs true;
  let byKey := indexAll rs in
  let rootKey := rootKeyOf inc rs in
  if String.eqb rootKey "" then Err (ErrMsg "current backend incarnation resource is missing")
  else
    let pins := classified byKey rootKey ClassPin rs in
    let drains := classified byKey rootKey ClassDrain rs in
    let reasons :=
      reason_if (negb (bool_decide (obs_State obs = LifecycleRunning)) ||
                 negb (String.eqb (obs_InstanceName obs) (er_InstanceName inc)) ||
                 negb (String.eqb (obs_BootID obs) (er_BootID inc)))
        "backend-incarnation-not-observed-running" ++
      reason_if (negb (bool_decide (pins = []))) "vm-dependency-live-or-unproved" ++
      reason_if (negb (bool_decide (drains = []))) "pre-stop-drain-live-or-unproved" ++
      reason_if (in_TransitionInFlight input) "lifecycle-transition-in-flight" ++
      reason_if (negb (in_GraceExpired input)) "idle-grace-not-expired" ++
      reason_if (negb (in_ReconciliationComplete input)) "reconciliation-incomplete" ++
      reason_if (negb (in_CurrentDaemonOwnsAttempt input)) "stop-attempt-not-owned" in
    Ok (mkEvaluation (bool_decide (reasons = [])) pins drains reasons).

(** ** Keys are injective on valid references *)

Lemma ResourceRef_Validate_ok r :
  ResourceRef_Validate r = Ok tt →
  idPattern (rr_Kind r) = true ∧ idPattern (rr_ID r) = true ∧ rr_Generation r ≠ 0.
Proof.
  unfold ResourceRef_Validate. case_all. bool_prop. intros _.
  split_and!; [done|done|]. by apply Z.eqb_neq.
Qed.

Lemma Key_inj r1 r2 :
  ResourceRef_Validate r1 = Ok tt → ResourceRef_Validate r2 = Ok tt →
  0 ≤ rr_Generation r1 → 0 ≤ rr_Generation r2 → Key r1 = Key r2 → r1 = r2.
Proof.
  destruct r1 as [k1 i1 g1], r2 as [k2 i2 g2]. unfold Key; simpl.
  intros (Hk1 & Hi1 & _)%ResourceRef_Validate_ok (Hk2 & Hi2 & _)%ResourceRef_Validate_ok ?? H.
  simpl in *. apply idPattern_id_chars in Hk1, Hk2, Hi1, Hi2.
  apply (sep_inj is_id_char) in H as [-> H]; [|done..].
  apply (sep_inj is_id_char) in H as [-> H]; [|done..].
  apply show_u64_inj in H as ->; done.
Qed.

(** ** Indexing *)

Lemma foldl_insert_lookup rs byKey k r :
  NoDup (rkey <$> rs) → (∀ r, r ∈ rs → byKey !! rkey r = None) →
  foldl (λ m r, <[rkey r := r]> m) byKey rs !! k = Some r ↔
  (r ∈ rs ∧ rkey r = k) ∨ byKey !! k = Some r.
Proof.
  revert byKey. induction rs as [|x rs IH]; intros byKey Hnd Hnone; simpl.
  { set_solver. }
  rewrite fmap_cons, NoDup_cons in Hnd. destruct Hnd as [Hx Hnd].
  rewrite IH; [|done|].
  - rewrite lookup_insert. case_decide; subst.
    + pose proof (Hnone x ltac:(left)). set_solver.
    + set_solver.
  - intros y Hy. rewrite lookup_insert_ne; [apply Hnone; by right|].
    intros Heq. apply Hx. rewrite Heq. by apply list_elem_of_fmap_2.
Qed.

Lemma indexAll_lookup rs k r :
  NoDup (rkey <$> rs) → indexAll rs !! k = Some r ↔ r ∈ rs ∧ rkey r = k.
Proof.
  intros Hnd. unfold indexAll. rewrite foldl_insert_lookup by set_solver.
  rewrite lookup_empty. naive_solver.
Qed.

Lemma indexResources_ok rs p byKey byKey' :
  indexResources rs p byKey = Ok byKey' ↔
  Forall (λ r, validateResource r p = Ok tt) rs ∧ NoDup (rkey <$> rs) ∧
  (∀ r, r ∈ rs → byKey !! rkey r = None) ∧
  byKey' = foldl (λ m r, <[rkey r := r]> m) byKey rs.
Proof.
  revert byKey. induction rs as [|x rs IH]; intros byKey; simpl.
  { split; [intros [= ->]|naive_solver].
    split_and!; [done|constructor|set_solver|done]. }
  rewrite Forall_cons, NoDup_cons.
  destruct (validateResource x p) as [[]|e]; [|naive_solver].
  destruct (byKey !! rkey x) eqn:Hx; [set_solver|]. rewrite IH.
  split.
  - intros (?&?&Hnone&?). split_and!; [done|done| |done| |done].
    + intros (y & Hy & Hin)%list_elem_of_fmap. pose proof (Hnone y Hin) as Hn.
      rewrite <-Hy in Hn. by rewrite lookup_insert_eq in Hn.
    + intros y [->|Hy]%elem_of_cons; [done|].
      pose proof (Hnone y Hy) as Hn. by apply lookup_insert_None in Hn as [??].
  - intros ([??]&[Hnin ?]&Hnone&?). split_and!; [done|done| |done].
    intros y Hy. rewrite lookup_insert_ne; [apply Hnone; by right|].
    intros Heq. apply Hnin. rewrite Heq. by apply list_elem_of_fmap_2.
Qed.

Lemma dependenciesPresent_ok byKey rs :
  dependenciesPresent byKey rs = true ↔
  ∀ r d, r ∈ rs → d ∈ res_Dependencies r → is_Some (byKey !! depKey d).
Proof.
  unfold dependenciesPresent. rewrite forallb_forall.
  setoid_rewrite forallb_forall. setoid_rewrite bool_decide_eq_true.
  setoid_rewrite <-list_elem_of_In. naive_solver.
Qed.

(** ** Correctness of the cycle search *)

Section search.
Context (byKey : gmap string Resource).
Implicit Types (st : Search).

(** [k] depends directly on [k']. *)
Definition dependsOn : relation string := λ k k', k' ∈ depKey <$> dependenciesOf byKey k.

Lemma dependsOn_dom k k' : dependsOn k k' → k ∈ dom byKey.
Proof.
  unfold dependsOn, dependenciesOf. destruct (byKey !! k) eqn:?; [|set_solver].
  intros _. by apply elem_of_dom_2 with r.
Qed.

Lemma visitAll_ind (P : Search → Search → Prop) visit1 keys st st' :
  (∀ st, P st st) → (∀ st1 st2 st3, P st1 st2 → P st2 st3 → P st1 st3) →
  (∀ k st st', k ∈ keys → visit1 k st = Some (Ok st') → P st st') →
  visitAll visit1 keys st = Some (Ok st') → P st st'.
Proof.
  intros Hrefl Htrans. revert st. induction keys as [|k keys IH]; intros st H1 H; simplify_eq/=; [done|].
  case_all. eapply Htrans; [by eapply H1; [left|]|].
  apply IH; [|done]. intros; eapply H1; [by right|done].
Qed.

Lemma visit_visiting fuel key st st' :
  visit fuel byKey key st = Some (Ok st') → visiting st' = visiting st.
Proof.
  revert key st st'. induction fuel as [|fuel IH]; intros key st st'; simpl; [done|].
  case_bool_decide; [done|]. case_bool_decide; [naive_solver|].
  destruct (visitAll _ _ _) as [[st1|]|] eqn:Hv; intros; simplify_eq/=.
  apply (visitAll_ind (λ st st', visiting st' = visiting st)) in Hv;
    [simpl in Hv; set_solver|done|congruence|eauto].
Qed.

Lemma visitAll_visiting fuel keys st st' :
  visitAll (visit fuel byKey) keys st = Some (Ok st') → visiting st' = visiting st.
Proof.
  apply (visitAll_ind (λ st st', visiting st' = visiting st));
    [done|congruence|eauto using visit_visiting].
Qed.

(** Fuel: along the stack, each frame holds a fresh indexed key. *)
Lemma visitAll_total fuel keys st :
  (∀ k st, (size (dom byKey ∖ visiting st) < fuel)%nat → visit fuel byKey k st ≠ None) →
  (size (dom byKey ∖ visiting st) < fuel)%nat → visitAll (visit fuel byKey) keys st ≠ None.
Proof.
  intros H1. revert st. induction keys as [|k keys IH]; intros st Hs; simpl; [done|].
  pose proof (H1 k st Hs). destruct (visit fuel byKey k st) as [[st2|]|] eqn:Hv; [|done..].
  apply IH. by erewrite visit_visiting.
Qed.

Lemma visit_total fuel key st :
  (size (dom byKey ∖ visiting st) < fuel)%nat → visit fuel byKey key st ≠ None.
Proof.
  revert key st. induction fuel as [|fuel IH]; intros key st Hf; [lia|]; simpl.
  case_bool_decide; [done|]. case_bool_decide; [done|].
  pose proof (visitAll_total fuel (depKey <$> dependenciesOf byKey key)
    (mkSearch ({[key]} ∪ visiting st) (visited st)) IH) as Hall; simpl in Hall.
  unfold dependenciesOf in *. destruct (byKey !! key) eqn:Hk; [|done].
  destruct (visitAll _ _ _) as [[]|]; try done. exfalso. apply Hall; [|done].
  apply elem_of_dom_2 in Hk.
  enough (size (dom byKey ∖ ({[key]} ∪ visiting st)) < size (dom byKey ∖ visiting st))%nat by lia.
  apply subset_size. set_solver.
Qed.

(** A set closed under dependencies and without cycles. *)
Definition settled (V : gset string) : Prop :=
  (∀ k k', k ∈ V → dependsOn k k' → k' ∈ V) ∧ (∀ k, k ∈ V → ¬ tc dependsOn k k).

Lemma settled_rtc V k k' : settled V → k ∈ V → rtc dependsOn k k' → k' ∈ V.
Proof. intros [Hc _] Hk. induction 1; eauto. Qed.

Lemma settled_add V key :
  settled V → key ∉ V → (∀ k', dependsOn key k' → k' ∈ V) → settled ({[key]} ∪ V).
Proof.
  intros HV Hnin Hsucc. split.
  - destruct HV as [Hc _]. set_solver.
  - intros k [->%elem_of_singleton|Hk]%elem_of_union Hcyc; [|by eapply (proj2 HV)].
    apply Hnin. apply tc_rtc in Hcyc as Hr. inversion Hcyc as [?? Hs|? y ? Hs Ht]; subst; [by apply Hsucc|].
    eapply settled_rtc; [done|by apply Hsucc|by apply tc_rtc].
Qed.

(** What one successful visit establishes. *)
Definition visitPost (keys : list string) st st' : Prop :=
  settled (visited st) → visited st ## visiting st →
  settled (visited st') ∧ visited st ⊆ visited st' ∧ visited st' ## visiting st' ∧
  (∀ k, k ∈ keys → k ∈ visited st').

Lemma visitAll_post fuel keys st st' :
  (∀ k st st', visit fuel byKey k st = Some (Ok st') → visitPost [k] st st') →
  visitAll (visit fuel byKey) keys st = Some (Ok st') → visitPost keys st st'.
Proof.
  intros H1. revert st. induction keys as [|k keys IH]; intros st H; simplify_eq/=.
  { intros ??. split_and!; [done..|set_solver]. }
  destruct (visit fuel byKey k st) as [[st1|]|] eqn:Hv; simplify_eq.
  intros HV Hd. destruct (H1 _ _ _ Hv HV Hd) as (HV1&?&Hd1&?).
  destruct (IH _ H HV1 Hd1) as (?&?&?&?). split_and!; [done|set_solver..].
Qed.

Lemma visit_post fuel key st st' :
  visit fuel byKey key st = Some (Ok st') → visitPost [key] st st'.
Proof.
  revert key st st'. induction fuel as [|fuel IH]; intros key st st'; simpl; [done|].
  case_bool_decide; [done|]. case_bool_decide.
  { intros; simplify_eq. intros ??. split_and!; [done..|set_solver]. }
  destruct (visitAll _ _ _) as [[st1|]|] eqn:Hv; intros; simplify_eq.
  intros HV Hd. pose proof (visitAll_visiting _ _ _ _ Hv) as Hvis; simpl in Hvis.
  apply (visitAll_post _ _ _ _ IH) in Hv.
  destruct (Hv HV) as (?&?&?&Hk); simpl in *; [set_solver|].
  split_and!; [|set_solver..].
  apply settled_add; [done|set_solver|]. intros k' Hk'. by apply Hk.
Qed.

(** A failing visit has closed a cycle. *)
Definition foundCycle (e : error) : Prop := e = errCycle ∧ ∃ k, tc dependsOn k k.

Lemma visitAll_err fuel keys st e :
  (∀ k st, visit fuel byKey k st = Some (Err e) →
    (∀ s, s ∈ visiting st → tc dependsOn s k) → foundCycle e) →
  visitAll (visit fuel byKey) keys st = Some (Err e) →
  (∀ s k, s ∈ visiting st → k ∈ keys → tc dependsOn s k) → foundCycle e.
Proof.
  intros H1. revert st. induction keys as [|k keys IH]; intros st Ha Hs; simplify_eq/=.
  destruct (visit fuel byKey k st) as [[st2|]|] eqn:Hv1; simplify_eq.
  - eapply IH; [done|]. erewrite visit_visiting by done. set_solver.
  - eapply H1; [done|]. set_solver.
Qed.

Lemma visit_err fuel key st e :
  visit fuel byKey key st = Some (Err e) →
  (∀ s, s ∈ visiting st → tc dependsOn s key) → foundCycle e.
Proof.
  revert key st. induction fuel as [|fuel IH]; intros key st; simpl; [done|].
  unfold foundCycle. case_bool_decide; [naive_solver|]. case_bool_decide; [done|].
  intros Hv Hstack. destruct (visitAll _ _ _) as [[st1|]|] eqn:Ha; simplify_eq.
  eapply visitAll_err; [done|done|]. intros s k; simpl.
  intros [->%elem_of_singleton|?]%elem_of_union Hk; [by apply tc_once|].
  eapply tc_r; [by apply Hstack|done].
Qed.

Lemma checkAcyclic_ok : checkAcyclic byKey = Ok tt ↔ ∀ k, ¬ tc dependsOn k k.
Proof.
  unfold checkAcyclic. assert (size byKey < S (size byKey))%nat as Hfuel by lia.
  revert Hfuel. generalize (S (size byKey)) as fuel. intros fuel Hfuel.
  destruct (visitAll _ _ _) as [[st|e]|] eqn:Hv.
  - split; [intros _|done].
    pose proof (visitAll_post _ _ _ _ (visit_post _) Hv) as Hpost.
    destruct Hpost as ((_ & Hac)&_&_&Hall); [split; set_solver|set_solver|].
    intros k Hcyc. apply (Hac k); [|done]. apply Hall.
    assert (∃ k', dependsOn k k') as [k' Hk] by (inversion Hcyc; eauto).
    apply dependsOn_dom in Hk. apply elem_of_dom in Hk as [r Hr].
    apply list_elem_of_fmap. exists (k, r). split; [done|]. by apply elem_of_map_to_list.
  - split; [done|]. intros Hac. exfalso.
    eapply visitAll_err in Hv as [_ [k Hk]]; [by eapply Hac|eauto using visit_err|set_solver].
  - exfalso. revert Hv. apply visitAll_total; [intros; by apply visit_total|].
    simpl. by rewrite difference_empty_L, size_dom.
Qed.
End search.

(** ** The catalog admits no cycle *)

(** How far a kind is above the backend incarnation. *)
Definition kindRank (k : ResourceKind) : nat :=
  if bool_decide (k ∈ [KindRunSession; KindWorkspaceHostProvider; KindNetworkService;
                       KindMaterializationLive]) then 1
  else if bool_decide (k ∈ [KindGuestSupervisor; KindBrokerListener; KindHostFSReadProvider;
                            KindWorkspaceGuestView; KindRunBridge]) then 2
  else if bool_decide (k ∈ [KindGuestTarget; KindHostFSLiveGrant]) then 3
  else 0.

Lemma Lookup_rank k d rule :
  Lookup k = Some d → rule ∈ d_Dependencies d → (kindRank (rule_Kind rule) < kindRank k)%nat.
Proof.
  unfold Lookup. intros [Hin Hk]%List.find_some Hr. apply String.eqb_eq in Hk as <-.
  assert (forallb (λ d, forallb (λ rule, Nat.ltb (kindRank (rule_Kind rule)) (kindRank (d_Kind d)))
    (d_Dependencies d)) productionCatalog = true) as Hall by by vm_compute.
  rewrite forallb_forall in Hall. specialize (Hall _ Hin). rewrite forallb_forall in Hall.
  apply Nat.ltb_lt, Hall. by apply list_elem_of_In.
Qed.

Lemma validateDependencies_ok d deps seen kinds :
  validateDependencies d deps seen = Ok kinds →
  Forall (λ dep, ResourceRef_Validate (dep_Ref dep) = Ok tt ∧
    ∃ rule, rule ∈ d_Dependencies d ∧ rule_Kind rule = rr_Kind (dep_Ref dep) ∧
            dep_StopMode dep ∈ rule_Modes rule) deps.
Proof.
  revert seen. induction deps as [|dep deps IH]; intros seen; simpl; [by constructor|].
  destruct (ResourceRef_Validate (dep_Ref dep)) as [[]|] eqn:Hv; simpl; [|done].
  case_bool_decide; [done|]. destruct (existsb _ _) eqn:He; [|done].
  intros H2. constructor; [|by eapply IH]. split; [done|].
  apply existsb_exists in He as (rule & Hin & Hr). bool_prop. exists rule.
  split_and!; [by apply list_elem_of_In|done|done].
Qed.

Lemma validateResource_ok r p :
  validateResource r p = Ok tt →
  ResourceRef_Validate (res_Ref r) = Ok tt ∧
  ∃ d kinds, Lookup (rr_Kind (res_Ref r)) = Some d ∧
    validateDependencies d (res_Dependencies r) [] = Ok kinds.
Proof.
  unfold validateResource.
  destruct (ResourceRef_Validate (res_Ref r)) as [[]|]; [|done]; simpl.
  destruct (OwnerRef_Validate (res_Owner r)); [|done]; simpl.
  destruct (Lookup _) as [d|]; [|done].
  do 3 (case_match; [done|]).
  destruct (validateDependencies _ _ _) as [kinds|] eqn:?; [|done].
  naive_solver.
Qed.

Lemma Key_kind r1 r2 :
  ResourceRef_Validate r1 = Ok tt → ResourceRef_Validate r2 = Ok tt →
  Key r1 = Key r2 → rr_Kind r1 = rr_Kind r2.
Proof.
  intros (Hk1&_&_)%ResourceRef_Validate_ok (Hk2&_&_)%ResourceRef_Validate_ok H.
  apply (sep_inj is_id_char) in H as [H _]; auto using idPattern_id_chars.
Qed.

Section ranked.
Context (rs : list Resource) (p : bool).
Context (Hvalid : Forall (λ r, validateResource r p = Ok tt) rs) (Hnd : NoDup (rkey <$> rs)).

Lemma dependsOn_rank k k' r r' :
  dependsOn (indexAll rs) k k' → indexAll rs !! k = Some r → indexAll rs !! k' = Some r' →
  (kindRank (rr_Kind (res_Ref r')) < kindRank (rr_Kind (res_Ref r)))%nat.
Proof.
  unfold dependsOn, dependenciesOf. intros Hd Hr Hr'. rewrite Hr in Hd.
  apply list_elem_of_fmap in Hd as (dep & -> & Hdep).
  apply indexAll_lookup in Hr as [Hr _], Hr' as [Hr' Hk']; [|done..].
  rewrite Forall_forall in Hvalid.
  destruct (validateResource_ok _ _ (Hvalid _ Hr)) as (_ & d & kinds & Hl & Hds).
  destruct (validateResource_ok _ _ (Hvalid _ Hr')) as (Hv' & _).
  apply validateDependencies_ok in Hds. rewrite Forall_forall in Hds.
  destruct (Hds _ Hdep) as (Hv & rule & Hrule & Hkind & _).
  rewrite (Key_kind _ _ Hv' Hv Hk'), <-Hkind. by eapply Lookup_rank.
Qed.

Lemma catalog_acyclic k : ¬ tc (dependsOn (indexAll rs)) k k.
Proof.
  intros Hcyc.
  assert (∀ k k', tc (dependsOn (indexAll rs)) k k' → ∀ r r', indexAll rs !! k = Some r →
    indexAll rs !! k' = Some r' → (kindRank (rr_Kind (res_Ref r')) < kindRank (rr_Kind (res_Ref r)))%nat) as Hrank.
  { induction 1 as [k1 k2 H|k1 k2 k3 H Ht IH]; intros r r' Hr Hr'; [by eapply dependsOn_rank|].
    assert (k2 ∈ dom (indexAll rs)) as Hk2 by (inversion Ht; eauto using dependsOn_dom).
    apply elem_of_dom in Hk2 as [r2 Hr2]. pose proof (dependsOn_rank _ _ _ _ H Hr Hr2).
    pose proof (IH _ _ Hr2 Hr'). lia. }
  assert (k ∈ dom (indexAll rs)) as Hk by (inversion Hcyc; eauto using dependsOn_dom).
  apply elem_of_dom in Hk as [r Hr]. pose proof (Hrank _ _ Hcyc _ _ Hr Hr). lia.
Qed.
End ranked.

(** ** What graph validation accepts *)

Lemma ValidateGraph_iff rs production :
  ValidateGraph rs production = Ok tt ↔
  Forall (λ r, validateResource r production = Ok tt) rs ∧ NoDup (rkey <$> rs) ∧
  (∀ r d, r ∈ rs → d ∈ res_Dependencies r → ∃ r', r' ∈ rs ∧ rkey r' = depKey d).
Proof.
  unfold ValidateGraph.
  destruct (indexResources rs production ∅) as [byKey|e] eqn:Hi; simpl.
  - apply indexResources_ok in Hi as (Hval&Hnd&_&->). fold (indexAll rs).
    pose proof (dependenciesPresent_ok (indexAll rs) rs) as Hdp.
    assert ((∀ r d, r ∈ rs → d ∈ res_Dependencies r → is_Some (indexAll rs !! depKey d)) ↔
      (∀ r d, r ∈ rs → d ∈ res_Dependencies r → ∃ r', r' ∈ rs ∧ rkey r' = depKey d)) as Hiff.
    { unfold is_Some. setoid_rewrite indexAll_lookup; [|done]. done. }
    destruct (dependenciesPresent _ rs); simpl; [rewrite checkAcyclic_ok|]; [|naive_solver].
    pose proof (catalog_acyclic rs production Hval Hnd). naive_solver.
  - split; [done|]. intros (Hval&Hnd&_).
    assert (indexResources rs production ∅ = Ok (indexAll rs)) as Heq; [|congruence].
    apply indexResources_ok. split_and!; [done|done|set_solver|done].
Qed.

(** [ValidateGraph] accepts a resource list exactly when every resource is
    valid against the closed catalog, keys are unique, every dependency is in
    the list, and no resource depends on itself through any chain of
    dependencies.  In particular the verdict does not depend on the iteration
    order of the Go map. *)
Theorem ValidateGraph_spec rs production :
  ValidateGraph rs production = Ok tt ↔
  Forall (λ r, validateResource r production = Ok tt) rs ∧
  NoDup (rkey <$> rs) ∧
  (∀ r d, r ∈ rs → d ∈ res_Dependencies r → ∃ r', r' ∈ rs ∧ rkey r' = depKey d) ∧
  (∀ k, ¬ tc (dependsOn (indexAll rs)) k k).
Proof.
  rewrite ValidateGraph_iff. split; [|naive_solver].
  intros (?&?&?). split_and!; [done..|]. by eapply catalog_acyclic.
Qed.

(** The closed catalog rules out dependency cycles: on resources that pass
    [validateResource], the depth-first search of [ValidateGraph] never
    reports a cycle, so the cycle check is pure defence in depth. *)
Theorem ValidateGraph_never_cyclic rs production : ValidateGraph rs production ≠ Err errCycle.
Proof.
  unfold ValidateGraph.
  destruct (indexResources rs production ∅) as [byKey|e] eqn:Hi; simpl.
  - apply indexResources_ok in Hi as (Hval&Hnd&_&->). fold (indexAll rs).
    destruct (dependenciesPresent _ _); simpl; [|done].
    rewrite (proj2 (checkAcyclic_ok (indexAll rs))); [done|]. by eapply catalog_acyclic.
  - intros [= ->]. clear -Hi. revert Hi. generalize (∅ : gmap string Resource).
    induction rs as [|r rs IH]; intros m; simpl; [done|].
    destruct (validateResource r production); [|done].
    destruct (m !! rkey r); [done|]. apply IH.
Qed.

(** ** The stop mode of a path *)

Definition isPin (d : DependencySpec) : bool := bool_decide (dep_StopMode d = StopModePin).

(** A chain of dependencies from [k] down to the root, and whether it has a
    pinning edge. *)
Inductive rootPath byKey (root : string) : string → bool → Prop :=
  | rootPath_direct k d :
      d ∈ dependenciesOf byKey k → depKey d = root → rootPath byKey root k (isPin d)
  | rootPath_step k d b :
      d ∈ dependenciesOf byKey k → depKey d ≠ root → rootPath byKey root (depKey d) b →
      rootPath byKey root k (isPin d || b).

(** The pair returned for [k] says whether a path exists and whether one pins. *)
Definition modeSpec (P : bool → Prop) (r : StopMode * bool) : Prop :=
  (r.2 = true ↔ ∃ b, P b) ∧ (r.1 = StopModePin ↔ P true) ∧
  (r.2 = true → r.1 = StopModePin ∨ r.1 = StopModeDrain) ∧ (r.2 = false → r.1 = noMode).

Section path.
Context (byKey : gmap string Resource) (root : string).

(** The paths that start with one of the dependencies [deps]. *)
Definition pathVia (deps : list DependencySpec) (b : bool) : Prop :=
  ∃ d, d ∈ deps ∧
    ((depKey d = root ∧ b = isPin d) ∨
     (depKey d ≠ root ∧ ∃ b', rootPath byKey root (depKey d) b' ∧ b = isPin d || b')).

Lemma rootPath_via k b : rootPath byKey root k b ↔ pathVia (dependenciesOf byKey k) b.
Proof.
  split.
  - inversion 1; subst; unfold pathVia; naive_solver.
  - intros (d & Hd & [[? ->]|(?&b'&?&->)]); [by constructor|by eapply rootPath_step].
Qed.

Lemma pathVia_cons d deps b : pathVia (d :: deps) b ↔ pathVia [d] b ∨ pathVia deps b.
Proof. unfold pathVia. set_solver. Qed.

Lemma pathVia_single d b :
  pathVia [d] b ↔
  (depKey d = root ∧ b = isPin d) ∨
  (depKey d ≠ root ∧ ∃ b', rootPath byKey root (depKey d) b' ∧ b = isPin d || b').
Proof. unfold pathVia. setoid_rewrite list_elem_of_singleton. naive_solver. Qed.

Lemma isPin_true d : isPin d = true ↔ dep_StopMode d = StopModePin.
Proof. apply bool_decide_eq_true. Qed.

Lemma edgeMode_spec child d :
  (depKey d ≠ root →
    ∃ r, child (depKey d) = Some r ∧ modeSpec (rootPath byKey root (depKey d)) r) →
  ∃ r, edgeMode child root d = Some r ∧ (r.2 = true ↔ ∃ b, pathVia [d] b) ∧
    (r.2 = true → (r.1 = StopModePin ↔ pathVia [d] true)).
Proof.
  intros Hchild. unfold edgeMode. setoid_rewrite pathVia_single. pose proof (isPin_true d) as Hisp.
  destruct (String.eqb_spec (depKey d) root) as [Heq|Hne].
  - eexists; split; [done|]; simpl. destruct (isPin d); naive_solver.
  - destruct (Hchild Hne) as ([cm cf] & -> & Hs).
    eexists; split; [done|]. destruct Hs as (Hf & Hp & _); simpl in *.
    split; [naive_solver|]. intros ->.
    case_bool_decide; destruct (isPin d); naive_solver.
Qed.

Lemma pathLoop_spec child deps best :
  (∀ d, d ∈ deps → depKey d ≠ root →
    ∃ r, child (depKey d) = Some r ∧ modeSpec (rootPath byKey root (depKey d)) r) →
  best = noMode ∨ best = StopModeDrain →
  ∃ r, pathLoop child root deps best = Some r ∧
    modeSpec (λ b, (best = StopModeDrain ∧ b = false) ∨ pathVia deps b) r.
Proof.
  revert best. induction deps as [|d deps IH]; intros best Hchild Hbest; simpl.
  { eexists; split; [done|]. unfold modeSpec; simpl.
    assert (∀ b, ¬ pathVia [] b) by (intros b (d & []%elem_of_nil & _)).
    destruct Hbest as [-> | ->]; simpl; naive_solver. }
  destruct (edgeMode_spec child d) as ([mode found] & -> & Hfound & Hpin).
  { intros Hne. apply Hchild; [left|done]. }
  simpl in *. pose proof (pathVia_cons d deps) as Hcons.
  destruct found; simpl.
  - case_bool_decide as Hm; subst.
    + eexists; split; [done|]. unfold modeSpec; simpl. naive_solver.
    + destruct (IH StopModeDrain) as (r & -> & Hr); [set_solver|by right|].
      eexists; split; [done|]. unfold modeSpec in *. destruct Hr as (?&?&?&?).
      assert (¬ pathVia [d] true) by naive_solver.
      assert (pathVia [d] false).
      { destruct (proj1 Hfound eq_refl) as [[] ?]; naive_solver. }
      split_and!; [naive_solver|naive_solver|naive_solver|naive_solver].
  - destruct (IH best) as (r & -> & Hr); [set_solver|done|].
    eexists; split; [done|]. unfold modeSpec in *. destruct Hr as (?&?&?&?).
    split_and!; [naive_solver..].
Qed.

Lemma pathMode_spec fuel k seen :
  (∀ k, ¬ tc (dependsOn byKey) k k) →
  (∀ s, s ∈ seen → tc (dependsOn byKey) s k) → (size (dom byKey ∖ seen) < fuel)%nat →
  ∃ r, pathMode fuel k root byKey seen = Some r ∧ modeSpec (rootPath byKey root k) r.
Proof.
  intros Hac. revert k seen. induction fuel as [|fuel IH]; intros k seen Hseen Hfuel; [lia|]; simpl.
  rewrite bool_decide_eq_false_2 by (intros ?; by eapply Hac, Hseen).
  destruct (pathLoop_spec (λ k', pathMode fuel k' root byKey ({[k]} ∪ seen))
    (dependenciesOf byKey k) noMode) as (r & Hr & Hs); [|by left|].
  - intros d Hd _. assert (dependsOn byKey k (depKey d)) as Hdep by by apply list_elem_of_fmap_2.
    apply IH.
    + intros s [->%elem_of_singleton|?]%elem_of_union; [by apply tc_once|].
      eapply tc_r; [by apply Hseen|done].
    + apply dependsOn_dom in Hdep.
      enough (size (dom byKey ∖ ({[k]} ∪ seen)) < size (dom byKey ∖ seen))%nat by lia.
      apply subset_size. assert (k ∉ seen) by (intros ?; by eapply Hac, Hseen). set_solver.
  - exists r. split; [done|]. unfold modeSpec in *. setoid_rewrite rootPath_via. naive_solver.
Qed.

(** on an acyclic graph the recursive search of [pathMode] terminates
    within its fuel and is exact: it reports a path to the root if and only if
    there is a chain of dependencies to the root, and reports the mode [pin]
    if and only if some such chain contains a pinning edge. *)
Theorem pathMode_correct k :
  (∀ k, ¬ tc (dependsOn byKey) k k) →
  ((pathModeOf k root byKey).2 = true ↔ ∃ b, rootPath byKey root k b) ∧
  ((pathModeOf k root byKey).1 = StopModePin ↔ rootPath byKey root k true) ∧
  ((pathModeOf k root byKey).2 = true →
    (pathModeOf k root byKey).1 = StopModePin ∨ (pathModeOf k root byKey).1 = StopModeDrain).
Proof.
  intros Hac. unfold pathModeOf.
  destruct (pathMode_spec (S (size byKey)) k ∅ Hac) as (r & -> & Hr).
  - set_solver.
  - rewrite difference_empty_L, size_dom. lia.
  - unfold modeSpec in Hr. naive_solver.
Qed.
End path.

(** ** The stop predicate *)

(** A resource other than the root that keeps the VM from being stopped:
    it may be live and either sits on a dependency chain to the root, or is an
    orphan whose dependency on the VM could not be disproved. *)
Definition keepsVM byKey (rootKey : string) (r : Resource) : Prop :=
  IsPossiblyLive r = true ∧ rkey r ≠ rootKey ∧
  ((∃ b, rootPath byKey rootKey (rkey r) b) ∨
   (res_State r = StateOrphaned ∧ res_PossibleVMDependency r = true)).

(** The part of [keepsVM] that cannot be drained before the stop. *)
Definition pinsVM byKey (rootKey : string) (r : Resource) : Prop :=
  keepsVM byKey rootKey r ∧
  (res_State r = StateOrphaned ∨ rootPath byKey rootKey (rkey r) true).

Section classification.
Context (byKey : gmap string Resource) (rootKey : string).
Context (Hac : ∀ k, ¬ tc (dependsOn byKey) k k).

Lemma pathModeOf_spec k : modeSpec (rootPath byKey rootKey k) (pathModeOf k rootKey byKey).
Proof.
  unfold pathModeOf.
  destruct (pathMode_spec byKey rootKey (S (size byKey)) k ∅ Hac) as (r & -> & Hr); [set_solver| |done].
  rewrite difference_empty_L, size_dom. lia.
Qed.

Lemma classify_pin r : classify byKey rootKey r = ClassPin ↔ pinsVM byKey rootKey r.
Proof.
  unfold classify, pinsVM, keepsVM. pose proof (pathModeOf_spec (rkey r)) as (Hf&Hp&_&Hn).
  destruct (pathModeOf _ _ _) as [mode found]; simpl in *.
  destruct (IsPossiblyLive r); simpl; [|naive_solver].
  destruct (String.eqb_spec (rkey r) rootKey); simpl; [naive_solver|].
  destruct (decide (res_State r = StateOrphaned)) as [Ho|Ho];
    [rewrite (bool_decide_eq_true_2 _ Ho)|rewrite (bool_decide_eq_false_2 _ Ho)];
    destruct found, (res_PossibleVMDependency r); simpl; try case_bool_decide; naive_solver.
Qed.

Lemma classify_drain r :
  classify byKey rootKey r = ClassDrain ↔ keepsVM byKey rootKey r ∧ ¬ pinsVM byKey rootKey r.
Proof.
  unfold classify, pinsVM, keepsVM. pose proof (pathModeOf_spec (rkey r)) as (Hf&Hp&_&Hn).
  destruct (pathModeOf _ _ _) as [mode found]; simpl in *.
  destruct (IsPossiblyLive r); simpl; [|naive_solver].
  destruct (String.eqb_spec (rkey r) rootKey); simpl; [naive_solver|].
  destruct (decide (res_State r = StateOrphaned)) as [Ho|Ho];
    [rewrite (bool_decide_eq_true_2 _ Ho)|rewrite (bool_decide_eq_false_2 _ Ho)];
    destruct found, (res_PossibleVMDependency r); simpl; try case_bool_decide; naive_solver.
Qed.

Lemma classified_elem c rs ref :
  ref ∈ classified byKey rootKey c rs ↔ ∃ r, r ∈ rs ∧ res_Ref r = ref ∧ classify byKey rootKey r = c.
Proof.
  unfold classified. rewrite sort_by_elem_of, list_elem_of_fmap.
  setoid_rewrite list_elem_of_filter. naive_solver.
Qed.

Lemma classified_nil c rs :
  classified byKey rootKey c rs = [] ↔ ∀ r, r ∈ rs → classify byKey rootKey r ≠ c.
Proof.
  split.
  - intros Hnil r Hr Hc. assert (res_Ref r ∈ classified byKey rootKey c rs) as Hin
      by (apply classified_elem; eauto). rewrite Hnil in Hin. by apply elem_of_nil in Hin.
  - intros Hno. destruct (classified byKey rootKey c rs) as [|ref l] eqn:Heq; [done|].
    assert (ref ∈ classified byKey rootKey c rs) as Hin by (rewrite Heq; left).
    apply classified_elem in Hin as (r & ? & ? & ?). exfalso. naive_solver.
Qed.
End classification.

Lemma reason_if_nil b s : reason_if b s = [] ↔ b = false.
Proof. by destruct b. Qed.

(** The exact running incarnation was observed. *)
Definition observedRunning (o : LifecycleObservation) (inc : EnvironmentRef) : Prop :=
  obs_State o = LifecycleRunning ∧ obs_InstanceName o = er_InstanceName inc ∧
  obs_BootID o = er_BootID inc.

Lemma EvaluateAutoStop_ok input ev :
  EvaluateAutoStop input = Ok ev →
  let byKey := indexAll (in_Resources input) in
  let rootKey := rootKeyOf (in_Incarnation input) (in_Resources input) in
  rootKey ≠ "" ∧ (∀ k, ¬ tc (dependsOn byKey) k k) ∧
  ev_Pins ev = classified byKey rootKey ClassPin (in_Resources input) ∧
  ev_Drains ev = classified byKey rootKey ClassDrain (in_Resources input) ∧
  (ev_Allowed ev = true ↔
    observedRunning (in_Observation input) (in_Incarnation input) ∧ ev_Pins ev = [] ∧ ev_Drains ev = [] ∧
    in_TransitionInFlight input = false ∧ in_GraceExpired input = true ∧
    in_ReconciliationComplete input = true ∧ in_CurrentDaemonOwnsAttempt input = true).
Proof.
  unfold EvaluateAutoStop. cbv zeta.
  destruct (EnvironmentRef_Validate _ _); [|done]; simpl.
  destruct (Observation_Validate _); [|done]; simpl.
  destruct (ValidateGraph _ _) as [[]|] eqn:Hg; [|done]; simpl.
  destruct (String.eqb_spec (rootKeyOf (in_Incarnation input) (in_Resources input)) "") as [|Hne]; [done|].
  intros [= <-]; simpl. apply ValidateGraph_iff in Hg as (Hv & Hnd & _).
  split_and!; [done|by eapply catalog_acyclic|done|done|].
  rewrite bool_decide_eq_true, !app_nil, !reason_if_nil, !orb_false_iff, !negb_false_iff,
    !bool_decide_eq_true, !String.eqb_eq. unfold observedRunning. naive_solver.
Qed.

(** Automatic stop is allowed exactly when the current incarnation was
    itself observed running, no other possibly-live resource has a dependency
    chain to the root and no orphan has an undisproved VM dependency, no
    transition is in flight, the grace period has expired, reconciliation is
    complete and this daemon owns the attempt. *)
Theorem EvaluateAutoStop_allowed_iff input ev :
  EvaluateAutoStop input = Ok ev →
  ev_Allowed ev = true ↔
  observedRunning (in_Observation input) (in_Incarnation input) ∧
  (∀ r, r ∈ in_Resources input →
    ¬ keepsVM (indexAll (in_Resources input))
        (rootKeyOf (in_Incarnation input) (in_Resources input)) r) ∧
  in_TransitionInFlight input = false ∧ in_GraceExpired input = true ∧
  in_ReconciliationComplete input = true ∧ in_CurrentDaemonOwnsAttempt input = true.
Proof.
  intros (_ & Hac & Hp & Hd & ->)%EvaluateAutoStop_ok. rewrite Hp, Hd, !classified_nil.
  setoid_rewrite (classify_pin _ _ Hac). setoid_rewrite (classify_drain _ _ Hac).
  unfold pinsVM. split; [|naive_solver].
  intros (?&Hnp&Hnd&?&?&?&?). split_and!; [done| |done..].
  intros r Hr Hk. apply (Hnd r Hr). split; [done|]. by apply Hnp.
Qed.

(** the pins reported by the evaluation are exactly the resources that
    keep the VM and cannot be drained, the drains exactly the others that keep
    it; both lists are sorted by key. *)
Theorem EvaluateAutoStop_classes input ev :
  EvaluateAutoStop input = Ok ev →
  let byKey := indexAll (in_Resources input) in
  let rootKey := rootKeyOf (in_Incarnation input) (in_Resources input) in
  (∀ ref, ref ∈ ev_Pins ev ↔
    ∃ r, r ∈ in_Resources input ∧ res_Ref r = ref ∧ pinsVM byKey rootKey r) ∧
  (∀ ref, ref ∈ ev_Drains ev ↔
    ∃ r, r ∈ in_Resources input ∧ res_Ref r = ref ∧ keepsVM byKey rootKey r ∧ ¬ pinsVM byKey rootKey r) ∧
  StronglySorted (λ a b, String.le (Key a) (Key b)) (ev_Pins ev) ∧
  StronglySorted (λ a b, String.le (Key a) (Key b)) (ev_Drains ev).
Proof.
  intros (_ & Hac & -> & -> & _)%EvaluateAutoStop_ok.
  split_and!; [intros ref; rewrite classified_elem..|apply sort_by_sorted|apply sort_by_sorted].
  - by setoid_rewrite (classify_pin _ _ Hac).
  - by setoid_rewrite (classify_drain _ _ Hac).
Qed.

(** ** A concrete environment *)

Module Sample.

Definition boot : string := "0a1b2c3d-0000-1111-2222-0123456789ab".
Definition now : Time := mkTime 1000 0.
Definition inc : EnvironmentRef := mkEnvRef "env" 1 "vm" boot.
Definition obs : LifecycleObservation := mkObs LifecycleRunning "vm" boot now "".
Definition rootRef : ResourceRef := mkRef KindBackendIncarnation "env" 1.
Definition root : Resource :=
  mkResource rootRef (mkOwnerRef "daemon" "d1" 1) StateActive [] PersistenceEphemeral
    CloseCoTerminateWithRoot (Some inc) false now.
Definition sessionRef : ResourceRef := mkRef KindRunSession "s1" 1.
Definition session : Resource :=
  mkResource sessionRef (mkOwnerRef "daemon" "d1" 1) StateActive [mkDep rootRef StopModePin]
    PersistenceEphemeral CloseCoTerminateWithRoot None true now.
Definition supervisor : Resource :=
  mkResource (mkRef KindGuestSupervisor "s1" 1) (mkOwnerRef "session" "s1" 1) StateActive
    [mkDep rootRef StopModeDrain; mkDep sessionRef StopModeDrain]
    PersistenceEphemeral ClosePreStopDrain None true now.
Definition network : Resource :=
  mkResource (mkRef KindNetworkService "n1" 1) (mkOwnerRef "manager" "m1" 1) StateActive
    [mkDep rootRef StopModeDrain] PersistenceEphemeral ClosePreStopDrain None false now.

Definition busy : EvaluationInput :=
  mkInput inc [root; session; supervisor; network] obs false true true true.
Definition idle : EvaluationInput := mkInput inc [root] obs false true true true.

End Sample.

Lemma pathMode_correct_witness :
  let byKey := indexAll [Sample.root; Sample.session; Sample.supervisor] in
  (∀ k, ¬ tc (dependsOn byKey) k k) ∧
  rootPath byKey (rkey Sample.root) (rkey Sample.supervisor) true.
Proof.
  set (byKey := indexAll _). cbv zeta.
  assert (∀ k, ¬ tc (dependsOn byKey) k k) as Hac.
  { apply (catalog_acyclic _ true); [repeat constructor|].
    apply (bool_decide_unpack _). by vm_compute. }
  split; [done|].
  apply (pathMode_correct byKey (rkey Sample.root) (rkey Sample.supervisor) Hac).
  by vm_compute.
Defined.

Lemma EvaluateAutoStop_allowed_iff_witness :
  ∃ ev, EvaluateAutoStop Sample.idle = Ok ev ∧
    ∀ r, r ∈ in_Resources Sample.idle →
      ¬ keepsVM (indexAll [Sample.root]) (rkey Sample.root) r.
Proof.
  eexists. split; [by vm_compute|].
  apply (proj1 (EvaluateAutoStop_allowed_iff Sample.idle (mkEvaluation true [] [] []) eq_refl) eq_refl).
Defined.

Lemma EvaluateAutoStop_classes_witness :
  ∃ ev, EvaluateAutoStop Sample.busy = Ok ev ∧
    pinsVM (indexAll (in_Resources Sample.busy)) (rkey Sample.root) Sample.supervisor.
Proof.
  set (r := EvaluateAutoStop Sample.busy).
  assert (∃ ev, r = Ok ev ∧ res_Ref Sample.supervisor ∈ ev_Pins ev) as (ev & Hev & Hin).
  { vm_compute in r. eexists. split; [done|]. simpl. repeat constructor. }
  exists ev. split; [done|].
  destruct (EvaluateAutoStop_classes Sample.busy ev Hev) as (Hpins & _).
  apply Hpins in Hin as (r' & Hr' & Heq & Hp).
  assert (r' = Sample.supervisor) as ->; [|done].
  revert Hr' Heq. clear. unfold Sample.busy; simpl. intros Hr' Heq.
  repeat (apply elem_of_cons in Hr' as [->|Hr']; [try done|]). by apply elem_of_nil in Hr'.
Defined.
