(* ===== verification/LifecycleJournal.v ===== *)
(** * Lifecycle: the durable journal

    [internal/lifecycle/journal.go] and [disposal.go]: the journal of one
    environment with its validation, the disposal intent and its phases, and
    the journal store.  The store's files are a map from environment ids to
    journals; the JSON text in between is not modelled.  A file operation ends
    in one of three ways: it succeeds, it fails with the file unchanged, or it
    fails after the file has changed (a rename followed by a failed directory
    sync, or an unlink followed by a failed directory removal).  A refusal by
    the size bound, a permission check or the JSON codec is a failure with the
    file unchanged. *)
From Stdlib Require Import Ascii.
From S2P Require Import Prelude GoStrings GoTime LifecycleModel LifecycleGraph.
Open Scope Z_scope.

(** ** Bounds *)

Definition JournalSchema : string := "hideout.lifecycle-journal/v1".
Definition maxJournalResources : nat := 256.
Definition maxJournalFacts : nat := 64.
Definition maxResourceDeps : nat := 32.

(** ** Disposal (disposal.go) *)

Definition DisposalIntentSchema : string := "hideout.disposal-intent/v1".
Definition DisposalAuthorityRunRM : string := "run-rm".
Definition DisposalAuthorityEnvironmentClean : string := "environment-clean".
Definition DisposalAuthorityEnvironmentDelete : string := "environment-delete".

Definition DisposalStatePlanned : string := "planned".
Definition DisposalStateBackendAbsent : string := "backend-absent".
Definition DisposalStateMetadataCleaning : string := "metadata-cleaning".
Definition DisposalStateBlocked : string := "blocked".

Definition disposalReasonCodes : list string :=
  [ "record-retention-failed"; "backend-observation-unproved"; "backend-cleanup-failed";
    "backend-absence-unproved"; "backend-absence-checkpoint-failed"; "owner-metadata-unprovable";
    "owner-metadata-cleanup-failed"; "runtime-cleanup-failed"; "gateway-cleanup-failed";
    "activity-cleanup-failed"; "metadata-checkpoint-failed"; "record-removal-failed";
    "journal-removal-failed"; "backend-provider-unavailable"; "missing-record-backend-not-absent";
    "missing-record-intent-state-invalid" ].

Record DisposalIntent := mkIntent {
  di_Schema : string; di_Authority : string; di_Backend : string; di_InstanceName : string;
  di_RecordDigest : string; di_ActivitySessionID : string; di_Generation : Z;
  di_State : string; di_RequestedAt : Time; di_UpdatedAt : Time; di_ReasonCode : string }.
#[global] Instance DisposalIntent_eq_dec : EqDecision DisposalIntent.
Proof. solve_decision. Defined.
#[global] Instance DisposalIntent_eta : Eta DisposalIntent := λ d,
  mkIntent (di_Schema d) (di_Authority d) (di_Backend d) (di_InstanceName d) (di_RecordDigest d)
    (di_ActivitySessionID d) (di_Generation d) (di_State d) (di_RequestedAt d) (di_UpdatedAt d)
    (di_ReasonCode d).

Record DisposalRequest := mkDisposalRequest {
  dr_EnvironmentID : string; dr_Authority : string; dr_Backend : string;
  dr_InstanceName : string; dr_RecordDigest : string; dr_ActivitySessionID : string;
  dr_Generation : Z }.

Definition lowerHex (value : string) (length : nat) : bool :=
  (String.length value =? length)%nat && str_forall is_lower_hex value.

Definition validDisposalAuthority (value : string) : bool :=
  bool_decide (value ∈ [DisposalAuthorityRunRM; DisposalAuthorityEnvironmentClean;
                        DisposalAuthorityEnvironmentDelete]).

Definition validDisposalReasonCode (value : string) : bool :=
  bool_decide (value ∈ disposalReasonCodes).

Definition DisposalRequest_authority (r : DisposalRequest) : string :=
  if String.eqb (dr_Authority r) "" then DisposalAuthorityRunRM else dr_Authority r.

Definition DisposalRequest_validate (r : DisposalRequest) : res () :=
  if negb (idPattern (dr_EnvironmentID r)) ||
     negb (validDisposalAuthority (DisposalRequest_authority r)) ||
     negb (idPattern (dr_Backend r)) || negb (idPattern (dr_InstanceName r)) ||
     negb (lowerHex (dr_RecordDigest r) 64) ||
     (negb (String.eqb (dr_ActivitySessionID r) "") && negb (idPattern (dr_ActivitySessionID r)))
  then Err (ErrMsg "lifecycle disposal request identity is invalid") else Ok tt.

Definition DisposalIntent_Validate (d : DisposalIntent) (journalGeneration : Z) : res () :=
  if negb (String.eqb (di_Schema d) DisposalIntentSchema) || negb (validDisposalAuthority (di_Authority d))
  then Err (ErrMsg "lifecycle disposal authority is invalid")
  else if negb (idPattern (di_Backend d)) || negb (idPattern (di_InstanceName d))
  then Err (ErrMsg "lifecycle disposal backend identity is invalid")
  else if negb (String.eqb (di_ActivitySessionID d) "") && negb (idPattern (di_ActivitySessionID d))
  then Err (ErrMsg "lifecycle disposal activity identity is invalid")
  else if negb (lowerHex (di_RecordDigest d) 64)
  then Err (ErrMsg "lifecycle disposal record digest is invalid")
  else if (di_Generation d =? 0) || negb (di_Generation d =? journalGeneration)
  then Err (ErrMsg "lifecycle disposal generation mismatch")
  else if IsZero (di_RequestedAt d) || IsZero (di_UpdatedAt d) ||
          After (di_RequestedAt d) (di_UpdatedAt d) ||
          negb (isUTC (di_RequestedAt d)) || negb (isUTC (di_UpdatedAt d))
  then Err (ErrMsg "lifecycle disposal timestamps are invalid")
  else if bool_decide (di_State d ∈ [DisposalStatePlanned; DisposalStateBackendAbsent;
                                     DisposalStateMetadataCleaning])
  then if negb (String.eqb (di_ReasonCode d) "")
       then Err (ErrMsg "active lifecycle disposal intent cannot carry a reason") else Ok tt
  else if String.eqb (di_State d) DisposalStateBlocked
  then if negb (validDisposalReasonCode (di_ReasonCode d))
       then Err (ErrMsg "blocked lifecycle disposal intent requires a reason") else Ok tt
  else Err (ErrMsg "lifecycle disposal state is invalid").

(** The table of [ValidateDisposalTransition]. *)
Definition disposalAllowed (from : string) : list string :=
  if String.eqb from DisposalStatePlanned
  then [DisposalStatePlanned; DisposalStateBackendAbsent; DisposalStateBlocked]
  else if String.eqb from DisposalStateBackendAbsent
  then [DisposalStateBackendAbsent; DisposalStateMetadataCleaning; DisposalStateBlocked]
  else if String.eqb from DisposalStateMetadataCleaning
  then [DisposalStateMetadataCleaning; DisposalStateBlocked]
  else if String.eqb from DisposalStateBlocked
  then [DisposalStateBlocked; DisposalStatePlanned]
  else [].

Definition ValidateDisposalTransition (from to : string) : res () :=
  if bool_decide (to ∈ disposalAllowed from) then Ok tt
  else Err (ErrMsg "invalid lifecycle disposal transition").

(** ** Journal records (journal.go) *)

Record IdleDeadline := mkDeadline {
  dl_Incarnation : EnvironmentRef; dl_DaemonInstanceID : string;
  dl_ScheduledAt : Time; dl_Deadline : Time; dl_Generation : Z }.
#[global] Instance IdleDeadline_eq_dec : EqDecision IdleDeadline.
Proof. solve_decision. Defined.

Record ObservationSnapshot := mkSnapshot {
  os_State : string; os_ObservedAt : Time; os_ReasonCode : string }.
#[global] Instance ObservationSnapshot_eq_dec : EqDecision ObservationSnapshot.
Proof. solve_decision. Defined.

Record StopAttempt := mkAttempt {
  sa_ID : string; sa_Incarnation : EnvironmentRef; sa_DaemonInstanceID : string;
  sa_Mode : string; sa_State : string; sa_StartedAt : Time;
  sa_Observation : option ObservationSnapshot }.
#[global] Instance StopAttempt_eq_dec : EqDecision StopAttempt.
Proof. solve_decision. Defined.
#[global] Instance StopAttempt_eta : Eta StopAttempt := λ a,
  mkAttempt (sa_ID a) (sa_Incarnation a) (sa_DaemonInstanceID a) (sa_Mode a) (sa_State a)
    (sa_StartedAt a) (sa_Observation a).

Record Reconciliation := mkReconciliation {
  rc_DaemonInstanceID : string; rc_State : string; rc_ReasonCode : string; rc_ObservedAt : Time }.
#[global] Instance Reconciliation_eq_dec : EqDecision Reconciliation.
Proof. solve_decision. Defined.

Record Journal := mkJournal {
  j_Schema : string; j_EnvironmentID : string; j_StartGeneration : Z;
  j_Incarnation : option EnvironmentRef; j_Resources : list Resource; j_Facts : list Fact_;
  j_IdleDeadline : option IdleDeadline; j_StopAttempt : option StopAttempt;
  j_Disposal : option DisposalIntent; j_Reconciliation : Reconciliation; j_UpdatedAt : Time }.
#[global] Instance Journal_eq_dec : EqDecision Journal.
Proof. solve_decision. Defined.
#[global] Instance Journal_eta : Eta Journal := λ j,
  mkJournal (j_Schema j) (j_EnvironmentID j) (j_StartGeneration j) (j_Incarnation j)
    (j_Resources j) (j_Facts j) (j_IdleDeadline j) (j_StopAttempt j) (j_Disposal j)
    (j_Reconciliation j) (j_UpdatedAt j).

Definition blockedReconciliation (daemonID reasonCode : string) (observedAt : Time) : Reconciliation :=
  let reasonCode := boundedReason reasonCode in
  let reasonCode := if negb (idPattern reasonCode) then "reconciliation-unproved" else reasonCode in
  mkReconciliation daemonID "blocked" reasonCode (UTC observedAt).

(** [containsString]: the candidate is trimmed before the comparison. *)
Definition containsString (values : list string) (value : string) : bool :=
  bool_decide (TrimSpace value ∈ values).

Definition newJournal (environmentID daemonID : string) (generation : Z) (now : Time) : Journal :=
  mkJournal JournalSchema environmentID generation None [] [] None None None
    (mkReconciliation daemonID "pending" "" (UTC now)) (UTC now).

(** [validStaleJournalTempName]: [.journal-] and 1 to 20 digits. *)
Definition validStaleJournalTempName (name : string) : bool :=
  if negb (HasPrefix name ".journal-") then false
  else
    let suffix := TrimPrefix name ".journal-" in
    if (String.length suffix =? 0)%nat || (20 <? String.length suffix)%nat then false
    else str_forall is_digit suffix.

(** ** Journal validation *)

Definition validateJournalResource (j : Journal) (r : Resource) : res () :=
  if (maxResourceDeps <? length (res_Dependencies r))%nat || negb (IsPossiblyLive r)
  then Err (ErrMsg "lifecycle journal resource is invalid or terminal")
  else if negb (rr_Generation (res_Ref r) =? j_StartGeneration j) ||
          negb (or_Generation (res_Owner r) =? j_StartGeneration j)
  then Err (ErrMsg "lifecycle journal resource generation mismatch")
  else if existsb (λ d, negb (rr_Generation (dep_Ref d) =? j_StartGeneration j)) (res_Dependencies r)
  then Err (ErrMsg "lifecycle journal dependency generation mismatch")
  else if String.eqb (rr_Kind (res_Ref r)) KindBackendIncarnation &&
          negb (String.eqb (rr_ID (res_Ref r)) (j_EnvironmentID j))
  then Err (ErrMsg "lifecycle journal root identity mismatch")
  else Ok tt.

Definition validateJournalFact (j : Journal) (f : Fact_) : res () :=
  _ ← validateFact f;
  if j_StartGeneration j <? fact_Generation f
  then Err (ErrMsg "lifecycle journal fact generation mismatch") else Ok tt.

(** Validate each element, stopping at the first error. *)
Fixpoint check_each {A} (f : A → res ()) (l : list A) : res () :=
  match l with
  | [] => Ok tt
  | x :: l => _ ← f x; check_each f l
  end.

Definition validateIncarnation (j : Journal) : res () :=
  match j_Incarnation j with
  | None => Ok tt
  | Some inc =>
      _ ← EnvironmentRef_Validate inc (negb (String.eqb (er_BootID inc) ""));
      if negb (String.eqb (er_EnvironmentID inc) (j_EnvironmentID j)) ||
         negb (er_StartGeneration inc =? j_StartGeneration j)
      then Err (ErrMsg "lifecycle journal incarnation mismatch") else Ok tt
  end.

Definition validateIdleDeadline (j : Journal) : res () :=
  match j_IdleDeadline j with
  | None => Ok tt
  | Some dl =>
      if negb (is_ok (EnvironmentRef_Validate (dl_Incarnation dl) true)) || (dl_Generation dl =? 0) ||
         negb (idPattern (dl_DaemonInstanceID dl)) || IsZero (dl_ScheduledAt dl) ||
         negb (After (dl_Deadline dl) (dl_ScheduledAt dl))
      then Err (ErrMsg "lifecycle idle deadline is invalid")
      else if negb match j_Incarnation j with
                   | Some inc => EnvironmentRef_Equal (dl_Incarnation dl) inc
                   | None => false
                   end
      then Err (ErrMsg "lifecycle idle deadline incarnation mismatch")
      else Ok tt
  end.

Definition validateStopAttempt (j : Journal) : res () :=
  match j_StopAttempt j with
  | None => Ok tt
  | Some a =>
      if negb (is_ok (EnvironmentRef_Validate (sa_Incarnation a) true)) || negb (idPattern (sa_ID a)) ||
         negb (idPattern (sa_DaemonInstanceID a)) ||
         negb (containsString ["automatic"; "explicit-recovery"] (sa_Mode a)) ||
         negb (containsString ["planned"; "draining"; "invoked"; "observing"; "committed"; "unknown";
                               "failed"] (sa_State a)) || IsZero (sa_StartedAt a)
      then Err (ErrMsg "lifecycle stop attempt is invalid")
      else if negb (String.eqb (er_EnvironmentID (sa_Incarnation a)) (j_EnvironmentID j)) ||
              negb (er_StartGeneration (sa_Incarnation a) =? j_StartGeneration j) ||
              match j_Incarnation j with
              | Some inc => negb (EnvironmentRef_Equal (sa_Incarnation a) inc)
              | None => false
              end
      then Err (ErrMsg "lifecycle stop attempt incarnation mismatch")
      else match sa_Observation a with
      | None => Ok tt
      | Some o =>
          if negb (containsString ["running"; "stopped"; "absent"; "unknown"; "not-applicable"] (os_State o)) ||
             IsZero (os_ObservedAt o) ||
             (negb (String.eqb (os_ReasonCode o) "") && negb (idPattern (os_ReasonCode o))) ||
             (String.eqb (os_State o) "unknown" && String.eqb (os_ReasonCode o) "")
          then Err (ErrMsg "lifecycle stop observation is invalid") else Ok tt
      end
  end.

Definition validateReconciliation (r : Reconciliation) : res () :=
  if negb (containsString ["pending"; "complete"; "blocked"] (rc_State r)) ||
     negb (idPattern (rc_DaemonInstanceID r)) || IsZero (rc_ObservedAt r) ||
     (negb (String.eqb (rc_ReasonCode r) "") && negb (idPattern (rc_ReasonCode r)))
  then Err (ErrMsg "lifecycle reconciliation is invalid") else Ok tt.

Definition Journal_Validate (j : Journal) : res () :=
  if negb (String.eqb (j_Schema j) JournalSchema) || negb (idPattern (j_EnvironmentID j)) ||
     (j_StartGeneration j =? 0) || IsZero (j_UpdatedAt j)
  then Err (ErrMsg "lifecycle journal identity is invalid")
  else if (maxJournalResources <? length (j_Resources j))%nat
  then Err (ErrMsg "lifecycle journal has too many resources")
  else if (maxJournalFacts <? length (j_Facts j))%nat
  then Err (ErrMsg "lifecycle journal has too many facts")
  else
    _ ← validateIncarnation j;
    _ ← check_each (validateJournalResource j) (j_Resources j);
    _ ← (if bool_decide (j_Resources j = []) then Ok tt else ValidateGraph (j_Resources j) true);
    _ ← check_each (validateJournalFact j) (j_Facts j);
    _ ← validateIdleDeadline j;
    _ ← validateStopAttempt j;
    _ ← match j_Disposal j with
        | Some d => DisposalIntent_Validate d (j_StartGeneration j)
        | None => Ok tt
        end;
    validateReconciliation (j_Reconciliation j).

(** ** The journal store *)

Inductive IoOutcome := IoOk | IoFailUnchanged | IoFailChanged.

Abbreviation Disk := (gmap string Journal).

Definition Store_Load (o : IoOutcome) (environmentID : string) (disk : Disk) : res Journal :=
  if negb (idPattern environmentID) then Err (ErrMsg "lifecycle journal path is invalid")
  else match o with
  | IoOk =>
      match disk !! environmentID with
      | None => Err ErrNotExist
      | Some j =>
          _ ← Journal_Validate j;
          if negb (String.eqb (j_EnvironmentID j) environmentID)
          then Err (ErrMsg "lifecycle journal environment identity mismatch")
          else Ok j
      end
  | _ => Err ErrIO
  end.

Definition Store_Write (o : IoOutcome) (j : Journal) (disk : Disk) : Disk * res () :=
  match Journal_Validate j with
  | Err e => (disk, Err e)
  | Ok _ =>
      match o with
      | IoOk => (<[j_EnvironmentID j := j]> disk, Ok tt)
      | IoFailUnchanged => (disk, Err ErrIO)
      | IoFailChanged => (<[j_EnvironmentID j := j]> disk, Err ErrIO)
      end
  end.

Definition Store_Remove (o : IoOutcome) (environmentID : string) (disk : Disk) : Disk * res () :=
  if negb (idPattern environmentID) then (disk, Err (ErrMsg "lifecycle journal path is invalid"))
  else match disk !! environmentID, o with
  | None, IoOk => (disk, Ok tt)
  | Some _, IoOk => (delete environmentID disk, Ok tt)
  | _, IoFailUnchanged => (disk, Err ErrIO)
  | _, IoFailChanged => (delete environmentID disk, Err ErrIO)
  end.

(** [BlockedEnvironmentReconciliations]: the environments whose journal loads
    and records a blocked reconciliation, with the reason; an unreadable
    journal yields no entry.  [loads] gives the outcome of each read. *)
Definition BlockedEnvironmentReconciliations (loads : string → IoOutcome) (disk : Disk)
    : gmap string string :=
  map_imap (λ env _,
    match Store_Load (loads env) env disk with
    | Ok j =>
        if negb (String.eqb (rc_State (j_Reconciliation j)) "blocked") then None
        else if String.eqb (rc_ReasonCode (j_Reconciliation j)) ""
        then Some "reconciliation-blocked" else Some (rc_ReasonCode (j_Reconciliation j))
    | Err _ => None
    end) disk.

(** ** Stop attempts *)

Definition attemptBlocksAttach (a : option StopAttempt) : bool :=
  match a with
  | None => false
  | Some a => bool_decide (sa_State a ∈ ["planned"; "draining"; "invoked"; "observing"; "unknown"])
  end.

Definition attemptBlocksReconciliation (a : option StopAttempt) (daemonID : string) : bool :=
  match a with
  | None => false
  | Some a' => String.eqb (sa_DaemonInstanceID a') daemonID && attemptBlocksAttach a
  end.

(** ** State machines of the package *)

(** the resource state machine: a released or failed resource never
    changes state again, and no chain of accepted transitions leads from
    [planned] to [released] without passing through [draining]. *)
Theorem ValidateTransition_machine :
  (∀ s t, s = StateReleased ∨ s = StateFailed → ValidateTransition s t = Ok tt → t = s) ∧
  (∀ s, rtc (λ s t, ValidateTransition s t = Ok tt ∧ t ≠ StateDraining) StatePlanned s →
    s ≠ StateReleased).
Proof.
  split.
  - intros s t [-> | ->]; unfold ValidateTransition; case_bool_decide; try done;
      case_bool_decide; set_solver.
  - intros s Hs. enough (s ∈ [StatePlanned; StateStarting; StateActive; StateFailed; StateOrphaned])
      as Hin by (intros ->; set_solver).
    refine (rtc_invariant _ (.∈ [StatePlanned; StateStarting; StateActive; StateFailed; StateOrphaned])
      _ _ _ _ Hs); [set_solver|]. clear s Hs. intros s t IH [Hst Hd].
    revert Hst. unfold ValidateTransition. case_bool_decide; [naive_solver|].
    case_bool_decide as Ht; [intros _|done].
    repeat (apply elem_of_cons in IH as [->|IH]; [simpl in Ht; set_solver|]). set_solver.
Qed.

(** the disposal phases: metadata cleaning is reached from [planned] only
    through the persisted proof that the backend is absent, and a blocked
    disposal can only be restarted from [planned]. *)
Theorem ValidateDisposalTransition_forward :
  (∀ s, rtc (λ s t, ValidateDisposalTransition s t = Ok tt ∧ t ≠ DisposalStateBackendAbsent)
          DisposalStatePlanned s → s ≠ DisposalStateMetadataCleaning) ∧
  (∀ t, ValidateDisposalTransition DisposalStateBlocked t = Ok tt →
    t = DisposalStateBlocked ∨ t = DisposalStatePlanned).
Proof.
  split.
  - intros s Hs. enough (s ∈ [DisposalStatePlanned; DisposalStateBlocked]) as Hin by (intros ->; set_solver).
    refine (rtc_invariant _ (.∈ [DisposalStatePlanned; DisposalStateBlocked]) _ _ _ _ Hs); [set_solver|].
    clear s Hs. intros s t IH [Hst Hd].
    revert Hst. unfold ValidateDisposalTransition. case_bool_decide as Ht; [intros _|done].
    repeat (apply elem_of_cons in IH as [->|IH]; [simpl in Ht; set_solver|]). set_solver.
  - intros t. unfold ValidateDisposalTransition. case_bool_decide as Ht; [|done].
    simpl in Ht. set_solver.
Qed.

(** ** What a valid journal says *)

Lemma check_each_ok {A} (f : A → res ()) l :
  check_each f l = Ok tt ↔ Forall (λ x, f x = Ok tt) l.
Proof.
  induction l as [|x l IH]; simpl; [done|]. rewrite Forall_cons, <-IH, result_bind_ok.
  split; [intros ([] & ? & ?); done|naive_solver].
Qed.

Lemma Journal_Validate_ok j :
  Journal_Validate j = Ok tt →
  idPattern (j_EnvironmentID j) = true ∧ j_StartGeneration j ≠ 0 ∧
  (length (j_Resources j) ≤ maxJournalResources)%nat ∧ (length (j_Facts j) ≤ maxJournalFacts)%nat ∧
  validateIncarnation j = Ok tt ∧
  Forall (λ r, validateJournalResource j r = Ok tt) (j_Resources j) ∧
  (j_Resources j = [] ∨ ValidateGraph (j_Resources j) true = Ok tt) ∧
  Forall (λ f, validateJournalFact j f = Ok tt) (j_Facts j) ∧
  validateIdleDeadline j = Ok tt ∧ validateStopAttempt j = Ok tt ∧
  validateReconciliation (j_Reconciliation j) = Ok tt.
Proof.
  unfold Journal_Validate. do 3 (case_match; [done|]). bool_prop.
  intros Hv. apply result_bind_ok in Hv as ([]&?&Hv). apply result_bind_ok in Hv as ([]&Hr&Hv).
  apply result_bind_ok in Hv as ([]&Hg&Hv). apply result_bind_ok in Hv as ([]&Hf&Hv).
  do 3 (apply result_bind_ok in Hv as ([]&?&Hv)).
  rewrite check_each_ok in Hr. rewrite check_each_ok in Hf.
  repeat match goal with
  | H : (_ <? _)%nat = false |- _ => apply Nat.ltb_ge in H
  | H : (_ =? _) = false |- _ => apply Z.eqb_neq in H
  end.
  split_and!; try done. case_bool_decide; auto.
Qed.

Lemma EnvironmentRef_Equal_eq r1 r2 : EnvironmentRef_Equal r1 r2 = true ↔ r1 = r2.
Proof.
  destruct r1, r2; unfold EnvironmentRef_Equal; simpl.
  rewrite !andb_true_iff, !String.eqb_eq, Z.eqb_eq. naive_solver.
Qed.

(** A journal that passes validation speaks about one generation only:
    every resource, its owner and each of its dependencies carry the journal's
    generation, every recorded resource may still be live, the recorded graph
    is valid, facts never come from a later generation, and an idle deadline
    belongs to the recorded incarnation. *)
Theorem Journal_Validate_generation j :
  Journal_Validate j = Ok tt →
  (∀ r, r ∈ j_Resources j →
    rr_Generation (res_Ref r) = j_StartGeneration j ∧
    or_Generation (res_Owner r) = j_StartGeneration j ∧
    (∀ d, d ∈ res_Dependencies r → rr_Generation (dep_Ref d) = j_StartGeneration j) ∧
    IsPossiblyLive r = true) ∧
  ValidateGraph (j_Resources j) true = Ok tt ∧
  (∀ f, f ∈ j_Facts j → fact_Generation f ≤ j_StartGeneration j) ∧
  (∀ dl, j_IdleDeadline j = Some dl → j_Incarnation j = Some (dl_Incarnation dl)) ∧
  (length (j_Resources j) ≤ maxJournalResources)%nat ∧ (length (j_Facts j) ≤ maxJournalFacts)%nat.
Proof.
  intros (_&_&?&?&_&Hr&Hg&Hf&Hd&_)%Journal_Validate_ok. split_and!; [| | | |done|done].
  - intros r Hin. rewrite Forall_forall in Hr. specialize (Hr r Hin). revert Hr.
    unfold validateJournalResource. do 4 (case_match; [done|]). intros _.
    match goal with H : existsb _ _ = false |- _ => rename H into He end. bool_prop.
    split_and!; [by apply Z.eqb_eq|by apply Z.eqb_eq| |done].
    intros d Hd'. rewrite existsb_false in He. by apply Z.eqb_eq, negb_false_iff, He.
  - destruct Hg as [->|?]; [|done]. apply ValidateGraph_iff. split_and!; [constructor..|set_solver].
  - intros f Hin. rewrite Forall_forall in Hf. specialize (Hf f Hin).
    apply result_bind_ok in Hf as ([] & _ & Hf). case_match eqn:Hlt; [done|]. by apply Z.ltb_ge in Hlt.
  - intros dl Hdl. unfold validateIdleDeadline in Hd. rewrite Hdl in Hd.
    do 2 (case_match; [done|]). bool_prop. case_match; [|done].
    match goal with H : EnvironmentRef_Equal _ _ = true |- _ => by apply EnvironmentRef_Equal_eq in H as -> end.
Qed.

(** the journal store round trip: a journal that [Write] reports as
    written is exactly what a later successful read of that environment
    returns, and journals of other environments are untouched. *)
Theorem Store_Write_Load j disk :
  (Store_Write IoOk j disk).2 = Ok tt →
  Store_Load IoOk (j_EnvironmentID j) (Store_Write IoOk j disk).1 = Ok j ∧
  ∀ o env, env ≠ j_EnvironmentID j →
    Store_Load o env (Store_Write IoOk j disk).1 = Store_Load o env disk.
Proof.
  unfold Store_Write. destruct (Journal_Validate j) as [[]|] eqn:Hv; [intros _|done]. split.
  - unfold Store_Load. pose proof (Journal_Validate_ok j Hv) as (-> & _). simpl.
    rewrite lookup_insert_eq, Hv; simpl. by rewrite String.eqb_refl.
  - intros o env Hne. unfold Store_Load; simpl. by rewrite lookup_insert_ne.
Qed.

(** ** A concrete journal *)

Module SampleJournal.

Definition journal : Journal :=
  mkJournal JournalSchema "env" 1 (Some Sample.inc) [Sample.root; Sample.session]
    [mkFact KindDecisionRecord "dec1" FactRetained 1 Sample.now]
    (Some (mkDeadline Sample.inc "d1" Sample.now (AddDur Sample.now 15) 1)) None None
    (mkReconciliation "d1" "complete" "" Sample.now) Sample.now.

End SampleJournal.

Lemma Journal_Validate_generation_witness :
  Journal_Validate SampleJournal.journal = Ok tt ∧
  ValidateGraph (j_Resources SampleJournal.journal) true = Ok tt.
Proof.
  assert (Journal_Validate SampleJournal.journal = Ok tt) as Hv by by vm_compute.
  split; [done|]. apply (Journal_Validate_generation _ Hv).
Defined.

Lemma Store_Write_Load_witness :
  (Store_Write IoOk SampleJournal.journal ∅).2 = Ok tt ∧
  Store_Load IoOk "env" (Store_Write IoOk SampleJournal.journal ∅).1 = Ok SampleJournal.journal.
Proof.
  assert ((Store_Write IoOk SampleJournal.journal ∅).2 = Ok tt) as Hw by by vm_compute.
  split; [done|]. apply (Store_Write_Load _ _ Hw).
Defined.
