(* ===== verification/LifecycleStatus.v ===== *)
(** * Derived lifecycle status

    [internal/lifecycle/status.go]: the redacted summary of an environment
    that is published with every event.  The file holds [BuildStatus] with the
    theorems that the activity it reports agrees with the stop predicate of
    the graph. *)
From S2P Require Import Prelude GoStrings GoTime Redact LifecycleModel LifecycleGraph LifecycleJournal.

Definition StatusSchema : string := "hideout.lifecycle-status/v1".

Inductive Activity :=
  | ActivityPinned | ActivityIdleGrace | ActivityIdleEligible | ActivityBlocked
  | ActivityStopping | ActivityStoppingUnknown | ActivityEstablishing | ActivityStopped
  | ActivityNotApplicable.
#[global] Instance Activity_eq_dec : EqDecision Activity.
Proof. solve_decision. Defined.

Record ResourceSummary := mkSummary { sm_Kind : ResourceKind; sm_ID : string; sm_State : ResourceState }.

Record Status := mkStatus {
  st_Schema : string; st_EnvironmentID : string; st_StartGeneration : Z; st_BackendState : string;
  st_BackendObservedAt : Time; st_Activity : Activity; st_IdleDeadline : option Time;
  st_ReasonCode : string; st_Reconciliation : string; st_DisposalPhase : string;
  st_DisposalReasonCode : string; st_Pins : list ResourceSummary; st_Drains : list ResourceSummary;
  st_Retained : list ResourceSummary; st_Handoffs : list ResourceSummary;
  st_Orphans : list ResourceSummary; st_EstablishingSessions : nat }.
#[global] Instance Status_eta : Eta Status := λ s,
  mkStatus (st_Schema s) (st_EnvironmentID s) (st_StartGeneration s) (st_BackendState s)
    (st_BackendObservedAt s) (st_Activity s) (st_IdleDeadline s) (st_ReasonCode s)
    (st_Reconciliation s) (st_DisposalPhase s) (st_DisposalReasonCode s) (st_Pins s) (st_Drains s)
    (st_Retained s) (st_Handoffs s) (st_Orphans s) (st_EstablishingSessions s).

(** The last backend incarnation of the list; [""] when there is none. *)
Definition statusRootKey (rs : list Resource) : string :=
  foldl (λ k r, if String.eqb (rr_Kind (res_Ref r)) KindBackendIncarnation then rkey r else k) "" rs.

Definition summaryOf (r : Resource) : ResourceSummary :=
  mkSummary (rr_Kind (res_Ref r)) (RedactString (rr_ID (res_Ref r))) (res_State r).
Definition factSummary (f : Fact_) : ResourceSummary :=
  mkSummary (fact_Kind f) (RedactString (fact_ID f)) StateReleased.

(** One iteration of the loop over the resources: which of the two lists the
    summary is appended to. *)
Definition statusClass (byKey : gmap string Resource) (rootKey : string) (r : Resource) : StopClass :=
  if String.eqb rootKey "" || String.eqb (rkey r) rootKey || negb (IsPossiblyLive r) then ClassNone
  else
    let '(mode, found) := pathModeOf (rkey r) rootKey byKey in
    if negb found then ClassNone
    else if bool_decide (mode = StopModePin) || bool_decide (res_State r = StateOrphaned)
    then ClassPin else ClassDrain.

Definition sortSummaries : list ResourceSummary → list ResourceSummary :=
  sort_by (λ s, sm_Kind s +:+ sm_ID s).

(** The chain of conditions that selects the activity. *)
Definition statusActivity (observation : LifecycleObservation) (reconciliation : Reconciliation)
    (stopState : string) (deadline : option Time) (pins drains orphans : list ResourceSummary) : Activity :=
  let isState s := bool_decide (obs_State observation = s) in
  if isState (LifecycleOther "not-applicable") then ActivityNotApplicable
  else if String.eqb stopState "unknown" then ActivityStoppingUnknown
  else if bool_decide (stopState ∈ ["planned"; "draining"; "invoked"; "observing"]) then ActivityStopping
  else if isState LifecycleUnknown || negb (String.eqb (rc_State reconciliation) "complete")
          || negb (length orphans =? 0)%nat then ActivityBlocked
  else if String.eqb stopState "committed" || isState LifecycleStopped || isState LifecycleAbsent then ActivityStopped
  else if negb (length pins =? 0)%nat || negb (length drains =? 0)%nat then ActivityPinned
  else match deadline with Some _ => ActivityIdleGrace | None => ActivityIdleEligible end.

(** The reason: the first of the sources that is not empty. *)
Definition statusReason (observation : LifecycleObservation) (reconciliation : Reconciliation)
    (activity : Activity) : string :=
  let isState s := bool_decide (obs_State observation = s) in
  let reason := if bool_decide (activity = ActivityStoppingUnknown)
                then RedactString (obs_ReasonCode observation) else "" in
  let reason := if String.eqb reason "" && negb (String.eqb (rc_State reconciliation) "complete")
                then RedactString (rc_ReasonCode reconciliation) else reason in
  let reason := if String.eqb reason "" && isState LifecycleUnknown
                then RedactString (obs_ReasonCode observation) else reason in
  if String.eqb reason "" && bool_decide (activity = ActivityBlocked)
  then "reconciliation-unproved" else reason.

Definition BuildStatus (environmentID : string) (generation : Z) (observation : LifecycleObservation)
    (resources : list Resource) (facts : list Fact_) (deadline : option Time)
    (reconciliation : Reconciliation) (stopState : string) : Status :=
  let byKey := indexAll resources in
  let rootKey := statusRootKey resources in
  let inClass c := summaryOf <$> filter (λ r, statusClass byKey rootKey r = c) resources in
  let orphans := summaryOf <$> filter (λ r, res_State r = StateOrphaned) resources in
  let factsOf c := factSummary <$> filter (λ f, fact_Class f = c) facts in
  let activity := statusActivity observation reconciliation stopState deadline
                    (inClass ClassPin) (inClass ClassDrain) orphans in
  mkStatus StatusSchema (RedactString environmentID) generation
    (LifecycleState_string (obs_State observation)) (UTC (obs_ObservedAt observation))
    activity deadline (statusReason observation reconciliation activity)
    (RedactString (rc_State reconciliation)) "" ""
    (sortSummaries (inClass ClassPin)) (sortSummaries (inClass ClassDrain))
    (sortSummaries (factsOf FactRetained)) (sortSummaries (factsOf FactHandoff))
    (sortSummaries orphans) 0.

(** [sortStatuses] *)
Definition sortStatuses : list Status → list Status := sort_by st_EnvironmentID.

(** ** The reported activity *)

Section activity.
Context (byKey : gmap string Resource) (rootKey : string).
Context (Hac : ∀ k, ¬ tc (dependsOn byKey) k k) (Hroot : rootKey ≠ "").

(** Orphans aside, the status classifies as the stop predicate does. *)
Lemma statusClass_none r :
  res_State r ≠ StateOrphaned → statusClass byKey rootKey r = ClassNone ↔ ¬ keepsVM byKey rootKey r.
Proof.
  intros Ho. unfold statusClass, keepsVM. pose proof (pathModeOf_spec byKey rootKey Hac (rkey r)) as (Hf&Hp&_&Hn).
  destruct (pathModeOf _ _ _) as [mode found]; simpl in *.
  destruct (String.eqb_spec rootKey ""); [done|]. simpl.
  destruct (String.eqb_spec (rkey r) rootKey); simpl; [naive_solver|].
  destruct (IsPossiblyLive r); simpl; [|naive_solver].
  destruct found; simpl; [|naive_solver]. case_match; naive_solver.
Qed.
End activity.

Lemma filter_fmap_nil {A B} (f : A → B) (P : A → Prop) `{∀ x, Decision (P x)} l :
  f <$> filter P l = [] ↔ ∀ x, x ∈ l → ¬ P x.
Proof.
  split.
  - intros Hnil x Hx HP. apply fmap_nil_inv in Hnil.
    assert (x ∈ filter P l) as Hin by by apply list_elem_of_filter. rewrite Hnil in Hin. by apply elem_of_nil in Hin.
  - intros Hno. destruct (filter P l) as [|y l'] eqn:He; [done|].
    assert (y ∈ filter P l) as Hin by (rewrite He; left). apply list_elem_of_filter in Hin as [??].
    exfalso. naive_solver.
Qed.

Lemma length_eqb_nil {A} (l : list A) : (length l =? 0)%nat = true ↔ l = [].
Proof. by destruct l. Qed.

Definition idleActivity (a : Activity) : Prop := a = ActivityIdleGrace ∨ a = ActivityIdleEligible.

Ltac close_case := try (split; [by intros [|]|by intros ?; destruct_and!]).

Lemma statusActivity_idle observation reconciliation stopState deadline pins drains orphans :
  idleActivity (statusActivity observation reconciliation stopState deadline pins drains orphans) ↔
  (obs_State observation ∉ [LifecycleOther "not-applicable"; LifecycleUnknown; LifecycleStopped; LifecycleAbsent]) ∧
  (stopState ∉ ["unknown"; "planned"; "draining"; "invoked"; "observing"; "committed"]) ∧
  rc_State reconciliation = "complete" ∧ pins = [] ∧ drains = [] ∧ orphans = [].
Proof.
  unfold idleActivity, statusActivity. rewrite <- (length_eqb_nil pins), <- (length_eqb_nil drains),
    <- (length_eqb_nil orphans). rewrite <- String.eqb_eq.
  assert (stopState ∉ ["unknown"; "planned"; "draining"; "invoked"; "observing"; "committed"] ↔
    String.eqb stopState "unknown" = false ∧
    bool_decide (stopState ∈ ["planned"; "draining"; "invoked"; "observing"]) = false ∧
    String.eqb stopState "committed" = false) as ->.
  { rewrite !String.eqb_neq, bool_decide_eq_false. set_solver. }
  assert (obs_State observation ∉
      [LifecycleOther "not-applicable"; LifecycleUnknown; LifecycleStopped; LifecycleAbsent] ↔
    bool_decide (obs_State observation = LifecycleOther "not-applicable") = false ∧
    bool_decide (obs_State observation = LifecycleUnknown) = false ∧
    bool_decide (obs_State observation = LifecycleStopped) = false ∧
    bool_decide (obs_State observation = LifecycleAbsent) = false) as ->.
  { rewrite !bool_decide_eq_false. set_solver. }
  repeat match goal with
  | |- context [bool_decide ?P] => generalize (bool_decide P); intros []; simpl; close_case
  | |- context [String.eqb ?a ?b] => generalize (String.eqb a b); intros []; simpl; close_case
  | |- context [(?a =? ?b)%nat] => generalize (a =? b)%nat; intros []; simpl; close_case
  end. destruct deadline; (split; [done|]); intros _; auto.
Qed.

(** the status of an environment with a valid graph and a backend root
    is reported idle (in grace or eligible) exactly when the backend is not
    observed stopped, absent or unknown, no stop attempt is open or committed,
    reconciliation is complete, and the stop predicate finds nothing that
    keeps the VM: no orphan at all and no other live resource with a
    dependency chain to the root. *)
Theorem BuildStatus_idle_iff env gen observation rs facts deadline reconciliation stopState :
  ValidateGraph rs true = Ok tt → statusRootKey rs ≠ "" →
  idleActivity (st_Activity (BuildStatus env gen observation rs facts deadline reconciliation stopState)) ↔
  (obs_State observation ∉ [LifecycleOther "not-applicable"; LifecycleUnknown; LifecycleStopped; LifecycleAbsent]) ∧
  (stopState ∉ ["unknown"; "planned"; "draining"; "invoked"; "observing"; "committed"]) ∧
  rc_State reconciliation = "complete" ∧
  ∀ r, r ∈ rs → res_State r ≠ StateOrphaned ∧ ¬ keepsVM (indexAll rs) (statusRootKey rs) r.
Proof.
  intros (Hv & Hnd & _)%ValidateGraph_iff Hroot. simpl. rewrite statusActivity_idle, !filter_fmap_nil.
  assert (∀ k, ¬ tc (dependsOn (indexAll rs)) k k) as Hac by (by eapply catalog_acyclic).
  assert (∀ r, res_State r ≠ StateOrphaned → statusClass (indexAll rs) (statusRootKey rs) r = ClassNone ↔
    ¬ keepsVM (indexAll rs) (statusRootKey rs) r) as Hc by (intros; by apply statusClass_none).
  split.
  - intros (?&?&?&Hp&Hd&Ho). split_and!; [done..|]. intros r Hr. split; [by apply Ho|].
    apply Hc; [by apply Ho|]. specialize (Hp r Hr). specialize (Hd r Hr).
    by destruct (statusClass (indexAll rs) (statusRootKey rs) r).
  - intros (?&?&?&Hall). split_and!; [done..| | |]; intros r Hr; destruct (Hall r Hr) as [Ho Hk];
      apply Hc in Hk; [congruence|done|congruence|done|done|done].
Qed.

Lemma BuildStatus_idle_iff_witness :
  idleActivity (st_Activity (BuildStatus "dev" 1 Sample.obs [Sample.root] [] None
    (mkReconciliation "daemon-1" "complete" "" Sample.now) "")).
Proof.
  apply (BuildStatus_idle_iff "dev" 1 Sample.obs [Sample.root] [] None
    (mkReconciliation "daemon-1" "complete" "" Sample.now) ""); [reflexivity|done|].
  split_and!; [apply (bool_decide_unpack _); vm_compute; exact I..|reflexivity|].
  intros r ->%list_elem_of_singleton. split; [done|]. intros (_&Hk&_). by apply Hk.
Defined.
