(* ===== verification/LifecycleMutation.v ===== *)
(** * Lifecycle: mutation claims

    [internal/lifecycle/mutation.go]: the in-memory exclusion of the
    coordinator.  A request claims a set of keys for one owner, all or none;
    attach owners may share a key, every other pair of owners conflicts.  The
    lease returned by a claim is a mutable object of the source (its claims
    are cleared by the first release), so leases live in a heap. *)
From Stdlib Require Import Ascii.
From S2P Require Import Prelude GoStrings GoTime LifecycleModel.
Open Scope Z_scope.

(** ** Owners and keys *)

Definition MutationOwnerAttach : string := "attach".
Definition MutationOwnerReconcile : string := "reconcile".
Definition MutationOwnerStop : string := "stop".
Definition MutationOwnerCleanup : string := "cleanup".
Definition MutationOwnerDisposal : string := "disposal".
Definition MutationOwnerSession : string := "session".

Definition MutationPhaseEstablishing : string := "establishing".
Definition MutationPhaseApplying : string := "applying".
Definition MutationPhaseReconciling : string := "reconciling".
Definition MutationPhaseStopping : string := "stopping".
Definition MutationPhaseActive : string := "active".

Record MutationRequest := mkRequest { mr_Keys : list string; mr_Owner : MutationOwner }.

Definition EnvironmentMutationKey (environmentID : string) : string :=
  if negb (idPattern environmentID) then "" else "environment:" +:+ environmentID.

Definition ProfileMutationKey (profileName mutationKey : string) : string :=
  if negb (idPattern profileName) || negb (idPattern mutationKey) then ""
  else if ContainsByte profileName ":" || ContainsByte mutationKey ":" then ""
  else "profile:" +:+ profileName +:+ ":" +:+ mutationKey.

Definition validMutationKey (key : string) : bool :=
  match Cut key ":" with
  | None => false
  | Some (scope, rest) =>
      if String.eqb scope "environment" then idPattern rest
      else if String.eqb scope "profile" then
        match Cut rest ":" with
        | Some (profileName, mutationKey) =>
            negb (ContainsByte mutationKey ":") && idPattern profileName && idPattern mutationKey
        | None => false
        end
      else false
  end.

(** Validate, drop duplicates, sort. *)
Definition normalizeMutationKeys (keys : list string) : res (list string) :=
  if (length keys =? 0)%nat || (32 <? length keys)%nat
  then Err (ErrMsg "lifecycle mutation keys are invalid")
  else if negb (forallb validMutationKey keys)
  then Err (ErrMsg "lifecycle mutation key is invalid")
  else Ok (sort_strings (elements (list_to_set keys : gset string))).

Definition boundedMutationRecovery (value : string) : bool :=
  if String.eqb value "" || (512 <? len value) || negb (String.eqb (TrimSpace value) value)
  then false else negb (has_control value).

Definition normalizeMutationRequest (now : Time) (request : MutationRequest) : res MutationRequest :=
  keys ← normalizeMutationKeys (mr_Keys request);
  let owner := mr_Owner request in
  if negb (idPattern (mo_Kind owner)) || negb (idPattern (mo_ID owner)) ||
     negb (idPattern (mo_Phase owner)) || negb (boundedMutationRecovery (mo_Recovery owner))
  then Err (ErrMsg "lifecycle mutation owner is invalid")
  else
    let started := if IsZero (mo_StartedAt owner) then UTC now else mo_StartedAt owner in
    Ok (mkRequest keys (mkOwner (mo_Kind owner) (mo_ID owner) (mo_Phase owner)
                          (mo_Recovery owner) (UTC started))).

Definition attachMutationOwner (sessionID : string) (startedAt : Time) : MutationOwner :=
  mkOwner MutationOwnerAttach sessionID MutationPhaseEstablishing
    "wait for attach establishment to finish, then retry" startedAt.

Definition compatibleMutationOwners (requested blocking : MutationOwner) : bool :=
  String.eqb (mo_Kind requested) MutationOwnerAttach && String.eqb (mo_Kind blocking) MutationOwnerAttach.

Definition mutationConflictCause (requested blocking : MutationOwner) : error :=
  if String.eqb (mo_Kind blocking) MutationOwnerReconcile then ErrReconciliationInFlight
  else if String.eqb (mo_Kind blocking) MutationOwnerStop then ErrStopInFlight
  else if String.eqb (mo_Kind requested) MutationOwnerAttach then ErrStopInFlight
  else ErrMutationBlockedByActivity.

(** ** The claim table *)

Record mutationClaim := mkClaim { cl_id : Z; cl_key : string; cl_owner : MutationOwner }.
#[global] Instance mutationClaim_eq_dec : EqDecision mutationClaim.
Proof. solve_decision. Defined.

(** [mutationClaims], [mutationSequence] and the heap of leases. *)
Record Claims := mkClaims {
  mutationClaims : gmap string (gmap Z MutationOwner);
  mutationSequence : Z;
  leases : gmap nat (list mutationClaim);
  nextLease : nat }.
#[global] Instance Claims_eta : Eta Claims := λ c,
  mkClaims (mutationClaims c) (mutationSequence c) (leases c) (nextLease c).

Definition emptyClaims : Claims := mkClaims ∅ 0 ∅ 0.

Definition claimBefore (a b : Z * MutationOwner) : Prop := a.1 ≤ b.1.
#[global] Instance claimBefore_dec : RelDecision claimBefore.
Proof. intros a b. unfold claimBefore. apply _. Defined.

(** The claims on a key in the order of their ids. *)
Definition sortedClaims (s : Claims) (key : string) : list (Z * MutationOwner) :=
  merge_sort claimBefore (map_to_list (default ∅ (mutationClaims s !! key))).

(** The oldest claim on the key that conflicts with the owner. *)
Definition blockerOf (s : Claims) (owner : MutationOwner) (key : string) : option MutationOwner :=
  snd <$> List.find (λ c, negb (compatibleMutationOwners owner c.2)) (sortedClaims s key).

Fixpoint firstConflict (s : Claims) (owner : MutationOwner) (keys : list string) : option error :=
  match keys with
  | [] => None
  | key :: keys =>
      match blockerOf s owner key with
      | Some blocker =>
          Some (MutationConflictError key blocker owner (mutationConflictCause owner blocker))
      | None => firstConflict s owner keys
      end
  end.

(** The next claim id: never zero. *)
Definition nextSequence (n : Z) : Z :=
  let n := u64_succ n in if n =? 0 then u64_succ n else n.

(** The second loop of [claimMutationKeysLocked]: record one claim per key. *)
Fixpoint recordClaims (s : Claims) (owner : MutationOwner) (keys : list string)
    : Claims * list mutationClaim :=
  match keys with
  | [] => (s, [])
  | key :: keys =>
      let id := nextSequence (mutationSequence s) in
      let owners := <[id := owner]> (default ∅ (mutationClaims s !! key)) in
      let s := s <| mutationSequence := id |> <| mutationClaims ::= <[key := owners]> |> in
      let '(s, cls) := recordClaims s owner keys in
      (s, mkClaim id key owner :: cls)
  end.

Definition claimMutationKeysLocked (request : MutationRequest) (s : Claims) : Claims * res nat :=
  match firstConflict s (mr_Owner request) (mr_Keys request) with
  | Some e => (s, Err e)
  | None =>
      let '(s, cls) := recordClaims s (mr_Owner request) (mr_Keys request) in
      let lease := nextLease s in
      (s <| leases ::= <[lease := cls]> |> <| nextLease := S lease |>, Ok lease)
  end.

(** Delete one claim, and the key's map when it becomes empty. *)
Definition dropClaim (m : gmap string (gmap Z MutationOwner)) (c : mutationClaim)
    : gmap string (gmap Z MutationOwner) :=
  match m !! cl_key c with
  | None => m
  | Some owners =>
      let owners := delete (cl_id c) owners in
      if bool_decide (owners = ∅) then delete (cl_key c) m else <[cl_key c := owners]> m
  end.

(** [lease.releaseLocked()]: drop the claims and clear the lease. *)
Definition releaseLocked (lease : nat) (s : Claims) : Claims :=
  match leases s !! lease with
  | None => s
  | Some cls =>
      s <| mutationClaims ::= λ m, foldl dropClaim m cls |> <| leases ::= <[lease := []]> |>
  end.

(** ** Keys *)

Lemma id_chars_no_slash s : idPattern s = true → ContainsByte s "/" = false.
Proof. intros. by eapply (str_forall_no_byte is_id_char), idPattern_id_chars. Qed.

Lemma EnvironmentMutationKey_inj e1 e2 :
  idPattern e1 = true → EnvironmentMutationKey e1 = EnvironmentMutationKey e2 → e1 = e2.
Proof.
  unfold EnvironmentMutationKey. intros ->. destruct (idPattern e2); [|done].
  apply (string_app_inj_l "environment:").
Qed.

Lemma list_to_set_size_le (keys : list string) :
  (length (elements (list_to_set keys : gset string)) ≤ length keys)%nat.
Proof.
  change (length (elements ?X)) with (size X).
  induction keys as [|k keys IH]; [done|]. simpl list_to_set. rewrite size_union_alt, size_singleton.
  assert (list_to_set keys ∖ {[k]} ⊆@{gset string} list_to_set keys) as Hs by set_solver.
  apply subseteq_size in Hs. simpl length. lia.
Qed.

Lemma normalizeMutationKeys_ok keys keys' :
  normalizeMutationKeys keys = Ok keys' →
  (∀ k, k ∈ keys' ↔ k ∈ keys) ∧ NoDup keys' ∧ Sorted String.le keys' ∧
  Forall (λ k, validMutationKey k = true) keys' ∧ (1 ≤ length keys' ≤ 32)%nat.
Proof.
  unfold normalizeMutationKeys. destruct (_ || _) eqn:Hlen; [done|].
  destruct (forallb _ _) eqn:Hval; [|done]. intros [= <-]. unfold sort_strings.
  apply orb_false_iff in Hlen as [H0%Nat.eqb_neq H32%Nat.ltb_ge].
  pose proof (merge_sort_Permutation String.le (elements (list_to_set keys : gset string))) as Hp.
  assert (∀ k, k ∈ merge_sort String.le (elements (list_to_set keys : gset string)) ↔ k ∈ keys) as Hel.
  { intros k. rewrite Hp. set_solver. }
  split_and!.
  - done.
  - rewrite Hp. apply NoDup_elements.
  - apply (Sorted_merge_sort _).
  - rewrite Forall_forall. intros k Hk%Hel. rewrite forallb_forall in Hval.
    by apply Hval, list_elem_of_In.
  - destruct keys as [|k keys]; [done|]. assert (k ∈ merge_sort String.le
      (elements (list_to_set (k :: keys) : gset string))) as Hk by (apply Hel; left).
    destruct (merge_sort _ _); [by apply elem_of_nil in Hk|simpl; lia].
  - rewrite Hp. etrans; [apply list_to_set_size_le|done].
Qed.

(** Mutation keys are well formed and cannot collide across scopes: the
    key of an environment or of a profile setting is accepted by
    [validMutationKey], and two keys are equal only for the same scope and the
    same identities. *)
Theorem mutation_keys_disjoint :
  (∀ e, idPattern e = true → validMutationKey (EnvironmentMutationKey e) = true) ∧
  (∀ p k, ProfileMutationKey p k ≠ "" → validMutationKey (ProfileMutationKey p k) = true) ∧
  (∀ e1 e2, idPattern e1 = true → EnvironmentMutationKey e1 = EnvironmentMutationKey e2 → e1 = e2) ∧
  (∀ p1 k1 p2 k2, ProfileMutationKey p1 k1 ≠ "" →
    ProfileMutationKey p1 k1 = ProfileMutationKey p2 k2 → p1 = p2 ∧ k1 = k2) ∧
  (∀ e p k, EnvironmentMutationKey e ≠ "" → EnvironmentMutationKey e ≠ ProfileMutationKey p k).
Proof.
  assert (∀ p k, ProfileMutationKey p k ≠ "" → idPattern p = true ∧ idPattern k = true ∧
    ContainsByte p ":" = false ∧ ContainsByte k ":" = false ∧
    ProfileMutationKey p k = "profile:" +:+ p +:+ ":" +:+ k) as Hprof.
  { intros p k. unfold ProfileMutationKey. destruct (_ || _) eqn:H1; [done|].
    destruct (ContainsByte p ":" || _) eqn:H2; [done|]. by bool_prop. }
  split_and!.
  - intros e He. unfold EnvironmentMutationKey. rewrite He. exact He.
  - intros p k (Hp&Hk&Hcp&Hck&->)%Hprof. 
    change (match Cut (p +:+ String ":" k) ":" with
      | Some (p, k) => negb (ContainsByte k ":") && idPattern p && idPattern k
      | None => false end = true).
    rewrite Cut_app by done. by rewrite Hck, Hp, Hk.
  - apply EnvironmentMutationKey_inj.
  - intros p1 k1 p2 k2 H1 Heq. pose proof H1 as (?&?&Hc1&?&E1)%Hprof.
    rewrite Heq in H1. apply Hprof in H1 as (?&?&Hc2&?&E2).
    rewrite E1, E2 in Heq. apply (string_app_inj_l "profile:") in Heq.
    pose proof (Cut_app p1 ":" k1 Hc1) as HA. pose proof (Cut_app p2 ":" k2 Hc2) as HB.
    change (p1 +:+ String ":" k1 = p2 +:+ String ":" k2) in Heq.
    rewrite Heq, HB in HA. naive_solver.
  - intros e p k. unfold EnvironmentMutationKey. destruct (idPattern e); [simpl; intros _|done].
    unfold ProfileMutationKey. destruct (_ || _); [done|]. by destruct (_ || _).
Qed.

(** ** The interface of the claim table

    What the coordinator relies on: a lease holds its keys until it is
    released, two leases hold the same key only for attach owners, and
    claiming or releasing one lease leaves the others alone. *)

Class LeaseTable (T : Type) := {
  lt_wf : T → Prop;
  lt_holds : T → nat → string → MutationOwner → Prop;
  lt_claim : MutationRequest → T → T * res nat;
  lt_release : nat → T → T;
  (** Room for the claims of the request before the sequence wraps. *)
  lt_room : MutationRequest → T → Prop;
  (** The leases handed out so far. *)
  lt_issued : T → nat → Prop;

  lt_exclusive t l1 l2 k o1 o2 :
    lt_wf t → lt_holds t l1 k o1 → lt_holds t l2 k o2 →
    (l1 = l2 ∧ o1 = o2) ∨ compatibleMutationOwners o1 o2 = true;
  lt_claim_ok req t t' l :
    lt_wf t → NoDup (mr_Keys req) → lt_room req t → lt_claim req t = (t', Ok l) →
    lt_wf t' ∧ (∀ k, k ∈ mr_Keys req → lt_holds t' l k (mr_Owner req)) ∧
    (∀ k o, ¬ lt_holds t l k o) ∧
    (∀ l' k o, l' ≠ l → lt_holds t' l' k o ↔ lt_holds t l' k o);
  lt_claim_issued req t t' l :
    lt_claim req t = (t', Ok l) → ¬ lt_issued t l ∧ ∀ l', lt_issued t' l' ↔ l' = l ∨ lt_issued t l';
  lt_release_issued t l l' : lt_issued (lt_release l t) l' ↔ lt_issued t l';
  lt_claim_err req t t' e : lt_claim req t = (t', Err e) → t' = t;
  (** The claim is granted exactly when no held key conflicts. *)
  lt_claim_iff req t :
    lt_wf t →
    (∃ l, (lt_claim req t).2 = Ok l) ↔
    ∀ l k o, k ∈ mr_Keys req → lt_holds t l k o → compatibleMutationOwners (mr_Owner req) o = true;
  lt_release_ok t l :
    lt_wf t →
    lt_wf (lt_release l t) ∧ (∀ k o, ¬ lt_holds (lt_release l t) l k o) ∧
    (∀ l' k o, l' ≠ l → lt_holds (lt_release l t) l' k o ↔ lt_holds t l' k o)
}.

(** ** The table implements the interface *)

Definition tbl (s : Claims) (k : string) (id : Z) : option MutationOwner :=
  default ∅ (mutationClaims s !! k) !! id.

Definition inLease (s : Claims) (l : nat) (c : mutationClaim) : Prop :=
  ∃ cls, leases s !! l = Some cls ∧ c ∈ cls.

Definition holds (s : Claims) (l : nat) (k : string) (o : MutationOwner) : Prop :=
  ∃ id, inLease s l (mkClaim id k o).

Record claims_wf (s : Claims) : Prop := {
  wf_live l c : inLease s l c → tbl s (cl_key c) (cl_id c) = Some (cl_owner c) ∧ cl_id c ≤ mutationSequence s;
  wf_table k id o : tbl s k id = Some o → ∃ l, inLease s l (mkClaim id k o);
  wf_uniq l1 l2 c1 c2 : inLease s l1 c1 → inLease s l2 c2 → cl_id c1 = cl_id c2 → l1 = l2 ∧ c1 = c2;
  wf_keys l c1 c2 : inLease s l c1 → inLease s l c2 → cl_key c1 = cl_key c2 → c1 = c2;
  wf_excl k i1 i2 o1 o2 :
    tbl s k i1 = Some o1 → tbl s k i2 = Some o2 → i1 ≠ i2 → compatibleMutationOwners o1 o2 = true;
  wf_fresh l : (nextLease s ≤ l)%nat → leases s !! l = None;
  wf_range : 0 ≤ mutationSequence s < two64 }.

(** The claims of the request fit before the 64-bit sequence wraps. *)
Definition room (req : MutationRequest) (s : Claims) : Prop :=
  mutationSequence s + Z.of_nat (length (mr_Keys req)) < two64.

Lemma compatible_sym o1 o2 : compatibleMutationOwners o1 o2 = compatibleMutationOwners o2 o1.
Proof. apply andb_comm. Qed.

Lemma blockerOf_None s o k :
  blockerOf s o k = None ↔ ∀ id o', tbl s k id = Some o' → compatibleMutationOwners o o' = true.
Proof.
  unfold blockerOf, sortedClaims, tbl. rewrite fmap_None. split.
  - intros Hf id o' Ho. eapply List.find_none in Hf; [|apply list_elem_of_In, merge_sort_elem_of,
      elem_of_map_to_list; exact Ho]. by apply negb_false_iff in Hf.
  - intros Hall. destruct (List.find _ _) as [[id o']|] eqn:Hf; [|done].
    apply List.find_some in Hf as [Hin Hneg]. exfalso. apply list_elem_of_In, merge_sort_elem_of,
      elem_of_map_to_list in Hin. apply Hall in Hin. simpl in *. by rewrite Hin in Hneg.
Qed.

Lemma firstConflict_None s o keys :
  firstConflict s o keys = None ↔
  ∀ k id o', k ∈ keys → tbl s k id = Some o' → compatibleMutationOwners o o' = true.
Proof.
  induction keys as [|k keys IH]; simpl; [set_solver|].
  destruct (blockerOf s o k) eqn:Hb.
  - split; [done|]. intros Hall. assert (blockerOf s o k = None); [|congruence].
    apply blockerOf_None. intros; eapply Hall; [by left|done].
  - rewrite IH. rewrite blockerOf_None in Hb. setoid_rewrite elem_of_cons. naive_solver.
Qed.

Lemma nextSequence_nowrap n : 0 ≤ n → n + 1 < two64 → nextSequence n = n + 1.
Proof.
  intros. unfold nextSequence. rewrite u64_succ_nowrap by done.
  destruct (Z.eqb_spec (n + 1) 0); [lia|done].
Qed.

Lemma recordClaims_ok s o keys s' cls :
  recordClaims s o keys = (s', cls) →
  0 ≤ mutationSequence s → mutationSequence s + Z.of_nat (length keys) < two64 →
  NoDup keys → (∀ k id o, tbl s k id = Some o → id ≤ mutationSequence s) →
  mutationSequence s' = mutationSequence s + Z.of_nat (length keys) ∧
  leases s' = leases s ∧ nextLease s' = nextLease s ∧
  (∀ c, c ∈ cls → cl_owner c = o ∧ cl_key c ∈ keys ∧ mutationSequence s < cl_id c ≤ mutationSequence s') ∧
  (∀ k, k ∈ keys → ∃ id, mkClaim id k o ∈ cls) ∧
  (∀ c1 c2, c1 ∈ cls → c2 ∈ cls → cl_id c1 = cl_id c2 ∨ cl_key c1 = cl_key c2 → c1 = c2) ∧
  (∀ k id o', tbl s' k id = Some o' ↔ tbl s k id = Some o' ∨ mkClaim id k o' ∈ cls).
Proof.
  revert s s' cls. induction keys as [|k keys IH]; intros s s' cls; simpl.
  { intros [= <- <-] ????. split_and!; [lia|done|done|set_solver..]. }
  destruct (recordClaims _ o keys) as [s1 cls1] eqn:Hrec. intros [= <- <-] H0 Hroom Hnd Hle.
  rewrite NoDup_cons in Hnd. destruct Hnd as [Hk Hnd].
  rewrite nextSequence_nowrap in Hrec by lia. rewrite nextSequence_nowrap by lia.
  set (s0 := s <| mutationSequence := _ |> <| mutationClaims ::= _ |>) in Hrec.
  assert (∀ k' id o', tbl s0 k' id = Some o' ↔
    tbl s k' id = Some o' ∨ (k' = k ∧ id = mutationSequence s + 1 ∧ o' = o)) as Htbl.
  { intros k' id o'. unfold tbl, s0; simpl. rewrite lookup_insert. case_decide as Hkk; simpl; [|naive_solver].
    subst k'. rewrite lookup_insert. case_decide; [|naive_solver]. subst id. split; [naive_solver|].
    intros [Ho|?]; [|naive_solver]. apply Hle in Ho. lia. }
  apply IH in Hrec as (Hseq&?&?&Hcls&Hkeys&Huniq&Htbl'); simpl in *;
    [|lia|lia|done|intros k' id o' [?%Hle|(?&?&?)]%Htbl; simpl; lia].
  split_and!; [lia|done|done| | | |].
  - intros c [->|Hc]%elem_of_cons; simpl; [split_and!; [done|left|lia|lia]|].
    destruct (Hcls c Hc) as (?&?&?). split_and!; [done|by right|lia|lia].
  - intros k' [->|Hk']%elem_of_cons; [eexists; left|]. destruct (Hkeys k' Hk') as [id ?].
    exists id. by right.
  - intros c1 c2 [->|Hc1]%elem_of_cons [->|Hc2]%elem_of_cons Heq; simpl in *; [done| | |by apply Huniq].
    + destruct (Hcls c2 Hc2) as (?&?&?). destruct Heq; [lia|congruence].
    + destruct (Hcls c1 Hc1) as (?&?&?). destruct Heq; [lia|congruence].
  - intros k' id o'. rewrite Htbl', Htbl, elem_of_cons. naive_solver.
Qed.

Lemma dropClaims_tbl m cls k id :
  default ∅ (foldl dropClaim m cls !! k) !! id =
  if existsb (λ c, String.eqb (cl_key c) k && (cl_id c =? id)) cls then None
  else default ∅ (m !! k) !! id.
Proof.
  revert m. induction cls as [|c cls IH]; intros m; simpl; [done|]. rewrite IH.
  destruct (existsb _ cls); [by rewrite orb_true_r|]. rewrite orb_false_r.
  unfold dropClaim. destruct (m !! cl_key c) as [owners|] eqn:Hm.
  - case_bool_decide as He.
    + rewrite lookup_delete. destruct (String.eqb_spec (cl_key c) k) as [<-|Hne].
      * rewrite decide_True by done. simpl. rewrite lookup_empty, Hm; simpl.
        assert (delete (cl_id c) owners !! id = None) as Hd by (rewrite He; apply lookup_empty).
        rewrite lookup_delete in Hd. destruct (Z.eqb_spec (cl_id c) id); [done|]. by rewrite decide_False in Hd.
      * by rewrite decide_False.
    + rewrite lookup_insert. destruct (String.eqb_spec (cl_key c) k) as [<-|Hne].
      * rewrite decide_True, Hm by done. simpl. rewrite lookup_delete.
        destruct (Z.eqb_spec (cl_id c) id); [by rewrite decide_True|by rewrite decide_False].
      * by rewrite decide_False.
  - destruct (String.eqb_spec (cl_key c) k) as [<-|Hne]; [|done]. rewrite Hm. by destruct (_ =? _).
Qed.

Lemma emptyClaims_wf : claims_wf emptyClaims.
Proof.
  split; unfold inLease, tbl, emptyClaims; simpl; rewrite ?lookup_empty; try done;
    try (intros; setoid_rewrite lookup_empty in H; naive_solver).
Qed.

Lemma holds_tbl s k o id :
  claims_wf s → tbl s k id = Some o → ∃ l, holds s l k o.
Proof. intros Hwf [l Hl]%(wf_table _ Hwf). exists l. by exists id. Qed.

Lemma holds_exclusive s l1 l2 k o1 o2 :
  claims_wf s → holds s l1 k o1 → holds s l2 k o2 →
  (l1 = l2 ∧ o1 = o2) ∨ compatibleMutationOwners o1 o2 = true.
Proof.
  intros Hwf [i1 H1] [i2 H2]. destruct (decide (i1 = i2)) as [->|Hne].
  - left. destruct (wf_uniq _ Hwf _ _ _ _ H1 H2 eq_refl) as [-> [= ->]]. done.
  - right. apply (wf_live _ Hwf) in H1 as [H1 _], H2 as [H2 _]. eapply (wf_excl _ Hwf); done.
Qed.

Lemma claim_granted_iff req s :
  claims_wf s →
  (∃ l, (claimMutationKeysLocked req s).2 = Ok l) ↔
  ∀ l k o, k ∈ mr_Keys req → holds s l k o → compatibleMutationOwners (mr_Owner req) o = true.
Proof.
  intros Hwf. unfold claimMutationKeysLocked. destruct (firstConflict _ _ _) eqn:Hc.
  - split; [naive_solver|]. intros Hall. exfalso.
    assert (firstConflict s (mr_Owner req) (mr_Keys req) = None); [|congruence].
    apply firstConflict_None. intros k id o' Hk Ht. destruct (holds_tbl _ _ _ _ Hwf Ht) as [l' Hl]. eauto.
  - rewrite firstConflict_None in Hc. destruct (recordClaims _ _ _) as [s1 cls]. split; [|naive_solver].
    intros _ l k o Hk [id [Ht _]%(wf_live _ Hwf)]. eauto.
Qed.

Lemma claim_err_unchanged req s s' e : claimMutationKeysLocked req s = (s', Err e) → s' = s.
Proof. unfold claimMutationKeysLocked. case_match; [congruence|]. by destruct (recordClaims _ _ _). Qed.

Lemma inLease_insert s s' l cls l' c :
  leases s' = <[l := cls]> (leases s) →
  inLease s' l' c ↔ (l' = l ∧ c ∈ cls) ∨ (l' ≠ l ∧ inLease s l' c).
Proof. intros Hl. unfold inLease. rewrite Hl, lookup_insert. case_decide; naive_solver. Qed.

Lemma inLease_lt s l c : claims_wf s → inLease s l c → (l < nextLease s)%nat.
Proof.
  intros Hwf (cls&Hl&_). destruct (decide (nextLease s ≤ l)%nat) as [Hle|]; [|lia].
  by rewrite (wf_fresh _ Hwf _ Hle) in Hl.
Qed.

Lemma claim_wf req s s' l :
  claims_wf s → NoDup (mr_Keys req) → room req s → claimMutationKeysLocked req s = (s', Ok l) →
  claims_wf s' ∧ l = nextLease s ∧ nextLease s' = S l ∧
  ∃ cls, leases s' = <[l := cls]> (leases s) ∧
    (∀ c, c ∈ cls → cl_owner c = mr_Owner req ∧ cl_key c ∈ mr_Keys req) ∧
    ∀ k, k ∈ mr_Keys req → ∃ id, mkClaim id k (mr_Owner req) ∈ cls.
Proof.
  intros Hwf Hnd Hroom. unfold claimMutationKeysLocked. destruct (firstConflict _ _ _) eqn:Hc; [done|].
  rewrite firstConflict_None in Hc. destruct (recordClaims _ _ _) as [s1 cls] eqn:Hrec. intros [= <- <-].
  pose proof (wf_range _ Hwf) as Hrange. unfold room in Hroom.
  assert (∀ k id o, tbl s k id = Some o → id ≤ mutationSequence s) as Hle.
  { intros k id o (l&Hl)%(wf_table _ Hwf). by apply (wf_live _ Hwf) in Hl as [_ ?]. }
  apply recordClaims_ok in Hrec as (Hseq&Hls&Hnl&Hcls&Hkeys&Huniq&Htbl); [|lia|lia|done|done].
  set (s2 := s1 <| leases ::= _ |> <| nextLease := _ |>).
  assert (∀ k id, tbl s2 k id = tbl s1 k id) as Ht2 by done.
  assert (∀ l' c, inLease s2 l' c ↔ (l' = nextLease s ∧ c ∈ cls) ∨ (l' ≠ nextLease s ∧ inLease s l' c)) as Hin.
  { intros l' c. rewrite (inLease_insert s s2 (nextLease s1) cls) by (simpl; by rewrite Hls). by rewrite Hnl. }
  split; [|split_and!; simpl; [done|lia|]; exists cls; rewrite Hls; naive_solver].
  split; try setoid_rewrite Hin.
  - intros l c [[-> Hc']|[_ Hc']]; rewrite Ht2, Htbl; simpl.
    + split; [right; by destruct c|]. apply Hcls in Hc'. lia.
    + apply (wf_live _ Hwf) in Hc' as [??]. split; [by left|lia].
  - intros k id o. rewrite Ht2, Htbl. intros [(l&Hl)%(wf_table _ Hwf)|Hn].
    + exists l. right. split; [|done]. apply inLease_lt in Hl; [lia|done].
    + exists (nextLease s). by left.
  - intros l1 l2 c1 c2 [[-> H1]|[? H1]] [[-> H2]|[? H2]] Heq.
    + split; [done|]. apply Huniq; auto.
    + apply Hcls in H1. apply (wf_live _ Hwf) in H2. lia.
    + apply Hcls in H2. apply (wf_live _ Hwf) in H1. lia.
    + by eapply (wf_uniq _ Hwf).
  - intros l c1 c2 [[-> H1]|[? H1]] [[? H2]|[? H2]] Heq; [apply Huniq; auto|done|done|].
    by eapply (wf_keys _ Hwf).
  - intros k i1 i2 o1 o2. rewrite !Ht2, !Htbl. intros [H1|H1] [H2|H2] Hne.
    + by eapply (wf_excl _ Hwf).
    + apply Hcls in H2 as (?&?&_); simplify_eq/=. rewrite compatible_sym. eauto.
    + apply Hcls in H1 as (?&?&_); simplify_eq/=. eauto.
    + exfalso. apply Hne. apply (Huniq _ _ H1) in H2; [by simplify_eq|by right].
  - intros l Hl. simpl in *. rewrite Hls, lookup_insert_ne by lia. apply (wf_fresh _ Hwf). lia.
  - simpl. lia.
Qed.

Lemma claim_granted req s s' l :
  claims_wf s → NoDup (mr_Keys req) → room req s → claimMutationKeysLocked req s = (s', Ok l) →
  claims_wf s' ∧ (∀ k, k ∈ mr_Keys req → holds s' l k (mr_Owner req)) ∧
  (∀ k o, ¬ holds s l k o) ∧
  (∀ l' k o, l' ≠ l → holds s' l' k o ↔ holds s l' k o).
Proof.
  intros Hwf Hnd Hroom Hok. destruct (claim_wf _ _ _ _ Hwf Hnd Hroom Hok) as (Hwf'&Hl&_&cls&Hls&Hc&Hk).
  unfold holds. setoid_rewrite (inLease_insert _ _ _ _ _ _ Hls). split_and!; [done|naive_solver| |naive_solver].
  intros k o [id ?%(inLease_lt _ _ _ Hwf)]. lia.
Qed.

Lemma release_tbl s l cls k id o :
  claims_wf s → leases s !! l = Some cls →
  tbl (releaseLocked l s) k id = Some o ↔ tbl s k id = Some o ∧ mkClaim id k o ∉ cls.
Proof.
  intros Hwf Hl. unfold releaseLocked, tbl. rewrite Hl; simpl. rewrite dropClaims_tbl.
  destruct (existsb _ cls) eqn:He.
  - apply existsb_exists in He as ([i k' o']&Hin&[Hk Hi]%andb_true_iff). apply list_elem_of_In in Hin.
    apply String.eqb_eq in Hk. apply Z.eqb_eq in Hi. simpl in *. subst k' i. split; [done|].
    intros [Ho Hn]. exfalso. apply Hn. destruct (wf_live _ Hwf l (mkClaim id k o')) as [Ht _]; [by exists cls|].
    unfold tbl in Ht; simpl in Ht. congruence.
  - split; [|naive_solver]. intros Ho. split; [done|]. intros Hin.
    apply existsb_false with (x := mkClaim id k o) in He; [|done]. simpl in He.
    by rewrite String.eqb_refl, Z.eqb_refl in He.
Qed.

Lemma release_inLease s l l' c :
  inLease (releaseLocked l s) l' c ↔ l' ≠ l ∧ inLease s l' c.
Proof.
  unfold releaseLocked. destruct (leases s !! l) as [cls|] eqn:Hl.
  - rewrite (inLease_insert s _ l []) by done. set_solver.
  - split; [|naive_solver]. intros H. split; [|done]. intros ->. destruct H as (?&?&?). congruence.
Qed.

Lemma release_wf s l : claims_wf s → claims_wf (releaseLocked l s).
Proof.
  intros Hwf. destruct (leases s !! l) as [cls|] eqn:Hl;
    [|unfold releaseLocked; by rewrite Hl].
  assert (mutationSequence (releaseLocked l s) = mutationSequence s) as Hseq
    by (unfold releaseLocked; by rewrite Hl).
  split.
  - intros l' c [Hne Hc]%release_inLease. rewrite Hseq. pose proof (wf_live _ Hwf _ _ Hc) as [Ht ?].
    split; [|done]. apply (release_tbl s l cls); [done..|]. split; [done|]. intros Hin.
    destruct (wf_uniq _ Hwf l l' (mkClaim (cl_id c) (cl_key c) (cl_owner c)) c) as [? _]; [by exists cls|done..].
  - intros k id o [Ht Hn]%(release_tbl _ _ cls); [|done..]. destruct (wf_table _ Hwf _ _ _ Ht) as [l' Hl'].
    exists l'. apply release_inLease. split; [|done]. intros ->. destruct Hl' as (?&?&?). naive_solver.
  - intros l1 l2 c1 c2 [_ H1]%release_inLease [_ H2]%release_inLease. by apply (wf_uniq _ Hwf).
  - intros l' c1 c2 [_ H1]%release_inLease [_ H2]%release_inLease. by apply (wf_keys _ Hwf l').
  - intros k i1 i2 o1 o2 [H1 _]%(release_tbl _ _ cls) [H2 _]%(release_tbl _ _ cls); [|done..].
    by apply (wf_excl _ Hwf k).
  - intros l'. unfold releaseLocked. rewrite Hl; simpl. intros Hle. pose proof (wf_fresh _ Hwf _ Hle).
    rewrite lookup_insert_ne; [done|]. intros ->. congruence.
  - rewrite Hseq. apply (wf_range _ Hwf).
Qed.

Lemma release_exact s l :
  claims_wf s →
  claims_wf (releaseLocked l s) ∧ (∀ k o, ¬ holds (releaseLocked l s) l k o) ∧
  (∀ l' k o, l' ≠ l → holds (releaseLocked l s) l' k o ↔ holds s l' k o).
Proof.
  intros Hwf. unfold holds. setoid_rewrite release_inLease. split; [by apply release_wf|naive_solver].
Qed.

Definition issued (s : Claims) (l : nat) : Prop := (l < nextLease s)%nat.

Lemma recordClaims_nextLease s o keys : nextLease (recordClaims s o keys).1 = nextLease s.
Proof.
  revert s. induction keys as [|k keys IH]; intros s; simpl; [done|].
  destruct (recordClaims _ o keys) as [s' cls] eqn:Hr; simpl.
  change s' with (s', cls).1. by rewrite <- Hr, IH.
Qed.

Lemma claim_issued req s s' l :
  claimMutationKeysLocked req s = (s', Ok l) → ¬ issued s l ∧ ∀ l', issued s' l' ↔ l' = l ∨ issued s l'.
Proof.
  unfold claimMutationKeysLocked, issued. destruct (firstConflict _ _ _); [done|].
  pose proof (recordClaims_nextLease s (mr_Owner req) (mr_Keys req)) as Hn.
  destruct (recordClaims _ _ _) as [s1 cls]; simpl in *. intros [= <- <-]; simpl.
  rewrite Hn. split; [lia|]. intros l'. lia.
Qed.

Lemma release_issued s l l' : issued (releaseLocked l s) l' ↔ issued s l'.
Proof. unfold issued, releaseLocked. by case_match. Qed.

#[global] Instance Claims_LeaseTable : LeaseTable Claims := {
  lt_issued := issued;
  lt_claim_issued := claim_issued;
  lt_release_issued := release_issued;
  lt_wf := claims_wf;
  lt_holds := holds;
  lt_claim := claimMutationKeysLocked;
  lt_release := releaseLocked;
  lt_room := room;
  lt_exclusive := holds_exclusive;
  lt_claim_ok := claim_granted;
  lt_claim_err := claim_err_unchanged;
  lt_claim_iff := claim_granted_iff;
  lt_release_ok := release_exact }.

Lemma firstConflict_Some s o keys e :
  claims_wf s → firstConflict s o keys = Some e →
  ∃ l k o', k ∈ keys ∧ holds s l k o' ∧ compatibleMutationOwners o o' = false.
Proof.
  intros Hwf. induction keys as [|k keys IH]; simpl; [done|].
  destruct (blockerOf s o k) as [b|] eqn:Hb; [|intros (l&k'&o'&?&?&?)%IH; exists l, k', o'; set_solver].
  intros _. unfold blockerOf in Hb. apply fmap_Some in Hb as ([id o']&Hf&->).
  apply List.find_some in Hf as [Hin Hneg]. apply list_elem_of_In, merge_sort_elem_of, elem_of_map_to_list in Hin.
  destruct (holds_tbl s k o' id Hwf Hin) as [l Hl]. exists l, k, o'. split_and!; [left|done|].
  by apply negb_true_iff in Hneg.
Qed.

Lemma release_twice s l : releaseLocked l (releaseLocked l s) = releaseLocked l s.
Proof.
  unfold releaseLocked. destruct (leases s !! l) as [cls|] eqn:Hl; simpl; [|by rewrite Hl].
  rewrite lookup_insert_eq. unfold set_field; simpl. f_equal. apply insert_insert_eq.
Qed.

(** ** Claim tables reached by the coordinator *)

(** One critical section on the table: a claim with a normalised key list
    that still fits below the 64-bit sequence, granted or refused, or the
    release of a lease (also of one already released). *)
Inductive claimStep : Claims → Claims → Prop :=
  | step_claim req s :
      NoDup (mr_Keys req) → room req s → claimStep s (claimMutationKeysLocked req s).1
  | step_release l s : claimStep s (releaseLocked l s).

Definition claimsReachable : Claims → Prop := rtc claimStep emptyClaims.

Lemma claimsReachable_wf s : claimsReachable s → claims_wf s.
Proof.
  apply rtc_invariant; [apply emptyClaims_wf|]. intros s1 s2 Hwf Hst. destruct Hst as [req s0 Hnd Hroom|l s0].
  - destruct (claimMutationKeysLocked req s0) as [s' [l|e]] eqn:Hc; simpl.
    + by destruct (claim_wf _ _ _ _ Hwf Hnd Hroom Hc).
    + by rewrite (claim_err_unchanged _ _ _ _ Hc).
  - by apply release_wf.
Qed.

(** Mutual exclusion of mutation keys. In every claim table the
    coordinator can reach, two different leases hold the same key only when
    both owners are attach owners: a stop, a disposal, a provider migration or
    any other mutation holds its keys alone. *)
Theorem mutation_keys_exclusive s l1 l2 k o1 o2 :
  claimsReachable s → holds s l1 k o1 → holds s l2 k o2 → l1 ≠ l2 →
  mo_Kind o1 = MutationOwnerAttach ∧ mo_Kind o2 = MutationOwnerAttach.
Proof.
  intros Hs%claimsReachable_wf H1 H2 Hne.
  destruct (holds_exclusive _ _ _ _ _ _ Hs H1 H2) as [[??]|Hc]; [done|].
  apply andb_true_iff in Hc as [?%String.eqb_eq ?%String.eqb_eq]. done.
Qed.

(** a claim is granted exactly when every claim already held on one of
    its keys is compatible with its owner; a refused claim changes nothing, and
    a granted one holds all of its keys under a lease no earlier claim used,
    leaving every other lease as it was. *)
Theorem claim_all_or_nothing req s :
  claimsReachable s → NoDup (mr_Keys req) → room req s →
  match claimMutationKeysLocked req s with
  | (s', Err _) =>
      s' = s ∧ ∃ l k o, k ∈ mr_Keys req ∧ holds s l k o ∧ compatibleMutationOwners (mr_Owner req) o = false
  | (s', Ok l) =>
      (∀ k, k ∈ mr_Keys req → holds s' l k (mr_Owner req)) ∧ (∀ k o, ¬ holds s l k o) ∧
      (∀ l' k o, l' ≠ l → holds s' l' k o ↔ holds s l' k o) ∧
      (∀ l' k o, k ∈ mr_Keys req → holds s l' k o → compatibleMutationOwners (mr_Owner req) o = true)
  end.
Proof.
  intros Hs%claimsReachable_wf Hnd Hroom. pose proof (claim_granted_iff req s Hs) as Hiff.
  destruct (claimMutationKeysLocked req s) as [s' [l|e]] eqn:Hc; simpl in Hiff.
  - destruct (claim_granted _ _ _ _ Hs Hnd Hroom Hc) as (_&?&?&?).
    assert (∃ l0, Ok l = (Ok l0 : res nat)) as Hex by eauto. rewrite Hiff in Hex. eauto.
  - split; [by eapply claim_err_unchanged|]. unfold claimMutationKeysLocked in Hc.
    destruct (firstConflict s (mr_Owner req) (mr_Keys req)) eqn:Hf; [|by destruct (recordClaims _ _ _)].
    by eapply firstConflict_Some.
Qed.

(** releasing a lease drops its claims, so the keys it held alone can be
    claimed again by anyone, and touches no other lease; releasing it twice is
    the same as releasing it once. *)
Theorem release_lease_exact s l :
  claimsReachable s →
  (∀ k o, ¬ holds (releaseLocked l s) l k o) ∧
  (∀ l' k o, l' ≠ l → holds (releaseLocked l s) l' k o ↔ holds s l' k o) ∧
  releaseLocked l (releaseLocked l s) = releaseLocked l s ∧
  (∀ req, (∀ l' k o, l' ≠ l → k ∈ mr_Keys req → ¬ holds s l' k o) →
    ∃ l', (claimMutationKeysLocked req (releaseLocked l s)).2 = Ok l').
Proof.
  intros Hs%claimsReachable_wf. destruct (release_exact s l Hs) as (Hwf&Hnone&Hother).
  split_and!; [done|done|apply release_twice|]. intros req Hfree. apply claim_granted_iff; [done|].
  intros l' k o Hk Hh. destruct (decide (l' = l)) as [->|Hne]; [by apply Hnone in Hh|].
  apply Hother in Hh; [|done]. by apply Hfree in Hh.
Qed.

Module SampleClaims.
Definition at0 : Time := mkTime 1000 0.
Definition attachReq : MutationRequest :=
  mkRequest ["environment:dev"] (mkOwner MutationOwnerAttach "session-a" MutationPhaseEstablishing "" at0).
Definition attachReq2 : MutationRequest :=
  mkRequest ["environment:dev"] (mkOwner MutationOwnerAttach "session-b" MutationPhaseEstablishing "" at0).
Definition stopReq : MutationRequest :=
  mkRequest ["environment:dev"] (mkOwner MutationOwnerStop "stop-1-1" MutationPhaseStopping "" at0).
Definition one : Claims := (claimMutationKeysLocked attachReq emptyClaims).1.
Definition two : Claims := (claimMutationKeysLocked attachReq2 one).1.
End SampleClaims.

Lemma sample_reach_one : claimsReachable SampleClaims.one.
Proof. apply rtc_once, step_claim; [apply NoDup_singleton|done]. Qed.

Lemma sample_reach_two : claimsReachable SampleClaims.two.
Proof.
  eapply rtc_r; [apply sample_reach_one|]. apply step_claim; [apply NoDup_singleton|done].
Qed.

Lemma mutation_keys_exclusive_witness :
  mo_Kind (mr_Owner SampleClaims.attachReq) = MutationOwnerAttach ∧
  mo_Kind (mr_Owner SampleClaims.attachReq2) = MutationOwnerAttach.
Proof.
  apply (mutation_keys_exclusive SampleClaims.two 0 1 "environment:dev"); [apply sample_reach_two| | |done].
  - exists 1, [mkClaim 1 "environment:dev" (mr_Owner SampleClaims.attachReq)]. split; [done|by left].
  - exists 2, [mkClaim 2 "environment:dev" (mr_Owner SampleClaims.attachReq2)]. split; [done|by left].
Defined.

Lemma claim_all_or_nothing_witness :
  (claimMutationKeysLocked SampleClaims.stopReq SampleClaims.two).1 = SampleClaims.two.
Proof.
  pose proof (claim_all_or_nothing SampleClaims.stopReq SampleClaims.two sample_reach_two
    (NoDup_singleton _) eq_refl) as H.
  exact (proj1 H).
Defined.

Lemma release_lease_exact_witness :
  ∃ l', (claimMutationKeysLocked SampleClaims.stopReq (releaseLocked 0 SampleClaims.one)).2 = Ok l'.
Proof.
  apply (proj2 (proj2 (proj2 (release_lease_exact SampleClaims.one 0 sample_reach_one)))).
  intros l' k o Hne _ (id&cls&Hl&_).
  change (leases SampleClaims.one) with (<[0%nat := [mkClaim 1 "environment:dev" (mr_Owner SampleClaims.attachReq)]]>
    (∅ : gmap nat (list mutationClaim))) in Hl.
  rewrite lookup_insert_ne, lookup_empty in Hl; [discriminate Hl|congruence].
Defined.
