(* ===== verification/LifecycleCoordinator.v ===== *)
(** * The lifecycle coordinator: state and shared steps

    [internal/lifecycle/coordinator.go], with the parts of [registry.go],
    [incarnation.go], [mutation.go] and [reconciliation_fence.go] every
    operation uses: the coordinator and its environments, the clock, the
    journal store, published events, loading, persisting, checkpointing,
    conflict reports, the idle deadline.

    A method that holds [c.mu] is one computation of the monad [M] on the
    whole coordinator; its state survives an early error return.  [c.now] is
    a sequence of readings, one consumed by each call, and the outcome of each
    file operation comes from a sequence too, so that every theorem holds for
    every clock and every pattern of I/O failures.  A [*registryEnvironment]
    is addressed by its key in [c.environments]; objects handed out to callers
    ([*establishment], [*registration], [*mutationLease]) live in heaps. *)
From S2P Require Import Prelude GoStrings GoTime Redact LifecycleModel LifecycleGraph LifecycleJournal LifecycleStatus.
From S2P Require Import LifecycleMutation.

(** ** State *)

Inductive establishmentPhase :=
  | establishmentReserved | establishmentPrepared | establishmentPromoted | establishmentAborted.
#[global] Instance establishmentPhase_eq_dec : EqDecision establishmentPhase.
Proof. solve_decision. Defined.

Record establishment := mkEstablishment {
  es_environment : string; es_session : string; es_lease : option nat;
  es_phase : establishmentPhase; es_incarnation : EnvironmentRef; es_root : ResourceRef }.
#[global] Instance establishment_eta : Eta establishment := λ e,
  mkEstablishment (es_environment e) (es_session e) (es_lease e) (es_phase e)
    (es_incarnation e) (es_root e).

Record registration := mkRegistration {
  rg_environment : string; rg_id : string; rg_incarnation : EnvironmentRef;
  rg_root : ResourceRef; rg_session : ResourceRef; rg_refs : list ResourceRef;
  rg_committed : bool; rg_finished : bool }.
#[global] Instance registration_eta : Eta registration := λ r,
  mkRegistration (rg_environment r) (rg_id r) (rg_incarnation r) (rg_root r) (rg_session r)
    (rg_refs r) (rg_committed r) (rg_finished r).

(** One environment.  The sets are the Go maps to [bool]; [establishing] maps
    a session to the address of its [*establishment]; a timer is the pair its
    closure captured; a non-nil channel or cancel function is [true].
    [re_ident] is the identity of the Go object. *)
Record registryEnvironment := mkEnv {
  re_journal : Journal; re_handles : gset string; re_establishing : gmap string nat;
  re_committed : gset string; re_closing : gset string; re_mutation : bool;
  re_mutationOwner : option MutationOwner; re_mutationLease : option nat;
  re_resourceUsers : gmap string (gset string); re_resourceOrder : gmap string (list ResourceRef);
  re_terminal : gmap string ResourceState; re_timer : option (EnvironmentRef * Z);
  re_stopCancel : bool; re_stopDone : bool; re_deadlineSeq : Z; re_checkpoint : bool;
  re_checkpointSeq : Z; re_dirty : bool; re_blocked : bool; re_reconciling : bool;
  re_reconcileLease : option nat; re_observation : LifecycleObservation; re_ident : nat }.
#[global] Instance registryEnvironment_eta : Eta registryEnvironment := λ e,
  mkEnv (re_journal e) (re_handles e) (re_establishing e) (re_committed e) (re_closing e)
    (re_mutation e) (re_mutationOwner e) (re_mutationLease e) (re_resourceUsers e)
    (re_resourceOrder e) (re_terminal e) (re_timer e) (re_stopCancel e) (re_stopDone e)
    (re_deadlineSeq e) (re_checkpoint e) (re_checkpointSeq e) (re_dirty e) (re_blocked e)
    (re_reconciling e) (re_reconcileLease e) (re_observation e) (re_ident e).

Record Event := mkEvent {
  ev_EnvironmentID : string; ev_Generation : Z; ev_Kind : string; ev_ReasonCode : string;
  ev_At : Time; ev_Status : option Status }.

Record Coordinator := mkCoordinator {
  c_store : Disk; c_daemonID : string; c_idleGrace : Z; c_now : nat → Time; c_reads : nat;
  c_io : nat → IoOutcome; c_ioCalls : nat; c_hasStop : bool; c_enabled : bool;
  c_events : list Event; c_environments : gmap string registryEnvironment; c_claims : Claims;
  c_establishments : gmap nat establishment; c_registrations : gmap nat registration;
  c_nextAddr : nat; c_closing : bool; c_closed : bool }.
#[global] Instance Coordinator_eta : Eta Coordinator := λ c,
  mkCoordinator (c_store c) (c_daemonID c) (c_idleGrace c) (c_now c) (c_reads c) (c_io c)
    (c_ioCalls c) (c_hasStop c) (c_enabled c) (c_events c) (c_environments c) (c_claims c)
    (c_establishments c) (c_registrations c) (c_nextAddr c) (c_closing c) (c_closed c).

Abbreviation M := (SE Coordinator error).

(** Durations are nanoseconds. *)
Definition millisecond : Z := 1000000.
Definition DefaultIdleGrace : Z := 15000 * millisecond.
Definition hour : Z := 3600000 * millisecond.

Record CoordinatorOptions := mkOptions {
  opt_Root : string; opt_Store : Disk; opt_DaemonID : string; opt_IdleGrace : Z;
  opt_Now : nat → Time; opt_Io : nat → IoOutcome; opt_HasStop : bool; opt_Enabled : bool }.

Definition NewCoordinator (o : CoordinatorOptions) : res Coordinator :=
  if String.eqb (opt_Root o) "" || negb (idPattern (opt_DaemonID o))
  then Err (ErrMsg "lifecycle coordinator identity is invalid")
  else
    let grace := if opt_IdleGrace o =? 0 then DefaultIdleGrace else opt_IdleGrace o in
    if (grace <? millisecond) || (hour <? grace)
    then Err (ErrMsg "lifecycle idle grace is out of bounds")
    else Ok (mkCoordinator (opt_Store o) (opt_DaemonID o) grace (opt_Now o) 0 (opt_Io o) 0
               (opt_HasStop o) (opt_Enabled o) [] ∅ emptyClaims ∅ ∅ 0 false false).

(** ** Access to the state *)

Definition getC : M Coordinator := get_state.

Definition nowUTC : M Time := λ c,
  (c <| c_reads := S (c_reads c) |>, Ok (UTC (c_now c (c_reads c)))).

(** The zero environment stands for a nil pointer; every use below follows a
    lookup that found the key. *)
Definition zeroEnv : registryEnvironment :=
  mkEnv (newJournal "" "" 0 zeroTime) ∅ ∅ ∅ ∅ false None None ∅ ∅ ∅ None false false 0 false 0
    false false false None zeroObservation 0.

Definition lookupEnv (env : string) : M (option registryEnvironment) := λ c,
  (c, Ok (c_environments c !! env)).
Definition stateOf (env : string) : M registryEnvironment := λ c,
  (c, Ok (default zeroEnv (c_environments c !! env))).
Definition modEnv (env : string) (f : registryEnvironment → registryEnvironment) : M () :=
  modify (λ c, c <| c_environments ::= alter f env |>).
Definition modJournal (env : string) (f : Journal → Journal) : M () :=
  modEnv env (λ e, e <| re_journal ::= f |>).
Definition deleteEnv (env : string) : M () := modify (λ c, c <| c_environments ::= delete env |>).

(** [if c.closing || c.closed { return ErrCoordinatorClosed }] *)
Definition requireOpen : M () :=
  c ← getC; if c_closing c || c_closed c then fail ErrCoordinatorClosed else mret tt.

Definition noHandles (e : registryEnvironment) : bool := bool_decide (re_handles e = ∅).
Definition noEstablishing (e : registryEnvironment) : bool := bool_decide (re_establishing e = ∅).
Definition handleIn (e : registryEnvironment) (h : string) : bool := bool_decide (h ∈ re_handles e).

(** ** The journal store *)

Definition storeWrite (j : Journal) : M () := λ c,
  let '(disk, r) := Store_Write (c_io c (c_ioCalls c)) j (c_store c) in
  (c <| c_store := disk |> <| c_ioCalls ::= S |>, r).
Definition storeRemove (env : string) : M () := λ c,
  let '(disk, r) := Store_Remove (c_io c (c_ioCalls c)) env (c_store c) in
  (c <| c_store := disk |> <| c_ioCalls ::= S |>, r).
Definition storeLoad (env : string) : M Journal := λ c,
  (c <| c_ioCalls ::= S |>, Store_Load (c_io c (c_ioCalls c)) env (c_store c)).

(** [c.persistLocked(state)] *)
Definition persistLocked (env : string) : M () :=
  now ← nowUTC;
  modJournal env (λ j, j <| j_UpdatedAt := now |> <| j_Resources ::= sort_by rkey |>);;
  state ← stateOf env;
  storeWrite (re_journal state).

(** [c.persistNowLocked(state)]: cancel a pending checkpoint and write. *)
Definition persistNowLocked (env : string) : M () :=
  state ← stateOf env;
  when (re_checkpoint state)
    (modEnv env (λ e, e <| re_checkpoint := false |> <| re_checkpointSeq ::= u64_succ |>));;
  persistLocked env;;
  modEnv env (λ e, e <| re_dirty := false |>).

(** [c.checkpointLaterLocked(environmentID, state)] *)
Definition checkpointLaterLocked (env : string) : M () :=
  modEnv env (λ e, e <| re_dirty := true |>);;
  state ← stateOf env;
  if re_checkpoint state then mret tt
  else modEnv env (λ e, e <| re_checkpoint := true |> <| re_checkpointSeq ::= u64_succ |>).

(** ** Status and events *)

(** [c.statusLocked(environmentID, state)] *)
Definition statusLocked (env : string) (state : registryEnvironment) : M Status :=
  observation ← (if IsZero (obs_ObservedAt (re_observation state)) ||
                    negb (is_ok (Observation_Validate (re_observation state)))
                 then now ← nowUTC; mret (mkObs LifecycleUnknown env "" now "not-observed")
                 else mret (re_observation state));
  let j := re_journal state in
  let stopState := match j_StopAttempt j with Some a => sa_State a | None => "" end in
  let status := BuildStatus env (j_StartGeneration j) observation (j_Resources j) (j_Facts j)
                  (dl_Deadline <$> j_IdleDeadline j) (j_Reconciliation j) stopState in
  let status := match j_Disposal j with
                | Some d => status <| st_DisposalPhase := di_State d |>
                                   <| st_DisposalReasonCode := di_ReasonCode d |>
                | None => status
                end in
  let establishing := size (re_establishing state) in
  let status := status <| st_EstablishingSessions := establishing |> in
  mret (if negb (establishing =? 0)%nat
        then status <| st_Activity := ActivityEstablishing |>
                    <| st_ReasonCode := "attach-establishment-in-progress" |>
        else status).

(** [c.emitLocked(event)]: the status is filled in while the environment
    exists. *)
Definition emitLocked (env : string) (generation : Z) (kind reasonCode : string) (at_ : Time) : M () :=
  found ← lookupEnv env;
  status ← match found with
           | Some state => status ← statusLocked env state; mret (Some status)
           | None => mret None
           end;
  modify (λ c, c <| c_events ::= (λ l, l ++ [mkEvent env generation kind reasonCode at_ status]) |>).

(** [Snapshot] *)
Fixpoint snapshotOf (envs : list (string * registryEnvironment)) : M (list Status) :=
  match envs with
  | [] => mret []
  | (env, state) :: envs =>
      status ← statusLocked env state;
      rest ← snapshotOf envs;
      mret (status :: rest)
  end.
Definition Snapshot : M (list Status) :=
  c ← getC;
  l ← snapshotOf (map_to_list (c_environments c));
  mret (sortStatuses l).

(** ** Claims in the coordinator *)

Definition claimM (request : MutationRequest) : M nat := λ c,
  let '(claims, r) := claimMutationKeysLocked request (c_claims c) in (c <| c_claims := claims |>, r).

(** [lease.releaseLocked()]; also [lease.Release()], which takes the lock
    first and is a critical section of its own. *)
Definition releaseC (lease : nat) (c : Coordinator) : Coordinator := c <| c_claims ::= releaseLocked lease |>.
Definition releaseLease (lease : nat) : M () := modify (releaseC lease).
(** The same on a pointer that may be nil. *)
Definition releaseOpt (lease : option nat) : M () :=
  match lease with Some l => releaseLease l | None => mret tt end.

(** [c.normalizeMutationRequest(request)]; the clock is read only for an owner
    without a start time, after the checks. *)
Definition normalizeM (request : MutationRequest) : M MutationRequest :=
  c ← getC;
  r ← lift (normalizeMutationRequest (c_now c (c_reads c)) request);
  when (IsZero (mo_StartedAt (mr_Owner request))) (_ ← nowUTC; mret tt);;
  mret r.

(** [AcquireMutation] *)
Definition AcquireMutation (ctx : option error) (request : MutationRequest) : M nat :=
  lift (of_err ctx);;
  request ← normalizeM request;
  requireOpen;;
  claimM request.

Definition stopRecovery : string := "wait for stable stop evidence, inspect lifecycle status, then retry".
Definition reconcileRecovery : string := "wait for lifecycle reconciliation to finish, then retry".

(** [syntheticEnvironmentBlockerLocked]: the blocker derived from the
    environment's own state. *)
Definition syntheticEnvironmentBlockerLocked (state : registryEnvironment) : M (option MutationOwner) :=
  c ← getC;
  if re_reconciling state then
    let observed := rc_ObservedAt (j_Reconciliation (re_journal state)) in
    startedAt ← (if IsZero observed then nowUTC else mret observed);
    mret (Some (mkOwner MutationOwnerReconcile (c_daemonID c) MutationPhaseReconciling
                  reconcileRecovery startedAt))
  else match sort_strings (elements (dom (re_establishing state))) with
  | session :: _ => now ← nowUTC; mret (Some (attachMutationOwner session now))
  | [] =>
  match sort_strings (elements (re_handles state)) with
  | session :: _ =>
      now ← nowUTC;
      mret (Some (mkOwner MutationOwnerSession session MutationPhaseActive
                    "stop the owning session or use an explicitly confirmed forced cleanup" now))
  | [] =>
  match re_mutationOwner state with
  | Some owner => mret (Some owner)
  | None =>
  match j_StopAttempt (re_journal state) with
  | Some attempt =>
      if attemptBlocksAttach (Some attempt)
      then mret (Some (mkOwner MutationOwnerStop (sa_ID attempt) MutationPhaseStopping stopRecovery
                         (sa_StartedAt attempt)))
      else mret None
  | None => mret None
  end end end end.

(** [environmentConflictLocked]: the error a rejected caller gets; no caller
    passes a nil fallback. *)
Definition environmentConflictLocked (env : string) (state : registryEnvironment)
    (requested : MutationOwner) (fallback : error) : M error :=
  c ← getC;
  let key := EnvironmentMutationKey env in
  match blockerOf (c_claims c) requested key with
  | Some blocker => mret (MutationConflictError key blocker requested fallback)
  | None =>
      synthetic ← syntheticEnvironmentBlockerLocked state;
      blocker ← match synthetic with
                | Some blocker => mret blocker
                | None =>
                    now ← nowUTC;
                    mret (mkOwner MutationOwnerCleanup (c_daemonID c) MutationPhaseApplying
                      "inspect lifecycle status and retry after the current operation finishes" now)
                end;
      mret (MutationConflictError key blocker requested fallback)
  end.

(** [return ..., c.environmentConflictLocked(...)] *)
Definition failConflict {A} (env : string) (requested : MutationOwner) (fallback : error) : M A :=
  state ← stateOf env;
  e ← environmentConflictLocked env state requested fallback;
  fail e.

(** ** Loading an environment (incarnation.go) *)

Definition freshEnv (journal : Journal) (ident : nat) : registryEnvironment :=
  mkEnv journal ∅ ∅ ∅ ∅ false None None ∅ ∅ ∅ None false false 0 false 0 false false false None
    zeroObservation ident.

Definition loadEnvironmentLocked (env : string) : M registryEnvironment :=
  found ← lookupEnv env;
  match found with
  | Some state => mret state
  | None =>
      c ← getC;
      now ← nowUTC;
      loaded ← attempt (storeLoad env);
      journal ← match loaded with
                | Ok j => mret j
                | Err e =>
                    if errors_Is e ErrNotExist
                    then mret ((newJournal env (c_daemonID c) 1 now) <| j_StartGeneration := 0 |>)
                    else fail (ErrWrap "load lifecycle journal" e)
                end;
      let state := freshEnv journal (c_nextAddr c) in
      let state :=
        if negb (String.eqb (rc_DaemonInstanceID (j_Reconciliation journal)) (c_daemonID c)) &&
           negb (bool_decide (j_Resources journal = []))
        then state <| re_blocked := true |>
                   <| re_journal ::= λ j, j <| j_Reconciliation :=
                        blockedReconciliation (c_daemonID c) "prior-daemon-state-unproved" now |> |>
        else state in
      modify (λ c, c <| c_environments ::= <[env := state]> |> <| c_nextAddr ::= S |>);;
      mret state
  end.

(** [finishReconciliationLocked] *)
Definition finishReconciliationLocked (env : string) : M () :=
  state ← stateOf env;
  if negb (re_reconciling state) then mret tt
  else
    modEnv env (λ e, e <| re_reconciling := false |> <| re_reconcileLease := None |>);;
    releaseOpt (re_reconcileLease state).

(** [finishStopLocked]: close the channel attaching callers wait on. *)
Definition finishStopLocked (env : string) : M () := modEnv env (λ e, e <| re_stopDone := false |>).

(** Set the reconciliation of the journal to blocked. *)
Definition blockJournal (env reasonCode : string) (now : Time) : M () :=
  c ← getC;
  modJournal env (λ j, j <| j_Reconciliation := blockedReconciliation (c_daemonID c) reasonCode now |>).
Definition setBlocked (env : string) (b : bool) : M () := modEnv env (λ e, e <| re_blocked := b |>).
Definition completeReconciliation (daemonID : string) (now : Time) : Reconciliation :=
  mkReconciliation daemonID "complete" "" now.

(** ** The idle deadline *)

Definition currentIncarnationObservation (state : registryEnvironment) : res LifecycleObservation :=
  match j_Incarnation (re_journal state) with
  | None => Err (ErrMsg "lifecycle incarnation is unavailable")
  | Some incarnation =>
      let observation := re_observation state in
      _ ← Observation_Validate observation;
      if bool_decide (obs_State observation ≠ LifecycleRunning) ||
         negb (String.eqb (obs_InstanceName observation) (er_InstanceName incarnation)) ||
         negb (String.eqb (obs_BootID observation) (er_BootID incarnation))
      then Err (ErrMsg "lifecycle observation does not prove the current incarnation running")
      else Ok observation
  end.

Definition reconciliationComplete (state : registryEnvironment) : bool :=
  String.eqb (rc_State (j_Reconciliation (re_journal state))) "complete".

(** [c.scheduleIfIdleLocked(environmentID, state)] *)
Definition scheduleIfIdleLocked (env : string) : M () :=
  requireOpen;;
  c ← getC;
  state ← stateOf env;
  if negb (noEstablishing state) then persistLocked env
  else match j_Incarnation (re_journal state) with
  | None => persistLocked env
  | Some incarnation =>
  if re_blocked state || String.eqb (er_BootID incarnation) "" then persistLocked env
  else match currentIncarnationObservation state with
  | Err _ =>
      setBlocked env true;;
      now ← nowUTC;
      blockJournal env "backend-observation-unproved" now;;
      persistLocked env
  | Ok observation =>
  match EvaluateAutoStop (mkInput incarnation (j_Resources (re_journal state)) observation false false
                            (reconciliationComplete state) true) with
  | Err e =>
      setBlocked env true;;
      now ← nowUTC;
      blockJournal env "lifecycle-graph-invalid" now;;
      ignore_err (persistLocked env);;
      fail e
  | Ok evaluation =>
  if negb (bool_decide (ev_Pins evaluation = [])) || negb (bool_decide (ev_Drains evaluation = []))
  then persistLocked env
  else
    let seq := u64_succ (re_deadlineSeq state) in
    let seq := if seq =? 0 then 1 else seq in
    modEnv env (λ e, e <| re_deadlineSeq := seq |>);;
    now ← nowUTC;
    modJournal env (λ j, j <| j_IdleDeadline :=
      Some (mkDeadline incarnation (c_daemonID c) now (AddDur now (c_idleGrace c)) seq) |>);;
    checkpointLaterLocked env;;
    modEnv env (λ e, e <| re_timer := Some (incarnation, seq) |>);;
    emitLocked env (er_StartGeneration incarnation) "idle-grace-started" "" now
  end end end.

(** [c.cancelDeadlineForAttachLocked(state)] *)
Definition cancelDeadlineForAttachLocked (env : string) : M bool :=
  modEnv env (λ e, e <| re_timer := None |>);;
  state ← stateOf env;
  match j_IdleDeadline (re_journal state) with
  | None => mret false
  | Some deadline =>
      modEnv env (λ e, e <| re_deadlineSeq ::= u64_succ |>);;
      modJournal env (λ j, j <| j_IdleDeadline := None |>);;
      now ← nowUTC;
      emitLocked (er_EnvironmentID (dl_Incarnation deadline)) (er_StartGeneration (dl_Incarnation deadline))
        "idle-grace-cancelled" "" now;;
      modEnv env (λ e, e <| re_dirty := true |>);;
      mret true
  end.

Definition cancelDeadlineLocked (env : string) : M () :=
  cancelled ← cancelDeadlineForAttachLocked env;
  if negb cancelled then mret tt else persistNowLocked env.

(** The checkpoint timer of [checkpointLaterLocked] fires: the closure
    captured the environment object and the sequence. *)
Definition checkpointFired (env : string) (ident : nat) (sequence : Z) : M () :=
  c ← getC;
  found ← lookupEnv env;
  match found with
  | None => mret tt
  | Some current =>
      if negb (re_ident current =? ident)%nat || negb (re_checkpointSeq current =? sequence) || c_closed c
      then mret tt
      else
        modEnv env (λ e, e <| re_checkpoint := false |>);;
        if negb (re_dirty current) then mret tt
        else
          r ← attempt (persistLocked env);
          match r with
          | Err _ =>
              setBlocked env true;;
              now ← nowUTC;
              blockJournal env "journal-checkpoint-failed" now;;
              at_ ← nowUTC;
              emitLocked env (j_StartGeneration (re_journal current)) "reconciliation-blocked"
                "journal-checkpoint-failed" at_
          | Ok _ => modEnv env (λ e, e <| re_dirty := false |>)
          end
  end.
