(* ===== verification/LifecycleAttach.v ===== *)
(** * Attaching a session

    [internal/lifecycle/establishment.go], [BeginAttach] of [registry.go] and
    [selectIncarnationLocked] of [incarnation.go]: the reservation that fences
    automatic stop, the preparation that selects the incarnation, the
    promotion to a registration, and the abort. *)
From S2P Require Import Prelude GoStrings GoTime LifecycleModel LifecycleGraph LifecycleJournal LifecycleStatus LifecycleMutation.
From S2P Require Import LifecycleCoordinator LifecycleRegistry.

Record AttachRequest := mkAttach {
  ar_EnvironmentID : string; ar_InstanceName : string; ar_SessionID : string;
  ar_Observation : LifecycleObservation }.
Record EstablishmentRequest := mkEstRequest {
  eq_EnvironmentID : string; eq_SessionID : string; eq_MutationKeys : list string }.

(** ** Reservation *)

(** What one round of the loop of [reserveAttach] ends with. *)
Inductive ReserveStep :=
  | Reserved (e : nat)
  | WaitReconciliation
  | WaitAutomaticStop.

(** The checks before the loop. *)
Definition reserveRequest (ctx : option error) (request : EstablishmentRequest) : M MutationRequest :=
  lift (of_err ctx);;
  if negb (idPattern (eq_EnvironmentID request)) || negb (idPattern (eq_SessionID request))
  then fail (ErrMsg "lifecycle establishment identity is invalid")
  else
    now ← nowUTC;
    normalizeM (mkRequest (EnvironmentMutationKey (eq_EnvironmentID request) :: eq_MutationKeys request)
                  (attachMutationOwner (eq_SessionID request) now)).

Definition zeroEnvRef : EnvironmentRef := mkEnvRef "" 0 "" "".
Definition zeroRef : ResourceRef := mkRef "" "" 0.

(** [state.mutation || attemptBlocksAttach(...) || state.stopCancel != nil] *)
Definition stopOrMutation (state : registryEnvironment) : bool :=
  re_mutation state || attemptBlocksAttach (j_StopAttempt (re_journal state)) || re_stopCancel state.

(** Grant the reservation: the deadline is cancelled, the establishment
    recorded. *)
Definition grantReservation (request : EstablishmentRequest) (lease : nat) : M ReserveStep :=
  let env := eq_EnvironmentID request in
  _ ← cancelDeadlineForAttachLocked env;
  c ← getC;
  let addr := c_nextAddr c in
  let reservation := mkEstablishment env (eq_SessionID request) (Some lease) establishmentReserved
                       zeroEnvRef zeroRef in
  modify (λ c, c <| c_establishments ::= <[addr := reservation]> |> <| c_nextAddr ::= S |>);;
  modEnv env (λ e, e <| re_establishing ::= <[eq_SessionID request := addr]> |>);;
  state ← stateOf env;
  now ← nowUTC;
  emitLocked env (j_StartGeneration (re_journal state)) "attach-establishment-reserved"
    "attach-establishment-in-progress" now;;
  mret (Reserved addr).

(** One round of the loop, under the lock.  [waitingReason] is the local
    variable that keeps the waiting event from being repeated. *)
Definition reserveRound (request : EstablishmentRequest) (mutationRequest : MutationRequest)
    (shouldWait : bool) (waitingReason : string) : M ReserveStep :=
  let env := eq_EnvironmentID request in
  requireOpen;;
  state ← loadEnvironmentLocked env;
  let generation := j_StartGeneration (re_journal state) in
  let waiting reason :=
    when (negb (String.eqb waitingReason reason))
      (now ← nowUTC; emitLocked env generation "attach-establishment-waiting" reason now) in
  if re_reconciling state then
    waiting "reconciliation-pending";;
    mret WaitReconciliation
  else if re_blocked state then
    if re_mutation state then failConflict env (mr_Owner mutationRequest) ErrAttachBlocked
    else fail (AttachBlockedError (rc_ReasonCode (j_Reconciliation (re_journal state))))
  else if re_stopDone state &&
          match j_StopAttempt (re_journal state) with
          | Some a => String.eqb (sa_Mode a) "automatic"
          | None => false
          end then
    if negb shouldWait then fail ErrStopInFlight
    else
      waiting "automatic-stop-pending";;
      mret WaitAutomaticStop
  else
    lease ← claimM mutationRequest;
    if stopOrMutation state then
      releaseLease lease;;
      failConflict env (mr_Owner mutationRequest) ErrStopInFlight
    else if handleIn state (eq_SessionID request) ||
            bool_decide (is_Some (re_establishing state !! eq_SessionID request)) then
      releaseLease lease;;
      fail (ErrMsg "lifecycle session is already registered or establishing")
    else grantReservation request lease.

(** The whole of [reserveAttach].  Each element of [waits] is what happens
    while the caller waits: the state other callers leave behind, and the
    error when the wait ends by cancellation or by the wait limit.  [None]:
    the caller is still waiting when [waits] ends. *)
Fixpoint reserveLoop (request : EstablishmentRequest) (mutationRequest : MutationRequest)
    (shouldWait : bool) (waitingReason : string) (waits : list ((Coordinator → Coordinator) * option error))
    : M (option nat) :=
  step ← reserveRound request mutationRequest shouldWait waitingReason;
  match step with
  | Reserved e => mret (Some e)
  | WaitReconciliation | WaitAutomaticStop =>
      match waits with
      | [] => mret None
      | (others, ended) :: waits =>
          modify others;;
          lift (of_err ended);;
          reserveLoop request mutationRequest shouldWait
            (match step with WaitReconciliation => "reconciliation-pending" | _ => "automatic-stop-pending" end)
            waits
      end
  end.

Definition reserveAttach (ctx : option error) (request : EstablishmentRequest) (shouldWait : bool)
    (waits : list ((Coordinator → Coordinator) * option error)) : M (option nat) :=
  mutationRequest ← reserveRequest ctx request;
  reserveLoop request mutationRequest shouldWait "" waits.

Definition ReserveAttach (ctx : option error) (request : EstablishmentRequest)
    (waits : list ((Coordinator → Coordinator) * option error)) : M (option nat) :=
  reserveAttach ctx request true waits.

(** ** Selecting the incarnation (incarnation.go) *)

(** Does the observed backend continue the recorded incarnation? *)
Definition reuseIncarnation (recorded : option EnvironmentRef) (request : AttachRequest) : bool :=
  match recorded with
  | None => false
  | Some inc =>
      String.eqb (er_InstanceName inc) (ar_InstanceName request) &&
      match obs_State (ar_Observation request) with
      | LifecycleRunning => String.eqb (er_BootID inc) (obs_BootID (ar_Observation request))
      | LifecycleStopped | LifecycleAbsent => String.eqb (er_BootID inc) ""
      | _ => false
      end
  end.

Definition nextGeneration (generation : Z) : Z :=
  let g := u64_succ generation in if g =? 0 then 1 else g.

(** Replace the root in place, or append it. *)
Definition upsertResource (root : Resource) (rs : list Resource) : list Resource :=
  match find_index (λ r, String.eqb (rkey r) (rkey root)) rs with
  | Some (i, _) => <[i := root]> rs
  | None => rs ++ [root]
  end.

Definition selectIncarnationLocked (env : string) (request : AttachRequest) : M (EnvironmentRef * ResourceRef) :=
  c ← getC;
  state ← stateOf env;
  let j := re_journal state in
  let observation := ar_Observation request in
  incarnation ←
    match j_Incarnation j with
    | Some inc =>
        if reuseIncarnation (Some inc) request then mret (Some inc) else mret None
    | None => mret None
    end;
  incarnation ←
    match incarnation with
    | Some inc => mret inc
    | None =>
        let generation := nextGeneration (j_StartGeneration j) in
        let inc := mkEnvRef (ar_EnvironmentID request) generation (ar_InstanceName request)
                     (if bool_decide (obs_State observation = LifecycleRunning)
                      then obs_BootID observation else "") in
        modJournal env (λ j, j <| j_StartGeneration := generation |> <| j_Incarnation := Some inc |>
                               <| j_Resources := [] |> <| j_StopAttempt := None |>);;
        modEnv env (λ e, e <| re_resourceUsers := ∅ |> <| re_terminal := ∅ |>);;
        mret inc
    end;
  modJournal env (λ j, if j_StartGeneration j =? 0
                       then j <| j_StartGeneration := er_StartGeneration incarnation |> else j);;
  let rootRef := mkRef KindBackendIncarnation (ar_EnvironmentID request) (er_StartGeneration incarnation) in
  let rootState := if String.eqb (er_BootID incarnation) "" then StatePlanned else StateActive in
  now ← nowUTC;
  let root := mkResource rootRef (mkOwnerRef "daemon" (c_daemonID c) (er_StartGeneration incarnation))
                rootState [] PersistenceEphemeral CloseCoTerminateWithRoot (Some incarnation) false now in
  modJournal env (λ j, j <| j_Resources ::= upsertResource root |>);;
  mret (incarnation, rootRef).

(** ** Preparation, promotion, abort *)

Definition validateAttachRequest (request : AttachRequest) : res () :=
  if negb (idPattern (ar_EnvironmentID request)) || negb (idPattern (ar_InstanceName request)) ||
     negb (idPattern (ar_SessionID request))
  then Err (ErrMsg "lifecycle attach identity is invalid")
  else
    _ ← Observation_Validate (ar_Observation request);
    if negb (String.eqb (obs_InstanceName (ar_Observation request)) (ar_InstanceName request))
    then Err (ErrWrap "backend observation belongs to another instance" ErrAttachBlocked)
    else if bool_decide (obs_State (ar_Observation request) = LifecycleUnknown)
    then Err (ErrWrap "backend observation is unknown" ErrAttachBlocked)
    else Ok tt.

Definition observationMatchesIncarnation (incarnation : option EnvironmentRef)
    (observation : LifecycleObservation) : bool :=
  match incarnation with
  | None => false
  | Some inc =>
      if negb (String.eqb (er_InstanceName inc) (obs_InstanceName observation)) then false
      else match obs_State observation with
           | LifecycleRunning =>
               negb (String.eqb (er_BootID inc) "") && String.eqb (er_BootID inc) (obs_BootID observation)
           | LifecycleStopped | LifecycleAbsent => String.eqb (er_BootID inc) ""
           | _ => false
           end
  end.

Definition estOf (a : nat) : M establishment :=
  c ← getC;
  match c_establishments c !! a with
  | Some e => mret e
  | None => fail (ErrMsg "nil establishment")
  end.
Definition modEst (a : nat) (f : establishment → establishment) : M () :=
  modify (λ c, c <| c_establishments ::= alter f a |>).

(** [state, ok := c.environments[e.environment]; !ok || state.establishing[e.session] != e] *)
Definition activeEstablishment (found : option registryEnvironment) (e : establishment) (a : nat)
    : option registryEnvironment :=
  match found with
  | Some state => if bool_decide (re_establishing state !! es_session e = Some a) then Some state else None
  | None => None
  end.

Definition Prepare (ctx : option error) (a : nat) (request : AttachRequest) : M EnvironmentRef :=
  lift (of_err ctx);;
  lift (validateAttachRequest request);;
  e ← estOf a;
  if negb (String.eqb (ar_EnvironmentID request) (es_environment e)) ||
     negb (String.eqb (ar_SessionID request) (es_session e))
  then fail (ErrMsg "lifecycle attach request does not match establishment reservation")
  else if bool_decide (es_phase e ≠ establishmentReserved)
  then fail (ErrMsg "lifecycle establishment is not reserving")
  else
  let env := es_environment e in
  requireOpen;;
  found ← lookupEnv env;
  match activeEstablishment found e a with
  | None => fail (ErrMsg "lifecycle establishment reservation is not active")
  | Some state =>
  if re_reconciling state || re_blocked state then fail ErrAttachBlocked
  else if stopOrMutation state then fail ErrStopInFlight
  else if negb (noHandles state) &&
          negb (observationMatchesIncarnation (j_Incarnation (re_journal state)) (ar_Observation request))
  then fail (ErrWrap "backend incarnation changed while sessions are active" ErrAttachBlocked)
  else
    modEnv env (λ e, e <| re_observation := ar_Observation request |>);;
    selected ← selectIncarnationLocked env request;
    let '(incarnation, root) := selected in
    modEst a (λ e, e <| es_incarnation := incarnation |> <| es_root := root |>
                     <| es_phase := establishmentPrepared |>);;
    now ← nowUTC;
    emitLocked env (er_StartGeneration incarnation) "attach-establishment-prepared"
      "attach-establishment-in-progress" now;;
    mret incarnation
  end.

Definition Promote (ctx : option error) (a : nat) : M nat :=
  lift (of_err ctx);;
  e ← estOf a;
  if bool_decide (es_phase e ≠ establishmentPrepared) then fail (ErrMsg "lifecycle establishment is not prepared")
  else
  let env := es_environment e in
  requireOpen;;
  c ← getC;
  found ← lookupEnv env;
  match activeEstablishment found e a with
  | None => fail (ErrMsg "lifecycle establishment reservation is not active")
  | Some state =>
  if re_reconciling state || re_blocked state then fail ErrAttachBlocked
  else if stopOrMutation state then fail ErrStopInFlight
  else if handleIn state (es_session e) then fail (ErrMsg "lifecycle session is already registered")
  else
    let session := es_session e in
    let generation := er_StartGeneration (es_incarnation e) in
    modEnv env (λ e, e <| re_handles ::= union {[session]} |>
                       <| re_closing ::= λ s, s ∖ {[session]} |>);;
    let sessionRef := mkRef KindRunSession session generation in
    now ← nowUTC;
    let resource := mkResource sessionRef (mkOwnerRef "daemon" (c_daemonID c) generation) StatePlanned
                      [mkDep (es_root e) StopModePin] PersistenceEphemeral CloseCoTerminateWithRoot
                      None true now in
    joined ← attempt (addOrJoin env session resource);
    match joined with
    | Err err => modEnv env (λ e, e <| re_handles ::= λ s, s ∖ {[session]} |>);; fail err
    | Ok _ =>
        at_ ← nowUTC;
        modJournal env (λ j, j <| j_Reconciliation := completeReconciliation (c_daemonID c) at_ |>);;
        modEnv env (λ e, e <| re_committed ::= λ s, s ∖ {[session]} |>
                           <| re_establishing ::= delete session |>);;
        releaseOpt (es_lease e);;
        modEst a (λ e, e <| es_lease := None |> <| es_phase := establishmentPromoted |>);;
        c ← getC;
        let addr := c_nextAddr c in
        let reg := mkRegistration env session (es_incarnation e) (es_root e) sessionRef [sessionRef] false false in
        modify (λ c, c <| c_registrations ::= <[addr := reg]> |> <| c_nextAddr ::= S |>);;
        t1 ← nowUTC;
        emitLocked env generation "resource-registered" "" t1;;
        t2 ← nowUTC;
        emitLocked env generation "attach-establishment-promoted" "owner-established" t2;;
        mret addr
    end
  end.

Definition establishmentAbortReason (err : option error) : string :=
  match err with
  | Some e =>
      if errors_Is e ContextCanceled then "attach-establishment-cancelled"
      else if errors_Is e ContextDeadlineExceeded then "attach-establishment-timeout"
      else "attach-establishment-aborted"
  | None => "attach-establishment-aborted"
  end.

(** [Abort]: note that the early return after a failed [scheduleIfIdleLocked]
    leaves the lease in place. *)
Definition Abort (a : nat) (cause : option error) : M () :=
  e ← estOf a;
  if bool_decide (es_phase e ∈ [establishmentPromoted; establishmentAborted]) then mret tt
  else
  let env := es_environment e in
  let aborted := modEst a (λ e, e <| es_phase := establishmentAborted |>) in
  found ← lookupEnv env;
  match activeEstablishment found e a with
  | None => mret tt
  | Some state =>
      modEnv env (λ e', e' <| re_establishing ::= delete (es_session e) |>);;
      now ← nowUTC;
      emitLocked env (j_StartGeneration (re_journal state)) "attach-establishment-aborted"
        (establishmentAbortReason cause) now;;
      c ← getC;
      state ← stateOf env;
      if noEstablishing state && noHandles state && negb (c_closing c) && negb (c_closed c) then
        if (j_StartGeneration (re_journal state) =? 0) &&
           bool_decide (j_Incarnation (re_journal state) = None)
        then deleteEnv env
        else
          scheduled ← attempt (scheduleIfIdleLocked env);
          match scheduled with
          | Err err => aborted;; fail err
          | Ok _ => mret tt
          end
      else mret tt
  end;;
  releaseOpt (es_lease e);;
  modEst a (λ e, e <| es_lease := None |>);;
  aborted.

(** [BeginAttach]: the one-shot form, which fails instead of waiting for a
    stop.  [None]: still waiting for a reconciliation. *)
Definition BeginAttach (ctx : option error) (request : AttachRequest)
    (waits : list ((Coordinator → Coordinator) * option error)) : M (option nat) :=
  reserved ← reserveAttach ctx (mkEstRequest (ar_EnvironmentID request) (ar_SessionID request) []) false waits;
  match reserved with
  | None => mret None
  | Some a =>
      prepared ← attempt (Prepare ctx a request);
      match prepared with
      | Err e => ignore_err (Abort a (Some e));; fail e
      | Ok _ =>
          promoted ← attempt (Promote ctx a);
          match promoted with
          | Err e => ignore_err (Abort a (Some e));; fail e
          | Ok reg => mret (Some reg)
          end
      end
  end.
