(* ===== verification/LifecycleStop.v ===== *)
(** * Stopping an environment

    [expire], [commitStopResult], [resourcesAfterRootStop] and [StopExplicit]
    of [internal/lifecycle/coordinator.go].  The stop callback runs between two
    critical sections: the first one ends with the attempt to run, the second
    takes the callback's result. *)
From S2P Require Import Prelude GoStrings GoTime LifecycleModel LifecycleGraph LifecycleJournal LifecycleStatus LifecycleMutation.
From S2P Require Import LifecycleCoordinator.

Record StopResult := mkStopResult {
  sr_Observation : LifecycleObservation; sr_ReasonCode : string; sr_CleanupUnproved : bool }.

(** A stop callback in flight: the lease it runs under and the arguments of
    its [commitStopResult]. *)
Record StopCall := mkStopCall { sc_lease : nat; sc_attemptID : string; sc_incarnation : EnvironmentRef }.

(** ** Automatic stop *)

(** The guard of [expire]. *)
Definition deadlineCurrent (state : registryEnvironment) (incarnation : EnvironmentRef) (sequence : Z) : bool :=
  match j_IdleDeadline (re_journal state) with
  | None => false
  | Some d => (dl_Generation d =? sequence) && EnvironmentRef_Equal (dl_Incarnation d) incarnation
  end.

Definition stopOwner (attemptID : string) (startedAt : Time) : MutationOwner :=
  mkOwner MutationOwnerStop attemptID MutationPhaseStopping stopRecovery startedAt.

(** The claim conflicts: a new deadline is armed. *)
Definition deferStop (env : string) (incarnation : EnvironmentRef) : M () :=
  c ← getC;
  state ← stateOf env;
  let retrySequence := u64_succ (re_deadlineSeq state) in
  modEnv env (λ e, e <| re_deadlineSeq := retrySequence |>);;
  now ← nowUTC;
  modJournal env (λ j, j <| j_IdleDeadline :=
    Some (mkDeadline incarnation (c_daemonID c) now (AddDur now (c_idleGrace c)) retrySequence) |>);;
  modEnv env (λ e, e <| re_timer := Some (incarnation, retrySequence) |>);;
  checkpointLaterLocked env;;
  emitLocked env (er_StartGeneration incarnation) "stop-deferred" "mutation-in-progress" now.

Definition setAttempt (env : string) (a : option StopAttempt) : M () :=
  modJournal env (λ j, j <| j_StopAttempt := a |>).

(** The claim is granted: persist the planned attempt, then invoke. *)
Definition planStop (env attemptID : string) (incarnation : EnvironmentRef) (lease : nat) : M (option StopCall) :=
  c ← getC;
  modEnv env (λ e, e <| re_journal ::= (λ j, j <| j_IdleDeadline := None |>) |> <| re_timer := None |>);;
  startedAt ← nowUTC;
  let planned := mkAttempt attemptID incarnation (c_daemonID c) "automatic" "planned" startedAt None in
  setAttempt env (Some planned);;
  persisted ← attempt (persistLocked env);
  match persisted with
  | Err _ => setBlocked env true;; releaseLease lease;; mret None
  | Ok _ =>
      now ← nowUTC;
      emitLocked env (er_StartGeneration incarnation) "idle-grace-expired" "" now;;
      if negb (c_enabled c) || negb (c_hasStop c) then
        setAttempt env None;;
        ignore_err (persistLocked env);;
        releaseLease lease;;
        mret None
      else
        setAttempt env (Some (planned <| sa_State := "invoked" |>));;
        ignore_err (persistLocked env);;
        modEnv env (λ e, e <| re_stopCancel := true |> <| re_stopDone := true |>);;
        mret (Some (mkStopCall lease attemptID incarnation))
  end.

(** [expire] up to the call of [c.stop]; [None] when it returns before. *)
Definition expire (env : string) (incarnation : EnvironmentRef) (sequence : Z) : M (option StopCall) :=
  c ← getC;
  found ← lookupEnv env;
  match found with
  | None => mret None
  | Some state =>
  if c_closing c || c_closed c || re_mutation state || negb (noEstablishing state) ||
     negb (deadlineCurrent state incarnation sequence) || negb (noHandles state)
  then mret None
  else match currentIncarnationObservation state with
  | Err _ =>
      modEnv env (λ e, e <| re_journal ::= (λ j, j <| j_IdleDeadline := None |>) |>
                         <| re_timer := None |> <| re_blocked := true |>);;
      now ← nowUTC;
      blockJournal env "backend-observation-unproved" now;;
      ignore_err (persistLocked env);;
      at_ ← nowUTC;
      emitLocked env (er_StartGeneration incarnation) "reconciliation-blocked" "backend-observation-unproved" at_;;
      mret None
  | Ok observation =>
  match EvaluateAutoStop (mkInput incarnation (j_Resources (re_journal state)) observation false true
                            (reconciliationComplete state) true) with
  | Err _ =>
      setBlocked env true;;
      now ← nowUTC;
      blockJournal env "lifecycle-graph-invalid" now;;
      ignore_err (persistLocked env);;
      mret None
  | Ok evaluation =>
  if negb (ev_Allowed evaluation) || negb (bool_decide (ev_Drains evaluation = [])) then
    setBlocked env false;;
    ignore_err (persistLocked env);;
    mret None
  else
    let attemptID := "stop-" +:+ show_u64 (er_StartGeneration incarnation) +:+ "-" +:+ show_u64 sequence in
    startedAt ← nowUTC;
    normalized ← attempt (normalizeM (mkRequest [EnvironmentMutationKey env] (stopOwner attemptID startedAt)));
    match normalized with
    | Err _ =>
        setBlocked env true;;
        now ← nowUTC;
        blockJournal env "lifecycle-mutation-key-invalid" now;;
        ignore_err (persistLocked env);;
        mret None
    | Ok request =>
        claimed ← attempt (claimM request);
        match claimed with
        | Err _ => deferStop env incarnation;; mret None
        | Ok lease => planStop env attemptID incarnation lease
        end
    end
  end end end.

(** ** The result of a stop *)

Definition resourcesAfterRootStop (resources : list Resource) (cleanupUnproved : bool) (now : Time) : list Resource :=
  omap (λ r,
    if String.eqb (rr_Kind (res_Ref r)) KindBackendIncarnation then None
    else if cleanupUnproved && IsPossiblyLive r
    then Some (r <| res_State := StateOrphaned |> <| res_PossibleVMDependency := true |>
                 <| res_UpdatedAt := now |> <| res_Dependencies := [] |>)
    else None) resources.

(** The observation that is believed: the reported one when it is valid and
    of this instance, an unknown one otherwise. *)
Definition stopObservation (result : StopResult) (incarnation : EnvironmentRef) (now : Time) : LifecycleObservation :=
  let observation := sr_Observation result in
  if IsZero (obs_ObservedAt observation) || negb (is_ok (Observation_Validate observation)) ||
     negb (String.eqb (obs_InstanceName observation) (er_InstanceName incarnation))
  then mkObs LifecycleUnknown (er_InstanceName incarnation) "" now "stop-result-unavailable"
  else observation.

Definition terminalObservation (o : LifecycleObservation) : bool :=
  bool_decide (obs_State o ∈ [LifecycleStopped; LifecycleAbsent]).

Definition commitStopResult (env : string) (call : StopCall) (result : StopResult) : M () :=
  c ← getC;
  found ← lookupEnv env;
  if c_closed c then mret tt
  else match found with
  | None => mret tt
  | Some state =>
  match j_StopAttempt (re_journal state) with
  | None => mret tt
  | Some recorded =>
  let incarnation := sc_incarnation call in
  if negb (String.eqb (sa_ID recorded) (sc_attemptID call)) ||
     negb (EnvironmentRef_Equal (sa_Incarnation recorded) incarnation)
  then mret tt
  else
    now ← nowUTC;
    modEnv env (λ e, e <| re_stopCancel := false |>);;
    let observation := stopObservation result incarnation now in
    let snapshot := mkSnapshot (LifecycleState_string (obs_State observation)) (obs_ObservedAt observation)
                      (boundedReason (obs_ReasonCode observation)) in
    modEnv env (λ e, e <| re_observation := observation |>);;
    (if terminalObservation observation then
       setAttempt env (Some (recorded <| sa_Observation := Some snapshot |> <| sa_State := "committed" |>));;
       modJournal env (λ j, j <| j_Resources ::= (λ rs, resourcesAfterRootStop rs (sr_CleanupUnproved result) now) |>
                              <| j_Incarnation := None |>
                              <| j_Reconciliation :=
                                   if sr_CleanupUnproved result
                                   then blockedReconciliation (c_daemonID c) "cleanup-unproved" now
                                   else completeReconciliation (c_daemonID c) now |>);;
       modEnv env (λ e, e <| re_resourceUsers := ∅ |> <| re_terminal := ∅ |>
                          <| re_blocked := sr_CleanupUnproved result |>);;
       emitLocked env (er_StartGeneration incarnation) "environment-stopped" (boundedReason (sr_ReasonCode result)) now
     else
       setAttempt env (Some (recorded <| sa_Observation := Some snapshot |> <| sa_State := "unknown" |>));;
       setBlocked env true;;
       emitLocked env (er_StartGeneration incarnation) "stop-unknown"
         (boundedReason (if String.eqb (sr_ReasonCode result) "" then obs_ReasonCode observation
                         else sr_ReasonCode result)) now);;
    ignore_err (persistLocked env);;
    finishStopLocked env
  end end.

(** ** Explicit stop *)

(** How the first critical section of [StopExplicit] ends: a return, a return
    whose deferred [lease.Release()] still has to run, or the callback. *)
Inductive ExplicitStop :=
  | ExplicitReturn (status : option Status) (err : error)
  | ExplicitDeferred (lease : nat) (status : option Status) (err : error)
  | ExplicitCall (call : StopCall).

(** The loop over the resources: the error that blocks the stop, or the
    number of orphans explicit recovery may resolve. *)
Fixpoint recoverableOrphans (rs : list Resource) : res nat :=
  match rs with
  | [] => Ok 0%nat
  | r :: rs =>
      if String.eqb (rr_Kind (res_Ref r)) KindBackendIncarnation || negb (IsPossiblyLive r)
      then recoverableOrphans rs
      else if bool_decide (res_State r ≠ StateOrphaned)
      then Err (ErrMsg "lifecycle explicit stop is blocked by a live managed resource")
      else
        let approved := match Lookup (rr_Kind (res_Ref r)) with
                        | Some d => bool_decide (res_ClosePolicy r = CloseCoTerminateWithRoot) &&
                                    bool_decide (CloseCoTerminateWithRoot ∈ d_ClosePolicies d)
                        | None => false
                        end in
        if negb approved
        then Err (ErrMsg "lifecycle explicit stop is blocked by an orphan that requires provider cleanup")
        else n ← recoverableOrphans rs; Ok (S n)
  end.

Definition explicitAttemptID (generation : Z) (startedAt : Time) : string :=
  "explicit-" +:+ show_u64 generation +:+ "-" +:+ pretty (unixNano startedAt).

(** The error after the claim whose lease is released on the spot: something
    of the environment is active. *)
Definition explicitConflict (state : registryEnvironment) : option error :=
  if re_reconciling state then Some ErrReconciliationInFlight
  else if negb (noHandles state) || negb (noEstablishing state) then Some ErrMutationBlockedByActivity
  else if re_mutation state then Some ErrStopInFlight
  else if attemptBlocksAttach (j_StopAttempt (re_journal state)) then Some ErrStopInFlight
  else None.

(** The later refusals, whose lease is released by the deferred call; [Ok] is
    the incarnation to stop. *)
Definition explicitRefusal (state : registryEnvironment) : res EnvironmentRef :=
  match j_Incarnation (re_journal state) with
  | None => Err (ErrMsg "lifecycle explicit stop lacks an observed backend incarnation")
  | Some incarnation =>
      if String.eqb (er_BootID incarnation) ""
      then Err (ErrMsg "lifecycle explicit stop lacks an observed backend incarnation")
      else
        let reason := rc_ReasonCode (j_Reconciliation (re_journal state)) in
        let recoveryBlocked := re_blocked state || negb (reconciliationComplete state) in
        if recoveryBlocked && negb (String.eqb reason "cleanup-unproved") &&
           negb (String.eqb reason "owner-requires-explicit-recovery")
        then Err (ErrMsg "lifecycle explicit stop is blocked by unclassified provider state; restart the local control plane (hideout daemon stop, then retry) so it re-reconciles the environment")
        else
          orphans ← recoverableOrphans (j_Resources (re_journal state));
          if recoveryBlocked && (orphans =? 0)%nat
          then Err (ErrMsg "lifecycle explicit stop has no catalog-approved orphan recovery")
          else Ok incarnation
  end.

(** From the accepted request to the callback. *)
Definition invokeExplicit (env attemptID : string) (incarnation : EnvironmentRef) (startedAt : Time)
    (lease : nat) : M ExplicitStop :=
  c ← getC;
  cancelled ← attempt (cancelDeadlineLocked env);
  match cancelled with
  | Err e => mret (ExplicitDeferred lease None e)
  | Ok _ =>
      setAttempt env (Some (mkAttempt attemptID incarnation (c_daemonID c) "explicit-recovery" "invoked"
                              startedAt None));;
      persisted ← attempt (persistLocked env);
      match persisted with
      | Err e => mret (ExplicitDeferred lease None e)
      | Ok _ =>
          now ← nowUTC;
          emitLocked env (er_StartGeneration incarnation) "stop-attempt-started" "" now;;
          if negb (c_hasStop c) then
            setAttempt env None;;
            ignore_err (persistLocked env);;
            state ← stateOf env;
            status ← statusLocked env state;
            mret (ExplicitDeferred lease (Some status) (ErrMsg "lifecycle stop authority is unavailable"))
          else
            modEnv env (λ e, e <| re_stopCancel := true |> <| re_stopDone := true |>);;
            mret (ExplicitCall (mkStopCall lease attemptID incarnation))
      end
  end.

(** [StopExplicit] up to the call of [c.stop]; an [Err] is a return before the
    claim. *)
Definition StopExplicit_begin (env : string) : M ExplicitStop :=
  if negb (idPattern env) then fail (ErrMsg "lifecycle explicit stop identity is invalid")
  else
  requireOpen;;
  state ← loadEnvironmentLocked env;
  startedAt ← nowUTC;
  let attemptID := explicitAttemptID (j_StartGeneration (re_journal state)) startedAt in
  request ← normalizeM (mkRequest [EnvironmentMutationKey env] (stopOwner attemptID startedAt));
  claimed ← attempt (claimM request);
  match claimed with
  | Err e => status ← statusLocked env state; mret (ExplicitReturn (Some status) e)
  | Ok lease =>
  match explicitConflict state with
  | Some fallback =>
      status ← statusLocked env state;
      releaseLease lease;;
      e ← environmentConflictLocked env state (mr_Owner request) fallback;
      mret (ExplicitReturn (Some status) e)
  | None =>
  match explicitRefusal state with
  | Err e => status ← statusLocked env state; mret (ExplicitDeferred lease (Some status) e)
  | Ok incarnation => invokeExplicit env attemptID incarnation startedAt lease
  end end end.

(** The last critical section of [StopExplicit]: the status returned, with an
    error unless the environment is proved stopped.  A nil state is not
    dereferenced in the model: the environment is still there while the
    claim of this call is held. *)
Definition StopExplicit_end (env : string) (stopErr : option error) : M (Status * option error) :=
  state ← stateOf env;
  status ← statusLocked env state;
  mret (status,
    match stopErr with
    | None => if bool_decide (st_Activity status ≠ ActivityStopped)
              then Some (ErrMsg "lifecycle explicit stop did not reach a proved terminal backend state")
              else None
    | Some e => Some e
    end).

(** [StopExplicit] without interleaved callers; [stop] is the callback. *)
Definition StopExplicit (stop : StopCall → StopResult * option error) (env : string)
    : M (option Status * option error) :=
  begun ← StopExplicit_begin env;
  match begun with
  | ExplicitReturn status e => mret (status, Some e)
  | ExplicitDeferred lease status e => releaseLease lease;; mret (status, Some e)
  | ExplicitCall call =>
      let '(result, stopErr) := stop call in
      commitStopResult env call result;;
      final ← StopExplicit_end env stopErr;
      releaseLease (sc_lease call);;
      mret (Some final.1, final.2)
  end.

(** [expire] with the callback, without interleaved callers. *)
Definition expireAndStop (stop : StopCall → StopResult * option error) (env : string)
    (incarnation : EnvironmentRef) (sequence : Z) : M () :=
  begun ← expire env incarnation sequence;
  match begun with
  | None => mret tt
  | Some call => commitStopResult env call (stop call).1;; releaseLease (sc_lease call)
  end.
