(* ===== verification/LifecycleDisposalOps.v ===== *)
(** * Removing an environment

    [ForgetEnvironment], the disposal operations, [RunDestructiveMutation] and
    [Close] of [internal/lifecycle/coordinator.go].  The mutation callback runs
    between two critical sections. *)
From S2P Require Import Prelude GoStrings GoTime LifecycleModel LifecycleGraph LifecycleJournal LifecycleStatus LifecycleMutation.
From S2P Require Import LifecycleCoordinator.

(** The activity that refuses a destructive operation. *)
Definition environmentActive (state : registryEnvironment) : bool :=
  negb (noHandles state) || negb (noEstablishing state) || re_mutation state ||
  attemptBlocksAttach (j_StopAttempt (re_journal state)) || re_stopCancel state.

Definition applyingOwner (kind id recovery : string) (startedAt : Time) : MutationOwner :=
  mkOwner kind id MutationPhaseApplying recovery startedAt.

Definition stopTimer (env : string) : M () := modEnv env (λ e, e <| re_timer := None |>).

(** ** [ForgetEnvironment] *)

(** Under the claim: refuse activity, else remove the journal and the entry. *)
Definition forgetClaimed (env : string) (owner : MutationOwner) (lease : nat) : M () :=
  state ← stateOf env;
  if re_reconciling state then
    releaseLease lease;; failConflict env owner ErrReconciliationInFlight
  else if environmentActive state then
    releaseLease lease;; failConflict env owner ErrMutationBlockedByActivity
  else
    stopTimer env;;
    storeRemove env;;
    deleteEnv env.

Definition ForgetEnvironment (env : string) : M () :=
  if negb (idPattern env) then fail (ErrMsg "lifecycle forget identity is invalid")
  else
  requireOpen;;
  c ← getC;
  loaded ← attempt (loadEnvironmentLocked env);
  match loaded with
  | Err e => if errors_Is e ErrNotExist then mret tt else fail e
  | Ok _ =>
      now ← nowUTC;
      request ← normalizeM (mkRequest [EnvironmentMutationKey env]
        (applyingOwner MutationOwnerCleanup (c_daemonID c)
           "wait for lifecycle activity to finish, then retry metadata cleanup" now));
      lease ← claimM request;
      finally (forgetClaimed env (mr_Owner request) lease) (releaseC lease)
  end.

(** ** Disposal *)

(** The intent after [BeginDisposal]: a fresh one, or the recorded one of the
    same identity, resumed when it was blocked. *)
Definition resumeIntent (request : DisposalRequest) (generation : Z) (now : Time)
    (recorded : option DisposalIntent) : res DisposalIntent :=
  let authority := DisposalRequest_authority request in
  match recorded with
  | None =>
      Ok (mkIntent DisposalIntentSchema authority (dr_Backend request) (dr_InstanceName request)
            (dr_RecordDigest request) (dr_ActivitySessionID request) generation DisposalStatePlanned now now "")
  | Some intent =>
      if negb (String.eqb (di_Authority intent) authority) ||
         negb (String.eqb (di_Backend intent) (dr_Backend request)) ||
         negb (String.eqb (di_InstanceName intent) (dr_InstanceName request)) ||
         negb (String.eqb (di_RecordDigest intent) (dr_RecordDigest request)) ||
         negb (String.eqb (di_ActivitySessionID intent) (dr_ActivitySessionID request)) ||
         negb (di_Generation intent =? generation)
      then Err (ErrMsg "lifecycle disposal intent identity mismatch")
      else if String.eqb (di_State intent) DisposalStateBlocked then
        _ ← ValidateDisposalTransition (di_State intent) DisposalStatePlanned;
        Ok (intent <| di_State := DisposalStatePlanned |> <| di_ReasonCode := "" |> <| di_UpdatedAt := now |>)
      else Ok intent
  end.

(** From [state.mutation = true] on: the environment keeps the lease unless
    the journal cannot be written. *)
Definition retainDisposal (env : string) (owner : MutationOwner) (lease : nat) (intent : DisposalIntent)
    (now : Time) : M DisposalIntent :=
  modEnv env (λ e, e <| re_mutation := true |> <| re_mutationOwner := Some owner |>
                     <| re_mutationLease := Some lease |> <| re_blocked := true |>);;
  blockJournal env "disposal-in-progress" now;;
  persisted ← attempt (persistLocked env);
  match persisted with
  | Err e =>
      modEnv env (λ e, e <| re_mutation := false |> <| re_mutationOwner := None |>
                         <| re_mutationLease := None |>);;
      fail e
  | Ok _ =>
      state ← stateOf env;
      emitLocked env (j_StartGeneration (re_journal state)) "disposal-started" "" now;;
      mret intent
  end.

(** Under the claim, up to [retainLease = true]; the caller releases the
    lease when this fails. *)
Definition beginDisposalClaimed (request : DisposalRequest) (owner : MutationOwner) (lease : nat)
    : M DisposalIntent :=
  let env := dr_EnvironmentID request in
  c ← getC;
  state ← stateOf env;
  if re_reconciling state then
    releaseLease lease;; failConflict env owner ErrReconciliationInFlight
  else if environmentActive state then
    releaseLease lease;; failConflict env owner ErrMutationBlockedByActivity
  else
    (if j_StartGeneration (re_journal state) =? 0 then
       t1 ← nowUTC;
       modJournal env (λ _, newJournal env (c_daemonID c)
         (if dr_Generation request =? 0 then 1 else dr_Generation request) t1);;
       t2 ← nowUTC;
       blockJournal env "disposal-in-progress" t2
     else if negb (dr_Generation request =? 0) &&
             negb (dr_Generation request =? j_StartGeneration (re_journal state))
     then fail (ErrMsg "lifecycle disposal request generation mismatch")
     else mret tt);;
    now ← nowUTC;
    state ← stateOf env;
    intent ← lift (resumeIntent request (j_StartGeneration (re_journal state)) now
                     (j_Disposal (re_journal state)));
    modJournal env (λ j, j <| j_Disposal := Some intent |>);;
    cancelDeadlineLocked env;;
    retainDisposal env owner lease intent now.

Definition BeginDisposal (ctx : option error) (request : DisposalRequest) : M DisposalIntent :=
  lift (DisposalRequest_validate request);;
  lift (of_err ctx);;
  requireOpen;;
  _ ← loadEnvironmentLocked (dr_EnvironmentID request);
  now ← nowUTC;
  claimRequest ← normalizeM (mkRequest [EnvironmentMutationKey (dr_EnvironmentID request)]
    (applyingOwner MutationOwnerDisposal (DisposalRequest_authority request)
       "inspect the owning disposal operation and retry after it reaches a terminal or blocked phase" now));
  lease ← claimM claimRequest;
  begun ← attempt (beginDisposalClaimed request (mr_Owner claimRequest) lease);
  match begun with
  | Err e => releaseLease lease;; fail e
  | Ok intent => mret intent
  end.

(** [disposalLocked] *)
Definition disposalLocked (env recordDigest : string) : M (registryEnvironment * DisposalIntent) :=
  requireOpen;;
  if negb (idPattern env) || negb (lowerHex recordDigest 64)
  then fail (ErrMsg "lifecycle disposal lease identity is invalid")
  else
    state ← loadEnvironmentLocked env;
    match j_Disposal (re_journal state) with
    | None => fail (ErrMsg "lifecycle disposal lease identity mismatch")
    | Some intent =>
        if negb (String.eqb (di_RecordDigest intent) recordDigest)
        then fail (ErrMsg "lifecycle disposal lease identity mismatch")
        else mret (state, intent)
    end.

(** [activeDisposalLocked] *)
Definition activeDisposalLocked (env recordDigest : string) : M (registryEnvironment * DisposalIntent) :=
  found ← disposalLocked env recordDigest;
  if negb (re_mutation found.1) then fail (ErrMsg "lifecycle disposal mutation is not active")
  else mret found.

(** The in-place update of [*DisposalIntent]. *)
Definition setDisposal (env nextState reasonCode : string) (now : Time) : M () :=
  modJournal env (λ j, j <| j_Disposal ::= fmap (λ d,
    d <| di_State := nextState |> <| di_ReasonCode := reasonCode |> <| di_UpdatedAt := now |>) |>).

Definition AdvanceDisposal (ctx : option error) (env recordDigest nextState : string) : M () :=
  lift (of_err ctx);;
  found ← activeDisposalLocked env recordDigest;
  let '(state, intent) := found in
  if String.eqb nextState DisposalStateBlocked then fail (ErrMsg "blocked disposal requires a reason")
  else
    lift (ValidateDisposalTransition (di_State intent) nextState);;
    t1 ← nowUTC;
    setDisposal env nextState "" t1;;
    t2 ← nowUTC;
    blockJournal env "disposal-in-progress" t2;;
    persistLocked env;;
    at_ ← nowUTC;
    emitLocked env (j_StartGeneration (re_journal state)) "disposal-progressed" nextState at_.

(** [state.mutation = false] and the release of the retained lease. *)
Definition endMutation (env : string) : M () :=
  state ← stateOf env;
  modEnv env (λ e, e <| re_mutation := false |> <| re_mutationOwner := None |>
                     <| re_mutationLease := None |>);;
  releaseOpt (re_mutationLease state).

Definition BlockDisposal (ctx : option error) (env recordDigest reasonCode : string) : M () :=
  lift (of_err ctx);;
  if negb (validDisposalReasonCode reasonCode) then fail (ErrMsg "lifecycle disposal block reason is invalid")
  else
    found ← disposalLocked env recordDigest;
    let '(state, intent) := found in
    lift (ValidateDisposalTransition (di_State intent) DisposalStateBlocked);;
    t1 ← nowUTC;
    setDisposal env DisposalStateBlocked reasonCode t1;;
    endMutation env;;
    setBlocked env true;;
    t2 ← nowUTC;
    blockJournal env reasonCode t2;;
    persisted ← attempt (persistLocked env);
    at_ ← nowUTC;
    emitLocked env (j_StartGeneration (re_journal state)) "disposal-blocked" reasonCode at_;;
    lift persisted.

Definition CompleteDisposalMetadata (ctx : option error) (env recordDigest : string) : M () :=
  lift (of_err ctx);;
  found ← activeDisposalLocked env recordDigest;
  let '(state, intent) := found in
  if negb (String.eqb (di_State intent) DisposalStateMetadataCleaning)
  then fail (ErrMsg "lifecycle disposal metadata is not ready for completion")
  else
    stopTimer env;;
    removed ← attempt (storeRemove env);
    match removed with
    | Err e =>
        endMutation env;;
        setBlocked env true;;
        now ← nowUTC;
        blockJournal env "journal-removal-failed" now;;
        persisted ← attempt (persistLocked env);
        lift (of_err (join_err (Some e) (err_of persisted)))
    | Ok _ =>
        releaseOpt (re_mutationLease state);;
        deleteEnv env;;
        at_ ← nowUTC;
        emitLocked env (di_Generation intent) "disposal-metadata-removed" "" at_
    end.

(** ** Destructive mutations *)

(** How the first critical section ends: a return, a return whose deferred
    [lease.Release()] still has to run, or the callback. *)
Inductive MutationBegin :=
  | MutationReturn (err : error)
  | MutationDeferred (lease : nat) (err : error)
  | MutationCall (lease : nat).

Definition beginMutationClaimed (env : string) (owner : MutationOwner) (lease : nat) : M MutationBegin :=
  c ← getC;
  state ← stateOf env;
  if re_reconciling state then
    releaseLease lease;;
    e ← environmentConflictLocked env state owner ErrReconciliationInFlight;
    mret (MutationReturn e)
  else if environmentActive state then
    releaseLease lease;;
    e ← environmentConflictLocked env state owner ErrMutationBlockedByActivity;
    mret (MutationReturn e)
  else
    cancelled ← attempt (cancelDeadlineLocked env);
    match cancelled with
    | Err e => mret (MutationDeferred lease e)
    | Ok _ =>
        modEnv env (λ e, e <| re_mutation := true |> <| re_mutationOwner := Some owner |>
                           <| re_blocked := true |>);;
        let generation := j_StartGeneration (re_journal state) in
        persisted ← (if generation =? 0 then mret (Ok tt)
                     else
                       now ← nowUTC;
                       blockJournal env "destructive-mutation-in-progress" now;;
                       attempt (persistLocked env));
        match persisted with
        | Err e =>
            modEnv env (λ e, e <| re_mutation := false |> <| re_mutationOwner := None |>);;
            mret (MutationDeferred lease e)
        | Ok _ =>
            at_ ← nowUTC;
            emitLocked env generation "destructive-mutation-started" "operator-requested" at_;;
            mret (MutationCall lease)
        end
    end.

(** [RunDestructiveMutationWithOwner] up to the callback; an [Err] is a return
    before the claim. *)
Definition RunDestructiveMutation_begin (ctx : option error) (env : string) (owner : MutationOwner)
    : M MutationBegin :=
  if negb (idPattern env) then fail (ErrMsg "lifecycle destructive mutation is invalid")
  else
  lift (of_err ctx);;
  request ← normalizeM (mkRequest [EnvironmentMutationKey env] owner);
  requireOpen;;
  _ ← loadEnvironmentLocked env;
  lease ← claimM request;
  beginMutationClaimed env (mr_Owner request) lease.

(** The second critical section, with the callback's error. *)
Definition RunDestructiveMutation_end (env : string) (mutationErr : option error) : M () :=
  c ← getC;
  found ← lookupEnv env;
  if c_closing c || c_closed c
  then lift (of_err (join_err mutationErr (Some ErrCoordinatorClosed)))
  else match found with
  | None =>
      lift (of_err (join_err mutationErr
        (Some (ErrMsg "lifecycle destructive mutation lost coordinator state"))))
  | Some state =>
      modEnv env (λ e, e <| re_mutation := false |> <| re_mutationOwner := None |>);;
      let generation := j_StartGeneration (re_journal state) in
      let journalless := generation =? 0 in
      match mutationErr with
      | Some _ =>
          if journalless then
            deleteEnv env;;
            at_ ← nowUTC;
            emitLocked env 0 "destructive-mutation-failed" "cleanup-unproved" at_;;
            lift (of_err mutationErr)
          else
            now ← nowUTC;
            blockJournal env "cleanup-unproved" now;;
            persisted ← attempt (persistLocked env);
            at_ ← nowUTC;
            emitLocked env generation "destructive-mutation-failed" "cleanup-unproved" at_;;
            lift (of_err (join_err mutationErr (err_of persisted)))
      | None =>
          if journalless then deleteEnv env
          else
            removed ← attempt (storeRemove env);
            match removed with
            | Err e =>
                persisted ← attempt (persistLocked env);
                lift (of_err (join_err (Some e) (err_of persisted)))
            | Ok _ => deleteEnv env
            end
      end
  end.

(** [RunDestructiveMutationWithOwner] without interleaved callers; [mutate] is
    the callback's error. *)
Definition RunDestructiveMutationWithOwner (ctx : option error) (env : string) (owner : MutationOwner)
    (mutate : option error) : M () :=
  begun ← RunDestructiveMutation_begin ctx env owner;
  match begun with
  | MutationReturn e => fail e
  | MutationDeferred lease e => releaseLease lease;; fail e
  | MutationCall lease => finally (RunDestructiveMutation_end env mutate) (releaseC lease)
  end.

Definition RunDestructiveMutation (ctx : option error) (env : string) (mutate : option error) : M () :=
  c ← getC;
  RunDestructiveMutationWithOwner ctx env
    (applyingOwner MutationOwnerCleanup (c_daemonID c)
       "inspect lifecycle status and retry the cleanup after the blocker finishes" zeroTime) mutate.

(** ** Shutdown *)

(** One iteration of the loop of [Close]; [c.closing] is already set. *)
Definition closeEnvironment (env : string) : M () :=
  state ← stateOf env;
  let j := re_journal state in
  let deferred := match j_Incarnation j with
                  | Some inc => negb (String.eqb (er_BootID inc) "")
                  | None => false
                  end in
  modEnv env (λ e, e <| re_establishing := ∅ |> <| re_timer := None |> <| re_stopCancel := false |>
                     <| re_stopDone := false |>
                     <| re_journal ::= (λ j, j <| j_IdleDeadline := None |>) |>);;
  when (re_reconciling state)
    (setBlocked env true;;
     now ← nowUTC;
     blockJournal env "daemon-shutdown" now;;
     finishReconciliationLocked env);;
  if j_StartGeneration j =? 0 then deleteEnv env
  else
    persisted ← attempt (persistNowLocked env);
    when deferred
      (at_ ← nowUTC; emitLocked env (j_StartGeneration j) "stop-deferred" "daemon-shutdown" at_);;
    lift persisted.

Fixpoint closeEach (envs : list string) (result : option error) : M (option error) :=
  match envs with
  | [] => mret result
  | env :: envs =>
      r ← attempt (closeEnvironment env);
      closeEach envs (join_err result (err_of r))
  end.

(** [Close] up to the wait for the stop transactions; [None] when another call
    already closed it. *)
Definition Close_begin : M (option (option error)) :=
  c ← getC;
  if c_closed c || c_closing c then mret None
  else
    modify (λ c, c <| c_closing := true |>);;
    result ← closeEach (map fst (map_to_list (c_environments c))) None;
    modify (λ c, c <| c_claims ::= (λ cl, cl <| mutationClaims := ∅ |>) |>);;
    mret (Some result).

(** After the wait, which ended by completion or by the bound. *)
Definition Close_end (result : option error) (timedOut : bool) : M () :=
  modify (λ c, c <| c_closed := true |> <| c_closing := false |>);;
  lift (of_err (if timedOut
    then join_err result (Some (ErrMsg "lifecycle stop transaction did not terminate during bounded shutdown"))
    else result)).

Definition Close (timedOut : bool) : M () :=
  begun ← Close_begin;
  match begun with
  | None => mret tt
  | Some result => Close_end result timedOut
  end.
