(* ===== verification/LifecycleReconcile.v ===== *)
(** * Reconciliation

    [internal/lifecycle/reconcile.go] and [reconciliation_fence.go]: the fence
    in front of a backend probe, and the classification of an environment from
    the observed backend after a daemon restart. *)
From S2P Require Import Prelude GoStrings GoTime LifecycleModel LifecycleGraph LifecycleJournal LifecycleStatus LifecycleMutation.
From S2P Require Import LifecycleCoordinator LifecycleAttach.

Record ReconcileInput := mkReconcileInput {
  ri_EnvironmentID : string; ri_InstanceName : string; ri_Observation : LifecycleObservation;
  ri_OwnerSessionIDs : list string; ri_AdditionalUnproved : bool }.

(** ** The fence *)

Definition reconcileOwner (daemonID : string) (startedAt : Time) : MutationOwner :=
  mkOwner MutationOwnerReconcile daemonID MutationPhaseReconciling reconcileRecovery startedAt.

(** The activity that refuses a reconciliation. *)
Definition reconcileConflict (daemonID : string) (state : registryEnvironment) : bool :=
  negb (noHandles state) || negb (noEstablishing state) || re_mutation state ||
  attemptBlocksReconciliation (j_StopAttempt (re_journal state)) daemonID || re_stopCancel state.

Definition claimReconcile (env : string) : M (nat * MutationOwner) :=
  c ← getC;
  now ← nowUTC;
  request ← normalizeM (mkRequest [EnvironmentMutationKey env] (reconcileOwner (c_daemonID c) now));
  lease ← claimM request;
  mret (lease, mr_Owner request).

Definition setReconciling (env : string) (lease : nat) : M () :=
  modEnv env (λ e, e <| re_reconciling := true |> <| re_reconcileLease := Some lease |>).

Definition BeginReconciliation (ctx : option error) (env : string) : M bool :=
  lift (of_err ctx);;
  if negb (idPattern env) then fail (ErrMsg "lifecycle reconciliation identity is invalid")
  else
  requireOpen;;
  c ← getC;
  state ← loadEnvironmentLocked env;
  let reconciliation := j_Reconciliation (re_journal state) in
  if re_reconciling state then mret false
  else if String.eqb (rc_DaemonInstanceID reconciliation) (c_daemonID c) &&
          String.eqb (rc_State reconciliation) "complete" then mret false
  else
    claimed ← claimReconcile env;
    let '(lease, owner) := claimed in
    if reconcileConflict (c_daemonID c) state then
      releaseLease lease;;
      failConflict env owner ErrMutationBlockedByActivity
    else
      modEnv env (λ e, e <| re_timer := None |> <| re_deadlineSeq ::= u64_succ |>
        <| re_journal ::= (λ j, j <| j_IdleDeadline := None |>
             <| j_StartGeneration := if j_StartGeneration j =? 0 then 1 else j_StartGeneration j |>) |>
        <| re_blocked := true |>);;
      setReconciling env lease;;
      now ← nowUTC;
      modJournal env (λ j, j <| j_Reconciliation :=
        mkReconciliation (c_daemonID c) "pending" "reconciliation-pending" now |>);;
      persisted ← attempt (persistLocked env);
      match persisted with
      | Err e => finishReconciliationLocked env;; fail e
      | Ok _ =>
          state ← stateOf env;
          at_ ← nowUTC;
          emitLocked env (j_StartGeneration (re_journal state)) "reconciliation-started"
            "reconciliation-pending" at_;;
          mret true
      end.

(** [WaitReconciliation], one round: [true] when there is nothing to wait for. *)
Definition WaitReconciliation_round (env : string) : M bool :=
  if negb (idPattern env) then fail (ErrMsg "lifecycle reconciliation identity is invalid")
  else
  requireOpen;;
  state ← loadEnvironmentLocked env;
  mret (negb (re_reconciling state)).

Definition BlockReconciliation (env reasonCode : string) : M () :=
  if negb (idPattern env) then fail (ErrMsg "lifecycle reconciliation identity is invalid")
  else
  requireOpen;;
  _ ← loadEnvironmentLocked env;
  setBlocked env true;;
  modJournal env (λ j, j <| j_IdleDeadline := None |> <| j_StopAttempt := None |>);;
  now ← nowUTC;
  blockJournal env reasonCode now;;
  persisted ← attempt (persistLocked env);
  match persisted with
  | Err e => finishReconciliationLocked env;; fail e
  | Ok _ =>
      finishReconciliationLocked env;;
      state ← stateOf env;
      at_ ← nowUTC;
      emitLocked env (j_StartGeneration (re_journal state)) "reconciliation-blocked"
        (rc_ReasonCode (j_Reconciliation (re_journal state))) at_
  end.

(** ** Classification *)

Definition newRootResource (incarnation : EnvironmentRef) (daemonID : string) (now : Time) : Resource :=
  mkResource (mkRef KindBackendIncarnation (er_EnvironmentID incarnation) (er_StartGeneration incarnation))
    (mkOwnerRef "daemon" daemonID (er_StartGeneration incarnation)) StateActive []
    PersistenceEphemeral CloseCoTerminateWithRoot (Some incarnation) false now.

Definition hasSessionResource (rs : list Resource) (sessionID : string) : bool :=
  existsb (λ r, String.eqb (rr_Kind (res_Ref r)) KindRunSession && String.eqb (rr_ID (res_Ref r)) sessionID) rs.

Definition ownerOrphan (incarnation : EnvironmentRef) (daemonID : string) (now : Time) (sessionID : string) : Resource :=
  let root := mkRef KindBackendIncarnation (er_EnvironmentID incarnation) (er_StartGeneration incarnation) in
  mkResource (mkRef KindRunSession sessionID (er_StartGeneration incarnation))
    (mkOwnerRef "daemon" daemonID (er_StartGeneration incarnation)) StateOrphaned
    [mkDep root StopModePin] PersistenceEphemeral CloseCoTerminateWithRoot None true now.

Definition appendOwnerOrphans (ownerSessionIDs : list string) (incarnation : EnvironmentRef)
    (daemonID : string) (now : Time) (rs : list Resource) : list Resource :=
  foldl (λ rs sessionID,
    if negb (idPattern sessionID) || hasSessionResource rs sessionID then rs
    else rs ++ [ownerOrphan incarnation daemonID now sessionID]) rs ownerSessionIDs.

Definition isRootKind (r : Resource) : bool := String.eqb (rr_Kind (res_Ref r)) KindBackendIncarnation.

Definition markOrphaned (now : Time) (r : Resource) : Resource :=
  r <| res_State := StateOrphaned |> <| res_PossibleVMDependency := true |> <| res_UpdatedAt := now |>.

Definition markDependentJournalResourcesOrphaned (now : Time) (rs : list Resource) : list Resource :=
  (λ r, if isRootKind r then r else markOrphaned now r) <$> rs.

(** The loop of the last branch: roots are renewed, everything else becomes
    an orphan; a missing root is appended. *)
Definition orphanAll (root : Resource) (now : Time) (rs : list Resource) : list Resource :=
  let rs' := (λ r, if isRootKind r then root
                   else if bool_decide (res_State r = StateOrphaned) then r else markOrphaned now r) <$> rs in
  if existsb isRootKind rs then rs' else rs' ++ [root].

Definition setReconciliation (env : string) (r : Reconciliation) : M () :=
  modJournal env (λ j, j <| j_Reconciliation := r |>).

(** Everything of the environment that belonged to the previous owner. *)
Definition resetEnvironment (env : string) (observation : LifecycleObservation) : M () :=
  modEnv env (λ e, e <| re_timer := None |>
    <| re_journal ::= (λ j, j <| j_IdleDeadline := None |> <| j_StopAttempt := None |>) |>
    <| re_observation := observation |> <| re_handles := ∅ |> <| re_committed := ∅ |>
    <| re_closing := ∅ |> <| re_resourceUsers := ∅ |> <| re_resourceOrder := ∅ |> <| re_terminal := ∅ |>).

(** Persist a blocked classification and report it. *)
Definition finishBlocked (env kind reasonCode : string) (now : Time) : M () :=
  persistLocked env;;
  state ← stateOf env;
  emitLocked env (j_StartGeneration (re_journal state)) kind reasonCode now.

(** A running backend whose exact incarnation is recorded. *)
Definition reconcileExact (input : ReconcileInput) (incarnation : EnvironmentRef) (now : Time) : M () :=
  let env := ri_EnvironmentID input in
  c ← getC;
  let root := newRootResource incarnation (c_daemonID c) now in
  let owners := appendOwnerOrphans (ri_OwnerSessionIDs input) incarnation (c_daemonID c) now in
  let completed :=
    state ← stateOf env;
    emitLocked env (j_StartGeneration (re_journal state)) "reconciliation-completed" "" now;;
    scheduleIfIdleLocked env;;
    persistNowLocked env in
  if negb (ri_AdditionalUnproved input) then
    modJournal env (λ j, j <| j_Resources := owners [root] |>);;
    if negb (bool_decide (ri_OwnerSessionIDs input = [])) then
      setBlocked env true;;
      blockJournal env "owner-requires-explicit-recovery" now;;
      finishBlocked env "reconciliation-blocked" "owner-requires-explicit-recovery" now
    else
      setBlocked env false;;
      setReconciliation env (completeReconciliation (c_daemonID c) now);;
      completed
  else
    (* [possibleOldDependency] is true here because [AdditionalUnproved] is *)
    modJournal env (λ j, j <| j_Resources ::= (λ rs, owners (orphanAll root now rs)) |>);;
    setBlocked env true;;
    blockJournal env "provider-state-unproved" now;;
    state ← stateOf env;
    finishBlocked env "reconciliation-blocked" (rc_ReasonCode (j_Reconciliation (re_journal state))) now.

Definition classifyEnvironment (input : ReconcileInput) : M () :=
  let env := ri_EnvironmentID input in
  let observation := ri_Observation input in
  c ← getC;
  resetEnvironment env observation;;
  now ← nowUTC;
  modJournal env (λ j, j <| j_StartGeneration := if j_StartGeneration j =? 0 then 1 else j_StartGeneration j |>);;
  match obs_State observation with
  | LifecycleStopped | LifecycleAbsent =>
      modJournal env (λ j, j <| j_Incarnation := None |> <| j_Resources := [] |>);;
      setBlocked env false;;
      setReconciliation env (completeReconciliation (c_daemonID c) now);;
      finishBlocked env "reconciliation-completed" "" now
  | LifecycleUnknown =>
      setBlocked env true;;
      modJournal env (λ j, j <| j_Resources ::= markDependentJournalResourcesOrphaned now |>);;
      blockJournal env (obs_ReasonCode observation) now;;
      finishBlocked env "reconciliation-blocked" (obs_ReasonCode observation) now
  | _ =>
      state ← stateOf env;
      let exact := match j_Incarnation (re_journal state) with
                   | Some inc => if String.eqb (er_InstanceName inc) (ri_InstanceName input) &&
                                    String.eqb (er_BootID inc) (obs_BootID observation)
                                 then Some inc else None
                   | None => None
                   end in
      match exact with
      | None =>
          let generation := nextGeneration (j_StartGeneration (re_journal state)) in
          let incarnation := mkEnvRef env generation (ri_InstanceName input) (obs_BootID observation) in
          modJournal env (λ j, j <| j_StartGeneration := generation |> <| j_Incarnation := Some incarnation |>
            <| j_Resources := appendOwnerOrphans (ri_OwnerSessionIDs input) incarnation (c_daemonID c) now
                                [newRootResource incarnation (c_daemonID c) now] |>);;
          setBlocked env true;;
          blockJournal env "backend-incarnation-changed" now;;
          finishBlocked env "backend-incarnation-superseded" "backend-incarnation-changed" now
      | Some incarnation => reconcileExact input incarnation now
      end
  end.

Definition Reconcile (ctx : option error) (input : ReconcileInput) : M () :=
  lift (of_err ctx);;
  let env := ri_EnvironmentID input in
  if negb (idPattern env) || negb (idPattern (ri_InstanceName input))
  then fail (ErrMsg "lifecycle reconciliation identity is invalid")
  else
  lift (Observation_Validate (ri_Observation input));;
  if negb (String.eqb (obs_InstanceName (ri_Observation input)) (ri_InstanceName input))
  then fail (ErrMsg "lifecycle reconciliation observation belongs to another instance")
  else
  requireOpen;;
  c ← getC;
  state ← loadEnvironmentLocked env;
  (if re_reconciling state then mret tt
   else
     claimed ← claimReconcile env;
     let '(lease, owner) := claimed in
     if reconcileConflict (c_daemonID c) state then
       releaseLease lease;;
       failConflict env owner ErrMutationBlockedByActivity
     else setReconciling env lease);;
  finally (classifyEnvironment input) (λ c, (finishReconciliationLocked env c).1).
