(* ===== verification/LifecycleSample.v ===== *)
(** * A concrete coordinator

    One environment [dev] on one virtual machine, a clock that advances with
    every reading and a disk that never fails: the data at which the
    theorems about the coordinator are instantiated. *)
From S2P Require Import Prelude GoStrings GoTime LifecycleModel LifecycleGraph LifecycleJournal LifecycleStatus LifecycleMutation.
From S2P Require Import LifecycleCoordinator LifecycleRegistry LifecycleAttach LifecycleStop LifecycleDisposalOps LifecycleReconcile.

Module SampleCoordinator.
Definition clock (n : nat) : Time := mkTime (1000 + Z.of_nat n) 0.
Definition options : CoordinatorOptions :=
  mkOptions "/var/lib/hideout" ∅ "daemon-1" 0 clock (λ _, IoOk) true true.
Definition start : Coordinator :=
  mkCoordinator ∅ "daemon-1" DefaultIdleGrace clock 0 (λ _, IoOk) 0 true true [] ∅ emptyClaims ∅ ∅ 0 false false.

Definition boot : string := "6b1c3542-3f4d-40f7-81ba-0aabc9fc2db0".
Definition running : LifecycleObservation := mkObs LifecycleRunning "vm-dev" boot (mkTime 999 0) "".
Definition stopped : LifecycleObservation := mkObs LifecycleStopped "vm-dev" "" (mkTime 2000 0) "".
Definition unknown : LifecycleObservation := mkObs LifecycleUnknown "vm-dev" "" (mkTime 2000 0) "provider-timeout".
Definition incarnation : EnvironmentRef := mkEnvRef "dev" 1 "vm-dev" boot.
Definition root : ResourceRef := mkRef KindBackendIncarnation "dev" 1.
Definition session : ResourceRef := mkRef KindRunSession "session-a" 1.

Definition attachRequest (id : string) : AttachRequest := mkAttach "dev" "vm-dev" id running.
Definition estRequest (id : string) : EstablishmentRequest := mkEstRequest "dev" id [].
Definition mutationRequest (id : string) : MutationRequest :=
  mkRequest ["environment:dev"] (attachMutationOwner id (mkTime 1000 0)).
Definition cleanupOwner : MutationOwner :=
  mkOwner MutationOwnerCleanup "daemon-1" MutationPhaseApplying "retry" (mkTime 1000 0).

(** [session-a] attached and committed. *)
Definition attach (id : string) (a : nat) : M () :=
  _ ← reserveRound (estRequest id) (mutationRequest id) true "";
  _ ← Prepare None a (attachRequest id);
  _ ← Promote None a;
  commitRegistration "dev" id;;
  _ ← bindBoot "dev" id boot;
  mret tt.
Definition attached : Coordinator := (attach "session-a" 1 start).1.

(** The session finished; the idle deadline is armed. *)
Definition finish (id : string) : M () :=
  _ ← beginFinishRegistration "dev" id;
  release "dev" id (mkRef KindRunSession id 1) None;;
  finishRegistration "dev" id None.
Definition idle : Coordinator := (finish "session-a" attached).1.

(** The deadline fired; the stop callback runs. *)
Definition stopping : Coordinator := (expire "dev" incarnation 1 idle).1.
Definition call : StopCall := mkStopCall 1 "stop-1-1" incarnation.
(** The callback reported a stopped backend. *)
Definition afterStop : Coordinator :=
  (commitStopResult "dev" call (mkStopResult stopped "" false) stopping).1.

Definition envOf (c : Coordinator) : registryEnvironment := default zeroEnv (c_environments c !! "dev").
End SampleCoordinator.
