(* ===== verification/LifecycleFrame.v ===== *)
(** * Steps that claim and attach nothing

    The frame of the safety argument: a preorder on coordinators that leaves
    claims and reservations alone and at most drops what guards an environment,
    and the lemmas that almost all code of the coordinator stays within it. *)
From S2P Require Import Prelude GoStrings GoTime LifecycleModel LifecycleGraph LifecycleJournal LifecycleStatus LifecycleMutation.
From S2P Require Import LifecycleCoordinator LifecycleRegistry LifecycleAttach LifecycleStop LifecycleDisposalOps LifecycleReconcile.

(** ** Shrinking steps

    Most code neither claims nor attaches: it leaves the claims and the
    reservations alone and at most drops handles, reservations or leases of an
    environment, or loads one that has none. *)

Definition quietEnv (e : registryEnvironment) : Prop :=
  re_handles e = ∅ ∧ re_establishing e = ∅ ∧ re_mutationLease e = None ∧ re_reconcileLease e = None.

Record envShrink (e e' : registryEnvironment) : Prop := {
  sk_handles : re_handles e' ⊆ re_handles e;
  sk_establishing : re_establishing e' ⊆ re_establishing e;
  sk_mutationLease l : re_mutationLease e' = Some l → re_mutationLease e = Some l;
  sk_reconcileLease l : re_reconcileLease e' = Some l → re_reconcileLease e = Some l }.

Definition isOpen (c : Coordinator) : Prop := c_closing c = false ∧ c_closed c = false.

Record shrink (c c' : Coordinator) : Prop := {
  sh_claims : c_claims c' = c_claims c;
  sh_establishments : c_establishments c' = c_establishments c;
  sh_addr : (c_nextAddr c ≤ c_nextAddr c')%nat;
  sh_open : isOpen c' → isOpen c;
  sh_env env e' : c_environments c' !! env = Some e' →
    quietEnv e' ∨ ∃ e, c_environments c !! env = Some e ∧ envShrink e e' }.

#[global] Instance envShrink_preorder : PreOrder envShrink.
Proof.
  split.
  - intros e. by split.
  - intros e1 e2 e3 [] []. split; [by etrans|by etrans|auto..].
Qed.

Lemma quietEnv_shrink e e' : quietEnv e → envShrink e e' → quietEnv e'.
Proof.
  intros (Hh&He&Hm&Hr) [Sh Se Sm Sr]. rewrite Hh in Sh. rewrite He in Se. split_and!.
  - set_solver.
  - apply (anti_symm (⊆)); [done|apply map_empty_subseteq].
  - destruct (re_mutationLease e'); [|done]. rewrite (Sm _ eq_refl) in Hm. done.
  - destruct (re_reconcileLease e'); [|done]. rewrite (Sr _ eq_refl) in Hr. done.
Qed.

#[global] Instance shrink_preorder : PreOrder shrink.
Proof.
  split.
  - intros c. split; [done|done|done|done|]. intros env e' He. right. by exists e'.
  - intros c1 c2 c3 [Hc Ha Hn Ho He] [Hc' Ha' Hn' Ho' He'].
    split; [congruence|congruence|lia|auto|]. intros env e3 H3.
    destruct (He' _ _ H3) as [?|(e2&H2&S23)]; [by left|].
    destruct (He _ _ H2) as [Hq|(e1&H1&S12)]; [left; by eapply quietEnv_shrink|].
    right. exists e1. split; [done|by etrans].
Qed.

Lemma modEnv_shrink env f : (∀ e, envShrink e (f e)) → preserves shrink (modEnv env f).
Proof.
  intros Hf. apply preserves_modify. intros c. split; [done..|]. intros env' e' He. right.
  simpl in He. rewrite lookup_alter in He. case_decide as Hd; [subst|by exists e'].
  apply fmap_Some in He as (e&?&->). eauto.
Qed.

Lemma modJournal_shrink env f : preserves shrink (modJournal env f).
Proof. apply modEnv_shrink. by split. Qed.

Lemma deleteEnv_shrink env : preserves shrink (deleteEnv env).
Proof.
  apply preserves_modify. intros c. split; [done..|]. intros env' e' He. right.
  simpl in He. apply lookup_delete_Some in He as [_ He]. by exists e'.
Qed.

(** Changes outside the environments, claims and reservations. *)
Lemma other_shrink (f : Coordinator → Coordinator) :
  (∀ c, c_claims (f c) = c_claims c ∧ c_establishments (f c) = c_establishments c ∧
        (c_nextAddr c ≤ c_nextAddr (f c))%nat ∧ (isOpen (f c) → isOpen c) ∧
        c_environments (f c) = c_environments c) →
  ∀ c, shrink c (f c).
Proof.
  intros Hf c. destruct (Hf c) as (?&?&?&?&He). split; [done..|].
  intros env e'. rewrite He. intros. right. by exists e'.
Qed.

Lemma nowUTC_shrink : preserves shrink nowUTC.
Proof. intros c. by apply (other_shrink (λ c, c <| c_reads := S (c_reads c) |>)). Qed.

Lemma lookupEnv_shrink env : preserves shrink (lookupEnv env).
Proof. intros c. done. Qed.

Lemma stateOf_shrink env : preserves shrink (stateOf env).
Proof. intros c. done. Qed.

Lemma storeWrite_shrink j : preserves shrink (storeWrite j).
Proof.
  intros c. unfold storeWrite. destruct (Store_Write _ _ _) as [disk r]; simpl.
  by apply (other_shrink (λ c, c <| c_store := disk |> <| c_ioCalls ::= S |>)).
Qed.

Lemma storeRemove_shrink env : preserves shrink (storeRemove env).
Proof.
  intros c. unfold storeRemove. destruct (Store_Remove _ _ _) as [disk r]; simpl.
  by apply (other_shrink (λ c, c <| c_store := disk |> <| c_ioCalls ::= S |>)).
Qed.

Lemma storeLoad_shrink env : preserves shrink (storeLoad env).
Proof. intros c. by apply (other_shrink (λ c, c <| c_ioCalls ::= S |>)). Qed.

Lemma events_shrink g : preserves shrink (modify (λ c, c <| c_events ::= g |>) : M ()).
Proof. intros c. by apply (other_shrink (λ c, c <| c_events ::= g |>)). Qed.

Lemma modReg_shrink a f : preserves shrink (modReg a f).
Proof. intros c. by apply (other_shrink (λ c, c <| c_registrations ::= alter f a |>)). Qed.

#[export] Hint Resolve modJournal_shrink deleteEnv_shrink nowUTC_shrink lookupEnv_shrink
  stateOf_shrink storeWrite_shrink storeRemove_shrink storeLoad_shrink events_shrink modReg_shrink : preserve.

(** An update of an environment that keeps, or drops from, the guarded
    fields. *)
Ltac env_shrink :=
  intros ?; split; simpl; intros;
  first [done | reflexivity | apply delete_subseteq | apply map_empty_subseteq | set_solver].

(** Walk through the code of an operation. *)
Ltac pres_step :=
  cbv zeta;
  match goal with
  | |- preserves _ (modEnv _ _) => apply modEnv_shrink; solve [env_shrink]
  | |- preserves _ (mret _) => apply (preserves_ret shrink)
  | |- preserves _ (fail _) => apply (preserves_fail shrink)
  | |- preserves _ (lift _) => apply (preserves_lift shrink)
  | |- preserves _ (mbind _ _) => apply (preserves_bind shrink); [|intros ?]
  | |- preserves _ (when _ _) => apply (preserves_when shrink)
  | |- preserves _ (ignore_err _) => apply (preserves_ignore_err shrink)
  | |- preserves _ (attempt _) => apply (preserves_attempt shrink)
  | |- preserves _ (if ?b then _ else _) => destruct b
  | |- preserves _ (match ?x with _ => _ end) => destruct x
  | |- _ => solve [auto with preserve nocore]
  end.
Ltac pres := repeat pres_step.

Lemma getC_shrink : preserves shrink getC.
Proof. intros c. done. Qed.
#[export] Hint Resolve getC_shrink : preserve.

Lemma persistLocked_shrink env : preserves shrink (persistLocked env).
Proof. unfold persistLocked. pres. Qed.
#[export] Hint Resolve persistLocked_shrink : preserve.

Lemma persistNowLocked_shrink env : preserves shrink (persistNowLocked env).
Proof. unfold persistNowLocked. pres. Qed.
Lemma checkpointLaterLocked_shrink env : preserves shrink (checkpointLaterLocked env).
Proof. unfold checkpointLaterLocked. pres. Qed.
Lemma statusLocked_shrink env state : preserves shrink (statusLocked env state).
Proof. unfold statusLocked. pres. Qed.
#[export] Hint Resolve persistNowLocked_shrink checkpointLaterLocked_shrink statusLocked_shrink : preserve.

Lemma emitLocked_shrink env g k r t : preserves shrink (emitLocked env g k r t).
Proof. unfold emitLocked. pres. Qed.
Lemma requireOpen_shrink : preserves shrink requireOpen.
Proof. unfold requireOpen. pres. Qed.
#[export] Hint Resolve emitLocked_shrink requireOpen_shrink : preserve.

(** ** Operations that only shrink *)

Lemma normalizeM_shrink request : preserves shrink (normalizeM request).
Proof. unfold normalizeM. pres. Qed.
Lemma setBlocked_shrink env b : preserves shrink (setBlocked env b).
Proof. unfold setBlocked. pres. Qed.
Lemma blockJournal_shrink env r now : preserves shrink (blockJournal env r now).
Proof. unfold blockJournal. pres. Qed.
Lemma synthetic_shrink state : preserves shrink (syntheticEnvironmentBlockerLocked state).
Proof. unfold syntheticEnvironmentBlockerLocked. pres. Qed.
#[export] Hint Resolve normalizeM_shrink setBlocked_shrink blockJournal_shrink synthetic_shrink : preserve.

Lemma conflict_shrink env state o e : preserves shrink (environmentConflictLocked env state o e).
Proof. unfold environmentConflictLocked. pres. Qed.
#[export] Hint Resolve conflict_shrink : preserve.

Lemma failConflict_shrink A env o e : preserves shrink (failConflict (A := A) env o e).
Proof. unfold failConflict. pres. Qed.

Lemma freshEnv_quiet j n : quietEnv (freshEnv j n).
Proof. done. Qed.

Lemma insertEnv_shrink env state :
  quietEnv state →
  preserves shrink (modify (λ c, c <| c_environments ::= <[env := state]> |> <| c_nextAddr ::= S |>) : M ()).
Proof.
  intros Hq. apply preserves_modify. intros c. split; simpl; [done|done|lia|done|]. intros env' e'.
  rewrite lookup_insert. case_decide; [intros [= <-]; by left|]. intros. right. by exists e'.
Qed.

Lemma loadEnvironmentLocked_shrink env : preserves shrink (loadEnvironmentLocked env).
Proof. unfold loadEnvironmentLocked. pres; apply insertEnv_shrink; case_match; apply freshEnv_quiet. Qed.

Lemma scheduleIfIdleLocked_shrink env : preserves shrink (scheduleIfIdleLocked env).
Proof. unfold scheduleIfIdleLocked. pres. Qed.
Lemma cancelDeadlineForAttach_shrink env : preserves shrink (cancelDeadlineForAttachLocked env).
Proof. unfold cancelDeadlineForAttachLocked. pres. Qed.
#[export] Hint Resolve failConflict_shrink loadEnvironmentLocked_shrink scheduleIfIdleLocked_shrink
  cancelDeadlineForAttach_shrink : preserve.

Lemma cancelDeadlineLocked_shrink env : preserves shrink (cancelDeadlineLocked env).
Proof. unfold cancelDeadlineLocked. pres. Qed.
Lemma checkpointFired_shrink env i s : preserves shrink (checkpointFired env i s).
Proof. unfold checkpointFired. pres. Qed.
#[export] Hint Resolve cancelDeadlineLocked_shrink checkpointFired_shrink : preserve.

(** *** Registrations *)

Lemma addOrJoin_guarded state h r state' :
  addOrJoinResource state h r = Ok state' →
  re_handles state' = re_handles state ∧ re_establishing state' = re_establishing state ∧
  re_mutationLease state' = re_mutationLease state ∧ re_reconcileLease state' = re_reconcileLease state.
Proof.
  unfold addOrJoinResource. cbv zeta. destruct (List.find _ _).
  - destruct (negb _); [done|]. by intros [= <-].
  - destruct (ValidateGraph _ _); [|done]. by intros [= <-].
Qed.

Lemma addOrJoin_shrink env h r : preserves shrink (addOrJoin env h r).
Proof.
  intros c. unfold addOrJoin, mbind, SE_bind. simpl.
  destruct (addOrJoinResource _ _ _) as [state'|e] eqn:Ha; simpl; [|done].
  split; [done..|]. intros env' e' He. right. simpl in He. rewrite lookup_alter in He.
  case_decide as Hd; [|by exists e']. subst env'. apply fmap_Some in He as (e&He&->).
  exists e. split; [done|]. rewrite He in Ha. apply addOrJoin_guarded in Ha as (Hh&Hes&Hm&Hr). simpl in *.
  split; rewrite ?Hh, ?Hes, ?Hm, ?Hr; done.
Qed.

Lemma removeUser_shrink h ref e : envShrink e (removeResourceUser h ref e).
Proof. unfold removeResourceUser. case_match; by split. Qed.
Lemma removeOrder_shrink h ref e : envShrink e (removeResourceOrder h ref e).
Proof. unfold removeResourceOrder. case_match; [case_match|]; by split. Qed.
Lemma removeUsers_shrink h refs e : envShrink e (foldl (λ e ref, removeResourceUser h ref e) e refs).
Proof.
  revert e. induction refs as [|ref refs IH]; intros e; simpl; [by split|].
  etrans; [apply removeUser_shrink|apply IH].
Qed.
Lemma dropHandle_shrink h e : envShrink e (dropHandle h e).
Proof. split; simpl; [set_solver|done..]. Qed.

Lemma activeHandle_Some found h state :
  activeHandle found h = Some state → found = Some state ∧ h ∈ re_handles state.
Proof.
  unfold activeHandle, handleIn. destruct found as [s|]; [|done].
  case_bool_decide; [|done]. naive_solver.
Qed.

#[export] Hint Resolve addOrJoin_shrink : preserve.

Lemma register_shrink env h spec : preserves shrink (register env h spec).
Proof.
  unfold register. pres. apply modEnv_shrink. intros ?.
  etrans; [apply removeUser_shrink|apply removeOrder_shrink].
Qed.
Lemma commitRegistration_shrink env h : preserves shrink (commitRegistration env h).
Proof. unfold commitRegistration. pres. Qed.
Lemma abortRegistration_shrink env h : preserves shrink (abortRegistration env h).
Proof.
  unfold abortRegistration. pres; apply modEnv_shrink; intros ?; apply removeUsers_shrink || apply dropHandle_shrink.
Qed.
Lemma beginFinish_shrink env h : preserves shrink (beginFinishRegistration env h).
Proof. unfold beginFinishRegistration. pres. Qed.
Lemma recordFact_shrink env h spec : preserves shrink (recordFact env h spec).
Proof. unfold recordFact. pres. Qed.
Lemma resourceLocked_shrink env h ref : preserves shrink (resourceLocked env h ref).
Proof. unfold resourceLocked. pres. Qed.
Lemma terminalState_shrink env ref : preserves shrink (terminalStateLocked env ref).
Proof. unfold terminalStateLocked. pres. Qed.
Lemma endResource_shrink env ref i s : preserves shrink (endResource env ref i s).
Proof. unfold endResource. pres. Qed.
#[export] Hint Resolve register_shrink commitRegistration_shrink abortRegistration_shrink
  beginFinish_shrink recordFact_shrink resourceLocked_shrink terminalState_shrink endResource_shrink : preserve.

Lemma transition_shrink env h ref t : preserves shrink (transition env h ref t).
Proof. unfold transition. pres. Qed.
Lemma release_shrink env h ref e : preserves shrink (release env h ref e).
Proof. unfold release. pres. Qed.
Lemma finishRegistration_shrink env h e : preserves shrink (finishRegistration env h e).
Proof. unfold finishRegistration. pres; apply modEnv_shrink; intros ?; apply dropHandle_shrink. Qed.
Lemma bindBoot_shrink env h b : preserves shrink (bindBoot env h b).
Proof. unfold bindBoot. pres. Qed.
Lemma sessionEnvironment_shrink s b : preserves shrink (sessionEnvironment s b).
Proof. unfold sessionEnvironment. pres. Qed.
Lemma regOf_shrink a : preserves shrink (regOf a).
Proof. unfold regOf. pres. Qed.
#[export] Hint Resolve transition_shrink release_shrink finishRegistration_shrink bindBoot_shrink
  sessionEnvironment_shrink regOf_shrink : preserve.

Lemma ensureCommitted_shrink a : preserves shrink (ensureCommitted a).
Proof. unfold ensureCommitted. pres. Qed.
Lemma releaseEach_shrink env h e refs r : preserves shrink (releaseEach env h e refs r).
Proof. revert r. induction refs as [|ref refs IH]; intros r; simpl; pres. Qed.
#[export] Hint Resolve ensureCommitted_shrink releaseEach_shrink : preserve.

(** *** Stops, disposal and reconciliation, the parts that claim nothing *)

Lemma setAttempt_shrink env a : preserves shrink (setAttempt env a).
Proof. unfold setAttempt. pres. Qed.
Lemma finishStop_shrink env : preserves shrink (finishStopLocked env).
Proof. unfold finishStopLocked. pres. Qed.
#[export] Hint Resolve setAttempt_shrink finishStop_shrink : preserve.

Lemma deferStop_shrink env inc : preserves shrink (deferStop env inc).
Proof. unfold deferStop. pres. Qed.
Lemma commitStopResult_shrink env call r : preserves shrink (commitStopResult env call r).
Proof. unfold commitStopResult. pres. Qed.
Lemma StopExplicit_end_shrink env e : preserves shrink (StopExplicit_end env e).
Proof. unfold StopExplicit_end. pres. Qed.
Lemma invokeExplicit_shrink env i inc t l : preserves shrink (invokeExplicit env i inc t l).
Proof. unfold invokeExplicit. pres. Qed.
Lemma stopTimer_shrink env : preserves shrink (stopTimer env).
Proof. unfold stopTimer. pres. Qed.
Lemma RunDestructive_end_shrink env e : preserves shrink (RunDestructiveMutation_end env e).
Proof. unfold RunDestructiveMutation_end. pres. Qed.
Lemma disposalLocked_shrink env d : preserves shrink (disposalLocked env d).
Proof. unfold disposalLocked. pres. Qed.
Lemma setDisposal_shrink env s r t : preserves shrink (setDisposal env s r t).
Proof. unfold setDisposal. pres. Qed.
#[export] Hint Resolve deferStop_shrink commitStopResult_shrink StopExplicit_end_shrink
  invokeExplicit_shrink stopTimer_shrink RunDestructive_end_shrink disposalLocked_shrink
  setDisposal_shrink : preserve.

Lemma activeDisposal_shrink env d : preserves shrink (activeDisposalLocked env d).
Proof. unfold activeDisposalLocked. pres. Qed.
#[export] Hint Resolve activeDisposal_shrink : preserve.
Lemma AdvanceDisposal_shrink ctx env d s : preserves shrink (AdvanceDisposal ctx env d s).
Proof. unfold AdvanceDisposal. pres. Qed.
Lemma setReconciliation_shrink env r : preserves shrink (setReconciliation env r).
Proof. unfold setReconciliation. pres. Qed.
Lemma resetEnvironment_shrink env o : preserves shrink (resetEnvironment env o).
Proof. unfold resetEnvironment. pres. Qed.
Lemma finishBlocked_shrink env k r t : preserves shrink (finishBlocked env k r t).
Proof. unfold finishBlocked. pres. Qed.
#[export] Hint Resolve AdvanceDisposal_shrink setReconciliation_shrink resetEnvironment_shrink
  finishBlocked_shrink : preserve.
Lemma reconcileExact_shrink i inc t : preserves shrink (reconcileExact i inc t).
Proof. unfold reconcileExact. pres. Qed.
#[export] Hint Resolve reconcileExact_shrink : preserve.
Lemma classifyEnvironment_shrink i : preserves shrink (classifyEnvironment i).
Proof. unfold classifyEnvironment. pres. Qed.
#[export] Hint Resolve classifyEnvironment_shrink : preserve.
