(* ===== verification/LifecycleInvariant.v ===== *)
(** * Who holds which lease

    The invariant that ties the claim table to the reservations, to the
    operations in progress and to the handles of an environment, proved
    against the interface of the claim table ([LeaseTable]), with the lemmas
    that move a lease from one owner to another. *)
From S2P Require Import Prelude GoStrings GoTime LifecycleModel LifecycleGraph LifecycleJournal LifecycleStatus LifecycleMutation.
From S2P Require Import LifecycleCoordinator LifecycleRegistry LifecycleAttach LifecycleStop LifecycleDisposalOps LifecycleReconcile LifecycleFrame.

(** ** The invariant *)

(** The leases callers hold outside the lock: [Some env] while a stop or
    mutation callback of the environment runs (and until its deferred release),
    [None] for a bare [AcquireMutation]. *)
Abbreviation Held := (gmap nat (option string)).

Inductive leaseOwner := OEst (a : nat) | OMut (env : string) | ORec (env : string) | OHeld.
#[global] Instance leaseOwner_eq_dec : EqDecision leaseOwner.
Proof. solve_decision. Defined.

Definition owns (c : Coordinator) (T : Held) (o : leaseOwner) (l : nat) : Prop :=
  match o with
  | OEst a => ∃ est, c_establishments c !! a = Some est ∧ es_lease est = Some l
  | OMut env => ∃ e, c_environments c !! env = Some e ∧ re_mutationLease e = Some l
  | ORec env => ∃ e, c_environments c !! env = Some e ∧ re_reconcileLease e = Some l
  | OHeld => is_Some (T !! l)
  end.

Definition free (c : Coordinator) (T : Held) (l : nat) : Prop := ∀ o, ¬ owns c T o l.

(** An exclusive operation on the environment is in progress under [l]. *)
Definition guards (c : Coordinator) (T : Held) (env : string) (l : nat) : Prop :=
  T !! l = Some (Some env) ∨ owns c T (OMut env) l ∨ owns c T (ORec env) l.

Record Inv (c : Coordinator) (T : Held) : Prop := {
  inv_wf : isOpen c → lt_wf (c_claims c);
  inv_uniq o1 o2 l : owns c T o1 l → owns c T o2 l → o1 = o2;
  inv_issued o l : owns c T o l → lt_issued (c_claims c) l;
  inv_est env e s a :
    isOpen c → c_environments c !! env = Some e → re_establishing e !! s = Some a →
    ∃ est l o, c_establishments c !! a = Some est ∧ es_environment est = env ∧ es_session est = s ∧
      es_lease est = Some l ∧ lt_holds (c_claims c) l (EnvironmentMutationKey env) o;
  inv_guard env l :
    isOpen c → guards c T env l →
    ∃ o, lt_holds (c_claims c) l (EnvironmentMutationKey env) o ∧ mo_Kind o ≠ MutationOwnerAttach;
  inv_quiet env l e :
    guards c T env l → c_environments c !! env = Some e → re_handles e = ∅ ∧ re_establishing e = ∅;
  inv_addr a : is_Some (c_establishments c !! a) → (a < c_nextAddr c)%nat }.

Lemma owns_shrink c c' T o l : shrink c c' → owns c' T o l → owns c T o l.
Proof.
  intros [_ Ha _ _ He]. destruct o as [a|env|env|]; simpl; [by rewrite Ha| | |done].
  - intros (e'&He'&Hl). destruct (He _ _ He') as [(_&_&?&_)|(e&?&Hs)]; [congruence|].
    exists e. split; [done|]. by apply (sk_mutationLease _ _ Hs).
  - intros (e'&He'&Hl). destruct (He _ _ He') as [(_&_&_&?)|(e&?&Hs)]; [congruence|].
    exists e. split; [done|]. by apply (sk_reconcileLease _ _ Hs).
Qed.

Lemma guards_shrink c c' T env l : shrink c c' → guards c' T env l → guards c T env l.
Proof. intros Hs [?|[?|?]]; [by left|right; left|right; right]; by eapply owns_shrink. Qed.

Lemma free_shrink c c' T l : shrink c c' → free c T l → free c' T l.
Proof. intros Hs Hf o Ho. by eapply Hf, owns_shrink. Qed.

Lemma Inv_shrink c c' T : shrink c c' → Inv c T → Inv c' T.
Proof.
  intros Hs HI. pose proof Hs as [Hc Ha Hn Ho He]. split.
  - rewrite Hc. intros ?. by apply (inv_wf _ _ HI), Ho.
  - intros o1 o2 l ??. apply (inv_uniq _ _ HI o1 o2 l); by eapply owns_shrink.
  - intros o l ?. rewrite Hc. eapply (inv_issued _ _ HI). by eapply owns_shrink.
  - intros env e' s a Hop He' Hs'. rewrite Hc, Ha.
    destruct (He _ _ He') as [(_&Hq&_)|(e&Hl&Hsk)]; [by rewrite Hq in Hs'|].
    eapply (inv_est _ _ HI); [by apply Ho|done|]. eapply lookup_weaken; [done|apply Hsk].
  - intros env l Hop Hg. rewrite Hc. eapply (inv_guard _ _ HI); [by apply Ho|by eapply guards_shrink].
  - intros env l e' Hg He'. destruct (He _ _ He') as [(?&?&_)|(e&Hl&Hsk)]; [done|].
    destruct (inv_quiet _ _ HI env l e) as [Hh Hes]; [by eapply guards_shrink|done|].
    pose proof (sk_handles _ _ Hsk) as H1. pose proof (sk_establishing _ _ Hsk) as H2.
    rewrite Hh in H1. rewrite Hes in H2.
    split; [set_solver|]. apply (anti_symm (⊆)); [done|apply map_empty_subseteq].
  - intros a. rewrite Ha. intros ?%(inv_addr _ _ HI). lia.
Qed.

Lemma Inv_drop c T l : Inv c T → Inv c (delete l T).
Proof.
  intros HI.
  assert (∀ o l', owns c (delete l T) o l' → owns c T o l') as Hown.
  { intros [] l'; simpl; try done. intros [r Hr]. apply lookup_delete_Some in Hr as [_ Hr]. by exists r. }
  assert (∀ env l', guards c (delete l T) env l' → guards c T env l') as Hg.
  { intros env l' [Ht|[?|?]]; [left|right; left|right; right]; auto. by apply lookup_delete_Some in Ht as [_ ?]. }
  split; try apply HI; intros.
  - eapply (inv_uniq _ _ HI); eauto.
  - eapply (inv_issued _ _ HI); eauto.
  - eapply (inv_guard _ _ HI); eauto.
  - eapply (inv_quiet _ _ HI); eauto.
Qed.

(** Releasing a lease no one owns any more. *)
Lemma Inv_release_free c T l : Inv c T → free c T l → Inv (releaseC l c) T.
Proof.
  intros HI Hf.
  assert (∀ l' k o, isOpen c → l' ≠ l → lt_holds (c_claims c) l' k o →
    lt_holds (c_claims (releaseC l c)) l' k o) as Hh.
  { intros l' k o Hop Hne Hl. destruct (lt_release_ok (c_claims c) l) as (_&_&Hr); [by apply (inv_wf _ _ HI)|].
    by apply Hr. }
  assert (∀ o l', owns c T o l' → l' ≠ l) as Hne by (intros o l' Ho ->; by apply (Hf o)).
  assert (∀ env l', guards c T env l' → l' ≠ l) as Hgne.
  { intros env l' [Ht|[?|?]]; [apply (Hne OHeld); by exists (Some env)|eauto..]. }
  split.
  - intros Hop. destruct (lt_release_ok (c_claims c) l) as (Hwf&_); [by apply (inv_wf _ _ HI)|exact Hwf].
  - apply (inv_uniq _ _ HI).
  - intros o l' Ho. exact (proj2 (lt_release_issued (c_claims c) l l') (inv_issued _ _ HI _ _ Ho)).
  - intros env e s a Hop He Hs. destruct (inv_est _ _ HI env e s a Hop He Hs) as (est&l'&o&?&?&?&Hl&?).
    exists est, l', o. split_and!; [done..|]. apply Hh; [done| |done]. apply (Hne (OEst a)). by exists est.
  - intros env l' Hop Hg. destruct (inv_guard _ _ HI env l' Hop Hg) as (o&?&?).
    exists o. split; [|done]. apply Hh; eauto.
  - apply (inv_quiet _ _ HI).
  - apply (inv_addr _ _ HI).
Qed.

Lemma held_free c T l r : Inv c T → T !! l = Some r → free c (delete l T) l.
Proof.
  intros HI Ht o Ho. destruct o as [a|env|env|]; simpl in Ho; [| | |by rewrite lookup_delete_eq in Ho; destruct Ho].
  all: assert (owns c T OHeld l) as Hh by (by exists r).
  - by pose proof (inv_uniq _ _ HI (OEst a) OHeld l Ho Hh).
  - by pose proof (inv_uniq _ _ HI (OMut env) OHeld l Ho Hh).
  - by pose proof (inv_uniq _ _ HI (ORec env) OHeld l Ho Hh).
Qed.

Lemma Inv_release c T l r : Inv c T → T !! l = Some r → Inv (releaseC l c) (delete l T).
Proof. intros HI Ht. apply Inv_release_free; [by apply Inv_drop|by eapply held_free]. Qed.

(** *** Changes of ownership *)

Lemma Inv_claim c T req c' l :
  Inv c T → isOpen c → NoDup (mr_Keys req) → lt_room req (c_claims c) → claimM req c = (c', Ok l) →
  c_environments c' = c_environments c ∧ isOpen c' ∧
  Inv c' (<[l := None]> T) ∧ T !! l = None ∧
  (∀ k, k ∈ mr_Keys req → lt_holds (c_claims c') l k (mr_Owner req)) ∧
  (∀ l' k o, k ∈ mr_Keys req → lt_holds (c_claims c) l' k o →
    compatibleMutationOwners (mr_Owner req) o = true).
Proof.
  intros HI Hop Hnd Hroom. unfold claimM.
  destruct (claimMutationKeysLocked req (c_claims c)) as [t' r] eqn:Hc. intros [= <- ->].
  change (lt_claim req (c_claims c) = (t', Ok l)) in Hc.
  pose proof (inv_wf _ _ HI Hop) as Hwf.
  destruct (lt_claim_ok req _ _ _ Hwf Hnd Hroom Hc) as (Hwf'&Hk&_&Hold).
  destruct (lt_claim_issued req (c_claims c) t' l Hc) as [Hni Hiss].
  assert (∀ o l', owns c T o l' → l' ≠ l) as Hne.
  { intros o l' Ho ->. by apply Hni, (inv_issued _ _ HI o). }
  assert (T !! l = None) as Htl.
  { destruct (T !! l) eqn:Ht; [|done]. by destruct (Hne OHeld l); [exists o|]. }
  assert (∀ o l', owns c (<[l:=None]> T) o l' → owns c T o l' ∨ (o = OHeld ∧ l' = l)) as Hown.
  { intros [] l'; simpl; [by left..|]. destruct (decide (l' = l)); [by right|].
    rewrite lookup_insert_ne by done. by left. }
  assert (∀ env l', guards c (<[l:=None]> T) env l' → guards c T env l' ∧ l' ≠ l) as Hg.
  { intros env l' [Ht|[Ho|Ho]]; [|split; [right; by left|by apply (Hne (OMut env))]
      |split; [right; by right|by apply (Hne (ORec env))]].
    destruct (decide (l' = l)) as [->|]; [by rewrite lookup_insert_eq in Ht|].
    rewrite lookup_insert_ne in Ht by done. split; [by left|done]. }
  split_and!; [done|done| |done|done|].
  - split; simpl.
    + done.
    + intros o1 o2 l' H1 H2. destruct (Hown _ _ H1) as [H1'|[-> ->]], (Hown _ _ H2) as [H2'|[-> ?]]; subst.
      1: by eapply (inv_uniq _ _ HI).
      1: by destruct (Hne _ _ H1').
      1: by destruct (Hne _ _ H2').
      done.
    + intros o l' Ho. apply Hiss. destruct (Hown _ _ Ho) as [?|[_ ->]]; [right|by left].
      by eapply (inv_issued _ _ HI).
    + intros env e s a _ He Hs. destruct (inv_est _ _ HI env e s a Hop He Hs) as (est&l'&o&Ha&?&?&Hl&?).
      exists est, l', o. split_and!; [done..|]. apply Hold; [|done]. apply (Hne (OEst a)). by exists est.
    + intros env l' _ [? ?]%Hg. destruct (inv_guard _ _ HI env l' Hop) as (o&?&?); [done|].
      exists o. split; [|done]. by apply Hold.
    + intros env l' e [? _]%Hg. by eapply (inv_quiet _ _ HI).
    + apply (inv_addr _ _ HI).
  - intros l' k o Hin Hh. eapply (proj1 (lt_claim_iff req (c_claims c) Hwf)); [|done|done].
    exists l. by rewrite Hc.
Qed.

(** A held lease becomes the exclusive operation of a quiet environment. *)
Lemma Inv_upgrade c T l env :
  Inv c T → T !! l = Some None →
  (isOpen c → ∃ o, lt_holds (c_claims c) l (EnvironmentMutationKey env) o ∧ mo_Kind o ≠ MutationOwnerAttach) →
  (∀ e, c_environments c !! env = Some e → re_handles e = ∅ ∧ re_establishing e = ∅) →
  Inv c (<[l := Some env]> T).
Proof.
  intros HI Ht Hh Hq.
  assert (∀ o l', owns c (<[l:=Some env]> T) o l' → owns c T o l') as Hown.
  { intros [] l'; simpl; try done. rewrite lookup_insert. case_decide; [subst; by rewrite Ht|done]. }
  assert (∀ env' l', guards c (<[l:=Some env]> T) env' l' → guards c T env' l' ∨ (env' = env ∧ l' = l)) as Hg.
  { intros env' l' [Hl|[?|?]]; [|left; right; by left|left; right; by right].
    rewrite lookup_insert in Hl. case_decide; [right; naive_solver|left; by left]. }
  split; try apply HI.
  - intros o1 o2 l' ??. apply (inv_uniq _ _ HI o1 o2 l'); auto.
  - intros o l' ?. apply (inv_issued _ _ HI o l'); auto.
  - intros env' l' Hop [?|[-> ->]]%Hg; [by eapply (inv_guard _ _ HI)|auto].
  - intros env' l' e [?|[-> ->]]%Hg; [by eapply (inv_quiet _ _ HI)|auto].
Qed.

(** A held lease is stored in the environment it guards. *)
Lemma Inv_transfer c c' T l env o0 :
  Inv c T → T !! l = Some (Some env) → o0 = OMut env ∨ o0 = ORec env →
  c_claims c' = c_claims c → c_establishments c' = c_establishments c → (c_nextAddr c ≤ c_nextAddr c')%nat →
  (isOpen c' → isOpen c) →
  (∀ env' e', c_environments c' !! env' = Some e' → ∃ e, c_environments c !! env' = Some e ∧
     re_handles e' ⊆ re_handles e ∧ re_establishing e' ⊆ re_establishing e) →
  (∀ o l', o ≠ OHeld → owns c' T o l' → owns c T o l' ∨ (o = o0 ∧ l' = l)) →
  Inv c' (delete l T).
Proof.
  intros HI Ht Ho0 Hc Ha Hn Hop He Hown'.
  assert (∀ o l', owns c' (delete l T) o l' → (owns c T o l' ∧ l' ≠ l) ∨ (o = o0 ∧ l' = l)) as Hown.
  { intros o l' Ho. assert (owns c T OHeld l) as Hheld by (by exists (Some env)).
    destruct (decide (o = OHeld)) as [->|Hne].
    - simpl in Ho. destruct Ho as [r Hr]. apply lookup_delete_Some in Hr as [? Hr]. left. split; [by exists r|done].
    - destruct (Hown' o l') as [Ho'|?]; [done|by destruct o|left|by right]. split; [done|].
      intros ->. apply Hne. by apply (inv_uniq _ _ HI o OHeld l). }
  assert (∀ env' l', guards c' (delete l T) env' l' → guards c T env' l') as Hg.
  { intros env' l' [Hl|[Ho|Ho]].
    - left. by apply lookup_delete_Some in Hl as [_ ?].
    - apply Hown in Ho as [[? _]|[<- ->]]; [right; by left|left]. destruct Ho0; by simplify_eq.
    - apply Hown in Ho as [[? _]|[<- ->]]; [right; by right|left]. destruct Ho0; by simplify_eq. }
  split.
  - rewrite Hc. intros ?. by apply (inv_wf _ _ HI), Hop.
  - intros o1 o2 l' [[H1 ?]|[-> ->]]%Hown [[H2 ?]|[-> ?]]%Hown; try done. by eapply (inv_uniq _ _ HI).
  - intros o l' [[H1 _]|[-> ->]]%Hown; rewrite Hc; [by eapply (inv_issued _ _ HI)|].
    apply (inv_issued _ _ HI OHeld). by exists (Some env).
  - intros env' e' s a Hop' (e&Hl&_&Hes)%He Hs. rewrite Hc, Ha.
    eapply (inv_est _ _ HI); [by apply Hop|done|by eapply lookup_weaken].
  - intros env' l' Hop' ?%Hg. rewrite Hc. eapply (inv_guard _ _ HI); [by apply Hop|done].
  - intros env' l' e' ?%Hg (e&Hl&Hh&Hes)%He. destruct (inv_quiet _ _ HI env' l' e) as [Eh Ee]; [done..|].
    rewrite Eh in Hh. rewrite Ee in Hes. split; [set_solver|].
    apply (anti_symm (⊆)); [done|apply map_empty_subseteq].
  - intros a. rewrite Ha. intros ?%(inv_addr _ _ HI). lia.
Qed.

(** A lease dropped from the field of its environment has no owner left. *)
Lemma yield_free c c' T l o0 :
  Inv c T → owns c T o0 l → shrink c c' → ¬ owns c' T o0 l → free c' T l.
Proof.
  intros HI Ho Hs Hn o Ho'. apply Hn. rewrite <- (inv_uniq _ _ HI o o0 l); [done|by eapply owns_shrink|done].
Qed.

(** A granted reservation: the lease moves into a new establishment. *)
Lemma Inv_reserve c T l env session est o :
  Inv c T → T !! l = Some None → (∀ l', ¬ guards c T env l') →
  (isOpen c → lt_holds (c_claims c) l (EnvironmentMutationKey env) o) →
  es_environment est = env → es_session est = session → es_lease est = Some l →
  Inv (c <| c_establishments ::= <[c_nextAddr c := est]> |> <| c_nextAddr ::= S |>
         <| c_environments ::= alter (λ e, e <| re_establishing ::= <[session := c_nextAddr c]> |>) env |>)
      (delete l T).
Proof.
  intros HI Ht Hng Hh Henv Hses Hl. set (addr := c_nextAddr c). set (c' := c <| c_establishments ::= _ |> <| c_nextAddr ::= _ |> <| c_environments ::= _ |>).
  assert (c_establishments c !! addr = None) as Hfresh.
  { destruct (c_establishments c !! addr) eqn:Ha; [|done].
    assert (addr < c_nextAddr c)%nat by (apply (inv_addr _ _ HI); by exists e). unfold addr in *. lia. }
  assert (∀ env' e', c_environments c' !! env' = Some e' → ∃ e, c_environments c !! env' = Some e ∧
    re_handles e' = re_handles e ∧ re_mutationLease e' = re_mutationLease e ∧
    re_reconcileLease e' = re_reconcileLease e ∧
    ((env' ≠ env ∧ re_establishing e' = re_establishing e) ∨
     (env' = env ∧ re_establishing e' = <[session := addr]> (re_establishing e)))) as He.
  { intros env' e'. simpl. rewrite lookup_alter. case_decide as Hd; [|intros; exists e'; split_and!; auto].
    subst env'. intros (e&He&->)%fmap_Some. exists e. split_and!; auto. }
  assert (∀ o l', owns c' (delete l T) o l' →
    (owns c T o l' ∧ (o = OHeld → l' ≠ l)) ∨ (o = OEst addr ∧ l' = l)) as Hown.
  { intros [a|env'|env'|] l'; simpl.
    - intros (est'&Ha&Hl'). rewrite lookup_insert in Ha. case_decide; [right; split; congruence|left; split; [eauto|done]].
    - intros (e'&(e&?&?&?&?&?)%He&?). left. split; [exists e; split; [done|congruence]|done].
    - intros (e'&(e&?&?&?&?&?)%He&?). left. split; [exists e; split; [done|congruence]|done].
    - intros [r [??]%lookup_delete_Some]. left. split; [by exists r|done]. }
  assert (∀ env' l', guards c' (delete l T) env' l' → guards c T env' l') as Hg.
  { intros env' l' [Hl'|[Ho|Ho]].
    - left. by apply lookup_delete_Some in Hl' as [_ ?].
    - apply Hown in Ho as [[? _]|[? _]]; [right; by left|done].
    - apply Hown in Ho as [[? _]|[? _]]; [right; by right|done]. }
  assert (owns c T OHeld l) as Hheld by (by exists None).
  split.
  - apply (inv_wf _ _ HI).
  - intros o1 o2 l' [[H1 N1]|[-> ->]]%Hown [[H2 N2]|[-> E2]]%Hown; subst.
    + by eapply (inv_uniq _ _ HI).
    + pose proof (inv_uniq _ _ HI _ _ _ H1 Hheld) as ->. by destruct (N1 eq_refl).
    + pose proof (inv_uniq _ _ HI _ _ _ H2 Hheld) as ->. by destruct (N2 eq_refl).
    + done.
  - intros o' l' [[H1 _]|[-> ->]]%Hown; by eapply (inv_issued _ _ HI).
  - intros env' e' s a Hop (e&Hle&_&_&_&[[? Hes]|[-> Hes]])%He Hs; rewrite Hes in Hs; simpl.
    2: rewrite lookup_insert in Hs; case_decide as Hd;
      [injection Hs as <-; exists est, l, o; rewrite lookup_insert_eq; split_and!;
        [done|done|congruence|done|exact (Hh Hop)]|].
    all: destruct (inv_est _ _ HI _ _ _ _ Hop Hle Hs) as (est'&l'&o'&Ha&?&?&?&?); exists est', l', o';
      rewrite lookup_insert_ne; [done|intros <-; congruence].
  - intros env' l' Hop ?%Hg. by eapply (inv_guard _ _ HI).
  - intros env' l' e' Hgd%Hg (e&Hle&Hh'&_&_&[[? Hes]|[-> Hes]])%He.
    + rewrite Hh', Hes. by eapply (inv_quiet _ _ HI).
    + by destruct (Hng l').
  - intros a [est' Ha]. simpl in *. rewrite lookup_insert in Ha. case_decide; [lia|].
    assert (a < c_nextAddr c)%nat by (apply (inv_addr _ _ HI); by exists est'). lia.
Qed.

(** A handle is added to an environment no exclusive operation guards. *)
Lemma Inv_attach c T env f :
  Inv c T → (∀ l, ¬ guards c T env l) →
  (∀ e, re_establishing (f e) = re_establishing e ∧ re_mutationLease (f e) = re_mutationLease e ∧
        re_reconcileLease (f e) = re_reconcileLease e) →
  Inv (c <| c_environments ::= alter f env |>) T.
Proof.
  intros HI Hng Hf. set (c' := c <| c_environments ::= _ |>).
  assert (∀ env' e', c_environments c' !! env' = Some e' → ∃ e, c_environments c !! env' = Some e ∧
    re_establishing e' = re_establishing e ∧ re_mutationLease e' = re_mutationLease e ∧
    re_reconcileLease e' = re_reconcileLease e ∧ (env' ≠ env → e' = e)) as He.
  { intros env' e'. simpl. rewrite lookup_alter. case_decide as Hd; [|intros; exists e'; split_and!; auto].
    subst env'. intros (e&He&->)%fmap_Some. exists e. destruct (Hf e) as (?&?&?). split_and!; auto. done. }
  assert (∀ o l', owns c' T o l' → owns c T o l') as Hown.
  { intros [a|env'|env'|] l'; simpl; [done| | |done].
    - intros (e'&(e&?&?&?&?&?)%He&?). exists e. split; [done|congruence].
    - intros (e'&(e&?&?&?&?&?)%He&?). exists e. split; [done|congruence]. }
  assert (∀ env' l', guards c' T env' l' → guards c T env' l') as Hg.
  { intros env' l' [Hl'|[Ho|Ho]]; [by left|right; left; by apply Hown|right; right; by apply Hown]. }
  split; try apply HI.
  - intros o1 o2 l ??. by apply (inv_uniq _ _ HI o1 o2 l); apply Hown.
  - intros o l ?. by eapply (inv_issued _ _ HI), Hown.
  - intros env' e' s a Hop (e&Hle&Hes&_)%He Hs. rewrite Hes in Hs. by eapply (inv_est _ _ HI).
  - intros env' l' Hop ?%Hg. by eapply (inv_guard _ _ HI).
  - intros env' l' e' Hgd%Hg (e&Hle&_&_&_&Hsame)%He. destruct (decide (env' = env)) as [->|Hne].
    + by destruct (Hng l').
    + rewrite (Hsame Hne). by eapply (inv_quiet _ _ HI).
Qed.

(** Is the establishment still recorded as establishing somewhere? *)
Definition referenced (c : Coordinator) (a : nat) : Prop :=
  ∃ env e s, c_environments c !! env = Some e ∧ re_establishing e !! s = Some a.

(** Phase changes keep the identity and the lease of an establishment; the
    lease is dropped once nothing refers to it. *)
Lemma Inv_modEst c T a f :
  Inv c T →
  (∀ e, es_environment (f e) = es_environment e ∧ es_session (f e) = es_session e) →
  (∀ e, es_lease (f e) = es_lease e) ∨ ((∀ e, es_lease (f e) = None) ∧ (isOpen c → ¬ referenced c a)) →
  Inv (c <| c_establishments ::= alter f a |>) T.
Proof.
  intros HI Hf Hl. set (c' := c <| c_establishments ::= _ |>).
  assert (∀ o l', owns c' T o l' → owns c T o l') as Hown.
  { intros [a'|env'|env'|] l'; simpl; try done. intros (est'&Ha&Hl'). rewrite lookup_alter in Ha.
    case_decide; [|by exists est']. subst a'. apply fmap_Some in Ha as (est&Ha&->). exists est. split; [done|].
    destruct Hl as [Hl|[Hl _]]; rewrite Hl in Hl'; done. }
  assert (∀ env' l', guards c' T env' l' → guards c T env' l') as Hg.
  { intros env' l' [Hl'|[Ho|Ho]]; [by left|right; left; by apply Hown|right; right; by apply Hown]. }
  split.
  - apply (inv_wf _ _ HI).
  - intros o1 o2 l ??. by apply (inv_uniq _ _ HI o1 o2 l); apply Hown.
  - intros o l ?. by eapply (inv_issued _ _ HI), Hown.
  - intros env e s a' Hop He Hs. destruct (inv_est _ _ HI _ _ _ _ Hop He Hs) as (est&l&o&Ha&E1&E2&El&?).
    simpl. rewrite lookup_alter. case_decide as Hd; [|exists est, l, o; done]. subst a'. rewrite Ha. simpl.
    destruct Hl as [Hl|[_ Hr]]; [|destruct (Hr Hop); by exists env, e, s].
    destruct (Hf est) as [F1 F2]. exists (f est), l, o. rewrite F1, F2, Hl. done.
  - intros env' l' Hop ?%Hg. by eapply (inv_guard _ _ HI).
  - intros env' l' e ?%Hg. by eapply (inv_quiet _ _ HI).
  - intros a' [est' Ha]. simpl in Ha. rewrite lookup_alter in Ha. case_decide; [|apply (inv_addr _ _ HI); by exists est'].
    subst a'. apply fmap_Some in Ha as (est&Ha&_). apply (inv_addr _ _ HI). by exists est.
Qed.

(** The lease of an establishment nothing refers to is released and
    forgotten. *)
Lemma Inv_clearEst c T a est f :
  Inv c T → c_establishments c !! a = Some est → (isOpen c → ¬ referenced c a) →
  (∀ e, es_environment (f e) = es_environment e ∧ es_session (f e) = es_session e ∧ es_lease (f e) = None) →
  Inv ((from_option releaseC id (es_lease est) c) <| c_establishments ::= alter f a |>) T.
Proof.
  intros HI Ha Hr Hf.
  assert (Inv (c <| c_establishments ::= alter f a |>) T) as HI'.
  { apply Inv_modEst; [done|naive_solver|right; naive_solver]. }
  destruct (es_lease est) as [l|] eqn:Hl; [simpl|done].
  change (Inv (releaseC l (c <| c_establishments ::= alter f a |>)) T). apply Inv_release_free; [done|].
  intros o Ho. assert (owns c T (OEst a) l) as Ho1 by (by exists est).
  assert (owns c T o l) as Ho2.
  { destruct o as [a'|env'|env'|]; simpl in *; try done. destruct Ho as (est'&Ha'&Hl').
    rewrite lookup_alter in Ha'. case_decide; [|by exists est']. subst a'. by exists est. }
  pose proof (inv_uniq _ _ HI _ _ _ Ho1 Ho2) as <-. destruct Ho as (est'&Ha'&Hl').
  simpl in Ha'. rewrite lookup_alter_eq, Ha in Ha'. simplify_eq/=. destruct (Hf est) as (_&_&Hn). congruence.
Qed.

(** While the coordinator is not open the claims no longer matter. *)
Lemma Inv_closed_claims c T t :
  Inv c T → ¬ isOpen c → (∀ l, lt_issued (c_claims c) l → lt_issued t l) → Inv (c <| c_claims := t |>) T.
Proof.
  intros HI Hcl Hiss. split; try apply HI; simpl.
  - intros Hop. by destruct Hcl.
  - intros o l Ho. by eapply Hiss, (inv_issued _ _ HI).
  - intros env e s a Hop. by destruct Hcl.
  - intros env l Hop. by destruct Hcl.
Qed.
