(* ===== verification/LifecycleSafety.v ===== *)
(** * Every operation keeps the lease-ownership invariant

    For each critical section of the coordinator that claims, stores, hands
    out or releases a lease: from a state with the invariant of
    [LifecycleInvariant] it leaves a state with it, on success and on every
    error path.  The sections that touch no lease are covered by the frame of
    [LifecycleFrame]. *)
From S2P Require Import Prelude GoStrings GoTime LifecycleModel LifecycleGraph LifecycleJournal LifecycleStatus LifecycleMutation.
From S2P Require Import LifecycleCoordinator LifecycleRegistry LifecycleAttach LifecycleStop LifecycleDisposalOps LifecycleReconcile LifecycleFrame.
From S2P Require Import LifecycleInvariant.

(** ** Running a computation step by step *)

Lemma run_bind {A B} (m : M A) (f : A → M B) c (Q : Coordinator * res B → Prop) :
  (∀ c1 a, m c = (c1, Ok a) → Q (f a c1)) →
  (∀ c1 e, m c = (c1, Err e) → Q (c1, Err e)) →
  Q ((m ≫= f) c).
Proof. intros Hok Herr. unfold mbind, SE_bind. destruct (m c) as [c1 [a|e]] eqn:Hm; eauto. Qed.

Lemma preserves_run {A} R (m : M A) c c' r : preserves R m → m c = (c', r) → R c c'.
Proof. intros Hp Hm. pose proof (Hp c) as H. by rewrite Hm in H. Qed.

Lemma lift_run {A} (r : res A) (c c' : Coordinator) r' : lift r c = (c', r') → c' = c ∧ r' = r.
Proof. by intros [= <- <-]. Qed.

(** The next statement of a computation, its two outcomes as goals. *)
Ltac run_step H :=
  cbv zeta; apply run_bind; [intros ? ? H|intros ? ? H].
(** The state after a shrinking statement. *)
Ltac shrunk H HS :=
  match type of H with
  | ?m ?c = (?c', ?r) => assert (shrink c c') as HS by (apply (preserves_run shrink m c c' r); [pres|exact H])
  end.

(** [post T]: the invariant with the held leases [T], whatever is returned. *)
Definition post {A} (T : Held) (p : Coordinator * res A) : Prop := Inv p.1 T.

Lemma post_shrink {A} (m : M A) c T : preserves shrink m → Inv c T → post T (m c).
Proof. intros Hp HI. eapply Inv_shrink; [apply Hp|done]. Qed.

(** ** Claims of an operation *)

(** Fewer claims were ever made than a [uint64] sequence can count, with room
    for the keys of one more request. *)
Definition fewClaims (c : Coordinator) : Prop := mutationSequence (c_claims c) + 32 < two64.

Lemma fewClaims_shrink c c' : shrink c c' → fewClaims c → fewClaims c'.
Proof. intros Hs. unfold fewClaims. by rewrite (sh_claims _ _ Hs). Qed.

(** A normalised request. *)
Record normalized (keys : list string) (owner : MutationOwner) (req : MutationRequest) : Prop := {
  nz_keys k : k ∈ mr_Keys req ↔ k ∈ keys;
  nz_nodup : NoDup (mr_Keys req);
  nz_length : (length (mr_Keys req) ≤ 32)%nat;
  nz_valid k : k ∈ keys → validMutationKey k = true;
  nz_kind : mo_Kind (mr_Owner req) = mo_Kind owner }.

Lemma normalizeM_ok keys owner c c' req :
  normalizeM (mkRequest keys owner) c = (c', Ok req) →
  normalized keys owner req ∧ shrink c c' ∧ c_environments c' = c_environments c ∧ c_establishments c' = c_establishments c
  ∧ (isOpen c → isOpen c').
Proof.
  unfold normalizeM, mbind, SE_bind. simpl.
  destruct (normalizeMutationRequest _ _) as [req'|e] eqn:Hn; simpl; [|done]. intros Hret.
  assert (req' = req ∧ shrink c c' ∧ c_environments c' = c_environments c ∧
    c_establishments c' = c_establishments c ∧ (isOpen c → isOpen c')) as (->&?&?&?&?).
  { unfold when, mret, SE_ret in Hret. destruct (IsZero _); simpl in Hret; simplify_eq; split_and!; try done.
    apply (nowUTC_shrink c). }
  split; [|done]. unfold normalizeMutationRequest in Hn. simpl in Hn.
  apply result_bind_ok in Hn as (ks&Hk&Hn). case_match; [done|]. simplify_eq/=.
  pose proof (normalizeMutationKeys_ok _ _ Hk) as (Hin&Hnd&_&Hval&Hlen).
  split; simpl; [done|done|lia| |done]. intros k Hk'. apply Hin in Hk'.
  by eapply Forall_forall in Hval.
Qed.

Lemma env_key_valid env : validMutationKey (EnvironmentMutationKey env) = true → idPattern env = true.
Proof. unfold EnvironmentMutationKey. by destruct (idPattern env). Qed.

Lemma normalized_room keys owner req c :
  normalized keys owner req → fewClaims c → lt_room req (c_claims c).
Proof. intros Hn Hf. change (room req (c_claims c)). unfold room, fewClaims in *. pose proof (nz_length _ _ _ Hn). lia. Qed.

(** A granted claim of the environment's key by an exclusive owner. *)
Lemma claim_exclusive c T env owner req c' l :
  Inv c T → isOpen c → fewClaims c → normalized [EnvironmentMutationKey env] owner req →
  mo_Kind owner ≠ MutationOwnerAttach → claimM req c = (c', Ok l) →
  c_environments c' = c_environments c ∧ isOpen c' ∧ Inv c' (<[l := None]> T) ∧ T !! l = None ∧
  ∃ o, lt_holds (c_claims c') l (EnvironmentMutationKey env) o ∧ mo_Kind o ≠ MutationOwnerAttach.
Proof.
  intros HI Hop Hfew Hn Hk Hc.
  destruct (Inv_claim _ _ _ _ _ HI Hop (nz_nodup _ _ _ Hn) (normalized_room _ _ _ _ Hn Hfew) Hc)
    as (He&Hop'&HI'&Ht&Hh&_).
  split_and!; [done..|]. exists (mr_Owner req). split; [|by rewrite (nz_kind _ _ _ Hn)].
  apply Hh, (nz_keys _ _ _ Hn). left.
Qed.

Lemma claimM_err req c c' e : claimM req c = (c', Err e) → c' = c.
Proof.
  unfold claimM. destruct (claimMutationKeysLocked req (c_claims c)) as [t r] eqn:Hc. intros [= <- ->].
  rewrite (claim_err_unchanged _ _ _ _ Hc). by destruct c.
Qed.

Lemma requireOpen_ok c c' u : requireOpen c = (c', Ok u) → c' = c ∧ isOpen c.
Proof.
  unfold requireOpen, mbind, SE_bind, mret, SE_ret. simpl. destruct (c_closing c || c_closed c) eqn:Hc; [done|].
  intros [= <-]. by apply orb_false_iff in Hc.
Qed.
Lemma requireOpen_err c c' e : requireOpen c = (c', Err e) → c' = c.
Proof. unfold requireOpen, mbind, SE_bind, mret, SE_ret. simpl. case_match; intros [= <-]; done. Qed.

Lemma loadEnvironment_ok env c c' state :
  loadEnvironmentLocked env c = (c', Ok state) →
  shrink c c' ∧ (isOpen c → isOpen c') ∧ c_environments c' !! env = Some state.
Proof.
  intros Hl. pose proof (preserves_run shrink _ _ _ _ (loadEnvironmentLocked_shrink env) Hl) as Hs.
  split; [done|]. clear Hs. revert Hl. unfold loadEnvironmentLocked, mbind, SE_bind, mret, SE_ret. simpl.
  destruct (c_environments c !! env) eqn:He; simpl; [intros [= <- <-]; done|].
  destruct (Store_Load _ _ _) as [j|e]; simpl; [|destruct (errors_Is e ErrNotExist); simpl; [|done]].
  all: intros [= <- <-]; split; [done|]; simpl; by rewrite lookup_insert_eq.
Qed.

(** ** Held leases an operation returns *)

(** [AcquireMutation]: the caller gets a lease. *)
Lemma AcquireMutation_inv ctx request c T :
  Inv c T → fewClaims c →
  match AcquireMutation ctx request c with
  | (c', Ok l) => Inv c' (<[l := None]> T) ∧ T !! l = None
  | (c', Err _) => Inv c' T
  end.
Proof.
  intros HI Hfew. set (Q := λ p : Coordinator * res nat, match p with
    | (c', Ok l) => Inv c' (<[l := None]> T) ∧ T !! l = None | (c', Err _) => Inv c' T end).
  change (Q (AcquireMutation ctx request c)). unfold AcquireMutation.
  run_step H0; apply lift_run in H0 as [-> _]; [|done].
  run_step H1; [|shrunk H1 HS; by eapply Inv_shrink]. destruct request as [keys owner].
  apply normalizeM_ok in H1 as (Hn&HS&_&_&_).
  run_step H2; [|apply requireOpen_err in H2 as ->; by eapply Inv_shrink].
  apply requireOpen_ok in H2 as [-> Hop]. destruct (claimM _ _) as [c' [l|e]] eqn:Hc; simpl.
  - edestruct (Inv_claim _ T _ _ _ ltac:(by eapply Inv_shrink) Hop (nz_nodup _ _ _ Hn)
      (normalized_room _ _ _ _ Hn (fewClaims_shrink _ _ HS Hfew)) Hc) as (_&_&?&?&_). done.
  - apply claimM_err in Hc as ->. by eapply Inv_shrink.
Qed.

(** Statements before the release of a held lease. *)
Lemma Inv_release_insert c T l r : Inv c (<[l := r]> T) → T !! l = None → Inv (releaseC l c) T.
Proof.
  intros HI Ht. rewrite <- (delete_insert_id T l r) by done.
  eapply Inv_release; [done|]. by rewrite lookup_insert_eq.
Qed.

(** The outcome of an operation on [env] whose result may leave a lease with
    the caller: [held] is that lease. *)
Definition postHeld {A} (held : A → option nat) (env : string) (T : Held) (p : Coordinator * res A) : Prop :=
  match p.2 with
  | Ok a => match held a with
            | Some l => Inv p.1 (<[l := Some env]> T) ∧ T !! l = None
            | None => Inv p.1 T
            end
  | Err _ => Inv p.1 T
  end.

(** Every result of the computation leaves the same lease, or none. *)
Definition leaves {A} (held : A → option nat) (m : M A) (l : option nat) : Prop :=
  ∀ c a, (m c).2 = Ok a → held a = l.

Lemma leaves_bind {A B} (held : B → option nat) (m : M A) (f : A → M B) l :
  (∀ a, leaves held (f a) l) → leaves held (m ≫= f) l.
Proof. intros Hf c a. unfold mbind, SE_bind. destruct (m c) as [c1 [x|e]]; [apply Hf|done]. Qed.
Lemma leaves_ret {A} (held : A → option nat) a l : held a = l → leaves held (mret a) l.
Proof. intros Hl c b [= <-]. done. Qed.

Ltac leaves_tac := repeat first
  [ apply leaves_ret; reflexivity | apply leaves_bind; intros ?
  | match goal with
    | |- leaves _ (if ?b then _ else _) _ => destruct b
    | |- leaves _ (match ?x with _ => _ end) _ => destruct x
    end ].

Lemma postHeld_shrink {A} held env T (m : M A) c :
  preserves shrink m → leaves held m None → Inv c T → postHeld held env T (m c).
Proof.
  intros Hp Hn HI. assert (Inv (m c).1 T) by (eapply Inv_shrink; [apply Hp|done]).
  unfold postHeld. destruct ((m c).2) as [a|] eqn:Hm; [|done]. by rewrite (Hn c a Hm).
Qed.

Definition heldStop (o : option StopCall) : option nat := sc_lease <$> o.
Abbreviation postStop := (postHeld heldStop).

(** The end of a branch that gives the lease back. *)
Lemma postStop_release env T l r c :
  Inv c (<[l := r]> T) → T !! l = None → postStop env T ((releaseLease l;; mret None) c).
Proof. intros HI Ht. by apply (Inv_release_insert c T l r). Qed.

Lemma Inv_drop_insert c T l r : Inv c (<[l := r]> T) → T !! l = None → Inv c T.
Proof. intros HI Ht. rewrite <- (delete_insert_id T l r) by done. by apply Inv_drop. Qed.

Lemma run_shrink {A B} (m : M A) (f : A → M B) c T (Q : Coordinator * res B → Prop) :
  preserves shrink m → Inv c T →
  (∀ c1 a, Inv c1 T → m c = (c1, Ok a) → shrink c c1 → Q (f a c1)) →
  (∀ c1 e, Inv c1 T → Q (c1, Err e)) →
  Q ((m ≫= f) c).
Proof.
  intros Hp HI Hok Herr. apply run_bind.
  - intros c1 a Hm. pose proof (preserves_run shrink _ _ _ _ Hp Hm) as Hs.
    apply Hok; [by eapply Inv_shrink|done|done].
  - intros c1 e Hm. apply Herr. eapply Inv_shrink; [by eapply preserves_run|done].
Qed.

(** The next statement, one that only shrinks: the invariant [HI] moves to
    the state after it; the error outcome is closed with [tac]. *)
Ltac walk HI tac :=
  cbv zeta; eapply run_shrink; [solve [pres]|exact HI|clear HI; intros ? ? HI ?Hw ?Sw|intros ? ? ?; solve [tac]].

Lemma planStop_inv env attemptID inc l c T :
  Inv c (<[l := Some env]> T) → T !! l = None → postStop env T (planStop env attemptID inc l c).
Proof.
  intros HI Ht. assert (∀ c1 e, Inv c1 (<[l := Some env]> T) → postStop env T (c1, Err e)) as Herr.
  { intros c1 e HI1. by eapply Inv_drop_insert. }
  unfold planStop.
  do 5 (walk HI ltac:(eauto)).
  match goal with |- context [match ?r with Ok _ => _ | Err _ => _ end] => destruct r as [u|e] end.
  2: { walk HI ltac:(eauto). by eapply postStop_release. }
  do 2 (walk HI ltac:(eauto)).
  match goal with |- context [if ?b then _ else _] => destruct b end.
  - do 2 (walk HI ltac:(eauto)). by eapply postStop_release.
  - do 3 (walk HI ltac:(eauto)). done.
Qed.

Lemma quiet_of (e : registryEnvironment) :
  noHandles e = true → noEstablishing e = true → re_handles e = ∅ ∧ re_establishing e = ∅.
Proof. by intros ?%bool_decide_eq_true ?%bool_decide_eq_true. Qed.

(** Reading the state changes nothing. *)
Ltac read_state H := cbv zeta; apply run_bind; [intros ? ? H|intros ? ? H]; [|done]; injection H as <- <-.

Lemma attempt_run {A} (m : M A) c c' r : attempt m c = (c', r) → ∃ x, r = Ok x ∧ m c = (c', x).
Proof. unfold attempt. intros [= <- <-]. exists (m c).2. split; [done|]. by destruct (m c). Qed.

(** A granted claim on a quiet environment is an exclusive operation on it. *)
Lemma claim_guard c c' T env owner req l :
  Inv c T → isOpen c → fewClaims c → normalized [EnvironmentMutationKey env] owner req →
  mo_Kind owner ≠ MutationOwnerAttach →
  (∀ e, c_environments c !! env = Some e → re_handles e = ∅ ∧ re_establishing e = ∅) →
  claimM req c = (c', Ok l) → Inv c' (<[l := Some env]> T) ∧ T !! l = None.
Proof.
  intros HI Hop Hfew Hn Hk Hq Hc.
  destruct (claim_exclusive _ _ _ _ _ _ _ HI Hop Hfew Hn Hk Hc) as (He&Hop'&HI'&Ht&Ho). split; [|done].
  rewrite <- (insert_insert_eq T l (Some env) None). apply Inv_upgrade; [done|by rewrite lookup_insert_eq|done|].
  rewrite He. done.
Qed.

Lemma expire_inv env inc seq c T :
  Inv c T → fewClaims c → postStop env T (expire env inc seq c).
Proof.
  intros HI Hfew. unfold expire. read_state H0. read_state H1.
  destruct (c_environments c !! env) as [state|] eqn:He; [|done].
  match goal with |- context [if ?b then mret None else _] => destruct b eqn:Hb; [done|] end.
  repeat (apply orb_false_iff in Hb as [Hb ?]). rename Hb into Hcl. bool_prop.
  assert (re_handles state = ∅ ∧ re_establishing state = ∅) as Hq by (by apply quiet_of).
  destruct (currentIncarnationObservation state) as [obs|e0];
    [|apply postHeld_shrink; [pres|leaves_tac|done]].
  destruct (EvaluateAutoStop _) as [ev|e0]; [|apply postHeld_shrink; [pres|leaves_tac|done]].
  match goal with |- context [if ?b then _ else _] => destruct b;
    [apply postHeld_shrink; [pres|leaves_tac|done]|] end.
  cbv zeta. run_step Hr2; [|done]. injection Hr2 as <- <-. set (c1 := c <| c_reads := _ |>).
  assert (Inv c1 T) as HI1 by (eapply Inv_shrink; [apply (nowUTC_shrink c)|done]).
  run_step Hr3; [|by apply attempt_run in Hr3 as (?&?&_)].
  apply attempt_run in Hr3 as (r&[= ->]&Hr3). destruct r as [req|e0].
  2: { shrunk Hr3 S3. apply postHeld_shrink; [pres|leaves_tac|by eapply Inv_shrink]. }
  apply normalizeM_ok in Hr3 as (Hn&S3&He3&_&Hop3).
  run_step Hr4; [|by apply attempt_run in Hr4 as (?&?&_)].
  apply attempt_run in Hr4 as (r&[= ->]&Hr4). destruct r as [l|e0].
  2: { apply claimM_err in Hr4 as ->. apply postHeld_shrink; [pres|leaves_tac|by eapply Inv_shrink]. }
  eapply claim_guard in Hr4 as [HI4 Ht]; [by apply planStop_inv|by eapply Inv_shrink| | |done|done|].
  - by apply Hop3.
  - by eapply fewClaims_shrink.
  - intros e. rewrite He3. simpl. rewrite He. by intros [= <-].
Qed.

(** *** Explicit stop *)

Definition heldExplicit (x : ExplicitStop) : option nat :=
  match x with
  | ExplicitReturn _ _ => None
  | ExplicitDeferred l _ _ => Some l
  | ExplicitCall call => Some (sc_lease call)
  end.

Lemma postHeld_keep {A} held env T l (m : M A) c :
  preserves shrink m → leaves held m (Some l) →
  Inv c (<[l := Some env]> T) → T !! l = None → postHeld held env T (m c).
Proof.
  intros Hp Hl HI Ht. assert (Inv (m c).1 (<[l := Some env]> T)) by (eapply Inv_shrink; [apply Hp|done]).
  unfold postHeld. destruct ((m c).2) as [a|e] eqn:Hm; [by rewrite (Hl c a Hm)|by eapply Inv_drop_insert].
Qed.

Lemma explicitConflict_None state :
  explicitConflict state = None → re_handles state = ∅ ∧ re_establishing state = ∅.
Proof.
  unfold explicitConflict. repeat (case_match; try done). intros _. bool_prop. by apply quiet_of.
Qed.

Lemma StopExplicit_begin_inv env c T :
  Inv c T → fewClaims c → postHeld heldExplicit env T (StopExplicit_begin env c).
Proof.
  intros HI Hfew. unfold StopExplicit_begin. destruct (negb (idPattern env)); [done|].
  run_step H1; [|by apply requireOpen_err in H1 as ->]. apply requireOpen_ok in H1 as [-> Hop].
  run_step H2; [|shrunk H2 S2; by eapply Inv_shrink].
  apply loadEnvironment_ok in H2 as (S2&Hop2&He2). assert (Inv c1 T) as HI2 by (by eapply Inv_shrink).
  run_step H3; [|done]. injection H3 as <- <-. set (c3 := c1 <| c_reads := _ |>).
  pose proof (nowUTC_shrink c1) as S3. simpl in S3. fold c3 in S3.
  run_step H4; [|shrunk H4 S4; apply (Inv_shrink c1); [by etrans|done]].
  apply normalizeM_ok in H4 as (Hn&S4&He4&_&Hop4). rename c0 into c4.
  assert (Inv c4 T) as HI4 by (apply (Inv_shrink c1); [by etrans|done]).
  run_step H5; [|by apply attempt_run in H5 as (?&?&_)].
  apply attempt_run in H5 as (r&[= ->]&H5). destruct r as [l|e5].
  2: { apply claimM_err in H5 as ->. apply postHeld_shrink; [pres|leaves_tac|done]. }
  assert (fewClaims c4) as Hfew4 by (do 3 (eapply fewClaims_shrink; [done|]); done).
  destruct (claim_exclusive _ _ _ _ _ _ _ HI4 ltac:(by auto) Hfew4 Hn ltac:(done) H5) as (He5&Hop5&HI5&Ht&Ho).
  destruct (explicitConflict a0) as [fallback|] eqn:Hc.
  - walk HI5 ltac:(by eapply Inv_drop_insert).
    run_step H6; [|done]. injection H6 as <- <-.
    apply postHeld_shrink; [pres|leaves_tac|]. by eapply Inv_release_insert.
  - assert (Inv c0 (<[l := Some env]> T)) as HI6.
    { rewrite <- (insert_insert_eq T l (Some env) None). apply Inv_upgrade; [done|by rewrite lookup_insert_eq|done|].
      rewrite He5, He4. simpl. rewrite He2. intros e [= <-]. by apply explicitConflict_None. }
    destruct (explicitRefusal a0) as [inc|e6].
    + apply (postHeld_keep _ _ _ l); [pres| |done|done]. unfold invokeExplicit. leaves_tac.
    + apply (postHeld_keep _ _ _ l); [pres|leaves_tac|done|done].
Qed.

(** *** Destructive mutations *)

Definition heldMutation (x : MutationBegin) : option nat :=
  match x with
  | MutationReturn _ => None
  | MutationDeferred l _ | MutationCall l => Some l
  end.

Lemma environmentActive_false state :
  environmentActive state = false → re_handles state = ∅ ∧ re_establishing state = ∅.
Proof. unfold environmentActive. intros. bool_prop. by apply quiet_of. Qed.

(** The lease just claimed holds the environment's key for an exclusive
    owner. *)
Definition claimed (c : Coordinator) (T : Held) (env : string) (l : nat) : Prop :=
  Inv c (<[l := None]> T) ∧ T !! l = None ∧
  ∃ o, lt_holds (c_claims c) l (EnvironmentMutationKey env) o ∧ mo_Kind o ≠ MutationOwnerAttach.

(** It guards the environment as soon as the environment is seen quiet. *)
Lemma claimed_guard c T env l :
  claimed c T env l →
  let state := default zeroEnv (c_environments c !! env) in
  re_handles state = ∅ ∧ re_establishing state = ∅ → Inv c (<[l := Some env]> T).
Proof.
  intros (HI&Ht&Ho) state Hq. rewrite <- (insert_insert_eq T l (Some env) None).
  apply Inv_upgrade; [done|by rewrite lookup_insert_eq|done|]. intros e He. unfold state in Hq.
  by rewrite He in Hq.
Qed.

(** A failing or conflicting branch gives the lease back first. *)
Lemma claimed_release {A} held c T env l (m : M A) :
  claimed c T env l → preserves shrink m → leaves held m None →
  postHeld held env T ((releaseLease l;; m) c).
Proof.
  intros (HI&Ht&_) Hp Hl. run_step H; [|done]. injection H as <- <-.
  apply postHeld_shrink; [done|done|]. by eapply Inv_release_insert.
Qed.

Lemma beginMutationClaimed_inv env owner l c T :
  claimed c T env l → postHeld heldMutation env T (beginMutationClaimed env owner l c).
Proof.
  intros Hcl. unfold beginMutationClaimed. read_state H1. run_step H2; [|done]. injection H2 as <- <-.
  set (state := default zeroEnv _). destruct (re_reconciling state); [|destruct (environmentActive state) eqn:Ha].
  - apply claimed_release; [done|pres|leaves_tac].
  - apply claimed_release; [done|pres|leaves_tac].
  - apply (postHeld_keep _ _ _ l); [pres|leaves_tac| |by apply Hcl].
    apply claimed_guard; [done|]. by apply environmentActive_false.
Qed.

Lemma claim_claimed c c' T env owner req l :
  Inv c T → isOpen c → fewClaims c → normalized [EnvironmentMutationKey env] owner req →
  mo_Kind owner ≠ MutationOwnerAttach → claimM req c = (c', Ok l) →
  claimed c' T env l ∧ c_environments c' = c_environments c ∧ isOpen c'.
Proof.
  intros HI Hop Hfew Hn Hk Hc.
  destruct (claim_exclusive _ _ _ _ _ _ _ HI Hop Hfew Hn Hk Hc) as (He&Hop'&HI'&Ht&Ho). done.
Qed.

Lemma RunDestructive_begin_inv ctx env owner c T :
  Inv c T → fewClaims c → mo_Kind owner ≠ MutationOwnerAttach →
  postHeld heldMutation env T (RunDestructiveMutation_begin ctx env owner c).
Proof.
  intros HI Hfew Hk. unfold RunDestructiveMutation_begin. destruct (negb (idPattern env)); [done|].
  run_step H0; apply lift_run in H0 as [-> _]; [|done].
  run_step H1; [|shrunk H1 S1; by eapply Inv_shrink]. apply normalizeM_ok in H1 as (Hn&S1&_&_&_).
  assert (Inv c1 T) as HI1 by (by eapply Inv_shrink).
  run_step H2; [|by apply requireOpen_err in H2 as ->]. apply requireOpen_ok in H2 as [-> Hop].
  run_step H3; [|shrunk H3 S3; by eapply Inv_shrink]. apply loadEnvironment_ok in H3 as (S3&Hop3&_).
  run_step H4; [|apply claimM_err in H4 as ->; by eapply (Inv_shrink c1)].
  apply (claim_claimed _ _ T env owner) in H4 as (Hcl&_&_); [|by eapply (Inv_shrink c1)|auto| |done|done].
  - by apply beginMutationClaimed_inv.
  - do 2 (eapply fewClaims_shrink; [done|]). done.
Qed.

(** *** Forgetting an environment *)

Lemma finally_run {A} (m : M A) d c : (finally m d) c = (d (m c).1, (m c).2).
Proof. done. Qed.

Lemma claimed_free c T env l : claimed c T env l → free c T l.
Proof.
  intros (HI&Ht&_). rewrite <- (delete_insert_id T l None) by done.
  eapply held_free; [done|]. by rewrite lookup_insert_eq.
Qed.

(** A deferred release after the lease was already released. *)
Lemma released_twice {A} c T env l (m : M A) :
  claimed c T env l → preserves shrink m → Inv (releaseC l ((releaseLease l;; m) c).1) T.
Proof.
  intros Hcl Hp. pose proof Hcl as (HI&Ht&_). unfold mbind, SE_bind. simpl.
  assert (shrink (releaseC l c) (m (releaseC l c)).1) as Hs by apply Hp. apply Inv_release_free.
  - eapply Inv_shrink; [done|]. by eapply Inv_release_insert.
  - eapply free_shrink; [done|]. by apply claimed_free in Hcl.
Qed.

Lemma forgetClaimed_inv env owner l c T :
  claimed c T env l → post T (finally (forgetClaimed env owner l) (releaseC l) c).
Proof.
  intros Hcl. pose proof Hcl as (HI&Ht&_). unfold post. rewrite finally_run. simpl. unfold forgetClaimed.
  assert (∀ (m : M ()), preserves shrink m → Inv (releaseC l (m c).1) T) as Hshrink.
  { intros m Hm. eapply (Inv_release_insert _ _ _ None); [|done]. eapply Inv_shrink; [apply Hm|done]. }
  unfold mbind at 1, SE_bind at 1. simpl.
  destruct (re_reconciling _); [by eapply released_twice; [done|pres]|].
  destruct (environmentActive _); [by eapply released_twice; [done|pres]|]. apply Hshrink. pres.
Qed.

(** The common prefix of an exclusive operation: clock, normalisation,
    claim. *)
Lemma run_claim {B} env (ownerAt : Time → MutationOwner) (k : nat → MutationRequest → M B) c T
    (Q : Coordinator * res B → Prop) :
  Inv c T → isOpen c → fewClaims c → (∀ t, mo_Kind (ownerAt t) ≠ MutationOwnerAttach) →
  (∀ c' l req, claimed c' T env l → c_environments c' = c_environments c → isOpen c' → Q (k l req c')) →
  (∀ c' e, Inv c' T → Q (c', Err e)) →
  Q ((now ← nowUTC;
      req ← normalizeM (mkRequest [EnvironmentMutationKey env] (ownerAt now));
      l ← claimM req;
      k l req) c).
Proof.
  intros HI Hop Hfew Hk Hok Herr. run_step H1; [|done]. injection H1 as <- <-.
  set (c1 := c <| c_reads := _ |>). pose proof (nowUTC_shrink c) as S1. simpl in S1. fold c1 in S1.
  run_step H2; [|apply Herr; shrunk H2 S2; apply (Inv_shrink c); [by etrans|done]].
  apply normalizeM_ok in H2 as (Hn&S2&He2&_&Hop2). rename c0 into c2.
  assert (Inv c2 T) as HI2 by (apply (Inv_shrink c); [by etrans|done]).
  run_step H3; [|apply Herr; by apply claimM_err in H3 as ->].
  apply (claim_claimed _ _ T env (ownerAt (UTC (c_now c (c_reads c))))) in H3 as (Hcl&He3&Hop3); [|done|auto| |done|done].
  - apply Hok; [done|by rewrite He3, He2|done].
  - do 2 (eapply fewClaims_shrink; [done|]). done.
Qed.

Lemma ForgetEnvironment_inv env c T : Inv c T → fewClaims c → post T (ForgetEnvironment env c).
Proof.
  intros HI Hfew. unfold ForgetEnvironment. destruct (negb (idPattern env)); [done|].
  run_step H1; [|by apply requireOpen_err in H1 as ->]. apply requireOpen_ok in H1 as [-> Hop].
  read_state H2. run_step H3; [|by apply attempt_run in H3 as (?&?&_)].
  apply attempt_run in H3 as (r&[= ->]&H3). destruct r as [state|e].
  2: { shrunk H3 S3. destruct (errors_Is e ErrNotExist); by eapply (Inv_shrink c). }
  apply loadEnvironment_ok in H3 as (S3&Hop3&_).
  apply (run_claim env (λ now, applyingOwner MutationOwnerCleanup (c_daemonID c) _ now) _ c1 T (post T));
    [by eapply Inv_shrink|auto|by eapply fewClaims_shrink|done| |done].
  intros c' l req Hcl _ _. by apply forgetClaimed_inv.
Qed.

(** *** Disposal *)

(** The owners of a lease after it moved into the environment. *)
Lemma transfer_owner c c' T l env o0 :
  Inv c (<[l := Some env]> T) → T !! l = None →
  (∀ o l', o ≠ OHeld → owns c' T o l' → owns c T o l' ∨ (o = o0 ∧ l' = l)) →
  ∀ o, owns c' T o l → o = o0.
Proof.
  intros HI Ht Hown o Ho. destruct (decide (o = OHeld)) as [->|Hne]; [destruct Ho; congruence|].
  destruct (Hown o l Hne Ho) as [Ho'|[-> _]]; [|done]. destruct Hne.
  assert (owns c (<[l := Some env]> T) OHeld l) as Hh by (simpl; rewrite lookup_insert_eq; by exists (Some env)).
  apply (inv_uniq _ _ HI o OHeld l); [|done]. by destruct o.
Qed.

(** Storing the lease of an operation in the field of its environment. *)
Lemma modEnv_transfer c T l env f o0 :
  Inv c (<[l := Some env]> T) → T !! l = None → o0 = OMut env ∨ o0 = ORec env →
  (∀ e, re_handles (f e) ⊆ re_handles e ∧ re_establishing (f e) ⊆ re_establishing e) →
  (∀ e l', re_mutationLease (f e) = Some l' → re_mutationLease e = Some l' ∨ (o0 = OMut env ∧ l' = l)) →
  (∀ e l', re_reconcileLease (f e) = Some l' → re_reconcileLease e = Some l' ∨ (o0 = ORec env ∧ l' = l)) →
  let c' := (modEnv env f c).1 in
  Inv c' T ∧ ∀ o, owns c' T o l → o = o0.
Proof.
  intros HI Ht Ho0 Hf Hm Hr c'.
  assert (∀ env' e', c_environments c' !! env' = Some e' → ∃ e, c_environments c !! env' = Some e ∧
    (e' = e ∨ (env' = env ∧ e' = f e))) as He.
  { intros env' e'. simpl. rewrite lookup_alter. case_decide as Hd; [|eauto].
    intros (e&?&->)%fmap_Some. subst env'. eauto. }
  assert (∀ o l', o ≠ OHeld → owns c' T o l' → owns c T o l' ∨ (o = o0 ∧ l' = l)) as Hown.
  { intros [a|env'|env'|] l' Hne Ho; [by left| | |done].
    - destruct Ho as (e'&(e&Hl&[->|[-> ->]])%He&Hl'); [left; by exists e|].
      destruct (Hm _ _ Hl') as [?|[-> ->]]; [left; by exists e|by right].
    - destruct Ho as (e'&(e&Hl&[->|[-> ->]])%He&Hl'); [left; by exists e|].
      destruct (Hr _ _ Hl') as [?|[-> ->]]; [left; by exists e|by right]. }
  split; [|by eapply transfer_owner]. rewrite <- (delete_insert_id T l (Some env)) by done.
  apply (Inv_transfer c c' _ l env o0); try done.
  - by rewrite lookup_insert_eq.
  - intros env' e' (e&Hl&[->|[-> ->]])%He; exists e; [done|]. by destruct (Hf e).
  - intros o l' Hne Ho. destruct (Hown o l' Hne) as [Ho'|?]; [by destruct o|left|by right].
    by destruct o.
Qed.

Definition postDisposal (l : nat) (T : Held) (p : Coordinator * res DisposalIntent) : Prop :=
  match p.2 with Ok _ => Inv p.1 T | Err _ => Inv (releaseC l p.1) T end.

Lemma postDisposal_keep (m : M DisposalIntent) l r T c :
  preserves shrink m → Inv c (<[l := r]> T) → T !! l = None → postDisposal l T (m c).
Proof.
  intros Hp HI Ht. assert (Inv (m c).1 (<[l := r]> T)) by (eapply Inv_shrink; [apply Hp|done]).
  unfold postDisposal. destruct ((m c).2); [by eapply Inv_drop_insert|by eapply Inv_release_insert].
Qed.

Lemma postDisposal_conflict (m : M DisposalIntent) l T env c :
  claimed c T env l → preserves shrink m → postDisposal l T ((releaseLease l;; m) c).
Proof.
  intros Hcl Hp. pose proof (released_twice c T env l m Hcl Hp) as Hr.
  assert (post T ((releaseLease l;; m) c)).
  { run_step H; [|done]. injection H as <- <-. eapply Inv_shrink; [apply Hp|].
    destruct Hcl as (?&?&_). by eapply Inv_release_insert. }
  unfold postDisposal. by destruct (((releaseLease l;; m) c).2).
Qed.

(** Computations that never fail. *)
Definition total {A} (m : M A) : Prop := ∀ c e, (m c).2 ≠ Err e.

Lemma total_bind {A B} (m : M A) (f : A → M B) : total m → (∀ a, total (f a)) → total (m ≫= f).
Proof.
  intros Hm Hf c e. specialize (Hm c). unfold mbind, SE_bind. destruct (m c) as [c1 [a|e']]; [apply Hf|].
  by destruct (Hm e').
Qed.
Lemma total_ret {A} (a : A) : total (mret a).
Proof. done. Qed.

Lemma emitLocked_total env g k r t : total (emitLocked env g k r t).
Proof.
  unfold emitLocked. apply total_bind; [done|]. intros found. apply total_bind; [|intros ?; done].
  destruct found as [state|]; [|done]. apply total_bind; [|intros ?; apply total_ret].
  unfold statusLocked. apply total_bind; [|intros ?; apply total_ret].
  destruct (_ || _); [apply total_bind; [done|intros ?; apply total_ret]|apply total_ret].
Qed.

Lemma retainDisposal_inv env owner l intent now c T :
  Inv c (<[l := Some env]> T) → T !! l = None →
  postDisposal l T (retainDisposal env owner l intent now c).
Proof.
  intros HI Ht. unfold retainDisposal. set (f := λ e, e <| re_mutation := true |> <| re_mutationOwner := _ |>
    <| re_mutationLease := Some l |> <| re_blocked := _ |>).
  destruct (modEnv_transfer c T l env f (OMut env) HI Ht) as [HI1 Ho1];
    [by left|done|simpl; intros ? ? [= ->]; by right|by left|].
  run_step H1; [|done]. injection H1 as <- <-. set (c1 := (modEnv env f c).1) in *. fold c1.
  run_step H2; [|done]. shrunk H2 S2. rename c0 into c2.
  run_step H3; [|by apply attempt_run in H3 as (?&?&_)]. apply attempt_run in H3 as (r&[= ->]&H3).
  shrunk H3 S3. rename c0 into c3. assert (shrink c1 c3) as S13 by (by etrans).
  assert (Inv c3 T) as HI3 by (by eapply Inv_shrink).
  destruct r as [u|e].
  - assert (total (state ← stateOf env;
      emitLocked env (j_StartGeneration (re_journal state)) "disposal-started" "" now;; mret intent)) as Htot.
    { apply total_bind; [done|]. intros st. apply total_bind; [apply emitLocked_total|done]. }
    unfold postDisposal. destruct (_.2) as [x|e] eqn:Hx; [|by destruct (Htot c3 e)].
    eapply Inv_shrink; [|exact HI3]. match goal with |- shrink _ (?m _).1 => assert (preserves shrink m) as Hp by pres end.
    apply Hp.
  - set (g := λ e, e <| re_mutation := false |> <| re_mutationOwner := _ |> <| re_mutationLease := None |>).
    change (Inv (releaseC l (modEnv env g c3).1) T).
    assert (shrink c3 (modEnv env g c3).1) as S4 by (apply modEnv_shrink; by env_shrink).
    apply Inv_release_free; [by eapply Inv_shrink|]. intros o Ho.
    assert (o = OMut env) as -> by (apply Ho1; eapply owns_shrink; [|done]; by etrans).
    destruct Ho as (e'&He&Hl). simpl in He. rewrite lookup_alter_eq in He.
    apply fmap_Some in He as (e1&_&->). done.
Qed.

Lemma beginDisposalClaimed_inv request owner l c T :
  claimed c T (dr_EnvironmentID request) l →
  postDisposal l T (beginDisposalClaimed request owner l c).
Proof.
  intros Hcl. unfold beginDisposalClaimed. set (env := dr_EnvironmentID request) in *.
  read_state H1. run_step H2; [|done]. injection H2 as <- <-. set (state := default zeroEnv _).
  destruct (re_reconciling state); [by eapply postDisposal_conflict; [done|pres]|].
  destruct (environmentActive state) eqn:Ha; [by eapply postDisposal_conflict; [done|pres]|].
  apply environmentActive_false in Ha. pose proof (claimed_guard _ _ _ _ Hcl Ha) as HI.
  destruct Hcl as (_&Ht&_).
  assert (∀ c1 e, Inv c1 (<[l := Some env]> T) → postDisposal l T (c1, Err e)) as Herr.
  { intros c1 e HI1. by eapply Inv_release_insert. }
  do 6 (walk HI ltac:(by auto)). by apply retainDisposal_inv.
Qed.

Lemma BeginDisposal_inv ctx request c T : Inv c T → fewClaims c → post T (BeginDisposal ctx request c).
Proof.
  intros HI Hfew. unfold BeginDisposal. run_step H0; apply lift_run in H0 as [-> _]; [|done].
  run_step H1; apply lift_run in H1 as [-> _]; [|done].
  run_step H2; [|by apply requireOpen_err in H2 as ->]. apply requireOpen_ok in H2 as [-> Hop].
  run_step H3; [|shrunk H3 S3; by eapply Inv_shrink]. apply loadEnvironment_ok in H3 as (S3&Hop3&_).
  apply (run_claim (dr_EnvironmentID request) (λ now, applyingOwner MutationOwnerDisposal _ _ now) _ c1 T (post T));
    [by eapply Inv_shrink|auto|by eapply fewClaims_shrink|done| |done].
  intros c' l req Hcl _ _. pose proof (beginDisposalClaimed_inv request (mr_Owner req) l c' T Hcl) as Hp.
  run_step H4; [|by apply attempt_run in H4 as (?&?&_)]. apply attempt_run in H4 as (r&[= ->]&H4).
  rewrite H4 in Hp. unfold postDisposal in Hp. simpl in Hp. by destruct r.
Qed.

Lemma owns_cleared env c T (f : registryEnvironment → registryEnvironment) o0 l :
  (o0 = OMut env ∧ ∀ e, re_mutationLease (f e) = None) ∨ (o0 = ORec env ∧ ∀ e, re_reconcileLease (f e) = None) →
  ¬ owns (modEnv env f c).1 T o0 l.
Proof.
  intros [[-> Hf]|[-> Hf]] (e'&He&Hl); simpl in He; rewrite lookup_alter_eq in He;
    apply fmap_Some in He as (e&_&->); rewrite Hf in Hl; done.
Qed.

(** An environment gives up the lease it stores. *)
Lemma yield_inv env f o0 c T :
  let state := default zeroEnv (c_environments c !! env) in
  let lease := match o0 with OMut _ => re_mutationLease state | _ => re_reconcileLease state end in
  Inv c T → (∀ e, envShrink e (f e)) →
  (o0 = OMut env ∧ ∀ e, re_mutationLease (f e) = None) ∨ (o0 = ORec env ∧ ∀ e, re_reconcileLease (f e) = None) →
  Inv (releaseOpt lease (modEnv env f c).1).1 T.
Proof.
  intros state lease HI Hf Hc. pose proof (modEnv_shrink env f Hf c) as Hs.
  assert (Inv (modEnv env f c).1 T) as HI' by (by eapply Inv_shrink).
  destruct lease as [l|] eqn:Hl; [|done]. apply Inv_release_free; [done|].
  eapply (yield_free c _ T l o0); [done| |done|by apply owns_cleared]. unfold lease, state in Hl.
  destruct (c_environments c !! env) as [e|] eqn:He; simpl in *; [|by destruct Hc as [[-> _]|[-> _]]].
  destruct Hc as [[-> _]|[-> _]]; by exists e.
Qed.

Lemma endMutation_inv env c T : Inv c T → Inv (endMutation env c).1 T.
Proof.
  intros HI. unfold endMutation, mbind, SE_bind. simpl.
  eapply (yield_inv env _ (OMut env)); [done|by env_shrink|by left].
Qed.

Lemma finishReconciliation_inv env c T : Inv c T → Inv (finishReconciliationLocked env c).1 T.
Proof.
  intros HI. unfold finishReconciliationLocked, mbind, SE_bind. simpl.
  destruct (negb _); [done|]. simpl. eapply (yield_inv env _ (ORec env)); [done|by env_shrink|by right].
Qed.

(** ** Operations that keep the invariant *)

Definition keeps {A} (m : M A) : Prop := ∀ c T, Inv c T → Inv (m c).1 T.

Lemma keeps_shrink {A} (m : M A) : preserves shrink m → keeps m.
Proof. intros Hp c T HI. eapply Inv_shrink; [apply Hp|done]. Qed.
Lemma keeps_bind {A B} (m : M A) (f : A → M B) : keeps m → (∀ a, keeps (f a)) → keeps (m ≫= f).
Proof.
  intros Hm Hf c T HI. unfold mbind, SE_bind. specialize (Hm c T HI).
  destruct (m c) as [c1 [a|e]]; [by apply Hf|done].
Qed.
Lemma keeps_attempt {A} (m : M A) : keeps m → keeps (attempt m).
Proof. intros Hm c T HI. by apply Hm. Qed.
Lemma keeps_ignore {A} (m : M A) : keeps m → keeps (ignore_err m).
Proof. intros Hm c T HI. by apply Hm. Qed.
Lemma keeps_endMutation env : keeps (endMutation env).
Proof. intros c T. apply endMutation_inv. Qed.
Lemma keeps_finishReconciliation env : keeps (finishReconciliationLocked env).
Proof. intros c T. apply finishReconciliation_inv. Qed.

Create HintDb keep discriminated.
#[export] Hint Resolve keeps_endMutation keeps_finishReconciliation : keep.

(** Walk through an operation: every statement shrinks or is known to keep the
    invariant. *)
Ltac keep_step :=
  cbv zeta;
  first
    [ solve [apply keeps_shrink; pres]
    | solve [auto with keep nocore]
    | match goal with
      | |- keeps (mbind _ _) => apply keeps_bind; [|intros ?]
      | |- keeps (attempt _) => apply keeps_attempt
      | |- keeps (ignore_err _) => apply keeps_ignore
      | |- keeps (if ?b then _ else _) => destruct b
      | |- keeps (match ?x with _ => _ end) => destruct x
      end ].
Ltac keep := repeat keep_step.

Lemma BlockDisposal_keeps ctx env d r : keeps (BlockDisposal ctx env d r).
Proof. unfold BlockDisposal. keep. Qed.

Lemma BlockReconciliation_keeps env r : keeps (BlockReconciliation env r).
Proof. unfold BlockReconciliation. keep. Qed.

(** The environment is deleted together with the lease it stores. *)
Lemma delete_yield env e c T :
  Inv c T → c_environments c !! env = Some e →
  Inv (deleteEnv env (releaseOpt (re_mutationLease e) c).1).1 T.
Proof.
  intros HI He. pose proof (deleteEnv_shrink env c) as Hs.
  assert (Inv (deleteEnv env c).1 T) as HI' by (by eapply Inv_shrink).
  destruct (re_mutationLease e) as [l|] eqn:Hl; [|done].
  change (Inv (releaseC l (deleteEnv env c).1) T). apply Inv_release_free; [done|].
  eapply (yield_free c _ T l (OMut env)); [done|by exists e|done|].
  intros (e'&He'&_). simpl in He'. by rewrite lookup_delete_eq in He'.
Qed.

Lemma disposalLocked_ok env d c c' state intent :
  disposalLocked env d c = (c', Ok (state, intent)) → shrink c c' ∧ c_environments c' !! env = Some state.
Proof.
  intros Hd. pose proof (preserves_run shrink _ _ _ _ (disposalLocked_shrink env d) Hd) as Hs.
  split; [done|]. clear Hs. revert Hd. unfold disposalLocked.
  set (Q := λ p : Coordinator * res (registryEnvironment * DisposalIntent),
    p = (c', Ok (state, intent)) → c_environments c' !! env = Some state).
  match goal with |- ?m c = _ → _ => change (Q (m c)) end.
  run_step H1; [|done]. destruct (_ || _); [done|]. run_step H2; [|done].
  apply loadEnvironment_ok in H2 as (_&_&He). destruct (j_Disposal _); [|done].
  destruct (negb _); [done|]. unfold Q. by intros [= <- <- _].
Qed.

Lemma CompleteDisposal_keeps ctx env d : keeps (CompleteDisposalMetadata ctx env d).
Proof.
  intros c T HI. change (post T (CompleteDisposalMetadata ctx env d c)). unfold CompleteDisposalMetadata.
  run_step H0; apply lift_run in H0 as [-> _]; [|done].
  run_step H1; [|shrunk H1 S1; by eapply Inv_shrink]. destruct a0 as [state intent].
  assert (shrink c c1 ∧ c_environments c1 !! env = Some state) as [S1 He].
  { revert H1. unfold activeDisposalLocked, mbind, SE_bind.
    destruct (disposalLocked env d c) as [c2 [[st it]|]] eqn:Hd; [|done]. simpl.
    destruct (negb _); [done|]. intros [= -> -> ->]. by eapply disposalLocked_ok. }
  assert (Inv c1 T) as HI1 by (by eapply Inv_shrink).
  destruct (negb _); [done|]. run_step H2; [|done]. injection H2 as <- <-.
  set (c2 := c1 <| c_environments ::= _ |>). pose proof (stopTimer_shrink env c1) as S2. simpl in S2. fold c2 in S2.
  run_step H3; [|by apply attempt_run in H3 as (?&?&_)]. apply attempt_run in H3 as (r&[= ->]&H3).
  shrunk H3 S3. assert (Inv c0 T) as HI3 by (apply (Inv_shrink c1); [by etrans|done]).
  destruct r as [u|e].
  - assert (c_environments c0 !! env = Some (state <| re_timer := None |>)) as He3.
    { revert H3. unfold storeRemove. destruct (Store_Remove _ _ _). intros [= <- _]. simpl.
      rewrite lookup_alter_eq, He. done. }
    pose proof (delete_yield env _ c0 T HI3 He3) as HI4. simpl in HI4.
    run_step H4; [|by destruct (re_mutationLease state)]. run_step H5; [|done].
    assert (c4 = (deleteEnv env (releaseOpt (re_mutationLease state) c0).1).1) as ->.
    { rewrite H4. simpl. by injection H5. }
    apply post_shrink; [pres|done].
  - match goal with |- post T (?m c0) => assert (keeps m) as Hk end.
    { keep. }
    by apply Hk.
Qed.

(** *** Reconciliation *)

Lemma claimReconcile_inv env c T :
  Inv c T → isOpen c → fewClaims c →
  match claimReconcile env c with
  | (c', Ok (l, _)) => claimed c' T env l ∧ c_environments c' = c_environments c ∧ isOpen c'
  | (c', Err _) => Inv c' T
  end.
Proof.
  intros HI Hop Hfew. set (Q := λ p : Coordinator * res (nat * MutationOwner), match p with
    | (c', Ok (l, _)) => claimed c' T env l ∧ c_environments c' = c_environments c ∧ isOpen c'
    | (c', Err _) => Inv c' T end).
  change (Q (claimReconcile env c)). unfold claimReconcile. read_state H1.
  apply (run_claim env (λ now, reconcileOwner (c_daemonID c) now) (λ l req, mret (l, mr_Owner req)) c T Q); done.
Qed.

Lemma reconcileConflict_false d state :
  reconcileConflict d state = false → re_handles state = ∅ ∧ re_establishing state = ∅.
Proof. unfold reconcileConflict. intros. bool_prop. by apply quiet_of. Qed.

(** Entering the reconciling state stores the lease in the environment. *)
Lemma setReconciling_inv env l c T :
  Inv c (<[l := Some env]> T) → T !! l = None → Inv (setReconciling env l c).1 T.
Proof.
  intros HI Ht. unfold setReconciling.
  apply (modEnv_transfer c T l env _ (ORec env) HI Ht);
    [by right|done|by left|simpl; intros ? ? [= ->]; by right].
Qed.

Lemma claimed_quiet c c0 T env l state :
  claimed c T env l → c_environments c = c_environments c0 → c_environments c0 !! env = Some state →
  re_handles state = ∅ ∧ re_establishing state = ∅ → Inv c (<[l := Some env]> T).
Proof. intros Hcl He Hl Hq. apply claimed_guard; [done|]. rewrite He, Hl. done. Qed.

Lemma BeginReconciliation_inv ctx env c T : Inv c T → fewClaims c → post T (BeginReconciliation ctx env c).
Proof.
  intros HI Hfew. unfold BeginReconciliation. run_step H0; apply lift_run in H0 as [-> _]; [|done].
  destruct (negb (idPattern env)); [done|].
  run_step H1; [|by apply requireOpen_err in H1 as ->]. apply requireOpen_ok in H1 as [-> Hop].
  read_state H2. run_step H3; [|shrunk H3 S3; by eapply Inv_shrink].
  apply loadEnvironment_ok in H3 as (S3&Hop3&He3). assert (Inv c1 T) as HI3 by (by eapply Inv_shrink).
  destruct (re_reconciling _); [done|]. destruct (_ && _); [done|].
  pose proof (claimReconcile_inv env c1 T HI3 ltac:(auto) (fewClaims_shrink _ _ S3 Hfew)) as Hc.
  run_step H4; rewrite H4 in Hc; [|done]. destruct a2 as [l owner]. destruct Hc as (Hcl&He4&_).
  destruct (reconcileConflict _ _) eqn:Hr.
  - run_step H5; [|done]. injection H5 as <- <-. apply post_shrink; [pres|].
    destruct Hcl as (?&?&_). by eapply Inv_release_insert.
  - apply reconcileConflict_false in Hr. pose proof (claimed_quiet _ _ _ _ _ _ Hcl He4 He3 Hr) as HI4.
    destruct Hcl as (_&Ht&_). walk HI4 ltac:(by eapply Inv_drop_insert).
    run_step H6; [|done]. injection H6 as <- <-. pose proof (setReconciling_inv _ _ _ _ HI4 Ht) as HI5.
    simpl in HI5. match goal with |- post T (?m _) => assert (keeps m) as Hk by keep end. by apply Hk.
Qed.

Lemma post_bind {A B} (m : M A) (f : A → M B) c T :
  post T (m c) → (∀ a, keeps (f a)) → post T ((m ≫= f) c).
Proof. intros Hm Hf. unfold mbind, SE_bind. destruct (m c) as [c' [a|e]]; [by apply Hf|done]. Qed.

Lemma Reconcile_inv ctx input c T : Inv c T → fewClaims c → post T (Reconcile ctx input c).
Proof.
  intros HI Hfew. unfold Reconcile. run_step H0; apply lift_run in H0 as [-> _]; [|done].
  destruct (_ || _); [done|]. run_step H1; apply lift_run in H1 as [-> _]; [|done].
  destruct (negb _); [done|].
  run_step H2; [|by apply requireOpen_err in H2 as ->]. apply requireOpen_ok in H2 as [-> Hop].
  read_state H3. run_step H4; [|shrunk H4 S4; by eapply Inv_shrink].
  apply loadEnvironment_ok in H4 as (S4&Hop4&He4). assert (Inv c1 T) as HI4 by (by eapply Inv_shrink).
  apply post_bind.
  - destruct (re_reconciling _); [done|].
    pose proof (claimReconcile_inv (ri_EnvironmentID input) c1 T HI4 ltac:(auto) (fewClaims_shrink _ _ S4 Hfew)) as Hc.
    run_step H5; rewrite H5 in Hc; [|done]. destruct a3 as [l owner]. destruct Hc as (Hcl&He5&_).
    destruct (reconcileConflict _ _) eqn:Hr.
    + run_step H6; [|done]. injection H6 as <- <-. apply post_shrink; [pres|].
      destruct Hcl as (?&?&_). by eapply Inv_release_insert.
    + apply reconcileConflict_false in Hr. pose proof (claimed_quiet _ _ _ _ _ _ Hcl He5 He4 Hr) as HI5.
      destruct Hcl as (_&Ht&_). by apply setReconciling_inv.
  - intros ? c' T' HI'. apply finishReconciliation_inv. eapply Inv_shrink; [apply classifyEnvironment_shrink|done].
Qed.

(** *** Attaching *)

(** A granted attach claim excludes every exclusive operation. *)
Lemma attach_unguarded c T env keys owner req c' l :
  Inv c T → isOpen c → fewClaims c → normalized (EnvironmentMutationKey env :: keys) owner req →
  claimM req c = (c', Ok l) →
  c_environments c' = c_environments c ∧ isOpen c' ∧ Inv c' (<[l := None]> T) ∧ T !! l = None ∧
  lt_holds (c_claims c') l (EnvironmentMutationKey env) (mr_Owner req) ∧
  ∀ l', ¬ guards c' (<[l := None]> T) env l'.
Proof.
  intros HI Hop Hfew Hn Hc.
  destruct (Inv_claim _ _ _ _ _ HI Hop (nz_nodup _ _ _ Hn) (normalized_room _ _ _ _ Hn Hfew) Hc)
    as (He&Hop'&HI'&Ht&Hh&Hcompat).
  assert (EnvironmentMutationKey env ∈ mr_Keys req) as Hin by (apply (nz_keys _ _ _ Hn); left).
  split_and!; [done..|by apply Hh|]. intros l' Hg.
  assert (guards c T env l') as Hg'.
  { destruct Hg as [Hg|Hg].
    - left. rewrite lookup_insert in Hg. by case_decide.
    - right. simpl in *. by rewrite He in Hg. }
  destruct (inv_guard _ _ HI _ _ Hop Hg') as (o&Ho&Hk). apply Hk.
  pose proof (Hcompat _ _ _ Hin Ho) as Hx. unfold compatibleMutationOwners in Hx. by bool_prop.
Qed.

Lemma grantReservation_inv request l o c T :
  Inv c (<[l := None]> T) → T !! l = None → (∀ l', ¬ guards c (<[l := None]> T) (eq_EnvironmentID request) l') →
  lt_holds (c_claims c) l (EnvironmentMutationKey (eq_EnvironmentID request)) o →
  post T (grantReservation request l c).
Proof.
  intros HI Ht Hg Hh. unfold grantReservation.
  walk HI ltac:(by eapply Inv_drop_insert). read_state H1. cbv zeta.
  set (est := mkEstablishment _ _ _ _ _ _). do 2 (run_step H2; [|done]; injection H2 as <- <-).
  apply post_shrink; [pres|]. rewrite <- (delete_insert_id T l None) by done.
  apply (Inv_reserve _ (<[l := None]> T) l (eq_EnvironmentID request) (eq_SessionID request) est o); try done.
  - by rewrite lookup_insert_eq.
  - intros l' Hl. by eapply Hg, guards_shrink.
  - intros _. by rewrite (sh_claims _ _ Sw).
Qed.

Lemma reserveRound_inv request keys owner req w r c T :
  Inv c T → fewClaims c → normalized (EnvironmentMutationKey (eq_EnvironmentID request) :: keys) owner req →
  post T (reserveRound request req w r c).
Proof.
  intros HI Hfew Hn. unfold reserveRound.
  run_step H1; [|by apply requireOpen_err in H1 as ->]. apply requireOpen_ok in H1 as [-> Hop].
  run_step H2; [|shrunk H2 S2; by eapply Inv_shrink].
  apply loadEnvironment_ok in H2 as (S2&Hop2&_). pose proof (Inv_shrink _ _ _ S2 HI) as HI2.
  destruct (re_reconciling _); [apply post_shrink; [pres|done]|].
  destruct (re_blocked _); [apply post_shrink; [pres|done]|].
  destruct (_ && _); [apply post_shrink; [pres|done]|].
  run_step H3; [|by apply claimM_err in H3 as ->].
  edestruct (attach_unguarded _ _ _ _ _ _ _ _ HI2 ltac:(auto) (fewClaims_shrink _ _ S2 Hfew) Hn H3)
    as (_&_&HI3&Ht&Hh&Hg).
  destruct (stopOrMutation _); [|destruct (_ || _)]; [..|by eapply grantReservation_inv].
  all: run_step H4; [|done]; injection H4 as <- <-; apply post_shrink; [pres|]; by eapply Inv_release_insert.
Qed.

Lemma reserveRequest_ok ctx request c c' req :
  reserveRequest ctx request c = (c', Ok req) →
  ∃ owner, normalized (EnvironmentMutationKey (eq_EnvironmentID request) :: eq_MutationKeys request) owner req.
Proof.
  unfold reserveRequest. set (Q := λ p : Coordinator * res MutationRequest, p = (c', Ok req) → 
    ∃ owner, normalized (EnvironmentMutationKey (eq_EnvironmentID request) :: eq_MutationKeys request) owner req).
  match goal with |- ?m c = _ → _ => change (Q (m c)) end.
  run_step H0; [|intros [=]]. destruct (_ || _); [intros [=]|].
  run_step H1; [|intros [=]]. intros H2. apply normalizeM_ok in H2 as [Hn _]. eauto.
Qed.

Lemma estOf_ok a c c' e : estOf a c = (c', Ok e) → c' = c ∧ c_establishments c !! a = Some e.
Proof.
  unfold estOf, mbind, SE_bind, mret, SE_ret. simpl. destruct (c_establishments c !! a); [|done]. by intros [= <- ->].
Qed.
Lemma estOf_shrink a : preserves shrink (estOf a).
Proof. unfold estOf. pres. Qed.
#[export] Hint Resolve estOf_shrink : preserve.

Lemma selectIncarnationLocked_shrink env request : preserves shrink (selectIncarnationLocked env request).
Proof. unfold selectIncarnationLocked. pres. Qed.
#[export] Hint Resolve selectIncarnationLocked_shrink : preserve.

Lemma keeps_modEst a f :
  (∀ e, es_environment (f e) = es_environment e ∧ es_session (f e) = es_session e ∧ es_lease (f e) = es_lease e) →
  keeps (modEst a f).
Proof. intros Hf c T HI. apply Inv_modEst; [done|naive_solver|left; naive_solver]. Qed.

Lemma est_shrink c c' a e : shrink c c' → c_establishments c !! a = Some e → c_establishments c' !! a = Some e.
Proof. intros Hs. by rewrite (sh_establishments _ _ Hs). Qed.

(** No environment lists the establishment any more. *)
Definition unlisted (c : Coordinator) (a : nat) : Prop := isOpen c → ¬ referenced c a.

Lemma unlisted_shrink c c' a : shrink c c' → unlisted c a → unlisted c' a.
Proof.
  intros Hs Hu Hop (env&e'&s&He'&Ha). apply Hu; [by apply (sh_open _ _ Hs)|].
  destruct (sh_env _ _ Hs _ _ He') as [(_&Hq&_)|(e&He&Hsk)]; [by rewrite Hq in Ha|].
  exists env, e, s. split; [done|]. by eapply lookup_weaken, sk_establishing.
Qed.

Lemma unlisted_of c T a est :
  Inv c T → c_establishments c !! a = Some est →
  (∀ e, c_environments c !! es_environment est = Some e → re_establishing e !! es_session est ≠ Some a) →
  unlisted c a.
Proof.
  intros HI Ha Hn Hop (env&e&s&He&Hs). destruct (inv_est _ _ HI _ _ _ _ Hop He Hs) as (est'&l&o&Ha'&<-&<-&_).
  rewrite Ha' in Ha. injection Ha as ->. by eapply Hn.
Qed.

Lemma unlist_inv c T a est f :
  Inv c T → c_establishments c !! a = Some est →
  (∀ e, re_establishing (f e) = delete (es_session est) (re_establishing e)) → (∀ e, envShrink e (f e)) →
  let c' := (modEnv (es_environment est) f c).1 in
  Inv c' T ∧ c_establishments c' !! a = Some est ∧ unlisted c' a.
Proof.
  intros HI Ha Hd Hf c'. assert (shrink c c') as Hs by (by apply modEnv_shrink).
  assert (Inv c' T) as HI' by (by eapply Inv_shrink). split_and!; [done|by rewrite (sh_establishments _ _ Hs)|].
  apply (unlisted_of c' T a est); [done|by rewrite (sh_establishments _ _ Hs)|]. intros e He.
  unfold c', modEnv in He. simpl in He. rewrite lookup_alter_eq in He.
  apply fmap_Some in He as (e0&_&->). rewrite Hd. by rewrite lookup_delete_eq.
Qed.

(** The lease of an unlisted establishment is released and cleared. *)
Lemma clear_inv {A} c T a est f (m : M A) :
  Inv c T → c_establishments c !! a = Some est → unlisted c a →
  (∀ e, es_environment (f e) = es_environment e ∧ es_session (f e) = es_session e ∧ es_lease (f e) = None) →
  keeps m → post T ((releaseOpt (es_lease est);; modEst a f;; m) c).
Proof.
  intros HI Ha Hu Hf Hm. apply (Inv_clearEst _ _ _ _ f HI Ha Hu), Hm in Hf.
  unfold releaseOpt. by destruct (es_lease est).
Qed.

Lemma Prepare_keeps ctx a request : keeps (Prepare ctx a request).
Proof.
  unfold Prepare. keep. by apply keeps_modEst.
Qed.

Lemma activeEstablishment_ok found e a state :
  activeEstablishment found e a = Some state → found = Some state ∧ re_establishing state !! es_session e = Some a.
Proof. unfold activeEstablishment. destruct found; [|done]. case_bool_decide; [|done]. by intros [= ->]. Qed.

Lemma Promote_inv ctx a c T : Inv c T → post T (Promote ctx a c).
Proof.
  intros HI. unfold Promote. run_step H0; apply lift_run in H0 as [-> _]; [|done].
  run_step H1; [|by shrunk H1 S1; eapply Inv_shrink]. apply estOf_ok in H1 as [-> Ha]. rename a1 into est.
  destruct (bool_decide _); [done|].
  run_step H2; [|by apply requireOpen_err in H2 as ->]. apply requireOpen_ok in H2 as [-> Hop].
  do 2 read_state H3. destruct (activeEstablishment _ _ _) as [state|] eqn:Hact; [|done].
  apply activeEstablishment_ok in Hact as [He Hs].
  destruct (_ || _); [done|]. destruct (stopOrMutation _); [done|]. destruct (handleIn _ _); [done|].
  run_step H4; [|done]. injection H4 as <- <-.
  assert (∀ l, ¬ guards c T (es_environment est) l) as Hg.
  { intros l Hl. destruct (inv_quiet _ _ HI _ _ _ Hl He) as [_ Hq]. by rewrite Hq in Hs. }
  match goal with |- post T (_ ?c1) => assert (Inv c1 T ∧ c_establishments c1 !! a = Some est) as [HI1 Ha1] end.
  { split; [by apply (Inv_attach c T)|done]. }
  clear HI Hg He Hs Hop Ha. do 2 (walk HI1 ltac:(done); apply (est_shrink _ _ _ _ Sw) in Ha1; clear Hw Sw).
  match goal with |- post T (match ?x with _ => _ end _) => destruct x end; [|apply post_shrink; [pres|done]].
  do 2 (walk HI1 ltac:(done); apply (est_shrink _ _ _ _ Sw) in Ha1; clear Hw Sw).
  run_step H5; [|done]. injection H5 as <- <-.
  edestruct (unlist_inv _ T a est (λ e, e <| re_committed ::= λ s, s ∖ {[es_session est]} |>
    <| re_establishing ::= delete (es_session est) |>) HI1 Ha1) as (HI2&Ha2&Hu); [done|by env_shrink|].
  apply (clear_inv _ T a est _ _ HI2 Ha2 Hu); [done|]. keep.
  apply keeps_shrink, preserves_modify. intros c'. split; simpl; [done|done|lia|done|].
  intros env' e' He'. right. by exists e'.
Qed.

(** The part of [Abort] that takes a listed establishment out of its
    environment. *)
Definition withdrawn {A} (T : Held) (a : nat) (est : establishment) (p : Coordinator * res A) : Prop :=
  Inv p.1 T ∧ match p.2 with Ok _ => c_establishments p.1 !! a = Some est ∧ unlisted p.1 a | Err _ => True end.

Lemma withdrawn_shrink {A} (m : M A) c T a est :
  preserves shrink m → Inv c T → c_establishments c !! a = Some est → unlisted c a → withdrawn T a est (m c).
Proof.
  intros Hp HI Ha Hu. specialize (Hp c). split; [by eapply Inv_shrink|]. destruct (m c).2; [|done].
  split; [by rewrite (sh_establishments _ _ Hp)|by eapply unlisted_shrink].
Qed.

Lemma withdrawn_bind {A B} (m : M A) (f : A → M B) c T a est :
  withdrawn T a est (m c) →
  (∀ u c', Inv c' T → c_establishments c' !! a = Some est → unlisted c' a → post T (f u c')) →
  post T ((m ≫= f) c).
Proof.
  intros [HI Hm] Hf. unfold mbind, SE_bind. destruct (m c) as [c' [u|e]]; [|done].
  destruct Hm as [Ha Hu]. by apply Hf.
Qed.

Lemma Abort_inv a cause c T : Inv c T → post T (Abort a cause c).
Proof.
  intros HI. unfold Abort. run_step H1; [|by shrunk H1 S1; eapply Inv_shrink].
  apply estOf_ok in H1 as [-> Ha]. rename a0 into est. destruct (bool_decide _); [done|]. cbv zeta.
  assert (keeps (modEst a (λ e, e <| es_phase := establishmentAborted |>))) as Hph by (by apply keeps_modEst).
  read_state H2. apply (withdrawn_bind _ _ _ T a est); [|intros ? c' HI' Ha' Hu'; by apply (clear_inv c' T a est)].
  destruct (activeEstablishment _ _ _) as [state|] eqn:Hact.
  - run_step H3; [|done]. injection H3 as <- <-.
    edestruct (unlist_inv _ T a est (λ e, e <| re_establishing ::= delete (es_session est) |>) HI Ha)
      as (HI2&Ha2&Hu); [done|by env_shrink|]. clear HI Ha Hact.
    do 4 (walk HI2 ltac:(done); apply (est_shrink _ _ _ _ Sw) in Ha2;
          apply (unlisted_shrink _ _ _ Sw) in Hu; clear Hw Sw).
    destruct (_ && _); [|done]. destruct (_ && _); [by apply withdrawn_shrink; [pres|..]|].
    walk HI2 ltac:(done). apply (est_shrink _ _ _ _ Sw) in Ha2. apply (unlisted_shrink _ _ _ Sw) in Hu.
    match goal with |- withdrawn _ _ _ (match ?x with _ => _ end _) => destruct x end; [done|].
    split; [|done]. by apply Hph in HI2.
  - split; [done|]. split; [done|]. apply (unlisted_of c T a est); [done|done|]. intros e He Hs.
    unfold activeEstablishment in Hact. rewrite He, bool_decide_true in Hact by done. done.
Qed.

(** *** Shutdown *)

Definition staysClosed (c c' : Coordinator) : Prop := isOpen c' → isOpen c.
#[global] Instance staysClosed_preorder : PreOrder staysClosed.
Proof. split; [by intros c Hc|]. intros c1 c2 c3 H1 H2 Hc. by apply H1, H2. Qed.

Lemma closed_shrink {A} (m : M A) : preserves shrink m → preserves staysClosed m.
Proof. intros Hm c. exact (sh_open _ _ (Hm c)). Qed.

Lemma release_closed l : preserves staysClosed (releaseOpt l).
Proof. destruct l; by intros c Hc. Qed.

(** A computation made of shrinking statements and releases. *)
Ltac closes := repeat first
  [ solve [apply closed_shrink; pres] | apply release_closed
  | apply preserves_bind; [apply _| |intros ?]
  | match goal with |- preserves _ (if ?b then _ else _) => destruct b end ].

Lemma closeEnvironment_closed env : preserves staysClosed (closeEnvironment env).
Proof. unfold closeEnvironment, when, finishReconciliationLocked. closes. Qed.

Lemma closeEnvironment_keeps env : keeps (closeEnvironment env).
Proof. unfold closeEnvironment, when. keep. Qed.

Lemma closeEach_inv envs result c T :
  Inv c T → ¬ isOpen c → Inv (closeEach envs result c).1 T ∧ ¬ isOpen (closeEach envs result c).1 ∧
  ∃ r, (closeEach envs result c).2 = Ok r.
Proof.
  revert c result. induction envs as [|env envs IH]; intros c result HI Hcl; simpl; [by eauto|].
  unfold mbind, SE_bind. pose proof (closeEnvironment_keeps env c T HI) as HI'.
  pose proof (closeEnvironment_closed env c) as Hst.
  unfold attempt. destruct (closeEnvironment env c) as [c' r]. simpl in *. apply IH; [done|]. auto.
Qed.

Lemma Close_begin_inv c T : Inv c T → post T (Close_begin c).
Proof.
  intros HI. unfold Close_begin. read_state H1. destruct (_ || _); [done|].
  run_step H2; [|done]. injection H2 as <- <-.
  match goal with |- post T ((closeEach ?es ?r ≫= _) ?c1) => destruct (closeEach_inv es r c1 T) as (HI2&Hcl&r'&Hr) end.
  { eapply Inv_shrink; [|done]. split; [done..| |]; simpl; [by intros []|]. intros env e He. right. by exists e. }
  { by intros [? _]. }
  run_step H3; rewrite H3 in *; simpl in *; [|done].
  by apply (Inv_closed_claims _ T _ HI2 Hcl).
Qed.

Lemma Close_end_keeps result timedOut : keeps (Close_end result timedOut).
Proof.
  unfold Close_end. keep. apply keeps_shrink, preserves_modify. intros c.
  split; [done..| |]; simpl; [by intros []|]. intros env e He. right. by exists e.
Qed.
