(* ===== verification/LifecycleSystem.v ===== *)
(** * The coordinator under concurrent callers

    The state of the system is the coordinator together with the leases that
    callers hold while they run outside the coordinator's lock (a stop
    callback, a destructive mutation, a lease from [AcquireMutation]).  An
    [Op] is one critical section with its arguments; [exec] runs it.  A
    method with several critical sections is the sequence of them, so the
    sequences of [Op]s are all interleavings of callers, callbacks and
    timers.  The theorems: an environment that is being stopped, destroyed or
    reconciled has no session and no establishing session, at any point of
    any run, whatever the clock says and whichever writes fail; at most one
    such operation is in progress on it; and no attach is granted meanwhile. *)
From S2P Require Import Prelude GoStrings GoTime LifecycleModel LifecycleGraph LifecycleJournal LifecycleStatus LifecycleMutation.
From S2P Require Import LifecycleCoordinator LifecycleRegistry LifecycleAttach LifecycleStop LifecycleDisposalOps LifecycleReconcile LifecycleFrame.
From S2P Require Import LifecycleInvariant LifecycleSafety LifecycleSample.

(** ** System, operations, steps *)

Record System := mkSystem { sys_c : Coordinator; sys_held : Held }.

Inductive Op :=
  (* leases *)
  | OpAcquireMutation (ctx : option error) (request : MutationRequest)
  | OpRelease (lease : nat)
  (* timers and stops *)
  | OpExpire (env : string) (incarnation : EnvironmentRef) (sequence : Z)
  | OpCheckpoint (env : string) (ident : nat) (sequence : Z)
  | OpCommitStop (env : string) (call : StopCall) (result : StopResult)
  | OpStopExplicit (env : string)
  | OpStopExplicitEnd (env : string) (stopErr : option error)
  (* destructive mutations and disposal *)
  | OpMutation (ctx : option error) (env : string) (owner : MutationOwner)
  | OpMutationEnd (env : string) (mutationErr : option error)
  | OpForget (env : string)
  | OpBeginDisposal (ctx : option error) (request : DisposalRequest)
  | OpAdvanceDisposal (ctx : option error) (env recordDigest nextState : string)
  | OpBlockDisposal (ctx : option error) (env recordDigest reasonCode : string)
  | OpCompleteDisposal (ctx : option error) (env recordDigest : string)
  (* reconciliation *)
  | OpBeginReconciliation (ctx : option error) (env : string)
  | OpWaitReconciliation (env : string)
  | OpBlockReconciliation (env reasonCode : string)
  | OpReconcile (ctx : option error) (input : ReconcileInput)
  (* attaching *)
  | OpReserveRequest (ctx : option error) (request : EstablishmentRequest)
  | OpReserveRound (request : EstablishmentRequest) (mutationRequest : MutationRequest)
      (shouldWait : bool) (waitingReason : string)
  | OpPrepare (ctx : option error) (a : nat) (request : AttachRequest)
  | OpPromote (ctx : option error) (a : nat)
  | OpAbort (a : nat) (cause : option error)
  (* registrations *)
  | OpRegister (env handleID : string) (spec : RegistrationSpec)
  | OpCommitRegistration (env handleID : string)
  | OpAbortRegistration (env handleID : string)
  | OpBindBoot (env handleID bootID : string)
  | OpTransition (env handleID : string) (ref : ResourceRef) (target : ResourceState)
  | OpReleaseResource (env handleID : string) (ref : ResourceRef) (cleanupErr : option error)
  | OpRecordFact (env handleID : string) (spec : FactSpec)
  | OpBeginFinish (env handleID : string)
  | OpFinish (env handleID : string) (cleanupErr : option error)
  | OpSession (sessionID : string) (allowClosing : bool)
  | OpRegistrationFields (a : nat) (f : registration → registration)
  (* queries and shutdown *)
  | OpSnapshot
  | OpActiveAttachObservation (ctx : option error) (env instanceName : string)
  | OpClose
  | OpCloseEnd (result : option error) (timedOut : bool).

(** A section that leaves no lease with its caller. *)
Definition plain {A} (m : M A) (s : System) : System := mkSystem (m (sys_c s)).1 (sys_held s).
(** A section whose result may be a lease, held for [role]. *)
Definition holding {A} (held : A → option nat) (role : option string) (m : M A) (s : System) : System :=
  let '(c, r) := m (sys_c s) in
  mkSystem c (match r with
              | Ok a => match held a with Some l => <[l := role]> (sys_held s) | None => sys_held s end
              | Err _ => sys_held s
              end).

Definition exec (o : Op) (s : System) : System :=
  match o with
  | OpAcquireMutation ctx request => holding Some None (AcquireMutation ctx request) s
  | OpRelease l =>
      match sys_held s !! l with
      | Some _ => mkSystem (releaseC l (sys_c s)) (delete l (sys_held s))
      | None => s
      end
  | OpExpire env incarnation sequence => holding heldStop (Some env) (expire env incarnation sequence) s
  | OpCheckpoint env ident sequence => plain (checkpointFired env ident sequence) s
  | OpCommitStop env call result => plain (commitStopResult env call result) s
  | OpStopExplicit env => holding heldExplicit (Some env) (StopExplicit_begin env) s
  | OpStopExplicitEnd env stopErr => plain (StopExplicit_end env stopErr) s
  | OpMutation ctx env owner => holding heldMutation (Some env) (RunDestructiveMutation_begin ctx env owner) s
  | OpMutationEnd env mutationErr => plain (RunDestructiveMutation_end env mutationErr) s
  | OpForget env => plain (ForgetEnvironment env) s
  | OpBeginDisposal ctx request => plain (BeginDisposal ctx request) s
  | OpAdvanceDisposal ctx env d next => plain (AdvanceDisposal ctx env d next) s
  | OpBlockDisposal ctx env d reason => plain (BlockDisposal ctx env d reason) s
  | OpCompleteDisposal ctx env d => plain (CompleteDisposalMetadata ctx env d) s
  | OpBeginReconciliation ctx env => plain (BeginReconciliation ctx env) s
  | OpWaitReconciliation env => plain (WaitReconciliation_round env) s
  | OpBlockReconciliation env reason => plain (BlockReconciliation env reason) s
  | OpReconcile ctx input => plain (Reconcile ctx input) s
  | OpReserveRequest ctx request => plain (reserveRequest ctx request) s
  | OpReserveRound request req w reason => plain (reserveRound request req w reason) s
  | OpPrepare ctx a request => plain (Prepare ctx a request) s
  | OpPromote ctx a => plain (Promote ctx a) s
  | OpAbort a cause => plain (Abort a cause) s
  | OpRegister env h spec => plain (register env h spec) s
  | OpCommitRegistration env h => plain (commitRegistration env h) s
  | OpAbortRegistration env h => plain (abortRegistration env h) s
  | OpBindBoot env h boot => plain (bindBoot env h boot) s
  | OpTransition env h ref target => plain (transition env h ref target) s
  | OpReleaseResource env h ref e => plain (release env h ref e) s
  | OpRecordFact env h spec => plain (recordFact env h spec) s
  | OpBeginFinish env h => plain (beginFinishRegistration env h) s
  | OpFinish env h e => plain (finishRegistration env h e) s
  | OpSession id allow => plain (sessionEnvironment id allow) s
  | OpRegistrationFields a f => plain (modReg a f) s
  | OpSnapshot => plain Snapshot s
  | OpActiveAttachObservation ctx env name => plain (ActiveAttachObservation ctx env name) s
  | OpClose => plain Close_begin s
  | OpCloseEnd result timedOut => plain (Close_end result timedOut) s
  end.

(** What the callers respect.  The claim sequence, a [uint64], is not
    exhausted; a destructive mutation is not run in the name of an attach
    (all callers use a cleanup owner); the request of a reservation round is
    the one [reserveAttach] normalised before its loop. *)
Definition allowed (o : Op) (s : System) : Prop :=
  fewClaims (sys_c s) ∧
  match o with
  | OpMutation _ _ owner => mo_Kind owner ≠ MutationOwnerAttach
  | OpReserveRound request req _ _ => ∃ ctx c c', reserveRequest ctx request c = (c', Ok req)
  | _ => True
  end.

Definition step (s s' : System) : Prop := ∃ o, allowed o s ∧ s' = exec o s.

(** A run from a new coordinator; the store holds whatever journals earlier
    daemons left. *)
Inductive reachable : System → Prop :=
  | reach_init o c : NewCoordinator o = Ok c → reachable (mkSystem c ∅)
  | reach_step s s' : reachable s → step s s' → reachable s'.

(** ** The invariant holds in every reachable state *)

Lemma Inv_init o c : NewCoordinator o = Ok c → Inv c ∅.
Proof.
  unfold NewCoordinator. destruct (_ || _); [done|]. cbv zeta. destruct (_ || _); [done|]. intros [= <-].
  assert (∀ o' l, ¬ owns (mkCoordinator (opt_Store o) (opt_DaemonID o)
    (if opt_IdleGrace o =? 0 then DefaultIdleGrace else opt_IdleGrace o) (opt_Now o) 0 (opt_Io o) 0
    (opt_HasStop o) (opt_Enabled o) [] ∅ emptyClaims ∅ ∅ 0 false false) ∅ o' l) as Hno.
  { intros [] l; simpl; [by intros (?&?&_)..|by intros []]. }
  split; simpl.
  - intros _. apply emptyClaims_wf.
  - intros o1 o2 l H1. by apply Hno in H1.
  - intros o1 l H1. by apply Hno in H1.
  - done.
  - intros env l _ [H|[H|H]]; [done|by apply Hno in H..].
  - done.
  - intros a []; done.
Qed.

Lemma plain_keeps {A} (m : M A) s : keeps m → Inv (sys_c s) (sys_held s) → Inv (sys_c (plain m s)) (sys_held (plain m s)).
Proof. intros Hk HI. by apply Hk. Qed.
Lemma plain_post {A} (m : M A) s : post (sys_held s) (m (sys_c s)) → Inv (sys_c (plain m s)) (sys_held (plain m s)).
Proof. done. Qed.
Lemma holding_post {A} held env (m : M A) s :
  postHeld held env (sys_held s) (m (sys_c s)) →
  Inv (sys_c (holding held (Some env) m s)) (sys_held (holding held (Some env) m s)).
Proof.
  unfold postHeld, holding. destruct (m (sys_c s)) as [c [a|e]]; simpl; [|done].
  destruct (held a); [by intros []|done].
Qed.

Lemma snapshotOf_shrink envs : preserves shrink (snapshotOf envs).
Proof. induction envs as [|[env state] envs IH]; simpl; pres. Qed.
#[export] Hint Resolve snapshotOf_shrink : preserve.

Lemma keeps_wait env : keeps (WaitReconciliation_round env).
Proof. apply keeps_shrink. unfold WaitReconciliation_round. pres. Qed.
Lemma keeps_reserveRequest ctx request : keeps (reserveRequest ctx request).
Proof. apply keeps_shrink. unfold reserveRequest. pres. Qed.
Lemma keeps_Snapshot : keeps Snapshot.
Proof. apply keeps_shrink. unfold Snapshot. pres. Qed.
Lemma keeps_ActiveAttachObservation ctx env name : keeps (ActiveAttachObservation ctx env name).
Proof. apply keeps_shrink. unfold ActiveAttachObservation. pres. Qed.
#[export] Hint Resolve keeps_wait keeps_reserveRequest keeps_Snapshot keeps_ActiveAttachObservation
  BlockDisposal_keeps CompleteDisposal_keeps BlockReconciliation_keeps Prepare_keeps Close_end_keeps : keep.

Lemma exec_inv o s : allowed o s → Inv (sys_c s) (sys_held s) → Inv (sys_c (exec o s)) (sys_held (exec o s)).
Proof.
  intros [Hfew Ha] HI. destruct o; unfold exec; try solve [apply plain_keeps; [keep|done]].
  - pose proof (AcquireMutation_inv ctx request _ _ HI Hfew) as Hp. unfold holding.
    destruct (AcquireMutation _ _ _) as [c [l|e]]; [by destruct Hp|done].
  - destruct (sys_held s !! lease) eqn:Hl; [|done]. by eapply Inv_release.
  - by apply holding_post, expire_inv.
  - by apply holding_post, StopExplicit_begin_inv.
  - by apply holding_post, RunDestructive_begin_inv.
  - by apply plain_post, ForgetEnvironment_inv.
  - by apply plain_post, BeginDisposal_inv.
  - by apply plain_post, BeginReconciliation_inv.
  - by apply plain_post, Reconcile_inv.
  - destruct Ha as (ctx&c&c'&Hr). apply reserveRequest_ok in Hr as [owner Hn].
    apply plain_post. by eapply reserveRound_inv.
  - by apply plain_post, Promote_inv.
  - by apply plain_post, Abort_inv.
  - by apply plain_post, Close_begin_inv.
Qed.

Lemma reachable_inv s : reachable s → Inv (sys_c s) (sys_held s).
Proof.
  induction 1 as [o c Hc|s s' _ IH (o&Ho&->)]; [by eapply Inv_init|by apply exec_inv].
Qed.

(** ** Safety *)

(** An exclusive operation on [env] is in progress: a stop or a destructive
    mutation whose caller still holds its lease, a disposal, or a
    reconciliation. *)
Definition exclusiveOn (s : System) (env : string) (l : nat) : Prop := guards (sys_c s) (sys_held s) env l.

(** C5: no stop, destructive mutation, disposal or reconciliation of an
    environment is ever in progress while a session is attached to it or
    establishing: in every state reachable by any interleaving of the
    coordinator's critical sections, with any clock and any failing writes. *)
Theorem exclusive_without_sessions s env l e :
  reachable s → exclusiveOn s env l → c_environments (sys_c s) !! env = Some e →
  re_handles e = ∅ ∧ re_establishing e = ∅.
Proof. intros Hr Hx He. by eapply (inv_quiet _ _ (reachable_inv _ Hr)). Qed.

(** until shutdown at most one exclusive operation is in progress on an
    environment. *)
Theorem exclusive_unique s env l1 l2 :
  reachable s → isOpen (sys_c s) → exclusiveOn s env l1 → exclusiveOn s env l2 → l1 = l2.
Proof.
  intros Hr Hop H1 H2. pose proof (reachable_inv _ Hr) as HI.
  destruct (inv_guard _ _ HI _ _ Hop H1) as (o1&Hh1&Hk1), (inv_guard _ _ HI _ _ Hop H2) as (o2&Hh2&Hk2).
  destruct (decide (l1 = l2)) as [|Hne]; [done|].
  destruct (lt_exclusive _ _ _ _ _ _ (inv_wf _ _ HI Hop) Hh1 Hh2) as [[? _]|Hc]; [done|].
  unfold compatibleMutationOwners in Hc. by bool_prop.
Qed.


(** While an exclusive operation is in progress on an environment no
    attach is granted on it: every round of [reserveAttach] waits or fails. *)
Theorem exclusive_refuses_attach s l request req w reason a :
  reachable s → allowed (OpReserveRound request req w reason) s →
  exclusiveOn s (eq_EnvironmentID request) l →
  (reserveRound request req w reason (sys_c s)).2 ≠ Ok (Reserved a).
Proof.
  intros Hr [Hfew (ctx&c&c'&Hreq)] Hx. pose proof (reachable_inv _ Hr) as HI.
  apply reserveRequest_ok in Hreq as [owner Hn].
  set (Q := λ p : Coordinator * res ReserveStep, p.2 ≠ Ok (Reserved a)).
  change (Q (reserveRound request req w reason (sys_c s))). unfold reserveRound.
  run_step H1; [|done]. apply requireOpen_ok in H1 as [-> Hop].
  run_step H2; [|done]. apply loadEnvironment_ok in H2 as (S2&Hop2&_).
  destruct (re_reconciling _); [run_step H3; done|].
  destruct (re_blocked _). { destruct (re_mutation _); [|done]. unfold failConflict. run_step H3; [|done].
    run_step H4; done. }
  destruct (_ && _). { destruct (negb w); [done|]. run_step H3; done. }
  run_step H3; [|done]. exfalso.
  pose proof (Inv_shrink _ _ _ S2 HI) as HI2.
  destruct (inv_guard _ _ HI _ _ Hop Hx) as (o&Ho&Hk). rewrite <- (sh_claims _ _ S2) in Ho.
  edestruct (Inv_claim _ _ _ _ _ HI2 ltac:(auto) (nz_nodup _ _ _ Hn)
    (normalized_room _ _ _ _ Hn (fewClaims_shrink _ _ S2 Hfew)) H3) as (_&_&_&_&_&Hcompat).
  assert (EnvironmentMutationKey (eq_EnvironmentID request) ∈ mr_Keys req) as Hin
    by (apply (nz_keys _ _ _ Hn); left).
  pose proof (Hcompat _ _ _ Hin Ho) as Hc. unfold compatibleMutationOwners in Hc. by bool_prop.
Qed.

(** The callback of an exclusive operation begins: the operation, the
    environment, and the lease held while the callback runs. *)
Inductive begins (s : System) : Op → string → nat → Prop :=
  | begins_expire env incarnation sequence c call :
      expire env incarnation sequence (sys_c s) = (c, Ok (Some call)) →
      begins s (OpExpire env incarnation sequence) env (sc_lease call)
  | begins_explicit env c call :
      StopExplicit_begin env (sys_c s) = (c, Ok (ExplicitCall call)) →
      begins s (OpStopExplicit env) env (sc_lease call)
  | begins_mutation ctx env owner c l :
      RunDestructiveMutation_begin ctx env owner (sys_c s) = (c, Ok (MutationCall l)) →
      begins s (OpMutation ctx env owner) env l.

Lemma begins_held s o env l : begins s o env l → sys_held (exec o s) !! l = Some (Some env).
Proof. destruct 1 as [? ? ? ? ? He|? ? ? He|? ? ? ? ? He]; simpl; unfold holding; rewrite He; apply lookup_insert_eq. Qed.

(** Any other critical section, while the lease is not released. *)
Definition stepHolding (l : nat) (s s' : System) : Prop := ∃ o, o ≠ OpRelease l ∧ allowed o s ∧ s' = exec o s.

Lemma holding_held {A} held env (m : M A) s l r :
  postHeld held env (sys_held s) (m (sys_c s)) → sys_held s !! l = Some r →
  sys_held (holding held (Some env) m s) !! l = Some r.
Proof.
  unfold postHeld, holding. destruct (m (sys_c s)) as [c [a|e]]; simpl; [|done].
  destruct (held a) as [l'|]; [|done]. intros [_ Hn] Hl. rewrite lookup_insert. case_decide; [congruence|done].
Qed.

Lemma exec_held o s l r :
  allowed o s → Inv (sys_c s) (sys_held s) → o ≠ OpRelease l → sys_held s !! l = Some r →
  sys_held (exec o s) !! l = Some r.
Proof.
  intros [Hfew Ha] HI Hne Hl. destruct o; try done; unfold exec.
  - pose proof (AcquireMutation_inv ctx request _ _ HI Hfew) as Hp. unfold holding.
    destruct (AcquireMutation _ _ _) as [c [l'|e]]; [|done]. destruct Hp as [_ Hn]. simpl.
    rewrite lookup_insert. case_decide; [congruence|done].
  - destruct (sys_held s !! lease) eqn:Hl'; [|done]. simpl. rewrite lookup_delete. case_decide; [by subst|done].
  - apply holding_held; [by apply expire_inv|done].
  - apply holding_held; [by apply StopExplicit_begin_inv|done].
  - apply holding_held; [by apply RunDestructive_begin_inv|done].
Qed.

(** C1: from the moment a stop callback or a destructive mutation begins
    until its lease is released, through any sequence of other critical
    sections (attaches, registrations, timers, reconciliations, shutdown),
    the environment has no session and no establishing session. *)
Theorem callback_runs_alone s o env l s' e :
  reachable s → allowed o s → begins s o env l → rtc (stepHolding l) (exec o s) s' →
  c_environments (sys_c s') !! env = Some e → re_handles e = ∅ ∧ re_establishing e = ∅.
Proof.
  intros Hr Ho Hb Hsteps He.
  assert (Inv (sys_c s') (sys_held s') ∧ sys_held s' !! l = Some (Some env)) as [HI Hl].
  { apply begins_held in Hb. apply reachable_inv, (exec_inv _ _ Ho) in Hr. revert Hr Hb. clear -Hsteps.
    induction Hsteps as [|s1 s2 s3 (o'&Hne&Ha&->) _ IH]; [done|]. intros HI Hl.
    apply IH; [by apply exec_inv|by apply exec_held]. }
  eapply (inv_quiet _ _ HI); [by left|done].
Qed.

(** ** A run *)

Definition run (ops : list Op) (s : System) : System := foldl (λ s o, exec o s) s ops.
Fixpoint allowedRun (ops : list Op) (s : System) : Prop :=
  match ops with
  | [] => True
  | o :: ops => allowed o s ∧ allowedRun ops (exec o s)
  end.

Lemma run_steps ops s : allowedRun ops s → rtc step s (run ops s).
Proof.
  revert s. induction ops as [|o ops IH]; intros s; [done|]. intros [Ho Hops].
  eapply rtc_l; [by exists o|by apply IH].
Qed.

Lemma reachable_steps s s' : rtc step s s' → reachable s → reachable s'.
Proof. induction 1; [done|]. intros. by apply IHrtc; eapply reach_step. Qed.

Module SampleRun.
Import SampleCoordinator.
Definition ops : list Op :=
  [OpReserveRound (estRequest "session-a") (mutationRequest "session-a") true "";
   OpPrepare None 1 (attachRequest "session-a"); OpPromote None 1;
   OpCommitRegistration "dev" "session-a"; OpBindBoot "dev" "session-a" boot;
   OpBeginFinish "dev" "session-a"; OpReleaseResource "dev" "session-a" session None;
   OpFinish "dev" "session-a" None].
Definition idleSystem : System := run ops (mkSystem start ∅).
Definition expireOp : Op := OpExpire "dev" incarnation 1.
Definition stoppingSystem : System := exec expireOp idleSystem.
Definition attachB : Op := OpReserveRound (estRequest "session-b") (mutationRequest "session-b") true "".
End SampleRun.
Import SampleCoordinator SampleRun.

Ltac few := unfold fewClaims; vm_compute; reflexivity.

Lemma attach_allowed s id :
  fewClaims (sys_c s) → (reserveRequest None (estRequest id) start).2 = Ok (mutationRequest id) →
  allowed (OpReserveRound (estRequest id) (mutationRequest id) true "") s.
Proof.
  intros Hf Hr. split; [done|]. exists None, start, (reserveRequest None (estRequest id) start).1.
  rewrite <- Hr. by destruct (reserveRequest _ _ _).
Qed.

Lemma ops_allowed : allowedRun ops (mkSystem start ∅).
Proof.
  simpl allowedRun.
  split; [apply attach_allowed; [few|vm_compute; reflexivity]|]. repeat (split; [split; [few|exact I]|]). exact I.
Qed.
Lemma idle_reachable : reachable idleSystem.
Proof. eapply reachable_steps; [apply run_steps, ops_allowed|]. by apply (reach_init options). Qed.
Lemma expire_allowed : allowed expireOp idleSystem.
Proof. split; [few|exact I]. Qed.
Lemma stopping_reachable : reachable stoppingSystem.
Proof. eapply reach_step; [apply idle_reachable|]. exists expireOp. split; [apply expire_allowed|reflexivity]. Qed.
Lemma stopping_exclusive : exclusiveOn stoppingSystem "dev" 1.
Proof. left. vm_compute. reflexivity. Qed.

Lemma exclusive_without_sessions_witness :
  re_handles (envOf (sys_c stoppingSystem)) = ∅ ∧ re_establishing (envOf (sys_c stoppingSystem)) = ∅.
Proof.
  apply (exclusive_without_sessions stoppingSystem "dev" 1);
    [apply stopping_reachable|apply stopping_exclusive|vm_compute; reflexivity].
Defined.

Lemma exclusive_unique_witness : 1%nat = 1%nat.
Proof.
  apply (exclusive_unique stoppingSystem "dev"); [apply stopping_reachable|split; vm_compute; reflexivity| |];
    apply stopping_exclusive.
Defined.

Lemma exclusive_refuses_attach_witness :
  (reserveRound (estRequest "session-b") (mutationRequest "session-b") true "" (sys_c stoppingSystem)).2 ≠ Ok (Reserved 9).
Proof.
  apply (exclusive_refuses_attach stoppingSystem 1);
    [apply stopping_reachable|apply attach_allowed; [few|vm_compute; reflexivity]|apply stopping_exclusive].
Defined.

(** [session-b] asks to attach while the callback of the stop runs. *)
Lemma callback_runs_alone_witness :
  re_handles (envOf (sys_c (exec attachB stoppingSystem))) = ∅ ∧
  re_establishing (envOf (sys_c (exec attachB stoppingSystem))) = ∅.
Proof.
  apply (callback_runs_alone idleSystem expireOp "dev" 1 (exec attachB stoppingSystem));
    [apply idle_reachable|apply expire_allowed| | |vm_compute; reflexivity].
  - apply (begins_expire _ "dev" incarnation 1 (expire "dev" incarnation 1 (sys_c idleSystem)).1 call).
    vm_compute. reflexivity.
  - apply rtc_once. exists attachB. split; [done|]. split; [|reflexivity].
    apply attach_allowed; [few|vm_compute; reflexivity].
Defined.
