(* ===== verification/LifecycleDurable.v ===== *)
(** * What reaches the disk

    The coordinator writes only journals that pass [Journal.Validate], each
    under its own environment's name, and the journal it holds in memory for
    an environment is always that environment's.  [durable] is the frame of
    every critical section; the theorem is that a later daemon can load every
    journal the run left behind. *)
From S2P Require Import Prelude GoStrings GoTime LifecycleModel LifecycleGraph LifecycleJournal LifecycleStatus LifecycleMutation.
From S2P Require Import LifecycleCoordinator LifecycleRegistry LifecycleAttach LifecycleStop LifecycleDisposalOps LifecycleReconcile LifecycleSample.
From S2P Require Import LifecycleFrame LifecycleInvariant LifecycleSafety LifecycleSystem.

(** ** The frame *)

Definition journalName (e : registryEnvironment) : string := j_EnvironmentID (re_journal e).

Record durable (c c' : Coordinator) : Prop := {
  du_store k j : c_store c' !! k = Some j →
    c_store c !! k = Some j ∨ (Journal_Validate j = Ok tt ∧ j_EnvironmentID j = k);
  du_name env e' : c_environments c' !! env = Some e' →
    journalName e' = env ∨ ∃ e, c_environments c !! env = Some e ∧ journalName e' = journalName e;
  du_daemon : c_daemonID c' = c_daemonID c }.

#[global] Instance durable_preorder : PreOrder durable.
Proof.
  split.
  - intros c. split; [by left|intros env e' ?; right; by exists e'|done].
  - intros c1 c2 c3 H1 H2. split.
    + intros k j Hj. destruct (du_store _ _ H2 _ _ Hj) as [Hj'|?]; [by apply (du_store _ _ H1)|by right].
    + intros env e3 He3. destruct (du_name _ _ H2 _ _ He3) as [?|(e2&He2&->)]; [by left|].
      by apply (du_name _ _ H1).
    + by rewrite (du_daemon _ _ H2), (du_daemon _ _ H1).
Qed.

Lemma same_durable c c' :
  c_store c' = c_store c → c_environments c' = c_environments c → c_daemonID c' = c_daemonID c → durable c c'.
Proof. intros Hs He Hd. split; [rewrite Hs; by left|rewrite He; intros env e' ?; right; by exists e'|done]. Qed.

Lemma modEnv_durable env f :
  (∀ e, journalName (f e) = env ∨ journalName (f e) = journalName e) → preserves durable (modEnv env f).
Proof.
  intros Hf. apply preserves_modify. intros c. split; [by left| |done]. intros env' e' He. simpl in He.
  rewrite lookup_alter in He. case_decide as Hd; [subst|right; by exists e'].
  apply fmap_Some in He as (e&?&->). destruct (Hf e); [by left|right; by exists e].
Qed.

Lemma deleteEnv_durable env : preserves durable (deleteEnv env).
Proof.
  apply preserves_modify. intros c. split; [by left| |done]. intros env' e' He. right.
  simpl in He. apply lookup_delete_Some in He as [_ He]. by exists e'.
Qed.

Lemma disk_durable c disk :
  (∀ k j, disk !! k = Some j → c_store c !! k = Some j ∨ (Journal_Validate j = Ok tt ∧ j_EnvironmentID j = k)) →
  durable c (c <| c_store := disk |> <| c_ioCalls ::= S |>).
Proof. intros Hd. split; [done|intros env e' ?; right; by exists e'|done]. Qed.

Lemma storeWrite_durable j : preserves durable (storeWrite j).
Proof.
  intros c. unfold storeWrite, Store_Write. destruct (Journal_Validate j) as [[]|e] eqn:Hv; simpl.
  - destruct (c_io c _); simpl; apply disk_durable; intros k j'; [|by left|]; rewrite lookup_insert; case_decide;
      [intros [= <-]; by right|by left|intros [= <-]; by right|by left].
  - apply disk_durable. by left.
Qed.

Lemma storeRemove_durable env : preserves durable (storeRemove env).
Proof.
  intros c. unfold storeRemove, Store_Remove. destruct (negb _); simpl; [apply disk_durable; by left|].
  destruct (c_store c !! env), (c_io c _); simpl; apply disk_durable; intros k j0 Hj; left; try done;
    by apply lookup_delete_Some in Hj as [_ ?].
Qed.

Lemma Store_Load_name o env disk j : Store_Load o env disk = Ok j → j_EnvironmentID j = env.
Proof.
  unfold Store_Load. destruct (negb _); [done|]. destruct o; [|done..]. destruct (disk !! env); [|done].
  intros Hl. apply result_bind_ok in Hl as (_&_&Hl). destruct (negb _) eqn:Hn; [done|]. simplify_eq. by bool_prop.
Qed.

Lemma loadEnvironment_durable env : preserves durable (loadEnvironmentLocked env).
Proof.
  intros c. unfold loadEnvironmentLocked, mbind, SE_bind, mret, SE_ret. simpl.
  destruct (c_environments c !! env); simpl; [done|].
  assert (∀ (c1 : Coordinator) e, journalName e = env → c_store c1 = c_store c →
    c_environments c1 = c_environments c → c_daemonID c1 = c_daemonID c →
    durable c (c1 <| c_environments ::= <[env := e]> |> <| c_nextAddr ::= S |>)) as Hins.
  { intros c1 e Hn Hs He Hd. split; simpl; [rewrite Hs; by left| |done]. intros env' e'. rewrite He, lookup_insert.
    case_decide; [intros [= <-]; left; congruence|intros; right; by exists e']. }
  destruct (Store_Load _ _ _) as [j|e] eqn:Hl; simpl.
  - apply Hins; [|done..]. apply Store_Load_name in Hl. by case_match.
  - destruct (errors_Is e ErrNotExist); simpl; [|by apply same_durable]. apply Hins; [|done..]. by case_match.
Qed.

Lemma claimM_durable req : preserves durable (claimM req).
Proof. intros c. unfold claimM. destruct (claimMutationKeysLocked _ _). by apply same_durable. Qed.

(** ** Walking through the critical sections *)

Create HintDb sections discriminated.
#[export] Hint Unfold modJournal nowUTC lookupEnv stateOf storeLoad getC releaseLease releaseOpt normalizeM
  requireOpen persistLocked persistNowLocked checkpointLaterLocked statusLocked emitLocked setBlocked blockJournal
  syntheticEnvironmentBlockerLocked environmentConflictLocked failConflict finishReconciliationLocked
  finishStopLocked scheduleIfIdleLocked cancelDeadlineForAttachLocked cancelDeadlineLocked : sections.
#[export] Hint Unfold endResource resourceLocked terminalStateLocked regOf modReg estOf modEst
  grantReservation selectIncarnationLocked deferStop setAttempt planStop invokeExplicit stopTimer
  forgetClaimed retainDisposal beginDisposalClaimed disposalLocked activeDisposalLocked setDisposal endMutation
  beginMutationClaimed closeEnvironment claimReconcile setReconciling setReconciliation resetEnvironment
  finishBlocked reconcileExact classifyEnvironment : sections.

Create HintDb durable discriminated.
#[export] Hint Resolve deleteEnv_durable storeWrite_durable storeRemove_durable loadEnvironment_durable claimM_durable : durable.

Ltac dur_step :=
  cbv zeta;
  match goal with
  | |- preserves _ (mret _) => apply (preserves_ret durable)
  | |- preserves _ (fail _) => apply (preserves_fail durable)
  | |- preserves _ (lift _) => apply (preserves_lift durable)
  | |- preserves _ get_state => apply (preserves_get durable)
  | |- preserves _ (mbind _ _) => apply (preserves_bind durable); [|intros ?]
  | |- preserves _ (when _ _) => apply (preserves_when durable)
  | |- preserves _ (ignore_err _) => apply (preserves_ignore_err durable)
  | |- preserves _ (attempt _) => apply (preserves_attempt durable)
  | |- preserves _ (finally _ (releaseC _)) =>
      apply (preserves_finally durable); [|intros ?; apply same_durable; reflexivity]
  | |- preserves _ (if ?b then _ else _) => destruct b
  | |- preserves _ (match ?x with _ => _ end) => destruct x
  | |- preserves _ (modEnv _ _) => apply modEnv_durable; solve [intros ?; simpl; first [by left | by right | right; unfold journalName; simpl; by case_match]]
  | |- preserves _ (modify _) => apply preserves_modify; intros ?; apply same_durable; reflexivity
  | |- preserves _ (λ _, _) => intros ?; apply same_durable; reflexivity
  | |- _ => solve [auto with durable nocore]
  | |- preserves _ _ => progress autounfold with sections
  end.
Ltac dur := repeat dur_step.

Lemma emitLocked_durable env g k r t : preserves durable (emitLocked env g k r t).
Proof. dur. Qed.

Lemma addOrJoin_name state h r state' : addOrJoinResource state h r = Ok state' → journalName state' = journalName state.
Proof.
  unfold addOrJoinResource. cbv zeta. destruct (List.find _ _).
  - destruct (negb _); [done|]. by intros [= <-].
  - destruct (ValidateGraph _ _); [|done]. by intros [= <-].
Qed.
Lemma addOrJoin_durable env h r : preserves durable (addOrJoin env h r).
Proof.
  intros c. unfold addOrJoin, mbind, SE_bind. simpl. destruct (addOrJoinResource _ _ _) as [state'|e] eqn:Ha; simpl; [|done].
  split; [by left| |done]. intros env' e' He. right. simpl in He. rewrite lookup_alter in He.
  case_decide as Hd; [|by exists e']. subst env'. apply fmap_Some in He as (e&He&->).
  exists e. split; [done|]. rewrite He in Ha. by apply addOrJoin_name in Ha.
Qed.
Lemma removeUser_name h ref e : journalName (removeResourceUser h ref e) = journalName e.
Proof. unfold removeResourceUser. by case_match. Qed.
Lemma removeOrder_name h ref e : journalName (removeResourceOrder h ref e) = journalName e.
Proof. unfold removeResourceOrder. case_match; [case_match|]; done. Qed.
Lemma removeUsers_name h refs e : journalName (foldl (λ e ref, removeResourceUser h ref e) e refs) = journalName e.
Proof.
  revert e. induction refs as [|ref refs IH]; intros e; simpl; [done|]. by rewrite IH, removeUser_name.
Qed.
#[export] Hint Resolve addOrJoin_durable emitLocked_durable : durable.

Lemma register_durable env h spec : preserves durable (register env h spec).
Proof.
  unfold register. dur. apply modEnv_durable. intros ?. right. by rewrite removeOrder_name, removeUser_name.
Qed.
Lemma abortRegistration_durable env h : preserves durable (abortRegistration env h).
Proof. unfold abortRegistration. dur. apply modEnv_durable. intros ?. right. apply removeUsers_name. Qed.
Lemma snapshotOf_durable envs : preserves durable (snapshotOf envs).
Proof. induction envs as [|[env state] envs IH]; simpl; dur. Qed.
Lemma closeEach_durable envs r : preserves durable (closeEach envs r).
Proof. revert r. induction envs as [|env envs IH]; intros r; simpl; dur. Qed.
#[export] Hint Resolve register_durable abortRegistration_durable snapshotOf_durable closeEach_durable : durable.

Lemma Reconcile_durable ctx input : preserves durable (Reconcile ctx input).
Proof.
  unfold Reconcile. dur. apply preserves_finally; [apply _|dur|]. intros c.
  match goal with |- durable c (?m c).1 => assert (preserves durable m) as Hm by dur end. apply Hm.
Qed.
Lemma Forget_durable env : preserves durable (ForgetEnvironment env).
Proof. unfold ForgetEnvironment. dur. Qed.
#[export] Hint Resolve Reconcile_durable Forget_durable : durable.

Lemma plain_durable {A} (m : M A) s : preserves durable m → durable (sys_c s) (sys_c (plain m s)).
Proof. intros Hm. apply Hm. Qed.
Lemma holding_durable {A} held role (m : M A) s : preserves durable m → durable (sys_c s) (sys_c (holding held role m s)).
Proof. intros Hm. specialize (Hm (sys_c s)). unfold holding. by destruct (m (sys_c s)). Qed.

#[export] Hint Unfold AcquireMutation expire checkpointFired commitStopResult StopExplicit_begin StopExplicit_end
  RunDestructiveMutation_begin RunDestructiveMutation_end BeginDisposal AdvanceDisposal BlockDisposal
  CompleteDisposalMetadata BeginReconciliation WaitReconciliation_round BlockReconciliation reserveRequest
  reserveRound Prepare Promote Abort commitRegistration bindBoot transition release recordFact
  beginFinishRegistration finishRegistration sessionEnvironment Snapshot ActiveAttachObservation
  Close_begin Close_end : sections.

(** Every critical section is [durable]. *)
Lemma exec_durable o s : durable (sys_c s) (sys_c (exec o s)).
Proof.
  destruct o; unfold exec;
    first [apply plain_durable; solve [dur] | apply holding_durable; solve [dur] | idtac].
  destruct (sys_held s !! lease); [by apply same_durable|done].
Qed.

(** ** What a run leaves behind *)

(** Every journal on disk is valid and stored under its own name, so that it
    can be loaded. *)
Definition loadable (disk : Disk) : Prop :=
  ∀ env j, disk !! env = Some j → Store_Load IoOk env disk = Ok j.

Lemma loadable_iff disk :
  loadable disk ↔ ∀ env j, disk !! env = Some j → Journal_Validate j = Ok tt ∧ j_EnvironmentID j = env.
Proof.
  split; intros Hd env j Hj.
  - specialize (Hd env j Hj). split; [|by eapply Store_Load_name]. unfold Store_Load in Hd. rewrite Hj in Hd.
    destruct (negb _); [done|]. apply result_bind_ok in Hd as ([]&?&_). done.
  - destruct (Hd env j Hj) as [Hv <-]. unfold Store_Load. pose proof (Journal_Validate_ok j Hv) as (-> & _).
    simpl. rewrite Hj, Hv. simpl. by rewrite String.eqb_refl.
Qed.

Lemma durable_loadable c c' : durable c c' → loadable (c_store c) → loadable (c_store c').
Proof.
  rewrite !loadable_iff. intros Hd Hl env j Hj. destruct (du_store _ _ Hd _ _ Hj) as [?|?]; [by apply Hl|done].
Qed.

(** The journal in memory is the environment's own. *)
Definition named (c : Coordinator) : Prop := ∀ env e, c_environments c !! env = Some e → journalName e = env.

Lemma durable_named c c' : durable c c' → named c → named c'.
Proof.
  intros Hd Hn env e He. destruct (du_name _ _ Hd _ _ He) as [?|(e0&He0&->)]; [done|by apply Hn].
Qed.

Lemma NewCoordinator_fresh o c :
  NewCoordinator o = Ok c → c_store c = opt_Store o ∧ c_environments c = ∅.
Proof. unfold NewCoordinator. cbv zeta. repeat case_match; try done; by intros [= <-]. Qed.

Lemma reachable_named s : reachable s → named (sys_c s).
Proof.
  induction 1 as [o c Hc|s s' _ IH (o&_&->)]; [|eapply durable_named; [apply exec_durable|done]].
  intros env e. simpl. by rewrite (proj2 (NewCoordinator_fresh _ _ Hc)).
Qed.

(** C14: a daemon started on a disk it can load leaves, at any point of any
    run, even when writes fail half way, a disk the next daemon can load:
    every journal is valid and stored under its own environment's name. *)
Theorem restart_loads_every_journal o c s :
  NewCoordinator o = Ok c → loadable (opt_Store o) → rtc step (mkSystem c ∅) s → loadable (c_store (sys_c s)).
Proof.
  intros Hc Hl Hs. assert (loadable (c_store c)) as Hl' by (by rewrite (proj1 (NewCoordinator_fresh _ _ Hc))).
  remember (mkSystem c ∅) as s0 eqn:Hs0. assert (loadable (c_store (sys_c s0))) as Hl0 by (by subst).
  clear Hs0 Hl'. induction Hs as [|s1 s2 s3 (op&_&->) _ IH]; [done|].
  apply IH. eapply durable_loadable; [apply exec_durable|done].
Qed.
Import SampleCoordinator SampleRun.

Lemma restart_loads_every_journal_witness : loadable (c_store (sys_c stoppingSystem)).
Proof.
  apply (restart_loads_every_journal options start); [reflexivity|done|].
  eapply rtc_r; [apply run_steps, ops_allowed|]. exists expireOp. split; [apply expire_allowed|reflexivity].
Defined.
