(* ===== verification/LifecycleRules.v ===== *)
(** * Symbolic execution of critical sections

    What a critical section does to one environment: [At env c e d s] says that
    the coordinator [c] has the state [e] for [env], the disk [d] and the
    fixed part [s].  The rules run a section one statement at a time, whatever
    the clock reads and whichever outcome an I/O operation has; [sym] applies
    them. *)
From S2P Require Import Prelude GoStrings GoTime LifecycleModel LifecycleGraph LifecycleJournal LifecycleStatus LifecycleMutation.
From S2P Require Import LifecycleCoordinator.

(** The part of the coordinator that the operations on an environment leave
    alone. *)
Record Fixed_ := mkFixed {
  fx_daemonID : string; fx_idleGrace : Z; fx_hasStop : bool; fx_enabled : bool;
  fx_closing : bool; fx_closed : bool }.
Definition fixedOf (c : Coordinator) : Fixed_ :=
  mkFixed (c_daemonID c) (c_idleGrace c) (c_hasStop c) (c_enabled c) (c_closing c) (c_closed c).

Record At (env : string) (c : Coordinator) (e : registryEnvironment) (d : Disk) (s : Fixed_) : Prop := {
  at_env : c_environments c !! env = Some e;
  at_disk : c_store c = d;
  at_fixed : fixedOf c = s }.

Lemma At_intro env c e : c_environments c !! env = Some e → At env c e (c_store c) (fixedOf c).
Proof. by split. Qed.

Lemma run_cases {A B} (m : M A) (f : A → M B) c (Q : Coordinator * res B → Prop) :
  match m c with (c', Ok a) => Q (f a c') | (c', Err e) => Q (c', Err e) end → Q ((m ≫= f) c).
Proof. unfold mbind, SE_bind. by destruct (m c) as [c' [a|e]]. Qed.

(** A computation that touches neither the environments, nor the disk, nor
    the fixed part, and does not fail. *)
Definition quietly {A} (m : M A) : Prop :=
  ∀ c, ∃ a, (m c).2 = Ok a ∧ c_environments (m c).1 = c_environments c ∧ c_store (m c).1 = c_store c ∧
    fixedOf (m c).1 = fixedOf c.

Lemma quietly_bind {A B} (m : M A) (f : A → M B) : quietly m → (∀ a, quietly (f a)) → quietly (m ≫= f).
Proof.
  intros Hm Hf c. destruct (Hm c) as (a&Ha&He&Hs&Hx). unfold mbind, SE_bind.
  destruct (m c) as [c1 r]. simpl in *. subst r. destruct (Hf a c1) as (b&Hb&He'&Hs'&Hx').
  exists b. by rewrite Hb, He', Hs', Hx'.
Qed.
Lemma quietly_ret {A} (a : A) : quietly (mret a).
Proof. intros c. by exists a. Qed.
Lemma quietly_now : quietly nowUTC.
Proof. intros c. by eexists. Qed.
Lemma quietly_status env state : quietly (statusLocked env state).
Proof.
  unfold statusLocked. apply quietly_bind; [|intros ?; cbv zeta; apply quietly_ret].
  destruct (_ || _); [apply quietly_bind; [apply quietly_now|intros ?]|]; apply quietly_ret.
Qed.
Lemma quietly_emit env g k r t : quietly (emitLocked env g k r t).
Proof.
  unfold emitLocked. apply quietly_bind; [intros c; by eexists|]. intros found.
  apply quietly_bind; [|intros ? c; by exists tt].
  destruct found; [apply quietly_bind; [apply quietly_status|intros ?]|]; apply quietly_ret.
Qed.
Lemma quietly_release l : quietly (releaseLease l).
Proof. intros c. by exists tt. Qed.
Create HintDb quiet discriminated.
#[export] Hint Resolve quietly_ret quietly_now quietly_status quietly_emit quietly_release : quiet.

(** The journal as [persistLocked] writes it. *)
Definition persisted (t : Time) (j : Journal) : Journal := j <| j_UpdatedAt := t |> <| j_Resources ::= sort_by rkey |>.

Section rules.
Context {B : Type} (env : string) (Q : Coordinator * res B → Prop).
Implicit Types (c : Coordinator) (e : registryEnvironment) (d : Disk) (s : Fixed_).

Lemma rule_quiet {A} (m : M A) (k : A → M B) c e d s :
  quietly m → At env c e d s → (∀ c' a, At env c' e d s → Q (k a c')) → Q ((m ≫= k) c).
Proof.
  intros Hm [He Hd Hs] Hk. destruct (Hm c) as (a&Ha&He'&Hd'&Hs'). apply run_cases.
  destruct (m c) as [c' r]. simpl in *. subst r. apply Hk. split; congruence.
Qed.

Lemma rule_modEnv f (k : () → M B) c e d s :
  At env c e d s → (∀ c', At env c' (f e) d s → Q (k tt c')) → Q ((modEnv env f ≫= k) c).
Proof.
  intros [He Hd Hs] Hk. apply run_cases. simpl. apply Hk. split; [|done|done]. simpl.
  by rewrite lookup_alter_eq, He.
Qed.

Lemma rule_stateOf (k : registryEnvironment → M B) c e d s :
  At env c e d s → Q (k e c) → Q ((stateOf env ≫= k) c).
Proof. intros [He _ _] Hk. apply run_cases. simpl. by rewrite He. Qed.

Lemma rule_lookup (k : option registryEnvironment → M B) c e d s :
  At env c e d s → Q (k (Some e) c) → Q ((lookupEnv env ≫= k) c).
Proof. intros [He _ _] Hk. apply run_cases. simpl. by rewrite He. Qed.

Lemma rule_getC (k : Coordinator → M B) c : Q (k c c) → Q ((getC ≫= k) c).
Proof. done. Qed.
End rules.

Lemma persistLocked_at env c e d s :
  At env c e d s → ∃ t o, let j := persisted t (re_journal e) in
    At env (persistLocked env c).1 (e <| re_journal := j |>) (Store_Write o j d).1 s ∧
    (persistLocked env c).2 = (Store_Write o j d).2.
Proof.
  intros [He Hd Hs]. exists (UTC (c_now c (c_reads c))), (c_io c (c_ioCalls c)). cbv zeta.
  unfold persistLocked, mbind, SE_bind. simpl. rewrite lookup_alter_eq, He. unfold storeWrite. simpl.
  rewrite Hd. destruct (Store_Write _ _ d) as [d' r]. simpl. split; [|done].
  split; [|done|done]. simpl. by rewrite lookup_alter_eq, He.
Qed.

Section persist_rules.
Context {B : Type} (env : string) (Q : Coordinator * res B → Prop).
Implicit Types (c : Coordinator) (e : registryEnvironment) (d : Disk) (s : Fixed_).

Lemma rule_persist (k : () → M B) c e d s :
  At env c e d s →
  (∀ c' t o,
     At env c' (e <| re_journal := persisted t (re_journal e) |>) (Store_Write o (persisted t (re_journal e)) d).1 s →
     match (Store_Write o (persisted t (re_journal e)) d).2 with Ok _ => Q (k tt c') | Err x => Q (c', Err x) end) →
  Q ((persistLocked env ≫= k) c).
Proof.
  intros Hat Hk. destruct (persistLocked_at _ _ _ _ _ Hat) as (t&o&Hat'&Hr). apply run_cases.
  specialize (Hk _ t o Hat'). cbv zeta in Hk. rewrite <- Hr in Hk.
  destruct (persistLocked env c) as [c' [[]|x]]; done.
Qed.

Lemma rule_attempt_persist (k : res () → M B) c e d s :
  At env c e d s →
  (∀ c' t o,
     At env c' (e <| re_journal := persisted t (re_journal e) |>) (Store_Write o (persisted t (re_journal e)) d).1 s →
     Q (k (Store_Write o (persisted t (re_journal e)) d).2 c')) →
  Q ((attempt (persistLocked env) ≫= k) c).
Proof.
  intros Hat Hk. destruct (persistLocked_at _ _ _ _ _ Hat) as (t&o&Hat'&Hr). apply run_cases.
  unfold attempt. rewrite Hr. by eapply Hk.
Qed.

Lemma rule_ignore_persist (k : () → M B) c e d s :
  At env c e d s →
  (∀ c' t o,
     At env c' (e <| re_journal := persisted t (re_journal e) |>) (Store_Write o (persisted t (re_journal e)) d).1 s →
     Q (k tt c')) →
  Q ((ignore_err (persistLocked env) ≫= k) c).
Proof.
  intros Hat Hk. destruct (persistLocked_at _ _ _ _ _ Hat) as (t&o&Hat'&Hr). apply run_cases.
  unfold ignore_err. by eapply Hk.
Qed.
End persist_rules.

Lemma quietly_attempt_normalize r : quietly (attempt (normalizeM r)).
Proof.
  intros c. unfold attempt, normalizeM, mbind, SE_bind. simpl.
  destruct (normalizeMutationRequest _ _); simpl; [|by eexists]. unfold when. destruct (IsZero _); by eexists.
Qed.
Lemma quietly_attempt_claim r : quietly (attempt (claimM r)).
Proof. intros c. unfold attempt, claimM. destruct (claimMutationKeysLocked _ _). by eexists. Qed.
#[export] Hint Resolve quietly_attempt_normalize quietly_attempt_claim : quiet.

(** The last statement of a section. *)
Lemma rule_last {A} (Q : Coordinator * res A → Prop) (m : M A) c : Q ((m ≫= mret) c) → Q (m c).
Proof. unfold mbind, SE_bind, mret, SE_ret. by destruct (m c) as [c' [a|x]]. Qed.

Lemma rule_assoc {A B D} (Q : Coordinator * res D → Prop) (m : M A) (f : A → M B) (k : B → M D) c :
  Q ((m ≫= λ x, f x ≫= k) c) → Q (((m ≫= f) ≫= k) c).
Proof. unfold mbind, SE_bind. by destruct (m c) as [c' [a|x]]. Qed.
Lemma rule_ret {A B} (Q : Coordinator * res B → Prop) (a : A) (k : A → M B) c : Q (k a c) → Q ((mret a ≫= k) c).
Proof. done. Qed.

(** The statements that are updates of one environment. *)
Create HintDb statements discriminated.
#[export] Hint Unfold modJournal setBlocked blockJournal finishStopLocked : statements.

(** One statement.  The goal is [Q (section c)] with [At env c e d s] at
    hand. *)
Ltac sym_step :=
  cbv zeta;
  lazymatch goal with
  | |- _ ((getC ≫= _) _) => apply rule_getC
  | |- _ ((mret _ ≫= _) _) => apply rule_ret
  | |- _ (((_ ≫= _) ≫= _) _) => apply rule_assoc
  | H : At ?env ?c _ _ _ |- _ ((modEnv ?env _ ≫= _) ?c) => eapply (rule_modEnv env); [exact H|]; clear H; intros ? H
  | H : At ?env ?c _ _ _ |- _ ((stateOf ?env ≫= _) ?c) => eapply (rule_stateOf env); [exact H|]
  | H : At ?env ?c _ _ _ |- _ ((lookupEnv ?env ≫= _) ?c) => eapply (rule_lookup env); [exact H|]
  | H : At ?env ?c _ _ _ |- _ ((persistLocked ?env ≫= _) ?c) =>
      eapply (rule_persist env); [exact H|]; clear H; intros ? ? ? H
  | H : At ?env ?c _ _ _ |- _ ((attempt (persistLocked ?env) ≫= _) ?c) =>
      eapply (rule_attempt_persist env); [exact H|]; clear H; intros ? ? ? H
  | H : At ?env ?c _ _ _ |- _ ((ignore_err (persistLocked ?env) ≫= _) ?c) =>
      eapply (rule_ignore_persist env); [exact H|]; clear H; intros ? ? ? H
  | H : At ?env ?c _ _ _ |- _ ((_ ≫= _) ?c) =>
      first [ eapply (rule_quiet env); [solve [auto with quiet nocore]|exact H|]; clear H; intros ? ? H
            | progress autounfold with statements ]
  end.
Ltac sym := repeat sym_step.
(** Case analysis on the value a section branches on. *)
Ltac sym_case H :=
  match goal with
  | |- _ ((if ?b then _ else _) _) => destruct b eqn:H
  | |- _ (((if ?b then _ else _) ≫= _) _) => destruct b eqn:H
  | |- _ ((match ?x with _ => _ end) _) => destruct x eqn:H
  | |- _ (((match ?x with _ => _ end) ≫= _) _) => destruct x eqn:H
  end.
