(* ===== verification/LifecycleStopSpec.v ===== *)
(** * What a stop does

    The automatic stop is invoked only for an idle environment whose recorded
    evidence allows it, after the attempt is on disk; its result changes the
    recorded incarnation only when the backend is proved stopped or absent. *)
From S2P Require Import Prelude GoStrings GoTime LifecycleModel LifecycleGraph LifecycleJournal LifecycleStatus LifecycleMutation.
From S2P Require Import LifecycleCoordinator LifecycleRegistry LifecycleAttach LifecycleStop LifecycleDisposalOps LifecycleReconcile LifecycleSample.
From S2P Require Import LifecycleFrame LifecycleInvariant LifecycleSafety LifecycleSystem LifecycleDurable LifecycleRules.

#[export] Hint Unfold setAttempt : statements.

(** ** Automatic stop *)

(** A stop attempt for [incarnation] is on disk. *)
Definition attemptOnDisk (d : Disk) (env attemptID : string) (incarnation : EnvironmentRef) : Prop :=
  ∃ j a, d !! env = Some j ∧ j_StopAttempt j = Some a ∧ sa_ID a = attemptID ∧
    sa_Incarnation a = incarnation ∧ attemptBlocksAttach (Some a) = true.

Lemma Store_Write_attempt o t j d a env attemptID incarnation :
  j_StopAttempt j = Some a → attemptBlocksAttach (Some a) = true →
  j_EnvironmentID j = env → sa_ID a = attemptID → sa_Incarnation a = incarnation →
  (Store_Write o (persisted t j) d).2 = Ok tt ∨ attemptOnDisk d env attemptID incarnation →
  attemptOnDisk (Store_Write o (persisted t j) d).1 env attemptID incarnation.
Proof.
  intros Ha Hb <- <- <-. unfold Store_Write. destruct (Journal_Validate _) as [[]|]; [|by intros [?|?]].
  destruct o; simpl; [intros _|by intros [?|?]|intros _];
    exists (persisted t j), a; (split; [apply lookup_insert_eq|done]).
Qed.

Lemma planStop_spec env attemptID incarnation lease c e c' call :
  c_environments c !! env = Some e → journalName e = env →
  planStop env attemptID incarnation lease c = (c', Ok (Some call)) →
  c_enabled c = true ∧ c_hasStop c = true ∧ call = mkStopCall lease attemptID incarnation ∧
  attemptOnDisk (c_store c') env attemptID incarnation.
Proof.
  intros Hat%At_intro Hn. set (Q := λ p : Coordinator * res (option StopCall), p = (c', Ok (Some call)) →
    c_enabled c = true ∧ c_hasStop c = true ∧ call = mkStopCall lease attemptID incarnation ∧
    attemptOnDisk (c_store c') env attemptID incarnation).
  change (Q (planStop env attemptID incarnation lease c)). unfold planStop. sym.
  destruct (Store_Write _ _ _).2 as [[]|x] eqn:Hw; [|sym; by intros [=]]. sym.
  destruct (_ || _) eqn:Hen; [sym; by intros [=]|]. sym.
  apply orb_false_iff in Hen as [?%negb_false_iff ?%negb_false_iff]. intros [= <- <-]. split_and!; [done..|].
  rewrite (at_disk _ _ _ _ _ Hat). eapply Store_Write_attempt; [reflexivity|done|done|done|done|]. right.
  eapply Store_Write_attempt; [reflexivity|done|done|done|done|]. by left.
Qed.

(** What the evidence of an automatic stop is: no session, no establishing
    session, no mutation, the deadline that fired is the current one, the
    last observation proves the incarnation running, and the evaluation of
    the resource graph allows the stop with nothing left to drain. *)
Definition stopEvidence (state : registryEnvironment) (incarnation : EnvironmentRef) (sequence : Z) : Prop :=
  re_handles state = ∅ ∧ re_establishing state = ∅ ∧ re_mutation state = false ∧
  deadlineCurrent state incarnation sequence = true ∧
  ∃ observation evaluation,
    currentIncarnationObservation state = Ok observation ∧
    EvaluateAutoStop (mkInput incarnation (j_Resources (re_journal state)) observation false true
      (reconciliationComplete state) true) = Ok evaluation ∧
    ev_Allowed evaluation = true ∧ ev_Drains evaluation = [].

(** C10: the automatic stop of an environment is invoked only on the full
    evidence, only while the coordinator is open and automatic stop enabled,
    and only after the attempt is on disk, in a state that keeps attaches out
    if the daemon dies before the result is known. *)
Theorem expire_stops_on_evidence s env incarnation sequence c' call :
  reachable s → expire env incarnation sequence (sys_c s) = (c', Ok (Some call)) →
  isOpen (sys_c s) ∧ c_enabled (sys_c s) = true ∧
  (∃ state, c_environments (sys_c s) !! env = Some state ∧ stopEvidence state incarnation sequence) ∧
  sc_incarnation call = incarnation ∧ attemptOnDisk (c_store c') env (sc_attemptID call) incarnation.
Proof.
  intros Hr. set (c := sys_c s). pose proof (reachable_named _ Hr) as Hn. fold c in Hn.
  set (Q := λ p : Coordinator * res (option StopCall), p = (c', Ok (Some call)) →
    isOpen c ∧ c_enabled c = true ∧
    (∃ state, c_environments c !! env = Some state ∧ stopEvidence state incarnation sequence) ∧
    sc_incarnation call = incarnation ∧ attemptOnDisk (c_store c') env (sc_attemptID call) incarnation).
  change (Q (expire env incarnation sequence c)). unfold expire. apply rule_getC.
  destruct (c_environments c !! env) as [state|] eqn:Hs; [|apply run_cases; simpl; rewrite Hs; by intros [=]].
  specialize (Hn _ _ Hs). pose proof (At_intro _ _ _ Hs) as Hat. sym.
  sym_case Hg; [by intros [=]|]. sym_case Ho; [|sym; by intros [=]].
  sym_case Hev; [|sym; by intros [=]]. sym_case Hal; [sym; by intros [=]|]. sym.
  sym_case Hx; [|sym; by intros [=]]. sym. sym_case Hy.
  2: { apply run_cases. destruct (deferStop _ _ _) as [? [?|?]]; by intros [=]. }
  unfold Q. intros Hp.
  destruct (planStop_spec _ _ _ _ _ _ _ _ (at_env _ _ _ _ _ Hat) Hn Hp) as (Hen&_&->&Hd).
  pose proof (at_fixed _ _ _ _ _ Hat) as [= _ _ _ Hen' _ _].
  unfold stopEvidence. repeat (apply orb_false_iff in Hg as [Hg ?]). bool_prop.
  split_and!; [done|congruence| |done|done]. exists state. split; [done|].
  destruct (quiet_of state) as [-> ->]; [done|done|]. split_and!; [done..|]. by exists a, a0.
Qed.

(** ** The result of a stop *)

(** What remains of the resources of a stopped environment: nothing when the
    cleanup is proved, and otherwise only orphans that keep the environment
    from being reused. *)
Lemma resourcesAfterRootStop_spec rs unproved now :
  (unproved = false → resourcesAfterRootStop rs unproved now = []) ∧
  ∀ r, r ∈ resourcesAfterRootStop rs unproved now →
    res_State r = StateOrphaned ∧ res_PossibleVMDependency r = true ∧ res_Dependencies r = [] ∧
    rr_Kind (res_Ref r) ≠ KindBackendIncarnation.
Proof.
  unfold resourcesAfterRootStop. split.
  - intros ->. induction rs as [|r rs IH]; simpl; [done|].
    destruct (String.eqb _ _); apply IH.
  - intros r (r0&_&Hr)%list_elem_of_omap. destruct (String.eqb _ _) eqn:Hk; [done|].
    destruct (_ && _); simplify_eq/=. by bool_prop.
Qed.

(** The environment after a result was committed. *)
Definition stopCommitted (state state' : registryEnvironment) (call : StopCall) (result : StopResult) : Prop :=
  ∃ now, let observation := stopObservation result (sc_incarnation call) now in
    re_observation state' = observation ∧ re_stopCancel state' = false ∧ re_stopDone state' = false ∧
    re_handles state' = re_handles state ∧
    if terminalObservation observation then
      j_Incarnation (re_journal state') = None ∧ re_blocked state' = sr_CleanupUnproved result ∧
      attemptBlocksAttach (j_StopAttempt (re_journal state')) = false ∧
      (∀ r, r ∈ j_Resources (re_journal state') →
         sr_CleanupUnproved result = true ∧ res_State r = StateOrphaned)
    else
      j_Incarnation (re_journal state') = j_Incarnation (re_journal state) ∧ re_blocked state' = true ∧
      attemptBlocksAttach (j_StopAttempt (re_journal state')) = true ∧
      (∀ r, r ∈ j_Resources (re_journal state') ↔ r ∈ j_Resources (re_journal state)).

(** Committing the result of the current attempt forgets the incarnation
    only when the backend is proved stopped or absent, by a valid observation
    of the same instance; any other result keeps the incarnation and its
    resources, leaves the environment blocked, and keeps the attempt in a
    state that refuses attaches.  A proved stop with unproved cleanup leaves
    the environment blocked with orphans only. *)
Theorem commitStopResult_spec env call result c state recorded :
  c_closed c = false → c_environments c !! env = Some state →
  j_StopAttempt (re_journal state) = Some recorded →
  sa_ID recorded = sc_attemptID call → EnvironmentRef_Equal (sa_Incarnation recorded) (sc_incarnation call) = true →
  ∃ state', c_environments (commitStopResult env call result c).1 !! env = Some state' ∧
    stopCommitted state state' call result.
Proof.
  intros Hcl Hs Ha Hid Hinc. pose proof (At_intro _ _ _ Hs) as Hat.
  set (Q := λ p : Coordinator * res (), ∃ state', c_environments p.1 !! env = Some state' ∧
    stopCommitted state state' call result).
  change (Q (commitStopResult env call result c)). unfold commitStopResult. sym.
  rewrite Hcl, Ha, Hid, Hinc, String.eqb_refl. simpl. sym.
  destruct (resourcesAfterRootStop_spec (j_Resources (re_journal state)) (sr_CleanupUnproved result) a) as [Hre1 Hre2].
  sym_case Ht; sym; apply rule_last; sym; (eexists; split; [apply (at_env _ _ _ _ _ Hat)|]); exists a; cbv zeta;
    rewrite Ht; (split_and!; try done). all: simpl; intros r; rewrite sort_by_elem_of; try done.
  intros Hr. split; [|by apply Hre2]. apply not_false_iff_true. intros Hf. rewrite (Hre1 Hf) in Hr. by apply not_elem_of_nil in Hr.
Qed.
Import SampleCoordinator SampleRun.

Lemma expire_stops_on_evidence_witness :
  isOpen (sys_c idleSystem) ∧ c_enabled (sys_c idleSystem) = true ∧
  (∃ state, c_environments (sys_c idleSystem) !! "dev" = Some state ∧ stopEvidence state incarnation 1) ∧
  sc_incarnation call = incarnation ∧
  attemptOnDisk (c_store (expire "dev" incarnation 1 (sys_c idleSystem)).1) "dev" (sc_attemptID call) incarnation.
Proof.
  apply (expire_stops_on_evidence idleSystem "dev" incarnation 1); [apply idle_reachable|vm_compute; reflexivity].
Defined.

Lemma commitStopResult_spec_witness :
  ∃ state', c_environments (commitStopResult "dev" call (mkStopResult unknown "" false) stopping).1 !! "dev" = Some state' ∧
    stopCommitted (envOf stopping) state' call (mkStopResult unknown "" false).
Proof.
  apply (commitStopResult_spec "dev" call (mkStopResult unknown "" false) stopping (envOf stopping)
    (default (mkAttempt "" incarnation "" "" "" zeroTime None) (j_StopAttempt (re_journal (envOf stopping)))));
    vm_compute; reflexivity.
Defined.
