(* ===== verification/LifecycleReleaseOrder.v ===== *)
(** * The release order of a session

    [releaseOrderForHandleLocked] of [internal/lifecycle/registry.go]: a
    finishing session releases each resource it still uses exactly once, and
    every resource before the resources it depends on. *)
From S2P Require Import Prelude GoStrings GoTime LifecycleModel LifecycleGraph LifecycleJournal LifecycleStatus LifecycleMutation.
From S2P Require Import LifecycleCoordinator LifecycleRegistry LifecycleAttach LifecycleStop LifecycleDisposalOps LifecycleReconcile LifecycleSample.

Section search.
Context (resources : gmap string Resource) (owned : gmap string ResourceRef).
Hypothesis owned_key : ∀ k r, owned !! k = Some r → Key r = k.

(** The dependencies the search follows. *)
Definition ownedEdge (k k' : string) : Prop := dependsOn resources k k' ∧ k' ∈ dom owned.
Hypothesis acyclic : ∀ k, ¬ tc (dependsOn resources) k k.

Definition keysOf (l : list ResourceRef) : list string := Key <$> l.

(** Every dependency comes before the resources that need it. *)
Definition depsFirst (l : list ResourceRef) : Prop :=
  ∀ i r k, l !! i = Some r → ownedEdge (Key r) k → ∃ j r', (j < i)%nat ∧ l !! j = Some r' ∧ Key r' = k.

(** The state of the search, with the keys [S] of the pending calls. *)
Record orderInv (S : gset string) (st : gset string * list ResourceRef) : Prop := {
  oi_nodup : NoDup (keysOf st.2);
  oi_visited k : k ∈ st.1 ↔ k ∈ S ∨ k ∈ keysOf st.2;
  oi_pending k : k ∈ S → k ∉ keysOf st.2;
  oi_owned k : k ∈ st.1 → k ∈ dom owned;
  oi_order : depsFirst st.2 }.

Lemma depsFirst_snoc l r :
  depsFirst l → (∀ k, ownedEdge (Key r) k → k ∈ keysOf l) → depsFirst (l ++ [r]).
Proof.
  intros Hl Hr i r0 k Hi He. apply lookup_snoc_Some in Hi as [[Hlt Hi]|[-> <-]].
  - destruct (Hl i r0 k Hi He) as (j&r'&?&Hj&?). exists j, r'. split_and!; [done| |done].
    by apply lookup_app_l_Some.
  - apply Hr, list_elem_of_fmap in He as (r'&->&(j&Hj)%list_elem_of_lookup). exists j, r'.
    pose proof (lookup_lt_Some _ _ _ Hj). split_and!; [done| |done]. by apply lookup_app_l_Some.
Qed.

(** The fuel covers the owned keys that were not visited. *)
Definition room (fuel : nat) (st : gset string * list ResourceRef) : Prop := (size (dom owned ∖ st.1) < fuel)%nat.

Lemma room_mono fuel st st' : room fuel st → st.1 ⊆ st'.1 → room fuel st'.
Proof. unfold room. intros Hr Hs. eapply Nat.le_lt_trans; [|exact Hr]. apply subseteq_size. set_solver. Qed.

(** One step of the loops: visit the key if it is owned. *)
Definition follow (fuel : nat) (st : gset string * list ResourceRef) (k : string) : gset string * list ResourceRef :=
  match owned !! k with
  | Some ownedRef => orderVisit resources owned fuel ownedRef st
  | None => st
  end.

(** The statement for one fuel. *)
Definition visitOk (fuel : nat) : Prop := ∀ S ref st,
  orderInv S st → room fuel st → owned !! Key ref = Some ref →
  (∀ k, k ∈ S → tc (dependsOn resources) k (Key ref)) →
  let st' := orderVisit resources owned fuel ref st in
  orderInv S st' ∧ st.1 ⊆ st'.1 ∧ Key ref ∈ st'.1.

Lemma follow_ok fuel S key st :
  visitOk fuel → orderInv S st → room fuel st → (∀ k, k ∈ S → tc (dependsOn resources) k key) →
  let st' := follow fuel st key in
  orderInv S st' ∧ st.1 ⊆ st'.1 ∧ (key ∈ dom owned → key ∈ st'.1).
Proof.
  intros Hv Hi Hr HS. unfold follow. destruct (owned !! key) as [r|] eqn:Ho.
  - pose proof (owned_key _ _ Ho) as <-. destruct (Hv S r st) as (?&?&?); done.
  - split_and!; [done..|]. intros Hd%elem_of_dom. rewrite Ho in Hd. by destruct Hd.
Qed.

Lemma follows_ok fuel S ks st :
  visitOk fuel → orderInv S st → room fuel st → (∀ k k', k ∈ S → k' ∈ ks → tc (dependsOn resources) k k') →
  let st' := foldl (follow fuel) st ks in
  orderInv S st' ∧ st.1 ⊆ st'.1 ∧ ∀ k, k ∈ ks → k ∈ dom owned → k ∈ st'.1.
Proof.
  intros Hv. revert st. induction ks as [|k ks IH]; intros st Hi Hr HS; simpl.
  { split_and!; [done..|]. by intros k ?%not_elem_of_nil. }
  destruct (follow_ok fuel S k st Hv Hi Hr) as (Hi1&Hs1&Hk1). { intros k' Hk'. apply HS; [done|by left]. }
  destruct (IH (follow fuel st k)) as (Hi2&Hs2&Hk2); [done|by eapply room_mono| |].
  { intros k1 k2 ? ?. apply HS; [done|by right]. }
  split_and!; [done|set_solver|]. intros k' [->|?]%elem_of_cons ?; [set_solver|auto].
Qed.

Lemma orderInv_enter S V P key :
  orderInv S (V, P) → key ∉ V → key ∈ dom owned → orderInv ({[key]} ∪ S) ({[key]} ∪ V, P).
Proof.
  intros [Hn Hv Hp Ho Hord] Hk Hd. split; simpl in *; [done| | | |done].
  - intros k. specialize (Hv k). set_solver.
  - intros k [->%elem_of_singleton|?]%elem_of_union; [|by apply Hp]. intros ?. apply Hk, Hv. by right.
  - set_solver.
Qed.

Lemma orderInv_leave S st ref :
  orderInv ({[Key ref]} ∪ S) st → Key ref ∉ S →
  (∀ k, ownedEdge (Key ref) k → k ∈ keysOf st.2) → orderInv S (st.1, st.2 ++ [ref]).
Proof.
  intros [Hn Hv Hp Ho Hord] HS Hdeps.
  assert (keysOf (st.2 ++ [ref]) = keysOf st.2 ++ [Key ref]) as Hk by (unfold keysOf; by rewrite fmap_app).
  assert (Key ref ∉ keysOf st.2) as Hnew by (apply Hp; set_solver).
  split; simpl; [| | |done|by apply depsFirst_snoc]; rewrite Hk.
  - apply NoDup_app. split_and!; [done|set_solver|apply NoDup_singleton].
  - intros k. rewrite Hv. set_solver.
  - intros k HkS [?|Hx]%elem_of_app; [eapply Hp; [|done]; set_solver|].
    by apply list_elem_of_singleton in Hx as ->.
Qed.

Lemma follow_deps fuel st (ds : list DependencySpec) :
  foldl (λ st d, match owned !! Key (dep_Ref d) with
                 | Some ownedRef => orderVisit resources owned fuel ownedRef st
                 | None => st
                 end) st ds = foldl (follow fuel) st (depKey <$> ds).
Proof. revert st. induction ds as [|d ds IH]; intros st; simpl; [done|apply IH]. Qed.

Lemma visit_ok fuel : visitOk fuel.
Proof.
  induction fuel as [|fuel IH]; intros S ref [V P] Hi Hr Ho HS; [unfold room in Hr; lia|]. simpl.
  case_bool_decide as Hin; [done|]. rewrite follow_deps.
  assert (Key ref ∉ S) as HnS by (intros Hk; by eapply acyclic, HS).
  pose proof (orderInv_enter _ _ _ _ Hi Hin (elem_of_dom_2 _ _ _ Ho)) as Hi1.
  assert (room fuel ({[Key ref]} ∪ V, P)) as Hr1.
  { unfold room in *. simpl in *. apply elem_of_dom_2 in Ho.
    assert (size (dom owned ∖ ({[Key ref]} ∪ V)) < size (dom owned ∖ V))%nat by (apply subset_size; set_solver). lia. }
  assert (∀ k k', k ∈ {[Key ref]} ∪ S → dependsOn resources (Key ref) k' → tc (dependsOn resources) k k') as HS1.
  { intros k k' [Hk%elem_of_singleton|Hk]%elem_of_union He; [subst; by apply tc_once|]. eapply tc_r; [by apply HS|done]. }
  destruct (follows_ok fuel ({[Key ref]} ∪ S) (depKey <$> dependenciesOf resources (Key ref)) _ IH Hi1 Hr1)
    as (Hi2&Hs2&Hd2); [auto|]. set (st2 := foldl _ _ _) in *. simpl in *.
  split_and!; [|set_solver|set_solver]. apply orderInv_leave; [done|done|]. intros k [He Hk].
  specialize (Hd2 k He Hk). apply (oi_visited _ _ Hi2) in Hd2 as [Hx|?]; [|done].
  exfalso. by eapply acyclic, HS1.
Qed.

Lemma visitOwned_ok refs :
  let st := visitOwned resources owned refs in
  orderInv ∅ st ∧ ∀ ref, ref ∈ refs → Key ref ∈ dom owned → Key ref ∈ keysOf st.2.
Proof.
  assert (visitOwned resources owned refs = foldl (follow (S (size owned))) (∅, []) (Key <$> refs)) as ->.
  { unfold visitOwned. generalize (∅ : gset string, [] : list ResourceRef).
    induction refs as [|r refs IH]; intros st; simpl; [done|apply IH]. }
  destruct (follows_ok (S (size owned)) ∅ (Key <$> refs) (∅, [])) as (Hi&_&Hk); [apply visit_ok| | |set_solver|].
  - split; simpl; [apply NoDup_nil_2|set_solver..|]. intros i r k Hi. by rewrite lookup_nil in Hi.
  - unfold room. rewrite <- size_dom. apply Nat.lt_succ_r, subseteq_size. set_solver.
  - split; [done|]. intros ref Hr Hd. assert (Key ref ∈ Key <$> refs) as Hin by (by apply list_elem_of_fmap_2).
    specialize (Hk _ Hin Hd). apply (oi_visited _ _ Hi) in Hk. set_solver.
Qed.
End search.

(** ** The resources a session still uses *)

Lemma ownedRefs_spec state h :
  (∀ k r, ownedRefs state h !! k = Some r → Key r = k) ∧
  ∀ k, k ∈ dom (ownedRefs state h) ↔ ∃ ref, ref ∈ orderOf state h ∧ Key ref = k ∧ isUser state h ref = true.
Proof.
  unfold ownedRefs. generalize (orderOf state h) as refs. intros refs.
  induction refs as [|ref refs [IH1 IH2]] using rev_ind; simpl.
  { split; [done|]. intros k. rewrite dom_empty. split; [by intros ?%elem_of_empty|by intros (?&?%not_elem_of_nil&_)]. }
  rewrite foldl_app. simpl. setoid_rewrite elem_of_app. setoid_rewrite list_elem_of_singleton.
  destruct (isUser state h ref) eqn:Hu.
  - split; [intros k r; rewrite lookup_insert; case_decide; [by intros [= <-]|apply IH1]|].
    intros k. rewrite dom_insert, elem_of_union, elem_of_singleton, IH2.
    split; [intros [->|(r&?&?&?)]; eauto 6|]. intros (r&[Hr|Hr]&<-&?); [right; eauto|left; by rewrite Hr].
  - split; [done|]. intros k. rewrite IH2. split; [intros (r&?&?&?); eauto 6|].
    intros (r&[Hr|Hr]&<-&?); [eauto|congruence].
Qed.

Definition heldBy (state : registryEnvironment) (h : string) (k : string) : Prop :=
  ∃ ref, ref ∈ orderOf state h ∧ Key ref = k ∧ isUser state h ref = true.

(** C25: a finishing session releases exactly the resources it still uses,
    each once, and every resource before those it depends on, when the
    journalled resources are valid under the catalog and have distinct keys. *)
Theorem releaseOrder_dependents_first state h :
  let rs := j_Resources (re_journal state) in
  let l := releaseOrderForHandleLocked state h in
  Forall (λ r, validateResource r true = Ok tt) rs → NoDup (rkey <$> rs) →
  NoDup (Key <$> l) ∧ (∀ k, k ∈ Key <$> l ↔ heldBy state h k) ∧
  ∀ i r k, l !! i = Some r → dependsOn (indexAll rs) (Key r) k → heldBy state h k →
    ∃ j r', (i < j)%nat ∧ l !! j = Some r' ∧ Key r' = k.
Proof.
  intros rs l Hv Hnd. destruct (ownedRefs_spec state h) as [Hk Hdom].
  destruct (visitOwned_ok (indexAll rs) (ownedRefs state h) Hk (catalog_acyclic rs true Hv Hnd) (orderOf state h))
    as [[Hn Hvis _ Ho Hord] Hall].
  unfold l, releaseOrderForHandleLocked. fold rs. set (st := visitOwned _ _ _) in *. unfold heldBy. split_and!.
  - by rewrite fmap_reverse, reverse_Permutation.
  - intros k. rewrite fmap_reverse, elem_of_reverse, <- Hdom. split.
    + intros Hin. apply Ho, Hvis. by right.
    + intros Hd. pose proof Hd as Hd'. apply Hdom in Hd' as (ref&Hin&<-&Hu). by apply Hall.
  - intros i r k Hi He Hheld. apply Hdom in Hheld. apply reverse_lookup_Some in Hi as [Hi Hlt].
    destruct (Hord _ _ k Hi) as (j&r'&Hj&Hl&Hk'); [by split|].
    exists (length st.2 - S j)%nat, r'. split_and!; [lia| |done].
    apply reverse_lookup_Some. split; [|lia]. by replace (length st.2 - S (length st.2 - S j))%nat with j by lia.
Qed.

Module SampleOrder.
Definition state : registryEnvironment :=
  let users := {["s1"]} : gset string in
  let refs := [res_Ref Sample.root; Sample.sessionRef; res_Ref Sample.supervisor] in
  zeroEnv <| re_journal ::= λ j, j <| j_Resources := [Sample.root; Sample.session; Sample.supervisor] |> |>
          <| re_resourceOrder := {["s1" := refs]} |>
          <| re_resourceUsers := list_to_map ((λ r, (Key r, users)) <$> drop 1 refs) |>.
End SampleOrder.

Lemma releaseOrder_dependents_first_witness :
  releaseOrderForHandleLocked SampleOrder.state "s1" = [res_Ref Sample.supervisor; Sample.sessionRef] ∧
  ∃ j r', (0 < j)%nat ∧ releaseOrderForHandleLocked SampleOrder.state "s1" !! j = Some r' ∧ Key r' = Key Sample.sessionRef.
Proof.
  split; [vm_compute; reflexivity|].
  apply (releaseOrder_dependents_first SampleOrder.state "s1") with (i := 0%nat) (r := res_Ref Sample.supervisor).
  - repeat constructor.
  - apply (bool_decide_unpack _). vm_compute. exact I.
  - vm_compute. reflexivity.
  - vm_compute. right. left.
  - exists Sample.sessionRef. split; [|split; vm_compute; reflexivity]. vm_compute. right. left.
Defined.
