(* ===== verification/LifecycleReconcileSpec.v ===== *)
(** * What reconciliation concludes

    [Reconcile] of [internal/lifecycle/reconcile.go] fails closed: it leaves
    an environment open for attaches only on proof, never by default. *)
From S2P Require Import Prelude GoStrings GoTime LifecycleModel LifecycleGraph LifecycleJournal LifecycleStatus LifecycleMutation.
From S2P Require Import LifecycleCoordinator LifecycleRegistry LifecycleAttach LifecycleStop LifecycleDisposalOps LifecycleReconcile LifecycleSample.
From S2P Require Import LifecycleFrame LifecycleInvariant LifecycleSafety LifecycleRules.

#[export] Hint Unfold setReconciliation resetEnvironment setReconciling : statements.

(** The proof that an environment is open: the backend is stopped or absent,
    or it runs as the recorded incarnation and neither an owner record nor an
    unproved provider of an earlier daemon is left. *)
Definition openOnProof (input : ReconcileInput) (recorded : option EnvironmentRef) : Prop :=
  terminalObservation (ri_Observation input) = true ∨
  (∃ inc, recorded = Some inc ∧ er_InstanceName inc = ri_InstanceName input ∧
     er_BootID inc = obs_BootID (ri_Observation input)) ∧
  ri_AdditionalUnproved input = false ∧ ri_OwnerSessionIDs input = [].

Definition openedBy (input : ReconcileInput) (recorded : option EnvironmentRef) (p : Coordinator * res ()) : Prop :=
  ∀ e, c_environments p.1 !! ri_EnvironmentID input = Some e → re_blocked e = false → openOnProof input recorded.

(** A section that ends with the environment blocked. *)
Lemma openedBy_blocked env input recorded c e d s r :
  env = ri_EnvironmentID input → At env c e d s → re_blocked e = true → openedBy input recorded (c, r).
Proof. intros -> [He _ _] Hb e' He' Hb'. simpl in He'. congruence. Qed.

Lemma finishBlocked_blocked input recorded k r t c e d s :
  At (ri_EnvironmentID input) c e d s → re_blocked e = true →
  openedBy input recorded (finishBlocked (ri_EnvironmentID input) k r t c).
Proof.
  intros Hat Hb. unfold finishBlocked. set (Q := openedBy input recorded). match goal with |- ?q (?m c) => change (Q (m c)) end.
  sym. destruct (Store_Write _ _ _).2; [|by eapply openedBy_blocked].
  sym. apply rule_last. sym. by eapply openedBy_blocked.
Qed.

Lemma openedBy_proof input recorded p : openOnProof input recorded → openedBy input recorded p.
Proof. by intros Hp e _ _. Qed.

Lemma classify_opens input c e d s :
  At (ri_EnvironmentID input) c e d s →
  openedBy input (j_Incarnation (re_journal e)) (classifyEnvironment input c).
Proof.
  intros Hat. set (recorded := j_Incarnation (re_journal e)). set (Q := openedBy input recorded).
  change (Q (classifyEnvironment input c)). unfold classifyEnvironment. sym.
  assert (terminalObservation (ri_Observation input) = true → ∀ p, Q p) as Hterm.
  { intros Ht p. apply openedBy_proof. by left. }
  unfold terminalObservation in Hterm. sym_case Ho; [|by apply Hterm..| |].
  2: { sym. eapply finishBlocked_blocked; [exact Hat|done]. }
  all: sym; sym_case Hex; [|sym; eapply finishBlocked_blocked; [exact Hat|done]].
  all: assert (∃ inc, recorded = Some inc ∧ er_InstanceName inc = ri_InstanceName input ∧
     er_BootID inc = obs_BootID (ri_Observation input)) as Hrec.
  1, 3: simpl in Hex; fold recorded in Hex; destruct recorded as [inc|]; [|done];
     destruct (_ && _) eqn:Hb; [|done]; bool_prop; eauto.
  all: unfold reconcileExact; sym; sym_case Hu.
  2, 4: sym; eapply finishBlocked_blocked; [exact Hat|done].
  all: sym; sym_case Hown; [sym; eapply finishBlocked_blocked; [exact Hat|done]|].
  all: apply openedBy_proof; right; bool_prop; done.
Qed.

Lemma claimReconcile_envs env c : c_environments (claimReconcile env c).1 = c_environments c.
Proof.
  unfold claimReconcile, normalizeM, claimM, mbind, SE_bind, when. simpl.
  destruct (normalizeMutationRequest _ _) as [req|]; simpl; [|done].
  destruct (IsZero _); simpl; destruct (claimMutationKeysLocked _ _) as [t [l|]]; done.
Qed.

Lemma finishReconciliation_blocked env c e' :
  c_environments (finishReconciliationLocked env c).1 !! env = Some e' →
  ∃ e, c_environments c !! env = Some e ∧ re_blocked e' = re_blocked e.
Proof.
  unfold finishReconciliationLocked, mbind, SE_bind. simpl. destruct (negb _); simpl; [by eauto|].
  destruct (re_reconcileLease _); simpl; rewrite lookup_alter_eq; intros (e&?&->)%fmap_Some; eauto.
Qed.

(** C13: a successful reconciliation leaves an environment open for attaches
    only on proof: the backend is observed stopped or absent, or it runs as
    the very incarnation on record with no unproved provider and no owner
    record left.  Every other outcome leaves the environment blocked. *)
Theorem reconcile_opens_on_proof ctx input c c1 c' e e' :
  loadEnvironmentLocked (ri_EnvironmentID input) c = (c1, Ok e) →
  Reconcile ctx input c = (c', Ok tt) →
  c_environments c' !! ri_EnvironmentID input = Some e' → re_blocked e' = false →
  openOnProof input (j_Incarnation (re_journal e)).
Proof.
  intros Hl Hr He Hb. revert Hr. set (Q := λ p : Coordinator * res (), p = (c', Ok tt) →
    openOnProof input (j_Incarnation (re_journal e))).
  change (Q (Reconcile ctx input c)). unfold Reconcile.
  run_step H0; [|intros [=]]. apply lift_run in H0 as [-> _]. sym_case Hi; [intros [=]|].
  run_step H1; [|intros [=]]. apply lift_run in H1 as [-> _]. sym_case Hn; [intros [=]|].
  run_step H2; [|intros [=]]. apply requireOpen_ok in H2 as [-> _]. apply rule_getC.
  run_step H3; [|intros [=]]. rewrite Hl in H3. injection H3 as <- <-.
  apply loadEnvironment_ok in Hl as (_&_&Hat%At_intro).
  assert (∀ c e0 d s, At (ri_EnvironmentID input) c e0 d s → re_journal e0 = re_journal e →
    Q (finally (classifyEnvironment input) (λ c, (finishReconciliationLocked (ri_EnvironmentID input) c).1) c)) as Hfin.
  { clear -He Hb. intros c e0 d s Hat Hj [= <- _]. apply finishReconciliation_blocked in He as (e1&He1&Hb1).
    rewrite Hb in Hb1. rewrite <- Hj. eapply classify_opens; eauto. }
  destruct (re_reconciling e); [by eapply Hfin|]. apply rule_assoc.
  run_step H4; [|intros [=]]. destruct a2 as [lease owner].
  pose proof (claimReconcile_envs (ri_EnvironmentID input) c1) as Henv. rewrite H4 in Henv. simpl in Henv.
  apply at_env in Hat. rewrite <- Henv in Hat. apply At_intro in Hat. sym_case Hc.
  - apply rule_assoc. sym. apply run_cases. unfold failConflict, mbind, SE_bind. simpl.
    destruct (environmentConflictLocked _ _ _ _ _) as [? [?|?]]; intros [=].
  - sym. by eapply Hfin.
Qed.
Import SampleCoordinator.

Module SampleReconcile.
Definition input : ReconcileInput := mkReconcileInput "dev" "vm-dev" stopped [] false.
Definition loaded : Coordinator * res registryEnvironment := loadEnvironmentLocked "dev" start.
Definition result : Coordinator := (Reconcile None input start).1.
End SampleReconcile.

Lemma reconcile_opens_on_proof_witness :
  openOnProof SampleReconcile.input (j_Incarnation (re_journal (envOf SampleReconcile.loaded.1))).
Proof.
  apply (reconcile_opens_on_proof None SampleReconcile.input start SampleReconcile.loaded.1 SampleReconcile.result
    (envOf SampleReconcile.loaded.1) (envOf SampleReconcile.result)); vm_compute; reflexivity.
Defined.
