(* ===== verification/LifecycleAttachSpec.v ===== *)
(** * What attaching a session selects

    [Prepare] of [internal/lifecycle/establishment.go]: sessions that share an
    environment share one backend incarnation, and a new incarnation starts
    from an empty resource graph under a new generation. *)
From S2P Require Import Prelude GoStrings GoTime LifecycleModel LifecycleGraph LifecycleJournal LifecycleStatus LifecycleMutation.
From S2P Require Import LifecycleCoordinator LifecycleRegistry LifecycleAttach LifecycleStop LifecycleDisposalOps LifecycleReconcile LifecycleSample.
From S2P Require Import LifecycleFrame LifecycleInvariant LifecycleSafety LifecycleRules.

Lemma quietly_modEst a f : quietly (modEst a f).
Proof. intros c. by exists tt. Qed.
#[export] Hint Resolve quietly_modEst : quiet.

(** The recorded incarnation is kept: same generation, and the resources of
    the other sessions stay. *)
Definition incarnationKept (request : AttachRequest) (before after : registryEnvironment) (inc : EnvironmentRef) : Prop :=
  j_Incarnation (re_journal before) = Some inc ∧ j_Incarnation (re_journal after) = Some inc ∧
  (j_StartGeneration (re_journal before) ≠ 0 →
   j_StartGeneration (re_journal after) = j_StartGeneration (re_journal before)) ∧
  ∀ r, r ∈ j_Resources (re_journal before) →
    rkey r ≠ Key (mkRef KindBackendIncarnation (ar_EnvironmentID request) (er_StartGeneration inc)) →
    r ∈ j_Resources (re_journal after).

(** A new incarnation: nobody is attached, the generation advances, and only
    the root is left of the resource graph. *)
Definition incarnationNew (before after : registryEnvironment) (inc : EnvironmentRef) : Prop :=
  re_handles before = ∅ ∧ j_Incarnation (re_journal after) = Some inc ∧
  er_StartGeneration inc = nextGeneration (j_StartGeneration (re_journal before)) ∧
  j_StartGeneration (re_journal after) = er_StartGeneration inc ∧
  (∃ root, j_Resources (re_journal after) = [root] ∧ rr_Kind (res_Ref root) = KindBackendIncarnation) ∧
  re_resourceUsers after = ∅ ∧ j_StopAttempt (re_journal after) = None.

Lemma matches_reuse inc request :
  obs_InstanceName (ar_Observation request) = ar_InstanceName request →
  observationMatchesIncarnation inc (ar_Observation request) = true → reuseIncarnation inc request = true.
Proof.
  unfold observationMatchesIncarnation, reuseIncarnation. intros <-. destruct inc as [inc|]; [|done].
  destruct (String.eqb (er_InstanceName inc) _); simpl; [|done]. destruct (obs_State _); try done. by intros [_ ?]%andb_true_iff.
Qed.

Lemma upsertResource_keeps root rs r :
  r ∈ rs → rkey r ≠ rkey root → r ∈ upsertResource root rs.
Proof.
  intros Hr Hk. unfold upsertResource. destruct (find_index _ _) as [[i r0]|] eqn:Hf.
  - apply find_index_Some in Hf as [Hi Heq]. apply list_elem_of_lookup in Hr as [j Hj].
    apply list_elem_of_lookup. exists j. destruct (decide (i = j)) as [->|Hne].
    + rewrite Hj in Hi. by bool_prop.
    + by rewrite list_lookup_insert_ne.
  - apply elem_of_app. by left.
Qed.

Lemma attachRequest_instance request a :
  Ok a = validateAttachRequest request → obs_InstanceName (ar_Observation request) = ar_InstanceName request.
Proof.
  unfold validateAttachRequest. destruct (_ || _); [done|]. intros Hv. symmetry in Hv.
  apply result_bind_ok in Hv as (_&_&Hv). destruct (negb _) eqn:Hn; [done|]. by bool_prop.
Qed.

Ltac new_incarnation :=
  unfold incarnationNew; simpl; destruct (_ =? 0); split_and!; simpl; first [done | by eexists].

(** preparing an attach either keeps the incarnation on record, with its
    generation and the resources of the sessions that use it, or starts a new
    one; it starts a new one only when no session is attached, with the next
    generation and an empty resource graph. *)
Theorem Prepare_incarnation ctx a request c est before inc :
  c_establishments c !! a = Some est → c_environments c !! es_environment est = Some before →
  (Prepare ctx a request c).2 = Ok inc →
  ∃ after, c_environments (Prepare ctx a request c).1 !! es_environment est = Some after ∧
    re_handles after = re_handles before ∧
    (incarnationKept request before after inc ∨ incarnationNew before after inc).
Proof.
  intros Ha Hb. pose proof (At_intro _ _ _ Hb) as Hat. set (env := es_environment est) in *.
  set (Q := λ p : Coordinator * res EnvironmentRef, p.2 = Ok inc → ∃ after, c_environments p.1 !! env = Some after ∧
    re_handles after = re_handles before ∧ (incarnationKept request before after inc ∨ incarnationNew before after inc)).
  change (Q (Prepare ctx a request c)). unfold Prepare.
  run_step H0; [|intros [=]]. apply lift_run in H0 as [-> _].
  run_step H1; [|intros [=]]. apply lift_run in H1 as [-> Hval].
  run_step H2; [|intros [=]]. apply estOf_ok in H2 as [-> Ha']. rewrite Ha in Ha'. injection Ha' as <-.
  sym_case Hid; [intros [=]|]. sym_case Hph; [intros [=]|].
  run_step H3; [|intros [=]]. apply requireOpen_ok in H3 as [-> _]. fold env. sym.
  sym_case Hact; [|intros [=]]. apply activeEstablishment_ok in Hact as [[= <-] _].
  sym_case Hbl; [intros [=]|]. sym_case Hst; [intros [=]|]. sym_case Hm; [intros [=]|]. sym.
  assert (re_handles before = ∅ ∨ reuseIncarnation (j_Incarnation (re_journal before)) request = true) as Hre.
  { destruct (noHandles before) eqn:Hh; [left; by apply bool_decide_eq_true in Hh|right]. simpl in Hm.
    apply negb_false_iff in Hm. apply matches_reuse; [|done]. by eapply attachRequest_instance. }
  unfold selectIncarnationLocked. sym. sym_case Hj; simpl in Hj; [sym_case Hru|]; sym;
    intros [= <-]; (eexists; split; [apply (at_env _ _ _ _ _ Hat)|]; split; [done|]).
  - left. split_and!; [done|simpl..].
    + by destruct (_ =? 0).
    + by destruct (j_StartGeneration (re_journal before) =? 0) eqn:Hz; [apply Z.eqb_eq in Hz|].
    + intros r Hr Hk. apply upsertResource_keeps; [by destruct (_ =? 0)|done].
  - right. rewrite Hj in Hre. destruct Hre as [Hre|Hre]; [|by rewrite Hre in Hru]. new_incarnation.
  - right. rewrite Hj in Hre. destruct Hre as [Hre|Hre]; [|done]. new_incarnation.
Qed.
Import SampleCoordinator.

(** [session-b] joins the environment [session-a] uses. *)
Module SampleAttach.
Definition reserved : Coordinator :=
  (reserveRound (estRequest "session-b") (mutationRequest "session-b") true "" attached).1.
Definition est : establishment := default (mkEstablishment "" "" None establishmentAborted zeroEnvRef zeroRef)
  (c_establishments reserved !! 3%nat).
End SampleAttach.

Lemma Prepare_incarnation_witness :
  ∃ after, c_environments (Prepare None 3 (attachRequest "session-b") SampleAttach.reserved).1 !! "dev" = Some after ∧
    re_handles after = re_handles (envOf SampleAttach.reserved) ∧
    (incarnationKept (attachRequest "session-b") (envOf SampleAttach.reserved) after incarnation ∨
     incarnationNew (envOf SampleAttach.reserved) after incarnation).
Proof.
  apply (Prepare_incarnation None 3 (attachRequest "session-b") SampleAttach.reserved SampleAttach.est);
    vm_compute; reflexivity.
Defined.
