(* ===== verification/LifecycleFindings.v ===== *)
(** * States the coordinator does not recover from

    What the code does after one failing write, once the disk works again: two
    theorems over every state of the coordinator, and concrete runs. *)
From S2P Require Import Prelude StateRules GoStrings GoTime LifecycleModel LifecycleGraph LifecycleJournal LifecycleStatus LifecycleMutation.
From S2P Require Import LifecycleCoordinator LifecycleRegistry LifecycleAttach LifecycleStop LifecycleDisposalOps LifecycleReconcile LifecycleSample LifecycleFrame.
Import SampleCoordinator.

Module SampleFailure.
Definition failing (c : Coordinator) : Coordinator := c <| c_io := λ _, IoFailUnchanged |>.
Definition working (c : Coordinator) : Coordinator := c <| c_io := λ _, IoOk |>.

(** [session-a] prepares on a stopped backend, then the attach is aborted
    while the disk fails. *)
Definition prepared : Coordinator :=
  (Prepare None 1 (mkAttach "dev" "vm-dev" "session-a" stopped)
     (reserveRound (estRequest "session-a") (mutationRequest "session-a") true "" start).1).1.
Definition aborted : Coordinator := working (Abort 1 None (failing prepared)).1.

(** The disk fails when the checkpoint of an idle environment is written;
    then the idle deadline expires. *)
Definition blocked : Coordinator := working (checkpointFired "dev" 0 (re_checkpointSeq (envOf idle)) (failing idle)).1.
Definition expired : Coordinator := (expire "dev" incarnation 1 blocked).1.

(** An idle environment whose deadline is cancelled. *)
Definition undeadlined : Coordinator := (cancelDeadlineLocked "dev" idle).1.
(** The disk fails when an explicit stop records its attempt; the lease is
    released on return. *)
Definition failedStop : Coordinator :=
  releaseC 1 (working (StopExplicit_begin "dev" (failing undeadlined)).1).
End SampleFailure.

Import SampleFailure.

Definition refused {A} (r : res A) : bool := negb (is_ok r).

(** ** An abort that fails *)

Lemma emitLocked_runs env g k r t c : ∃ c', emitLocked env g k r t c = (c', Ok tt).
Proof.
  unfold emitLocked, lookupEnv, mbind, SE_bind. cbn. destruct (c_environments c !! env) as [state|]; [|by eexists].
  unfold statusLocked, mbind, SE_bind. destruct (_ || _); eexists; cbn; reflexivity.
Qed.
(** An abort fails only when the write of [scheduleIfIdleLocked] does, after
    steps that neither claim nor attach. *)
Lemma Abort_failed a est cause c c' e :
  c_establishments c !! a = Some est → Abort a cause c = (c', Err e) →
  ∃ c1, shrink c c1 ∧ c' = c1 <| c_establishments ::= alter (λ x, x <| es_phase := establishmentAborted |>) a |>.
Proof.
  intros Ha. unfold Abort. intros H. apply bind_inv in H as [(c0&est'&H0&H)|(e'&H0&_)];
    unfold estOf, mbind, SE_bind, getC, get_state in H0; cbn in H0; rewrite Ha in H0; [|done]. injection H0 as <- <-.
  case_bool_decide; [done|]. apply bind_inv in H as [(c2&found&[= <- <-]&H)|(?&?&_)]; [|done].
  apply bind_inv in H as [(c1&u&H1&H)|(e1&H1&_)].
  { apply bind_inv in H as [(c2&[]&H2&H)|(e2&H2&_)]; [|by destruct (es_lease est)]. by apply bind_inv in H as [(?&?&_&?)|(?&?&_)]. }
  destruct (activeEstablishment _ est a) as [state|]; [|done].
  apply bind_inv in H1 as [(c3&[]&H3&H1)|(?&?&_)]; [|done].
  apply (quiet_run shrink) in H3 as S3; [|apply modEnv_shrink; env_shrink]. clear H3.
  apply bind_inv in H1 as [(c4&now&H4&H1)|(?&?&_)]; [|done]. apply (quiet_run shrink) in H4 as S4; [|apply nowUTC_shrink]. clear H4.
  apply bind_inv in H1 as [(c5&[]&H5&H1)|(?&H5&_)];
    [|destruct (emitLocked_runs (es_environment est) (j_StartGeneration (re_journal state)) "attach-establishment-aborted"
        (establishmentAbortReason cause) now c4) as [? E]; by rewrite E in H5].
  apply (quiet_run shrink) in H5 as S5; [|apply emitLocked_shrink]. clear H5.
  apply bind_inv in H1 as [(c6&c7&[= <- <-]&H1)|(?&?&_)]; [|done].
  apply bind_inv in H1 as [(c8&st&[= <- <-]&H1)|(?&?&_)]; [|done].
  destruct (_ && _); [|done]. destruct (_ && _); [done|].
  apply bind_inv in H1 as [(c9&r&H9%attempt_ok&H1)|(?&?&_)]; [|by unfold attempt in *; destruct (scheduleIfIdleLocked _ _)].
  apply (quiet_run shrink) in H9 as S9; [|apply scheduleIfIdleLocked_shrink].
  destruct r; [done|]. injection H1 as <- _. exists c9. split; [by do 3 (etrans; [done|])|done].
Qed.


(** ** A deadline that expires after a failed checkpoint *)

Lemma persistLocked_keeps env c c' r state :
  persistLocked env c = (c', r) → c_environments c !! env = Some state →
  ∃ state', c_environments c' !! env = Some state' ∧ re_blocked state' = re_blocked state ∧
    j_Reconciliation (re_journal state') = j_Reconciliation (re_journal state) ∧
    j_IdleDeadline (re_journal state') = j_IdleDeadline (re_journal state).
Proof.
  unfold persistLocked. intros H He. apply bind_inv in H as [(c1&now&[= <- <-]&H)|(?&?&_)]; [|done].
  apply bind_inv in H as [(c2&[]&[= <-]&H)|(?&?&_)]; [|done].
  apply bind_inv in H as [(c3&st&[= <- <-]&H)|(?&?&_)]; [|done].
  unfold storeWrite in H. destruct (Store_Write _ _ _) as [disk x]. injection H as <- <-. cbn [c_environments].
  eexists. split; [simpl; by rewrite lookup_alter_eq, He|done].
Qed.

(** C32: The expiry of a current idle deadline clears the block of an environment
    whose reconciliation is not complete, a failed checkpoint for one: with a
    backend observed running and a valid graph, [blocked] is unset although the
    recorded reconciliation stays as it was. *)
Theorem expire_unblocks_failed_checkpoint env incarnation sequence c state observation evaluation :
  c_environments c !! env = Some state → isOpen c → re_mutation state = false → noEstablishing state = true →
  noHandles state = true → deadlineCurrent state incarnation sequence = true →
  rc_State (j_Reconciliation (re_journal state)) ≠ "complete" →
  currentIncarnationObservation state = Ok observation →
  EvaluateAutoStop (mkInput incarnation (j_Resources (re_journal state)) observation false true false true) = Ok evaluation →
  ∃ state', c_environments (expire env incarnation sequence c).1 !! env = Some state' ∧
    re_blocked state' = false ∧ j_Reconciliation (re_journal state') = j_Reconciliation (re_journal state) ∧
    j_IdleDeadline (re_journal state') = j_IdleDeadline (re_journal state).
Proof.
  intros He [Hc1 Hc2] Hm Hes Hh Hd Hr Ho Hev.
  assert (ev_Allowed evaluation = false) as Ha.
  { unfold EvaluateAutoStop in Hev. apply result_bind_ok in Hev as (?&_&Hev). apply result_bind_ok in Hev as (?&_&Hev).
    apply result_bind_ok in Hev as (?&_&Hev). destruct (String.eqb _ ""); [done|]. injection Hev as <-. cbn [ev_Allowed].
    apply bool_decide_eq_false. intros H. do 3 (apply app_nil in H as [_ H]). done. }
  unfold expire, mbind at 1, SE_bind at 1, getC, get_state. cbn [fst snd]. unfold mbind at 1, SE_bind at 1, lookupEnv.
  rewrite He. cbn [fst snd]. rewrite Hc1, Hc2, Hm, Hes, Hd, Hh. cbn [negb orb]. rewrite Ho.
  assert (reconciliationComplete state = false) as -> by by apply String.eqb_neq. rewrite Hev, Ha. cbn [negb orb].
  unfold mbind at 1, SE_bind at 1, setBlocked, modEnv at 1, modify at 1. cbn [fst snd].
  unfold mbind at 1, SE_bind at 1, ignore_err. set (c1 := c <| c_environments ::= _ |>).
  destruct (persistLocked env c1) as [c2 r] eqn:E. cbn [fst snd mret SE_ret].
  assert (c_environments c1 !! env = Some (state <| re_blocked := false |>)) as H1 by (unfold c1; cbn; by rewrite lookup_alter_eq, He).
  destruct (persistLocked_keeps env c1 c2 r _ E H1) as (state'&?&?&?&?). by exists state'.
Qed.

(** In the sample the next attach is granted. *)
Lemma expire_unblocks_failed_checkpoint_witness :
  re_blocked (envOf blocked) = true ∧
  (∃ state', c_environments (expire "dev" incarnation 1 blocked).1 !! "dev" = Some state' ∧ re_blocked state' = false) ∧
  (reserveRound (estRequest "session-b") (mutationRequest "session-b") true "" blocked).2
    = Err (AttachBlockedError "journal-checkpoint-failed") ∧
  (reserveRound (estRequest "session-b") (mutationRequest "session-b") true "" expired).2 = Ok (Reserved 3).
Proof.
  split; [vm_compute; reflexivity|]. split; [|split; vm_compute; reflexivity].
  destruct (expire_unblocks_failed_checkpoint "dev" incarnation 1 blocked (envOf blocked) (re_observation (envOf blocked))
    (mkEvaluation false [] [] ["reconciliation-incomplete"])) as (state'&H1&H2&_).
  - vm_compute. reflexivity.
  - split; vm_compute; reflexivity.
  - vm_compute. reflexivity.
  - vm_compute. reflexivity.
  - vm_compute. reflexivity.
  - vm_compute. reflexivity.
  - vm_compute. discriminate.
  - vm_compute. reflexivity.
  - vm_compute. reflexivity.
  - exists state'. split; [exact H1|exact H2].
Defined.

(** an explicit stop whose first write fails returns the error, but its
    attempt stays invoked in memory: no attach, no further stop and no
    reconciliation is accepted any more. *)
Lemma explicit_stop_write_failure_wedges :
  (StopExplicit_begin "dev" (failing undeadlined)).2 = Ok (ExplicitDeferred 1 None ErrIO) ∧
  refused (reserveRound (estRequest "session-b") (mutationRequest "session-b") true "" failedStop).2 = true ∧
  (∃ status e, (StopExplicit_begin "dev" failedStop).2 = Ok (ExplicitReturn status e)) ∧
  (BeginReconciliation None "dev" failedStop).2 = Ok false ∧
  refused (Reconcile None (mkReconcileInput "dev" "vm-dev" running [] false) failedStop).2 = true.
Proof. vm_compute. split_and!; eauto. Qed.
