(* ===== verification/WorkspacePath.v ===== *)
(** * Guest workspace paths (src/internal/workspacepath/path.go)

    A workspace is attached under two names, the logical root and an opaque
    physical root derived from its identity.  [Resolve] accepts a guest path
    under either and computes both of its names.  The theorems characterise
    what is accepted, show that no path of one workspace resolves into
    another, and that both names resolve back to the same file. *)
From Stdlib Require Import Ascii.
From S2P Require Import Prelude GoStrings GoPath.

Open Scope list_scope.

Definition LogicalRoot : string := "/workspace".
Definition PhysicalBase : string := "/hideout/workspaces".

Inductive WorkspaceError := ErrIdentityInvalid | ErrPathInvalid | ErrOutsideAttachment.
Inductive Alias := LogicalAlias | PhysicalAlias.
#[global] Instance Alias_eq_dec : EqDecision Alias.
Proof. solve_decision. Defined.

Record Identity := mkIdentity {
  wi_WorkspaceID : string; wi_RelativePath : string; wi_LogicalPath : string;
  wi_PhysicalPath : string; wi_SourceAlias : Alias;
}.
Record Binding := mkBinding {
  wb_WorkspaceID : string; wb_LogicalRoot : string; wb_PhysicalRoot : string;
}.

Definition ValidWorkspaceID (value : string) : bool :=
  HasPrefix value "wrk_" && (String.length value =? 4 + 64)%nat
  && String.eqb (TrimSet is_lower_hex (TrimPrefix value "wrk_")) "".

Definition containsParentElement (value : string) : bool :=
  existsb (String.eqb "..") (SplitSlash value).

(** One root of the loop of [relativeToAlias]. *)
Definition relativeToRoot (candidate root : string) : option string :=
  if String.eqb candidate root then Some "."
  else if HasPrefix candidate (root +:+ "/") then Some (TrimPrefix candidate (root +:+ "/"))
  else None.
Definition relativeToAlias (candidate logicalRoot physicalRoot : string) : option (string * Alias) :=
  match relativeToRoot candidate logicalRoot with
  | Some r => Some (r, LogicalAlias)
  | None => match relativeToRoot candidate physicalRoot with
            | Some r => Some (r, PhysicalAlias)
            | None => None
            end
  end.

Definition Resolve (workspaceID guestPath : string) : result WorkspaceError Identity :=
  guard_err (ValidWorkspaceID workspaceID) ErrIdentityInvalid;;
  guard_err (negb (String.eqb guestPath "" || negb (IsAbs guestPath)
    || ContainsByte guestPath zero || containsParentElement guestPath)) ErrPathInvalid;;
  let physicalRoot := Join PhysicalBase workspaceID in
  match relativeToAlias (Clean guestPath) LogicalRoot physicalRoot with
  | None => Err ErrOutsideAttachment
  | Some (relative, alias) =>
      mret (if String.eqb relative "."
            then mkIdentity workspaceID relative LogicalRoot physicalRoot alias
            else mkIdentity workspaceID relative (Join LogicalRoot relative)
                   (Join physicalRoot relative) alias)
  end.

Definition NewBinding (workspaceID logicalRoot physicalRoot : string) : result WorkspaceError Binding :=
  guard_err (String.eqb logicalRoot LogicalRoot) ErrIdentityInvalid;;
  match Resolve workspaceID physicalRoot with
  | Err _ => Err ErrIdentityInvalid
  | Ok resolved =>
      guard_err (negb (negb (String.eqb (wi_RelativePath resolved) ".")
        || negb (bool_decide (wi_SourceAlias resolved = PhysicalAlias))
        || negb (String.eqb (wi_PhysicalPath resolved) physicalRoot))) ErrIdentityInvalid;;
      mret (mkBinding workspaceID logicalRoot physicalRoot)
  end.

Definition BindingFromPhysicalRoot (logicalRoot physicalRoot : string) : result WorkspaceError Binding :=
  let clean := Clean physicalRoot in
  guard_err (negb (negb (String.eqb clean physicalRoot)
    || negb (String.eqb (Dir clean) PhysicalBase))) ErrIdentityInvalid;;
  NewBinding (Base clean) logicalRoot clean.

Definition Binding_Validate (b : Binding) : result WorkspaceError () :=
  NewBinding (wb_WorkspaceID b) (wb_LogicalRoot b) (wb_PhysicalRoot b);; mret tt.

Definition Binding_Resolve (b : Binding) (guestPath : string) : result WorkspaceError Identity :=
  Binding_Validate b;; Resolve (wb_WorkspaceID b) guestPath.

(** ** Lemmas *)

Lemma TrimPrefix_app p r : TrimPrefix (p +:+ r) p = r.
Proof.
  unfold TrimPrefix. rewrite (proj2 (HasPrefix_iff _ _)) by (by exists r).
  induction p as [|a p IH]; [by destruct r|done].
Qed.

Lemma TrimRightSet_empty f s : TrimRightSet f s = "" → str_forall f s = true.
Proof. destruct s as [|a s]; simpl; [done|]. by destruct (f a && str_forall f s). Qed.

Lemma TrimSet_empty f s : TrimSet f s = "" → str_forall f s = true.
Proof.
  unfold TrimSet. induction s as [|a s IH]; simpl; [done|].
  destruct (f a) eqn:Ha; simpl; [done|]. by rewrite Ha.
Qed.

Lemma hex_noSlash s : str_forall is_lower_hex s = true → noSlash s = true.
Proof.
  apply str_forall_impl. intros a Ha. destruct (Ascii.eqb_spec a slash) as [->|]; [|done].
  by vm_compute in Ha.
Qed.

Lemma ValidWorkspaceID_name id : ValidWorkspaceID id = true → isName id.
Proof.
  unfold ValidWorkspaceID. rewrite !andb_true_iff, String.eqb_eq. intros [[Hp _] Ht].
  apply HasPrefix_iff in Hp as [r ->]. rewrite TrimPrefix_app in Ht.
  apply TrimSet_empty, hex_noSlash in Ht. split; [|done]. by unfold noSlash in *.
Qed.

(** The elements of the two roots. *)
Definition rootElements (alias : Alias) (id : string) : list string :=
  match alias with
  | LogicalAlias => ["workspace"]
  | PhysicalAlias => ["hideout"; "workspaces"; id]
  end.

Lemma fixed_names : Forall isName ["workspace"; "hideout"; "workspaces"].
Proof. repeat constructor; done. Qed.

Lemma root_names alias id : ValidWorkspaceID id = true → Forall isName (rootElements alias id).
Proof.
  intros Hid%ValidWorkspaceID_name. pose proof fixed_names as F.
  inversion F as [|??? F2]; subst. inversion F2 as [|??? F3]; subst. inversion F3; subst.
  destruct alias; simpl; rewrite !Forall_cons, Forall_nil; by split_and!.
Qed.

Lemma physicalRoot_eq id :
  ValidWorkspaceID id = true → Join PhysicalBase id = absPath (rootElements PhysicalAlias id).
Proof.
  intros Hid. pose proof (ValidWorkspaceID_name id Hid) as Hn. pose proof fixed_names as F.
  change (Join (absPath ["hideout"; "workspaces"]) (JoinSlash [id]) = absPath (["hideout"; "workspaces"] ++ [id])).
  apply Join_absPath; [done| |done|by constructor].
  inversion F as [|??? F2]; subst. done.
Qed.

(** The relative path of the elements below a root. *)
Definition relName (rel : list string) : string := if decide (rel = []) then "." else JoinSlash rel.

Lemma absPath_nil_prefix root rest : root ≠ [] → Forall isName root →
  absPath [] ≠ absPath root ∧ absPath [] ≠ absPath root +:+ String slash rest.
Proof.
  intros Hr Fr. assert (JoinSlash root ≠ "") as Hne.
  { intros E. pose proof (SplitSlash_Join root Hr) as Hs. rewrite E in Hs. 
    assert (root = [""]) as ->. { symmetry. apply Hs. eapply Forall_impl; [done|]. by intros x [? _]. }
    inversion Fr as [|?? (_&?&_)]; subst. done. }
  unfold absPath. destruct (JoinSlash root) as [|a s]; [done|]. by split.
Qed.

Lemma relativeToRoot_spec l root r :
  Forall isName l → root ≠ [] → Forall isName root →
  relativeToRoot (absPath l) (absPath root) = Some r ↔ ∃ rel, l = root ++ rel ∧ r = relName rel.
Proof.
  intros Fl Hr Fr. unfold relativeToRoot.
  destruct (decide (l = [])) as [->|Hl].
  { destruct (absPath_nil_prefix root "" Hr Fr) as [H1 _].
    destruct (String.eqb_spec (absPath []) (absPath root)); [done|].
    destruct (HasPrefix _ _) eqn:Hp.
    - apply HasPrefix_iff in Hp as [r' Hp]. rewrite str_app_assoc in Hp.
      by destruct (absPath_nil_prefix root r' Hr Fr).
    - split; [done|]. intros (rel&E&_). by destruct root. }
  destruct (String.eqb_spec (absPath l) (absPath root)) as [E|E].
  { apply absPath_inj in E as ->; [|done..]. split.
    - intros [= <-]. exists []. by rewrite (right_id_L [] (++)).
    - intros (rel&E&->). assert (rel = []) as -> by (apply (app_inv_head root); by rewrite (right_id_L [] (++))).
      done. }
  destruct (HasPrefix _ _) eqn:Hp.
  - apply HasPrefix_iff in Hp as [rest Hp]. rewrite Hp, TrimPrefix_app. rewrite str_app_assoc in Hp.
    apply (absPath_prefix l root rest) in Hp as (l'&->&Hne&->); [|done..]. split.
    + intros [= <-]. exists l'. split; [done|]. unfold relName. by rewrite decide_False.
    + intros (rel&Heq%app_inv_head&->). subst. unfold relName. by rewrite decide_False.
  - split; [done|]. intros (rel&->&->). destruct rel as [|x rel].
    { by rewrite (right_id_L [] (++)) in E. }
    assert (HasPrefix (absPath (root ++ x :: rel)) (absPath root +:+ "/") = true); [|congruence].
    apply HasPrefix_iff. exists (JoinSlash (x :: rel)). rewrite str_app_assoc.
    apply absPath_prefix; [by destruct root|done|done|done|]. by exists (x :: rel).
Qed.

(** ** What [Resolve] accepts *)

(** The identity of the file [rel] of a workspace. *)
Definition identityOf (id : string) (alias : Alias) (rel : list string) : Identity :=
  mkIdentity id (relName rel) (absPath (rootElements LogicalAlias id ++ rel))
    (absPath (rootElements PhysicalAlias id ++ rel)) alias.

Lemma relativeToAlias_spec id l r alias :
  ValidWorkspaceID id = true → Forall isName l →
  relativeToAlias (absPath l) LogicalRoot (Join PhysicalBase id) = Some (r, alias) ↔
  ∃ rel, l = rootElements alias id ++ rel ∧ r = relName rel.
Proof.
  intros Hid Fl. unfold relativeToAlias. rewrite physicalRoot_eq by done.
  change LogicalRoot with (absPath (rootElements LogicalAlias id)).
  pose proof (λ r, relativeToRoot_spec l (rootElements LogicalAlias id) r Fl ltac:(done)
    (root_names LogicalAlias id Hid)) as HL.
  pose proof (λ r, relativeToRoot_spec l (rootElements PhysicalAlias id) r Fl ltac:(done)
    (root_names PhysicalAlias id Hid)) as HP.
  destruct (relativeToRoot _ (absPath (rootElements LogicalAlias id))) as [r1|].
  - destruct (proj1 (HL r1) eq_refl) as (rel1&El&->). destruct alias.
    + split; [intros [= <-]; by exists rel1|]. intros (rel&E&->). rewrite El in E. simpl in E. by simplify_eq.
    + split; [done|]. intros (rel&E&->). rewrite El in E. simpl in E. by simplify_eq.
  - destruct alias.
    + destruct (relativeToRoot _ _); (split; [done|]); intros H%HL; done.
    + rewrite <-HP. destruct (relativeToRoot _ _); naive_solver.
Qed.

Lemma identity_eq id alias rel :
  ValidWorkspaceID id = true → Forall isName rel →
  (if String.eqb (relName rel) "."
   then mkIdentity id (relName rel) LogicalRoot (Join PhysicalBase id) alias
   else mkIdentity id (relName rel) (Join LogicalRoot (relName rel))
     (Join (Join PhysicalBase id) (relName rel)) alias) = identityOf id alias rel.
Proof.
  intros Hid Frel. rewrite physicalRoot_eq by done. unfold identityOf, relName.
  destruct (decide (rel = [])) as [->|Hne]; [done|].
  assert (JoinSlash rel ≠ ".") as Hdot.
  { intros E. assert (SplitSlash (JoinSlash rel) = rel) as Hs.
    { apply SplitSlash_Join; [done|]. eapply Forall_impl; [done|]. by intros x [? _]. }
    rewrite E in Hs. simpl in Hs. subst. inversion Frel as [|?? (_&_&?&_)]; subst. done. }
  rewrite (proj2 (String.eqb_neq _ _) Hdot).
  rewrite (Join_absPath (rootElements PhysicalAlias id) rel) by (done || by apply root_names).
  change LogicalRoot with (absPath (rootElements LogicalAlias id)).
  by rewrite (Join_absPath (rootElements LogicalAlias id) rel) by (done || by apply root_names).
Qed.

Lemma containsParentElement_iff p : containsParentElement p = false ↔ ".." ∉ SplitSlash p.
Proof.
  unfold containsParentElement. rewrite existsb_false. split.
  - intros H Hin. by apply H in Hin.
  - intros H x Hx. apply String.eqb_neq. by intros <-.
Qed.

Lemma Resolve_iff id p i :
  Resolve id p = Ok i ↔
  ValidWorkspaceID id = true ∧ IsAbs p = true ∧ ContainsByte p zero = false ∧ (".." ∉ SplitSlash p) ∧
  ∃ alias rel, elements p = rootElements alias id ++ rel ∧ i = identityOf id alias rel.
Proof.
  unfold Resolve. rewrite !guard_then. split.
  - intros (Hid&Hp&H). bool_prop. match goal with E : containsParentElement p = false |- _ =>
      apply containsParentElement_iff in E as Hdd end.
    split_and!; [done..|]. rewrite Clean_abs in H by done.
    pose proof (elements_names p Hdd) as Fe.
    destruct (relativeToAlias _ _ _) as [[r alias]|] eqn:Hr; [|done].
    apply relativeToAlias_spec in Hr as (rel&E&->); [|done..]. injection H as <-.
    exists alias, rel. split; [done|]. apply identity_eq; [done|]. rewrite E in Fe. by apply Forall_app in Fe as [_ ?].
  - intros (Hid&Habs&Hnul&Hdd&alias&rel&E&->). split; [done|]. split.
    { rewrite Habs, Hnul, (proj2 (containsParentElement_iff p) Hdd). by destruct p. }
    pose proof (elements_names p Hdd) as Fe. rewrite Clean_abs by done.
    assert (relativeToAlias (absPath (elements p)) LogicalRoot (Join PhysicalBase id) = Some (relName rel, alias)) as Hr.
    { apply relativeToAlias_spec; [done..|]. by exists rel. }
    unfold absPath in Hr at 1. rewrite Hr. rewrite E in Fe. apply Forall_app in Fe as [_ ?].
    f_equal. by apply identity_eq.
Qed.

(** A guest path [Resolve] looks at: absolute, without a zero byte and without
    a parent element. *)
Definition acceptable (p : string) : Prop :=
  IsAbs p = true ∧ ContainsByte p zero = false ∧ ".." ∉ SplitSlash p.

(** C30: [Resolve] accepts exactly the paths under one of the workspace's own
    two roots. It returns an identity when, and only when, the workspace
    identity is valid, the path is absolute, free of zero bytes and of parent
    elements, and its elements start with the elements of the logical root or
    of the workspace's physical root; the identity then names the remaining
    elements below both roots. Each error has its one cause. *)
Theorem resolve_exact id p :
  match Resolve id p with
  | Ok i => ValidWorkspaceID id = true ∧ acceptable p ∧ ∃ alias rel, Forall isName rel ∧
      elements p = rootElements alias id ++ rel ∧ i = identityOf id alias rel
  | Err ErrIdentityInvalid => ValidWorkspaceID id = false
  | Err ErrPathInvalid => ValidWorkspaceID id = true ∧ ¬ acceptable p
  | Err ErrOutsideAttachment => ValidWorkspaceID id = true ∧ acceptable p ∧
      ∀ alias rel, elements p ≠ rootElements alias id ++ rel
  end.
Proof.
  destruct (Resolve id p) as [i|e] eqn:H.
  - apply Resolve_iff in H as (Hid&Habs&Hnul&Hdd&alias&rel&E&->). split_and!; [done..|].
    pose proof (elements_names p Hdd) as Fe. rewrite E in Fe. apply Forall_app in Fe as [_ ?]. eauto.
  - destruct (ValidWorkspaceID id) eqn:Hid; [|unfold Resolve in H; rewrite Hid in H; by injection H as <-].
    assert (acceptable p ∨ ¬ acceptable p) as [Ha|Ha].
    { unfold acceptable. destruct (IsAbs p); [|naive_solver]. destruct (ContainsByte p zero); [naive_solver|].
      destruct (decide (".." ∈ SplitSlash p)); naive_solver. }
    + assert (e = ErrOutsideAttachment) as ->.
      { unfold Resolve in H. rewrite Hid in H. destruct Ha as (Habs&Hnul&Hdd).
        rewrite Habs, Hnul, (proj2 (containsParentElement_iff p) Hdd) in H.
        destruct p; [done|]. simpl in H. destruct (relativeToAlias _ _ _) as [[??]|]; [done|].
        by injection H as <-. }
      split_and!; [done|done|]. intros alias rel E.
      assert (Resolve id p = Ok (identityOf id alias rel)); [|congruence].
      destruct Ha as (?&?&?). apply Resolve_iff. split_and!; eauto.
    + assert (e = ErrPathInvalid) as ->; [|done].
      unfold Resolve in H. rewrite Hid in H. simpl in H.
      destruct (negb _) eqn:Hg; simpl in H; [|by injection H as <-]. bool_prop.
      destruct Ha. split_and!; [done..|by apply containsParentElement_iff].
Qed.

(** C21: no guest path of one workspace names a file of another: when two
    resolutions give the same physical path, they are of the same workspace
    and the same file of it. *)
Theorem workspaces_disjoint id1 p1 i1 id2 p2 i2 :
  Resolve id1 p1 = Ok i1 → Resolve id2 p2 = Ok i2 → wi_PhysicalPath i1 = wi_PhysicalPath i2 →
  id1 = id2 ∧ wi_RelativePath i1 = wi_RelativePath i2 ∧ wi_LogicalPath i1 = wi_LogicalPath i2.
Proof.
  intros (Hid1&_&_&Hd1&a1&r1&E1&->)%Resolve_iff (Hid2&_&_&Hd2&a2&r2&E2&->)%Resolve_iff Heq.
  pose proof (elements_names p1 Hd1) as F1. pose proof (elements_names p2 Hd2) as F2.
  rewrite E1 in F1. rewrite E2 in F2. apply Forall_app in F1 as [_ F1]. apply Forall_app in F2 as [_ F2].
  apply (absPath_inj (rootElements PhysicalAlias id1 ++ r1) (rootElements PhysicalAlias id2 ++ r2)) in Heq;
    [by simplify_eq/=|done|done|..]; apply Forall_app; (split; [by apply root_names|done]).
Qed.

Lemma contains_forall s c : ContainsByte s c = false ↔ str_forall (λ a, negb (Ascii.eqb c a)) s = true.
Proof. unfold ContainsByte, str_exists. by rewrite negb_false_iff. Qed.

Lemma SplitSlash_forall f s : str_forall f s = true → Forall (λ e, str_forall f e = true) (SplitSlash s).
Proof.
  induction s as [|a s IH]; simpl; [by repeat constructor|]. intros [Ha Hs]%andb_true_iff.
  specialize (IH Hs). destruct (Ascii.eqb a slash); [by constructor|].
  destruct (SplitSlash s) as [|x xs]; [constructor; [simpl; by rewrite Ha|done]|].
  inversion IH; subst. constructor; [|done]. simpl. rewrite Ha. done.
Qed.

Lemma JoinSlash_forall f l :
  f slash = true → Forall (λ e, str_forall f e = true) l → str_forall f (JoinSlash l) = true.
Proof.
  intros Hf Hl. induction Hl as [|x l Hx Hl IH]; [done|]. destruct l as [|y l]; [done|].
  rewrite JoinSlash_cons, str_forall_app by done. simpl. rewrite Hx, Hf. done.
Qed.

(** The names of a resolved file hold no zero byte. *)
Lemma absPath_clean_bytes id p alias rel alias' :
  ValidWorkspaceID id = true → ContainsByte p zero = false →
  elements p = rootElements alias id ++ rel →
  ContainsByte (absPath (rootElements alias' id ++ rel)) zero = false.
Proof.
  intros Hid Hnul E. apply contains_forall. apply contains_forall, SplitSlash_forall in Hnul.
  unfold absPath. simpl. apply JoinSlash_forall; [done|]. apply Forall_app. split.
  - assert (str_forall (λ a, negb (Ascii.eqb zero a)) id = true) as Hi.
    { unfold ValidWorkspaceID in Hid. rewrite !andb_true_iff, String.eqb_eq in Hid. destruct Hid as [[Hp _] Ht].
      apply HasPrefix_iff in Hp as [r ->]. rewrite TrimPrefix_app in Ht. apply TrimSet_empty in Ht.
      rewrite str_forall_app. apply andb_true_iff. split; [done|]. eapply str_forall_impl, Ht.
      intros a Ha. destruct (Ascii.eqb_spec zero a) as [<-|]; [by vm_compute in Ha|done]. }
    destruct alias'; cbn [rootElements]; rewrite !Forall_cons, Forall_nil; by split_and!.
  - assert (Forall (λ e, str_forall (λ a, negb (Ascii.eqb zero a)) e = true) (elements p)) as Fe.
    { apply Forall_forall. intros e [_ He]%list_elem_of_filter. rewrite Forall_forall in Hnul. by apply Hnul. }
    rewrite E in Fe. by apply Forall_app in Fe as [_ ?].
Qed.

(** the two names of a resolved file are equivalent: resolving its logical
    path or its physical path again gives the same workspace, the same relative
    path and the same two names, so that a client may pass either on. *)
Theorem resolve_roundtrip id p i :
  Resolve id p = Ok i →
  Resolve id (wi_LogicalPath i) = Ok (mkIdentity id (wi_RelativePath i) (wi_LogicalPath i)
    (wi_PhysicalPath i) LogicalAlias) ∧
  Resolve id (wi_PhysicalPath i) = Ok (mkIdentity id (wi_RelativePath i) (wi_LogicalPath i)
    (wi_PhysicalPath i) PhysicalAlias).
Proof.
  intros (Hid&Habs&Hnul&Hdd&alias&rel&E&->)%Resolve_iff.
  pose proof (elements_names p Hdd) as Fe. rewrite E in Fe. apply Forall_app in Fe as [_ Frel].
  enough (∀ alias', Resolve id (absPath (rootElements alias' id ++ rel)) = Ok (identityOf id alias' rel)) as H
    by (split; apply H).
  intros alias'. assert (Forall isName (rootElements alias' id ++ rel)) as F.
  { apply Forall_app. split; [by apply root_names|done]. }
  destruct (absPath_elements (rootElements alias' id ++ rel)) as [He Hd]; [by destruct alias'|done|].
  apply Resolve_iff. split_and!; [done|done|by eapply absPath_clean_bytes|done|].
  exists alias', rel. by rewrite He.
Qed.

Module SamplePaths.
Definition workspaceA : string :=
  "wrk_0123456789abcdef0123456789abcdef0123456789abcdef0123456789abcdef".
Definition identity : Identity := mkIdentity workspaceA "src/main.go" "/workspace/src/main.go"
  ("/hideout/workspaces/" +:+ workspaceA +:+ "/src/main.go") LogicalAlias.
End SamplePaths.

Lemma workspaces_disjoint_witness :
  SamplePaths.workspaceA = SamplePaths.workspaceA ∧ "src/main.go" = "src/main.go" ∧
  "/workspace/src/main.go" = "/workspace/src/main.go".
Proof.
  exact (workspaces_disjoint SamplePaths.workspaceA "/workspace//src/./main.go" SamplePaths.identity
    SamplePaths.workspaceA ("/hideout/workspaces/" +:+ SamplePaths.workspaceA +:+ "/src/main.go")
    (mkIdentity SamplePaths.workspaceA "src/main.go" "/workspace/src/main.go"
      (wi_PhysicalPath SamplePaths.identity) PhysicalAlias)
    ltac:(vm_compute; reflexivity) ltac:(vm_compute; reflexivity) eq_refl).
Defined.

Lemma resolve_roundtrip_witness :
  Resolve SamplePaths.workspaceA "/workspace/src/main.go" = Ok SamplePaths.identity.
Proof.
  exact (proj1 (resolve_roundtrip SamplePaths.workspaceA "/workspace//src/./main.go"
    SamplePaths.identity ltac:(vm_compute; reflexivity))).
Defined.

(** ** Bindings *)

Lemma relName_dot rel : Forall isName rel → relName rel = "." → rel = [].
Proof.
  intros Frel E. unfold relName in E. case_decide as Hne; [done|].
  assert (SplitSlash (JoinSlash rel) = rel) as Hs.
  { apply SplitSlash_Join; [done|]. eapply Forall_impl; [done|]. by intros x [? _]. }
  rewrite E in Hs. simpl in Hs. subst. inversion Frel as [|?? (_&_&?&_)]; subst. done.
Qed.

(** A binding is exactly the logical root with the physical root of a valid
    workspace identity. *)
Lemma NewBinding_iff id logical physical b :
  NewBinding id logical physical = Ok b ↔
  logical = LogicalRoot ∧ ValidWorkspaceID id = true ∧
  physical = absPath (rootElements PhysicalAlias id) ∧ b = mkBinding id logical physical.
Proof.
  unfold NewBinding. rewrite guard_then, String.eqb_eq. split.
  - intros [-> H]. destruct (Resolve id physical) as [i|] eqn:Hr; [|done].
    apply guard_then in H as [Hg [= <-]].
    rewrite !negb_orb, !negb_involutive, !andb_true_iff, !String.eqb_eq, bool_decide_eq_true in Hg.
    destruct Hg as [[Hrel Hal] Hph].
    apply Resolve_iff in Hr as (Hid&_&_&Hdd&alias&rel&E&->). simpl in *.
    pose proof (elements_names physical Hdd) as Fe. rewrite E in Fe. apply Forall_app in Fe as [_ Frel].
    apply relName_dot in Hrel as ->; [|done]. split_and!; [done|done|by rewrite <-Hph|done].
  - intros (->&Hid&->&->). split; [done|].
    assert (Resolve id (absPath (rootElements PhysicalAlias id)) = Ok (identityOf id PhysicalAlias [])) as ->.
    { pose proof (root_names PhysicalAlias id Hid) as F.
      destruct (absPath_elements (rootElements PhysicalAlias id)) as [He Hd]; [done|done|].
      apply Resolve_iff. split_and!; [done|done| |done|].
      - apply (absPath_clean_bytes id "/workspace" LogicalAlias [] PhysicalAlias Hid); by vm_compute.
      - exists PhysicalAlias, []. by rewrite He. }
    change (wi_PhysicalPath (identityOf id PhysicalAlias [])) with
      (absPath (rootElements PhysicalAlias id)).
    by rewrite (String.eqb_refl (absPath (rootElements PhysicalAlias id))).
Qed.

Lemma Binding_from_root id logical :
  ValidWorkspaceID id = true →
  BindingFromPhysicalRoot logical (absPath (rootElements PhysicalAlias id)) =
  NewBinding id logical (absPath (rootElements PhysicalAlias id)).
Proof.
  intros Hid. pose proof (root_names PhysicalAlias id Hid) as F.
  unfold BindingFromPhysicalRoot, Dir, Base. rewrite Clean_absPath, absPath_split by done.
  assert (id ≠ "") as Hne by apply (ValidWorkspaceID_name id Hid).
  rewrite String.eqb_refl. simpl. 
  by rewrite (filter_cons_True _ "workspaces"), (filter_cons_True _ id) by done.
Qed.
