(* ===== verification/SessionWire.v ===== *)
(** * The session wire (src/internal/sessionwire/frame.go and stream.go)

    Frames of one type byte, a big-endian 32-bit length and a payload, read
    from and written to a byte stream.  A byte is an integer below 256.  The
    JSON control payloads (control.go) are not modelled: their check
    [validateControlPayload] is an argument of the definitions, nothing is
    assumed of it, and every theorem holds for any such check.  Readers and
    writers are not nil; [WriteFrame] holds the writer's mutex from the header
    to the payload, so a sequence of writes is a sequence of frames. *)
From S2P Require Import Prelude.
Open Scope Z_scope.

Definition HeaderSize : nat := 5.
Definition MaxPayloadSize : Z := Z.shiftl 64 10.

Inductive WireError :=
  | ErrInvalidDirection | ErrWrongDirection | ErrUnknownMandatoryFrame | ErrPayloadTooLarge
  | ErrTruncatedFrame | ErrInvalidControl | EOF | ErrShortWrite
  | ErrWriter (* the error of the underlying writer *)
  | SlicePanic (* [data[n:]] with [n] beyond the data *)
  | OutOfFuel (* of the model; never reached, see [writeAll_spec] *).
#[global] Instance WireError_eq_dec : EqDecision WireError.
Proof. solve_decision. Defined.

(** ** Directions and types, at their width of one byte *)

Definition ClientToDaemon : Z := 1.
Definition DaemonToClient : Z := 2.
Definition DaemonToSupervisor : Z := 3.
Definition SupervisorToDaemon : Z := 4.

Definition Direction_valid (d : Z) : bool := (ClientToDaemon <=? d) && (d <=? SupervisorToDaemon).

Definition TypeHello : Z := 1.
Definition TypeHelloAccepted : Z := 2.
Definition TypeRunRequest : Z := 3.
Definition TypeConfirm : Z := 4.
Definition TypeReview : Z := 5.
Definition TypeStarted : Z := 6.
Definition TypeStdin : Z := 7.
Definition TypeStdinEOF : Z := 8.
Definition TypeResize : Z := 9.
Definition TypeSignal : Z := 10.
Definition TypeCancel : Z := 11.
Definition TypeRenew : Z := 12.
Definition TypeTerminal : Z := 13.
Definition TypeStdout : Z := 14.
Definition TypeStderr : Z := 15.
Definition TypeNotice : Z := 16.
Definition TypeError : Z := 17.
Definition TypeCompletion : Z := 18.
Definition TypeSupervisorStart : Z := 19.
Definition TypeSupervisorReady : Z := 20.
Definition TypeSupervisorCommit : Z := 21.
Definition TypeHeartbeat : Z := 22.
Definition TypeSupervisorError : Z := 23.

Definition IsExtension (t : Z) : bool := negb (Z.land t 128 =? 0).
Definition IsKnown (t : Z) : bool := (TypeHello <=? t) && (t <=? TypeSupervisorError).
Definition oneOf (t : Z) (l : list Z) : bool := existsb (Z.eqb t) l.
Definition IsData (t : Z) : bool := oneOf t [TypeStdin; TypeTerminal; TypeStdout; TypeStderr].
Definition IsControl (t : Z) : bool := IsKnown t && negb (IsData t).

Definition allowed (t direction : Z) : bool :=
  if oneOf t [TypeHello; TypeRunRequest; TypeConfirm; TypeRenew] then direction =? ClientToDaemon
  else if oneOf t [TypeHelloAccepted; TypeReview; TypeStarted; TypeNotice; TypeError]
    then direction =? DaemonToClient
  else if oneOf t [TypeSupervisorStart; TypeSupervisorCommit; TypeHeartbeat]
    then direction =? DaemonToSupervisor
  else if oneOf t [TypeSupervisorReady; TypeSupervisorError] then direction =? SupervisorToDaemon
  else if oneOf t [TypeStdin; TypeStdinEOF; TypeResize; TypeSignal; TypeCancel]
    then (direction =? ClientToDaemon) || (direction =? DaemonToSupervisor)
  else if oneOf t [TypeTerminal; TypeStdout; TypeStderr; TypeCompletion]
    then (direction =? DaemonToClient) || (direction =? SupervisorToDaemon)
  else false.

Definition ValidateDirection (direction frameType : Z) : result WireError () :=
  if negb (Direction_valid direction) then Err ErrInvalidDirection
  else if IsExtension frameType then mret tt
  else if negb (IsKnown frameType) then Err ErrUnknownMandatoryFrame
  else if negb (allowed frameType direction) then Err ErrWrongDirection
  else mret tt.

Record Frame := mkFrame { fr_Type : Z; fr_Payload : list Z }.

(** ** [encoding/binary.BigEndian] *)

Definition byteOf (v : Z) : Z := Z.land v 255.
Definition PutUint32 (v : Z) : list Z :=
  [byteOf (Z.shiftr v 24); byteOf (Z.shiftr v 16); byteOf (Z.shiftr v 8); byteOf v].
Definition Uint32 (b0 b1 b2 b3 : Z) : Z :=
  Z.lor b3 (Z.lor (Z.shiftl b2 8) (Z.lor (Z.shiftl b1 16) (Z.shiftl b0 24))).

(** An [io.Reader]: the bytes it delivers, and whether it then ends with
    [io.EOF] or with another error.  [io.ReadFull] fills a buffer of [n] > 0
    bytes, meets the end before the first byte, or fails otherwise. *)
Record Stream := mkStream { st_bytes : list Z; st_eof : bool }.
Inductive Full := FullRead (data : list Z) (rest : Stream) | FullEOF | FullShort.
Definition ReadFull (n : nat) (st : Stream) : Full :=
  if (n <=? length (st_bytes st))%nat
  then FullRead (take n (st_bytes st)) (mkStream (drop n (st_bytes st)) (st_eof st))
  else if (length (st_bytes st) =? 0)%nat && st_eof st then FullEOF else FullShort.

(** An [io.Writer]: what its [i]-th call of [Write] reports, the number of
    bytes it took and whether it failed. *)
Record WriteOutcome := mkWriteOutcome { wo_n : Z; wo_err : bool }.
Definition Sink := nat → WriteOutcome.

(** [writeAll] from call [i] on: the bytes that reached the sink, the next call
    and the error.  A pass that goes on consumes a byte, so the number of bytes
    bounds the passes. *)
Fixpoint writeAll (fuel : nat) (sink : Sink) (data : list Z) (i : nat) :
    list Z * nat * option WireError :=
  match data with
  | [] => ([], i, None)
  | _ =>
      match fuel with
      | O => ([], i, Some OutOfFuel)
      | S fuel =>
          let o := sink i in
          let n := Z.to_nat (wo_n o) in
          if wo_err o then (take n data, S i, Some ErrWriter)
          else if wo_n o <=? 0 then ([], S i, Some ErrShortWrite)
          else if (length data <? n)%nat then (data, S i, Some SlicePanic)
          else let '(sent, j, err) := writeAll fuel sink (drop n data) (S i) in
               (take n data ++ sent, j, err)
      end
  end.

(** ** Readers and writers *)

Record Reader := mkReader { rd_direction : Z; rd_limit : Z }.
Record Writer := mkWriter { wr_direction : Z; wr_limit : Z }.

Definition NewReaderWithLimit (direction limit : Z) : Reader :=
  mkReader direction (if (limit =? 0) || (MaxPayloadSize <? limit) then MaxPayloadSize else limit).
Definition NewWriterWithLimit (direction limit : Z) : Writer :=
  mkWriter direction (if (limit =? 0) || (MaxPayloadSize <? limit) then MaxPayloadSize else limit).
Definition NewReader (direction : Z) : Reader := NewReaderWithLimit direction MaxPayloadSize.
Definition NewWriter (direction : Z) : Writer := NewWriterWithLimit direction MaxPayloadSize.

Section wire.
Context (validateControlPayload : Z → list Z → bool).

Definition validateFrame (direction : Z) (frame : Frame) (limit : Z) : result WireError () :=
  ValidateDirection direction (fr_Type frame);;
  guard_err (negb (limit <? Z.of_nat (length (fr_Payload frame)))) ErrPayloadTooLarge;;
  if IsExtension (fr_Type frame) || IsData (fr_Type frame) then mret tt
  else guard_err (validateControlPayload (fr_Type frame) (fr_Payload frame)) ErrInvalidControl.

Definition ReadFrame (r : Reader) (st : Stream) : result WireError (Frame * Stream) :=
  match ReadFull HeaderSize st with
  | FullEOF => Err EOF
  | FullRead [t; b0; b1; b2; b3] rest =>
      ValidateDirection (rd_direction r) t;;
      let length := Uint32 b0 b1 b2 b3 in
      guard_err (negb (rd_limit r <? length)) ErrPayloadTooLarge;;
      match (if 0 <? length then ReadFull (Z.to_nat length) rest else FullRead [] rest) with
      | FullRead payload rest' =>
          validateFrame (rd_direction r) (mkFrame t payload) (rd_limit r);;
          mret (mkFrame t payload, rest')
      | _ => Err ErrTruncatedFrame
      end
  | _ => Err ErrTruncatedFrame
  end.

Definition header (frame : Frame) : list Z :=
  fr_Type frame :: PutUint32 (Z.of_nat (length (fr_Payload frame)) mod 2 ^ 32).

Definition WriteFrame (w : Writer) (sink : Sink) (frame : Frame) (i : nat) :
    list Z * nat * option WireError :=
  match validateFrame (wr_direction w) frame (wr_limit w) with
  | Err e => ([], i, Some e)
  | Ok _ =>
      match writeAll HeaderSize sink (header frame) i with
      | (sent, j, Some e) => (sent, j, Some e)
      | (sent, j, None) =>
          let '(sent', k, err) :=
            writeAll (length (fr_Payload frame)) sink (fr_Payload frame) j in
          (sent ++ sent', k, err)
      end
  end.

(** A caller's sequence of writes up to the first error, and a peer's reads up
    to the first error. *)
Fixpoint WriteFrames (w : Writer) (sink : Sink) (frames : list Frame) (i : nat) :
    list Z * option WireError :=
  match frames with
  | [] => ([], None)
  | f :: frames =>
      match WriteFrame w sink f i with
      | (sent, _, Some e) => (sent, Some e)
      | (sent, j, None) =>
          let '(sent', err) := WriteFrames w sink frames j in (sent ++ sent', err)
      end
  end.
Fixpoint ReadFrames (fuel : nat) (r : Reader) (st : Stream) : list Frame * option WireError :=
  match fuel with
  | O => ([], Some OutOfFuel)
  | S fuel =>
      match ReadFrame r st with
      | Err e => ([], Some e)
      | Ok (f, rest) => let '(frames, err) := ReadFrames fuel r rest in (f :: frames, err)
      end
  end.
End wire.

(** ** Big-endian lengths *)

Definition isByte (b : Z) : Prop := 0 <= b < 256.

Lemma byteOf_mod v : byteOf v = v mod 256.
Proof. apply (Z.land_ones v 8); lia. Qed.

Lemma lor_shift k a b : 0 <= k → 0 <= a < 2 ^ k → Z.lor a (Z.shiftl b k) = a + b * 2 ^ k.
Proof.
  intros Hk Ha. rewrite Z.shiftl_mul_pow2 by done. symmetry.
  rewrite <- Z.lxor_lor, Z.add_nocarry_lxor; [done|..].
  all: apply Z.bits_inj'; intros n Hn; rewrite Z.land_spec, Z.bits_0.
  all: destruct (decide (n < k)) as [Hlt|Hge].
  all: try (rewrite (Z.mul_pow2_bits_low b k n) by lia; apply andb_false_r).
  all: rewrite <- (Z.mod_small a (2 ^ k)) by done; rewrite Z.mod_pow2_bits_high by lia; done.
Qed.

Lemma Uint32_sum b0 b1 b2 b3 : isByte b0 → isByte b1 → isByte b2 → isByte b3 →
  Uint32 b0 b1 b2 b3 = ((b0 * 256 + b1) * 256 + b2) * 256 + b3.
Proof.
  unfold isByte, Uint32. intros.
  assert (Hs : ∀ a b, isByte a → Z.lor (Z.shiftl a 16) (Z.shiftl b 24) = (a + b * 256) * 2 ^ 16).
  { intros a b Ha. change 24 with (8 + 16).
    rewrite <- (Z.shiftl_shiftl b 8 16), <- Z.shiftl_lor by lia.
    rewrite (lor_shift 8), Z.shiftl_mul_pow2 by (unfold isByte in *; lia). lia. }
  rewrite Hs by done.
  replace ((b1 + b0 * 256) * 2 ^ 16) with (Z.shiftl (Z.shiftl (b1 + b0 * 256) 8) 8)
    by (rewrite !Z.shiftl_mul_pow2 by lia; lia).
  rewrite <- Z.shiftl_lor, (lor_shift 8 b2) by lia. rewrite (lor_shift 8 b3) by lia. lia.
Qed.

Lemma PutUint32_digits v :
  PutUint32 v = [(v / 2 ^ 24) mod 256; (v / 2 ^ 16) mod 256; (v / 2 ^ 8) mod 256; v mod 256].
Proof. unfold PutUint32. by rewrite !byteOf_mod, !Z.shiftr_div_pow2 by lia. Qed.

Lemma PutUint32_Uint32 v b0 b1 b2 b3 : 0 <= v < 2 ^ 32 →
  PutUint32 v = [b0; b1; b2; b3] → Uint32 b0 b1 b2 b3 = v.
Proof.
  intros Hv Hp. rewrite PutUint32_digits in Hp. injection Hp as <- <- <- <-.
  rewrite Uint32_sum by (apply Z.mod_pos_bound; lia). Z.to_euclidean_division_equations. lia.
Qed.

Lemma Uint32_PutUint32 b0 b1 b2 b3 : isByte b0 → isByte b1 → isByte b2 → isByte b3 →
  0 <= Uint32 b0 b1 b2 b3 < 2 ^ 32 ∧ PutUint32 (Uint32 b0 b1 b2 b3) = [b0; b1; b2; b3].
Proof.
  intros H0 H1 H2 H3. rewrite Uint32_sum, PutUint32_digits by done. unfold isByte in *.
  split; [lia|]. repeat f_equal; Z.to_euclidean_division_equations; lia.
Qed.

(** ** Writing *)

(** What reaches the sink is an initial part of the data, all of it when there
    is no error, and the fuel is enough. *)
Lemma writeAll_spec fuel sink data i sent j err : (length data <= fuel)%nat →
  writeAll fuel sink data i = (sent, j, err) →
  sent `prefix_of` data ∧ (err = None → sent = data) ∧ err ≠ Some OutOfFuel.
Proof.
  revert data i sent j err. induction fuel as [|fuel IH]; intros [|b data] i sent j err Hf Hw;
    simpl in Hf; try lia; simpl in Hw; try by simplify_eq.
  destruct (wo_err _).
  { simplify_eq. split_and!; [|done..]. by eexists; rewrite take_drop. }
  destruct (Z.leb_spec (wo_n (sink i)) 0).
  { simplify_eq. split_and!; [apply prefix_nil|done..]. }
  destruct (Nat.ltb_spec (S (length data)) (Z.to_nat (wo_n (sink i)))); [by simplify_eq|].
  destruct (writeAll fuel sink _ _) as [[sent' j'] err'] eqn:E. simplify_eq.
  apply IH in E as (Hp & Hall & Hfuel); [|rewrite length_drop; simpl; lia].
  rewrite <- (take_drop (Z.to_nat (wo_n (sink i))) (b :: data)) at 2 4.
  split_and!; [by apply prefix_app|intros He; by rewrite (Hall He)|done].
Qed.

Section theory.
Context (ctl : Z → list Z → bool).

Definition encodeFrame (f : Frame) : list Z := header f ++ fr_Payload f.

Lemma header_length f : length (header f) = HeaderSize.
Proof. done. Qed.

Lemma WriteFrame_spec w sink f i sent j err :
  WriteFrame ctl w sink f i = (sent, j, err) →
  sent `prefix_of` encodeFrame f ∧ (sent ≠ [] ∨ err = None →
    validateFrame ctl (wr_direction w) f (wr_limit w) = Ok tt) ∧
  (err = None → sent = encodeFrame f).
Proof.
  unfold WriteFrame, encodeFrame. destruct (validateFrame _ _ _ _) as [[]|e]; intros Hw.
  2:{ simplify_eq. split_and!; [apply prefix_nil|naive_solver|done]. }
  destruct (writeAll HeaderSize _ _ _) as [[s1 j1] [e1|]] eqn:E1;
    apply writeAll_spec in E1 as (Hp1 & Hall1 & _); try done.
  - simplify_eq. split_and!; [by apply prefix_app_r|done|done].
  - rewrite (Hall1 eq_refl) in *.
    destruct (writeAll _ _ (fr_Payload f) _) as [[s2 j2] e2] eqn:E2.
    apply writeAll_spec in E2 as (Hp2 & Hall2 & _); [|done]. simplify_eq.
    split_and!; [by apply prefix_app|done|intros ->; by rewrite Hall2].
Qed.

(** ** Reading *)

Lemma ReadFull_app n a b eof : length a = n →
  ReadFull n (mkStream (a ++ b) eof) = FullRead a (mkStream b eof).
Proof.
  intros <-. unfold ReadFull; simpl. rewrite length_app, take_app_length, drop_app_length.
  by destruct (Nat.leb_spec (length a) (length a + length b)); [|lia].
Qed.

Lemma ReadFull_short n a eof : (length a < n)%nat →
  ReadFull n (mkStream a eof) = if (length a =? 0)%nat && eof then FullEOF else FullShort.
Proof. intros H. unfold ReadFull; simpl. by destruct (Nat.leb_spec n (length a)); [lia|]. Qed.

Lemma ReadFull_inv n st data rest : ReadFull n st = FullRead data rest →
  length data = n ∧ st_bytes st = data ++ st_bytes rest ∧ st_eof rest = st_eof st.
Proof.
  unfold ReadFull. destruct (Nat.leb_spec n (length (st_bytes st))).
  - intros [= <- <-]. simpl. by rewrite take_drop, length_take_le.
  - by destruct (_ && _).
Qed.

Lemma validateFrame_ok d f l : validateFrame ctl d f l = Ok tt →
  ValidateDirection d (fr_Type f) = Ok tt ∧ Z.of_nat (length (fr_Payload f)) <= l.
Proof.
  unfold validateFrame. destruct (ValidateDirection _ _) as [[]|]; [|done]. simpl.
  intros [Hb _]%guard_then. apply negb_true_iff, Z.ltb_ge in Hb. done.
Qed.

Section reader.
Context (r : Reader) (Hlimit : rd_limit r < 2 ^ 32).

(** The header and the payload of a frame that validates, against whatever
    bytes follow the header. *)
Lemma ReadFrame_header f tail eof :
  validateFrame ctl (rd_direction r) f (rd_limit r) = Ok tt →
  ReadFrame ctl r (mkStream (header f ++ tail) eof) =
    match (if 0 <? Z.of_nat (length (fr_Payload f))
           then ReadFull (length (fr_Payload f)) (mkStream tail eof)
           else FullRead [] (mkStream tail eof)) with
    | FullRead payload rest =>
        validateFrame ctl (rd_direction r) (mkFrame (fr_Type f) payload) (rd_limit r);;
        mret (mkFrame (fr_Type f) payload, rest)
    | _ => Err ErrTruncatedFrame
    end.
Proof.
  intros (Hd & Hl)%validateFrame_ok. unfold ReadFrame.
  rewrite ReadFull_app by done. unfold header. rewrite Z.mod_small by lia.
  destruct (PutUint32 _) as [|b0 [|b1 [|b2 [|b3 [|? ?]]]]] eqn:Hp; try discriminate Hp.
  apply PutUint32_Uint32 in Hp as ->; [|lia]. rewrite Hd. simpl.
  destruct (Z.ltb_spec (rd_limit r) (Z.of_nat (length (fr_Payload f)))); [lia|].
  by rewrite Nat2Z.id.
Qed.

Lemma ReadFrame_encode f rest eof :
  validateFrame ctl (rd_direction r) f (rd_limit r) = Ok tt →
  ReadFrame ctl r (mkStream (encodeFrame f ++ rest) eof) = Ok (f, mkStream rest eof).
Proof.
  intros Hv. unfold encodeFrame. rewrite <- app_assoc, ReadFrame_header by done.
  destruct f as [t payload]; simpl in *.
  destruct (Z.ltb_spec 0 (Z.of_nat (length payload))).
  - rewrite ReadFull_app by done. by rewrite Hv.
  - destruct payload; [|simpl in *; lia]. by rewrite Hv.
Qed.

(** A stream that stops inside a frame. *)
Lemma ReadFrame_partial f p :
  validateFrame ctl (rd_direction r) f (rd_limit r) = Ok tt →
  p `prefix_of` encodeFrame f → p ≠ encodeFrame f →
  ReadFrame ctl r (mkStream p true) = Err (if decide (p = []) then EOF else ErrTruncatedFrame).
Proof.
  intros Hv [q Hq] Hne. destruct (decide (length p < HeaderSize)%nat) as [Hs|Hs].
  { unfold ReadFrame. rewrite ReadFull_short by done. by destruct p. }
  assert (∃ p', p = header f ++ p' ∧ fr_Payload f = p' ++ q) as (p' & -> & Hpay).
  { exists (drop HeaderSize p).
    assert (Ht : take HeaderSize p = header f).
    { apply (f_equal (take HeaderSize)) in Hq.
      rewrite take_app_le in Hq by lia. by rewrite <- Hq. }
    rewrite <- Ht, take_drop. split; [done|].
    apply (f_equal (drop HeaderSize)) in Hq. rewrite drop_app_le in Hq by lia. done. }
  rewrite decide_False by done. rewrite ReadFrame_header by done.
  destruct q as [|b q].
  { exfalso. apply Hne. unfold encodeFrame. by rewrite Hpay, app_nil_r. }
  rewrite Hpay, length_app. simpl.
  destruct (Z.ltb_spec 0 (Z.of_nat (length p' + S (length q)))); [|lia].
  rewrite ReadFull_short by lia. by destruct (_ && _).
Qed.

Lemma ReadFrame_inv st f st' : Forall isByte (st_bytes st) →
  ReadFrame ctl r st = Ok (f, st') →
  st_bytes st = encodeFrame f ++ st_bytes st' ∧ st_eof st' = st_eof st ∧
  validateFrame ctl (rd_direction r) f (rd_limit r) = Ok tt.
Proof.
  unfold ReadFrame. intros Hb. destruct (ReadFull HeaderSize st) as [h rest| |] eqn:Eh; [|done..].
  apply ReadFull_inv in Eh as (Hlen & Hst & Heof).
  destruct h as [|t [|b0 [|b1 [|b2 [|b3 [|? ?]]]]]]; try discriminate Hlen.
  rewrite Hst in Hb. repeat (apply Forall_cons in Hb as [? Hb] || simpl in Hb).
  destruct (Uint32_PutUint32 b0 b1 b2 b3) as [Hu Hp]; [done..|].
  destruct (ValidateDirection _ t) as [[]|]; [|done]. simpl. intros [_ Hk]%guard_then.
  destruct (if 0 <? _ then _ else _) as [payload rest'| |] eqn:Ep; [|done..].
  assert (Z.of_nat (length payload) = Uint32 b0 b1 b2 b3 ∧
    st_bytes rest = payload ++ st_bytes rest' ∧ st_eof rest' = st_eof rest) as (Hn & Hr & He).
  { destruct (Z.ltb_spec 0 (Uint32 b0 b1 b2 b3)).
    - apply ReadFull_inv in Ep as (? & ? & ?). split_and!; [lia|done..].
    - simplify_eq/=. split_and!; [lia|done..]. }
  destruct (validateFrame _ _ _ _) as [[]|] eqn:Ev; [|done].
  injection Hk as <- <-. unfold encodeFrame, header; simpl. rewrite Hn.
  rewrite Z.mod_small by lia. injection Hp as -> -> -> ->. by rewrite Hst, Hr, He.
Qed.
End reader.

(** ** The contract of the stream *)

(** C19: a reader returns a frame exactly when the stream begins with the
    encoding of a frame that validates for the reader's direction and limit,
    and it then consumes those bytes and no others.  So a frame of the wrong
    direction, of an unknown mandatory type, above the limit or with a control
    payload that is refused is never delivered, and none that is in order is
    refused, whatever the check of control payloads is. *)
Theorem ReadFrame_exact (r : Reader) (st : Stream) (f : Frame) (st' : Stream) :
  rd_limit r < 2 ^ 32 → Forall isByte (st_bytes st) →
  ReadFrame ctl r st = Ok (f, st') ↔
  st_bytes st = encodeFrame f ++ st_bytes st' ∧ st_eof st' = st_eof st ∧
  validateFrame ctl (rd_direction r) f (rd_limit r) = Ok tt.
Proof.
  intros Hl Hb. split; [by apply ReadFrame_inv|]. destruct st as [bs eof], st' as [bs' eof'].
  simpl. intros (-> & -> & Hv). by apply ReadFrame_encode.
Qed.

Lemma ReadFrames_written r w sink frames i sent err :
  rd_limit r < 2 ^ 32 → wr_direction w = rd_direction r → wr_limit w = rd_limit r →
  WriteFrames ctl w sink frames i = (sent, err) →
  ∃ k e, ReadFrames ctl (S (length frames)) r (mkStream sent true) = (take k frames, Some e) ∧
    (e = EOF ∨ e = ErrTruncatedFrame) ∧ (err = None → e = EOF ∧ take k frames = frames).
Proof.
  intros Hl Hd Hw. revert i sent err. induction frames as [|f frames IH]; intros i sent err Hs.
  { injection Hs as <- <-. exists O, EOF. split_and!; [done|by left|done]. }
  cbn [WriteFrames] in Hs.
  destruct (WriteFrame ctl w sink f i) as [[s1 j] e1] eqn:E1.
  apply WriteFrame_spec in E1 as (Hp & Hv & Hall). rewrite Hd, Hw in Hv.
  assert (Hdone : s1 = encodeFrame f → validateFrame ctl (rd_direction r) f (rd_limit r) = Ok tt).
  { intros ->. apply Hv. by left. }
  destruct e1 as [e1|].
  - injection Hs as -> <-. destruct (decide (sent = encodeFrame f)) as [->|Hne].
    + exists 1%nat, EOF. cbn [ReadFrames length].
      rewrite <- (app_nil_r (encodeFrame f)), ReadFrame_encode by auto.
      split_and!; [done|by left|done].
    + destruct (decide (sent = [])) as [->|Hnil].
      * exists O, EOF. split_and!; [done|by left|done].
      * exists O, ErrTruncatedFrame. cbn [ReadFrames].
        rewrite (ReadFrame_partial r Hl f), decide_False by auto.
        split_and!; [done|by right|done].
  - rewrite (Hall eq_refl) in *.
    destruct (WriteFrames ctl w sink frames j) as [s2 e2] eqn:E2.
    apply pair_equal_spec in Hs as [<- <-].
    destruct (IH _ _ _ E2) as (k & e & Hr & He & Hn). exists (S k), e.
    change (length (f :: frames)) with (S (length frames)).
    remember (S (length frames)) as fuel. cbn [ReadFrames].
    rewrite (ReadFrame_encode r Hl f) by auto. rewrite Hr. split_and!; [done|done|].
    intros H2. destruct (Hn H2) as [-> Ht]. simpl. by rewrite Ht.
Qed.

(** C26: frames written one after the other and read by the peer of the same
    direction and limit.  Whatever the underlying writer does (short writes,
    errors in the middle of a header or a payload, a zero count), the peer
    reads an initial part of the frames, unchanged and in order, and then the
    end of the stream or a truncated frame; when every write succeeded it reads
    all the frames and then the end of the stream. *)
Theorem frames_roundtrip (sink : Sink) (direction limit : Z) (frames : list Frame) :
  let '(sent, err) := WriteFrames ctl (NewWriterWithLimit direction limit) sink frames 0 in
  ∃ k e, ReadFrames ctl (S (length frames)) (NewReaderWithLimit direction limit)
           (mkStream sent true) = (take k frames, Some e) ∧
    (e = EOF ∨ e = ErrTruncatedFrame) ∧ (err = None → e = EOF ∧ take k frames = frames).
Proof.
  destruct (WriteFrames _ _ _ _ _) as [sent err] eqn:E.
  eapply (ReadFrames_written _ (NewWriterWithLimit direction limit)); [|done|done|exact E]. simpl.
  change MaxPayloadSize with 65536.
  destruct (Z.eqb_spec limit 0), (Z.ltb_spec 65536 limit); simpl; lia.
Qed.
End theory.

(** ** Samples *)

Lemma ReadFrame_exact_witness :
  ReadFrame (λ _ _, true) (NewReader ClientToDaemon) (mkStream [7; 0; 0; 0; 2; 104; 105; 9] true) =
    Ok (mkFrame TypeStdin [104; 105], mkStream [9] true).
Proof.
  apply ReadFrame_exact.
  - reflexivity.
  - simpl. repeat (apply Forall_cons; split; [unfold isByte; lia|]). by apply Forall_nil.
  - split_and!; reflexivity.
Defined.

(** A sink that takes one byte a call delivers two frames; one whose tenth
    call fails leaves the peer the first frame and a truncated one. *)
Example sample_chunked : ReadFrames (λ _ _, true) 3 (NewReader ClientToDaemon)
    (mkStream (fst (WriteFrames (λ _ _, true) (NewWriter ClientToDaemon)
       (λ _, mkWriteOutcome 1 false)
       [mkFrame TypeStdin [104; 105]; mkFrame TypeStdinEOF []] 0)) true) =
  ([mkFrame TypeStdin [104; 105]; mkFrame TypeStdinEOF []], Some EOF).
Proof. vm_compute. reflexivity. Qed.

Example sample_cut : let '(sent, err) := WriteFrames (λ _ _, true) (NewWriter ClientToDaemon)
    (λ i, mkWriteOutcome 1 (Nat.eqb i 9))
    [mkFrame TypeStdin [104; 105]; mkFrame TypeStdinEOF []] 0 in
  (ReadFrames (λ _ _, true) 3 (NewReader ClientToDaemon) (mkStream sent true), err) =
  (([mkFrame TypeStdin [104; 105]], Some ErrTruncatedFrame), Some ErrWriter).
Proof. vm_compute. reflexivity. Qed.
