(* ===== verification/MigrationBundle.v ===== *)
(** * The export bundle state machine (src/internal/migration/state.go)

    [BundleState], its [Validate] and [ApplyBundleTransition], which turns one
    atomic action of an export into the next durable state.  The counters are
    the source's [uint64] and [uint8] fields, kept at their width; a phase or
    an action outside the declared constants is a value of its own, as the
    source's string types allow it.

    The specification is the repository's own (src/formal/MigrationBundle.tla):
    [MigrationBundleSpec] states it as a step relation. *)
From S2P Require Import Prelude.
Open Scope Z_scope.

Inductive BundlePhase :=
  | BundlePhaseDraft | BundlePhaseClaimed | BundlePhaseSnapshotted
  | BundlePhaseWriting | BundlePhaseSealed | BundlePhaseCancelled
  | BundlePhaseOther (s : string).
#[global] Instance BundlePhase_eq_dec : EqDecision BundlePhase.
Proof. solve_decision. Defined.

Inductive BundleAction :=
  | BundleStopSource | BundleAcquireClaim | BundleCreateSnapshot | BundleBeginWriting
  | BundleWriteNextChunk | BundleCheckpointPrefix | BundleCrash | BundleRestart
  | BundleTruncateUnverifiedTail | BundleSeal | BundleRequestCancel | BundleCancel
  | BundleRemoveRetainedPartial | BundleTamper
  | BundleActionOther (s : string).

#[global] Instance BundleAction_eq_dec : EqDecision BundleAction.
Proof. solve_decision. Defined.

(** The two error classes; the message texts are not kept. *)
Inductive MigrationError := ErrInvalidStateTransition | ErrStateInvariant.

Record BundleStateOptions := mkBundleStateOptions {
  bo_SourceDigest : string; bo_SourceStopped : bool;
  bo_MaxChunks : Z; bo_MaxCrashes : Z;
}.

Record BundleState := mkBundleState {
  bs_Phase : BundlePhase;
  bs_InitialSourceDigest : string;
  bs_SourceDigest : string;
  bs_SourceStopped : bool;
  bs_ClaimHeld : bool;
  bs_SnapshotExists : bool;
  bs_SnapshotIndependent : bool;
  bs_Written : Z;
  bs_Checkpoint : Z;
  bs_TailAuthentic : bool;
  bs_Footer : bool;
  bs_Published : bool;
  bs_Tampered : bool;
  bs_CancelRequested : bool;
  bs_RetainPartial : bool;
  bs_PartialRetained : bool;
  bs_DaemonUp : bool;
  bs_CrashCount : Z;
  bs_SnapshotEffects : Z;
  bs_SealEffects : Z;
  bs_MaxChunks : Z;
  bs_MaxCrashes : Z;
}.
#[global] Instance BundleState_eta : Eta BundleState := λ s, mkBundleState
  (bs_Phase s) (bs_InitialSourceDigest s) (bs_SourceDigest s) (bs_SourceStopped s)
  (bs_ClaimHeld s) (bs_SnapshotExists s) (bs_SnapshotIndependent s) (bs_Written s)
  (bs_Checkpoint s) (bs_TailAuthentic s) (bs_Footer s) (bs_Published s) (bs_Tampered s)
  (bs_CancelRequested s) (bs_RetainPartial s) (bs_PartialRetained s) (bs_DaemonUp s)
  (bs_CrashCount s) (bs_SnapshotEffects s) (bs_SealEffects s) (bs_MaxChunks s)
  (bs_MaxCrashes s).

Record BundleTransition := mkBundleTransition {
  bt_Action : BundleAction; bt_RetainPartial : bool;
}.

Definition validBundlePhase (phase : BundlePhase) : bool :=
  match phase with BundlePhaseOther _ => false | _ => true end.
Definition bundleTerminal (phase : BundlePhase) : bool :=
  match phase with BundlePhaseSealed | BundlePhaseCancelled => true | _ => false end.
Definition bundleCancellable (phase : BundlePhase) : bool :=
  match phase with
  | BundlePhaseClaimed | BundlePhaseSnapshotted | BundlePhaseWriting => true
  | _ => false
  end.

(** [phase == constant] *)
Definition phaseIs (p : BundlePhase) (s : BundleState) : bool := bool_decide (bs_Phase s = p).

(** The phase switch at the end of [Validate]. *)
Definition validPhaseEffects (s : BundleState) : bool :=
  match bs_Phase s with
  | BundlePhaseDraft =>
      negb (bs_ClaimHeld s || bs_SnapshotExists s || negb (bs_Written s =? 0)
        || negb (bs_Checkpoint s =? 0) || bs_Footer s || bs_Published s || bs_PartialRetained s)
  | BundlePhaseClaimed =>
      negb (negb (bs_ClaimHeld s) || negb (bs_SourceStopped s) || bs_SnapshotExists s)
  | BundlePhaseSnapshotted | BundlePhaseWriting =>
      negb (bs_ClaimHeld s || negb (bs_SnapshotExists s) || negb (bs_SnapshotIndependent s)
        || negb (bs_SnapshotEffects s =? 1) || bs_Footer s || bs_Published s)
  | BundlePhaseSealed =>
      negb (bs_ClaimHeld s || negb (bs_SnapshotExists s) || negb (bs_SnapshotIndependent s)
        || negb (bs_Written s =? bs_MaxChunks s) || negb (bs_Checkpoint s =? bs_MaxChunks s)
        || negb (bs_TailAuthentic s) || negb (bs_Footer s) || negb (bs_Published s)
        || negb (bs_SealEffects s =? 1))
  | BundlePhaseCancelled =>
      negb (bs_ClaimHeld s || bs_SnapshotExists s || bs_SnapshotIndependent s
        || negb (bs_Written s =? 0) || negb (bs_Checkpoint s =? 0) || negb (bs_TailAuthentic s)
        || bs_Footer s || bs_Published s)
  | BundlePhaseOther _ => true
  end.

(** [BundleState.Validate]: the checks in the order of the source, each the
    negation of the condition that returns an error. *)
Definition BundleState_Validate (s : BundleState) : result MigrationError () :=
  let check b := guard_err b ErrStateInvariant in
  check (negb (String.eqb (bs_InitialSourceDigest s) ""
    || negb (String.eqb (bs_SourceDigest s) (bs_InitialSourceDigest s))));;
  check (negb (bs_MaxChunks s =? 0));;
  check (validBundlePhase (bs_Phase s));;
  check (negb ((bs_MaxChunks s <? bs_Written s) || (bs_Written s <? bs_Checkpoint s)));;
  check (negb (bs_MaxCrashes s <? bs_CrashCount s));;
  check (negb ((1 <? bs_SnapshotEffects s) || (1 <? bs_SealEffects s)));;
  check (negb (bs_SnapshotIndependent s && negb (bs_SnapshotExists s)));;
  check (negb (bs_ClaimHeld s && (negb (phaseIs BundlePhaseClaimed s)
    || negb (bs_SourceStopped s) || bs_SnapshotIndependent s)));;
  check (negb (((0 <? bs_Written s) || (0 <? bs_Checkpoint s) || bs_Footer s || bs_Published s)
    && (negb (bs_SnapshotExists s) || negb (bs_SnapshotIndependent s))));;
  check (negb (negb (bs_TailAuthentic s) && (negb (phaseIs BundlePhaseWriting s)
    || (bs_Written s <=? bs_Checkpoint s))));;
  check (negb (bs_Published s && (negb (phaseIs BundlePhaseSealed s) || negb (bs_Footer s))));;
  check (negb (bs_RetainPartial s && negb (bs_CancelRequested s)));;
  check (negb (bs_PartialRetained s && (negb (phaseIs BundlePhaseCancelled s)
    || negb (bs_RetainPartial s))));;
  check (validPhaseEffects s).

Definition NewBundleState (o : BundleStateOptions) : result MigrationError BundleState :=
  let state := mkBundleState BundlePhaseDraft (bo_SourceDigest o) (bo_SourceDigest o)
    (bo_SourceStopped o) false false false 0 0 true false false false false false false true
    0 0 0 (bo_MaxChunks o) (bo_MaxCrashes o) in
  BundleState_Validate state;; mret state.

Definition Importable (s : BundleState) : bool :=
  phaseIs BundlePhaseSealed s && bs_Footer s && bs_Published s && negb (bs_Tampered s)
  && (bs_Written s =? bs_MaxChunks s) && (bs_Checkpoint s =? bs_MaxChunks s)
  && bs_TailAuthentic s.

(** The [switch transition.Action] of [ApplyBundleTransition]. *)
Definition bundleNext (s : BundleState) (t : BundleTransition) : result MigrationError BundleState :=
  let refuse b := guard_err (negb b) ErrInvalidStateTransition in
  let requireDaemon := refuse (negb (bs_DaemonUp s)) in
  match bt_Action t with
  | BundleStopSource =>
      requireDaemon;;
      refuse (negb (phaseIs BundlePhaseDraft s) || bs_SourceStopped s);;
      mret (s <| bs_SourceStopped := true |>)
  | BundleAcquireClaim =>
      requireDaemon;;
      refuse (negb (phaseIs BundlePhaseDraft s) || negb (bs_SourceStopped s));;
      mret (s <| bs_Phase := BundlePhaseClaimed |> <| bs_ClaimHeld := true |>)
  | BundleCreateSnapshot =>
      requireDaemon;;
      refuse (negb (phaseIs BundlePhaseClaimed s) || negb (bs_ClaimHeld s)
        || negb (bs_SnapshotEffects s =? 0));;
      mret (s <| bs_Phase := BundlePhaseSnapshotted |> <| bs_ClaimHeld := false |>
        <| bs_SnapshotExists := true |> <| bs_SnapshotIndependent := true |>
        <| bs_SnapshotEffects ::= u8_succ |>)
  | BundleBeginWriting =>
      requireDaemon;;
      refuse (negb (phaseIs BundlePhaseSnapshotted s) || negb (bs_SnapshotExists s)
        || negb (bs_SnapshotIndependent s));;
      mret (s <| bs_Phase := BundlePhaseWriting |>)
  | BundleWriteNextChunk =>
      requireDaemon;;
      refuse (negb (phaseIs BundlePhaseWriting s) || negb (bs_TailAuthentic s)
        || (bs_MaxChunks s <=? bs_Written s));;
      mret (s <| bs_Written ::= u64_succ |>)
  | BundleCheckpointPrefix =>
      requireDaemon;;
      refuse (negb (phaseIs BundlePhaseWriting s) || negb (bs_TailAuthentic s)
        || (bs_Written s <=? bs_Checkpoint s));;
      mret (s <| bs_Checkpoint := bs_Written s |>)
  | BundleCrash =>
      refuse (negb (bs_DaemonUp s) || bundleTerminal (bs_Phase s)
        || (bs_MaxCrashes s <=? bs_CrashCount s));;
      let next := s <| bs_DaemonUp := false |> <| bs_CrashCount ::= u64_succ |> in
      mret (if phaseIs BundlePhaseWriting s && (bs_Checkpoint s <? bs_Written s)
            then next <| bs_TailAuthentic := false |> else next)
  | BundleRestart =>
      refuse (bs_DaemonUp s);;
      mret (s <| bs_DaemonUp := true |>)
  | BundleTruncateUnverifiedTail =>
      requireDaemon;;
      refuse (negb (phaseIs BundlePhaseWriting s) || bs_TailAuthentic s);;
      mret (s <| bs_Written := bs_Checkpoint s |> <| bs_TailAuthentic := true |>)
  | BundleSeal =>
      requireDaemon;;
      refuse (negb (phaseIs BundlePhaseWriting s) || negb (bs_TailAuthentic s)
        || negb (bs_Written s =? bs_MaxChunks s) || negb (bs_Checkpoint s =? bs_MaxChunks s)
        || negb (bs_SealEffects s =? 0));;
      mret (s <| bs_Phase := BundlePhaseSealed |> <| bs_Footer := true |>
        <| bs_Published := true |> <| bs_SealEffects ::= u8_succ |>)
  | BundleRequestCancel =>
      requireDaemon;;
      refuse (negb (bundleCancellable (bs_Phase s)) || bs_CancelRequested s);;
      mret (s <| bs_CancelRequested := true |> <| bs_RetainPartial := bt_RetainPartial t |>)
  | BundleCancel =>
      requireDaemon;;
      refuse (negb (bundleCancellable (bs_Phase s)) || negb (bs_CancelRequested s));;
      mret (s <| bs_Phase := BundlePhaseCancelled |> <| bs_ClaimHeld := false |>
        <| bs_SnapshotExists := false |> <| bs_SnapshotIndependent := false |>
        <| bs_PartialRetained := bs_RetainPartial s && (0 <? bs_Written s) |>
        <| bs_Written := 0 |> <| bs_Checkpoint := 0 |> <| bs_TailAuthentic := true |>
        <| bs_Footer := false |> <| bs_Published := false |>)
  | BundleRemoveRetainedPartial =>
      requireDaemon;;
      refuse (negb (phaseIs BundlePhaseCancelled s) || negb (bs_PartialRetained s));;
      mret (s <| bs_PartialRetained := false |>)
  | BundleTamper =>
      refuse (negb (phaseIs BundlePhaseSealed s) || bs_Tampered s);;
      mret (s <| bs_Tampered := true |>)
  | BundleActionOther _ => Err ErrInvalidStateTransition
  end.

(** [ApplyBundleTransition]: on every error the input state is returned. *)
Definition ApplyBundleTransition (s : BundleState) (t : BundleTransition) :
    BundleState * option MigrationError :=
  match BundleState_Validate s;; (next ← bundleNext s t; BundleState_Validate next;; mret next) with
  | Ok next => (next, None)
  | Err e => (s, Some e)
  end.
