(* ===== verification/MigrationBundleSpec.v ===== *)
(** * The specification of the export machine and the refinement

    [BundleTLA] is src/formal/MigrationBundle.tla: its variables, [Init] and
    the disjuncts of [Next], with the constants as arguments.  The theorems
    relate [ApplyBundleTransition] to it in both directions, bound the length
    of every export, and show that an export that was not cancelled can always
    be completed. *)
From S2P Require Import Prelude MigrationBundle.
Open Scope Z_scope.

Module BundleTLA.
Record vars := mkvars {
  phase : BundlePhase; sourceDigest : string; sourceStopped : bool; claimHeld : bool;
  snapshotExists : bool; snapshotIndependent : bool; written : Z; checkpoint : Z;
  tailAuthentic : bool; footer : bool; published : bool; tampered : bool;
  cancelRequested : bool; retainPartial : bool; partialRetained : bool; daemonUp : bool;
  crashCount : Z; snapshotEffects : Z; sealEffects : Z;
}.
#[global] Instance vars_eta : Eta vars := λ v, mkvars
  (phase v) (sourceDigest v) (sourceStopped v) (claimHeld v) (snapshotExists v)
  (snapshotIndependent v) (written v) (checkpoint v) (tailAuthentic v) (footer v)
  (published v) (tampered v) (cancelRequested v) (retainPartial v) (partialRetained v)
  (daemonUp v) (crashCount v) (snapshotEffects v) (sealEffects v).

Definition cancellable (p : BundlePhase) : Prop :=
  p = BundlePhaseClaimed ∨ p = BundlePhaseSnapshotted ∨ p = BundlePhaseWriting.
Definition terminal (p : BundlePhase) : Prop := p = BundlePhaseSealed ∨ p = BundlePhaseCancelled.

Definition Importable (MaxChunks : Z) (v : vars) : Prop :=
  phase v = BundlePhaseSealed ∧ footer v = true ∧ published v = true ∧ tampered v = false ∧
  written v = MaxChunks ∧ checkpoint v = MaxChunks ∧ tailAuthentic v = true.

Definition Init (SourceDigest : string) (v : vars) : Prop :=
  ∃ stopped, v = mkvars BundlePhaseDraft SourceDigest stopped false false false 0 0 true
    false false false false false false true 0 0 0.

(** The disjuncts of [Next] but [Idle], each named. *)
Inductive Action (MaxChunks MaxCrashes : Z) : BundleAction → vars → vars → Prop :=
  | StopSource v : daemonUp v = true → phase v = BundlePhaseDraft → sourceStopped v = false →
      Action MaxChunks MaxCrashes BundleStopSource v (v <| sourceStopped := true |>)
  | AcquireClaim v : daemonUp v = true → phase v = BundlePhaseDraft → sourceStopped v = true →
      Action MaxChunks MaxCrashes BundleAcquireClaim v
        (v <| phase := BundlePhaseClaimed |> <| claimHeld := true |>)
  | CreateSnapshot v : daemonUp v = true → phase v = BundlePhaseClaimed → claimHeld v = true →
      snapshotEffects v = 0 →
      Action MaxChunks MaxCrashes BundleCreateSnapshot v
        (v <| phase := BundlePhaseSnapshotted |> <| claimHeld := false |>
           <| snapshotExists := true |> <| snapshotIndependent := true |>
           <| snapshotEffects := snapshotEffects v + 1 |>)
  | BeginWriting v : daemonUp v = true → phase v = BundlePhaseSnapshotted →
      snapshotExists v = true → snapshotIndependent v = true →
      Action MaxChunks MaxCrashes BundleBeginWriting v (v <| phase := BundlePhaseWriting |>)
  | WriteNextChunk v : daemonUp v = true → phase v = BundlePhaseWriting →
      tailAuthentic v = true → written v < MaxChunks →
      Action MaxChunks MaxCrashes BundleWriteNextChunk v (v <| written := written v + 1 |>)
  | CheckpointPrefix v : daemonUp v = true → phase v = BundlePhaseWriting →
      tailAuthentic v = true → checkpoint v < written v →
      Action MaxChunks MaxCrashes BundleCheckpointPrefix v (v <| checkpoint := written v |>)
  | Crash v : daemonUp v = true → ¬ terminal (phase v) → crashCount v < MaxCrashes →
      Action MaxChunks MaxCrashes BundleCrash v
        (v <| daemonUp := false |> <| crashCount := crashCount v + 1 |>
           <| tailAuthentic := if bool_decide (phase v = BundlePhaseWriting) && (checkpoint v <? written v)
                               then false else tailAuthentic v |>)
  | Restart v : daemonUp v = false →
      Action MaxChunks MaxCrashes BundleRestart v (v <| daemonUp := true |>)
  | TruncateUnverifiedTail v : daemonUp v = true → phase v = BundlePhaseWriting →
      tailAuthentic v = false →
      Action MaxChunks MaxCrashes BundleTruncateUnverifiedTail v
        (v <| written := checkpoint v |> <| tailAuthentic := true |>)
  | Seal v : daemonUp v = true → phase v = BundlePhaseWriting → tailAuthentic v = true →
      written v = MaxChunks → checkpoint v = MaxChunks → sealEffects v = 0 →
      Action MaxChunks MaxCrashes BundleSeal v
        (v <| phase := BundlePhaseSealed |> <| footer := true |> <| published := true |>
           <| sealEffects := sealEffects v + 1 |>)
  | RequestCancel v b : daemonUp v = true → cancellable (phase v) → cancelRequested v = false →
      Action MaxChunks MaxCrashes BundleRequestCancel v
        (v <| cancelRequested := true |> <| retainPartial := b |>)
  | Cancel v : daemonUp v = true → cancellable (phase v) → cancelRequested v = true →
      Action MaxChunks MaxCrashes BundleCancel v
        (v <| phase := BundlePhaseCancelled |> <| claimHeld := false |>
           <| snapshotExists := false |> <| snapshotIndependent := false |>
           <| partialRetained := retainPartial v && (0 <? written v) |>
           <| written := 0 |> <| checkpoint := 0 |> <| tailAuthentic := true |>
           <| footer := false |> <| published := false |>)
  | RemoveRetainedPartial v : daemonUp v = true → phase v = BundlePhaseCancelled →
      partialRetained v = true →
      Action MaxChunks MaxCrashes BundleRemoveRetainedPartial v (v <| partialRetained := false |>)
  | Tamper v : phase v = BundlePhaseSealed → tampered v = false →
      Action MaxChunks MaxCrashes BundleTamper v (v <| tampered := true |>).
End BundleTLA.
Import BundleTLA.

(** The refinement mapping: the TLA+ variables of a production state. *)
Definition bundleVars (s : BundleState) : BundleTLA.vars := BundleTLA.mkvars
  (bs_Phase s) (bs_SourceDigest s) (bs_SourceStopped s) (bs_ClaimHeld s) (bs_SnapshotExists s)
  (bs_SnapshotIndependent s) (bs_Written s) (bs_Checkpoint s) (bs_TailAuthentic s) (bs_Footer s)
  (bs_Published s) (bs_Tampered s) (bs_CancelRequested s) (bs_RetainPartial s)
  (bs_PartialRetained s) (bs_DaemonUp s) (bs_CrashCount s) (bs_SnapshotEffects s)
  (bs_SealEffects s).

(** Every counter is a value of its machine type. *)
Definition bundleTyped (s : BundleState) : Prop :=
  0 ≤ bs_Written s ∧ 0 ≤ bs_Checkpoint s ∧ 0 ≤ bs_CrashCount s ∧
  0 ≤ bs_SnapshotEffects s ∧ 0 ≤ bs_SealEffects s ∧
  0 ≤ bs_MaxChunks s < two64 ∧ 0 ≤ bs_MaxCrashes s < two64.

(** ** Validity

    What [Validate] demands, on the specification's variables. *)
Definition phaseEffects (MaxChunks : Z) (v : BundleTLA.vars) : Prop :=
  match phase v with
  | BundlePhaseDraft =>
      claimHeld v = false ∧ snapshotExists v = false ∧ written v = 0 ∧ checkpoint v = 0 ∧
      footer v = false ∧ published v = false ∧ partialRetained v = false
  | BundlePhaseClaimed => claimHeld v = true ∧ sourceStopped v = true ∧ snapshotExists v = false
  | BundlePhaseSnapshotted | BundlePhaseWriting =>
      claimHeld v = false ∧ snapshotExists v = true ∧ snapshotIndependent v = true ∧
      snapshotEffects v = 1 ∧ footer v = false ∧ published v = false
  | BundlePhaseSealed =>
      claimHeld v = false ∧ snapshotExists v = true ∧ snapshotIndependent v = true ∧
      written v = MaxChunks ∧ checkpoint v = MaxChunks ∧ tailAuthentic v = true ∧
      footer v = true ∧ published v = true ∧ sealEffects v = 1
  | BundlePhaseCancelled =>
      claimHeld v = false ∧ snapshotExists v = false ∧ snapshotIndependent v = false ∧
      written v = 0 ∧ checkpoint v = 0 ∧ tailAuthentic v = true ∧
      footer v = false ∧ published v = false
  | BundlePhaseOther _ => True
  end.

Record bundleValid (MaxChunks MaxCrashes : Z) (v : BundleTLA.vars) : Prop := {
  bv_phase : validBundlePhase (phase v) = true;
  bv_range : checkpoint v ≤ written v ≤ MaxChunks;
  bv_crash : crashCount v ≤ MaxCrashes;
  bv_once : snapshotEffects v ≤ 1 ∧ sealEffects v ≤ 1;
  bv_indep : snapshotIndependent v = true → snapshotExists v = true;
  bv_claim : claimHeld v = true →
    phase v = BundlePhaseClaimed ∧ sourceStopped v = true ∧ snapshotIndependent v = false;
  bv_payload : 0 < written v ∨ 0 < checkpoint v ∨ footer v = true ∨ published v = true →
    snapshotExists v = true ∧ snapshotIndependent v = true;
  bv_tail : tailAuthentic v = false → phase v = BundlePhaseWriting ∧ checkpoint v < written v;
  bv_published : published v = true → phase v = BundlePhaseSealed ∧ footer v = true;
  bv_retain : retainPartial v = true → cancelRequested v = true;
  bv_retained : partialRetained v = true →
    phase v = BundlePhaseCancelled ∧ retainPartial v = true;
  bv_effects : phaseEffects MaxChunks v;
}.

Definition validBundle (s : BundleState) : Prop :=
  (bs_InitialSourceDigest s ≠ "" ∧ bs_SourceDigest s = bs_InitialSourceDigest s) ∧
  bs_MaxChunks s ≠ 0 ∧ bundleValid (bs_MaxChunks s) (bs_MaxCrashes s) (bundleVars s).

Lemma validPhaseEffects_iff s :
  validPhaseEffects s = true ↔ phaseEffects (bs_MaxChunks s) (bundleVars s).
Proof.
  unfold validPhaseEffects, phaseEffects. simpl.
  destruct (bs_Phase s); rewrite ?negb_true_iff, ?orb_false_iff, ?negb_false_iff, ?Z.eqb_eq; tauto.
Qed.

Lemma Validate_valid s : BundleState_Validate s = Ok tt ↔ validBundle s.
Proof.
  unfold BundleState_Validate, phaseIs. cbn zeta. rewrite !guard_then, guard_ok.
  rewrite validPhaseEffects_iff. unfold validBundle.
  transitivity (
    (bs_InitialSourceDigest s ≠ "" ∧ bs_SourceDigest s = bs_InitialSourceDigest s) ∧
    bs_MaxChunks s ≠ 0 ∧ validBundlePhase (bs_Phase s) = true ∧
    bs_Checkpoint s ≤ bs_Written s ≤ bs_MaxChunks s ∧ bs_CrashCount s ≤ bs_MaxCrashes s ∧
    (bs_SnapshotEffects s ≤ 1 ∧ bs_SealEffects s ≤ 1) ∧
    (bs_SnapshotIndependent s = true → bs_SnapshotExists s = true) ∧
    (bs_ClaimHeld s = true →
      bs_Phase s = BundlePhaseClaimed ∧ bs_SourceStopped s = true ∧ bs_SnapshotIndependent s = false) ∧
    (0 < bs_Written s ∨ 0 < bs_Checkpoint s ∨ bs_Footer s = true ∨ bs_Published s = true →
      bs_SnapshotExists s = true ∧ bs_SnapshotIndependent s = true) ∧
    (bs_TailAuthentic s = false → bs_Phase s = BundlePhaseWriting ∧ bs_Checkpoint s < bs_Written s) ∧
    (bs_Published s = true → bs_Phase s = BundlePhaseSealed ∧ bs_Footer s = true) ∧
    (bs_RetainPartial s = true → bs_CancelRequested s = true) ∧
    (bs_PartialRetained s = true → bs_Phase s = BundlePhaseCancelled ∧ bs_RetainPartial s = true) ∧
    phaseEffects (bs_MaxChunks s) (bundleVars s)).
  - repeat (apply and_iff; [bool_meaning|]). done.
  - do 2 (apply and_iff; [done|]). split; [intros (?&?&?&?&?&?&?&?&?&?&?&?); by constructor|].
    intros []. repeat (split; [assumption|]). done.
Qed.

(** Split into the cases of an action and its phase, with the booleans the
    validity conditions determine. *)
Ltac action_cases :=
  unfold phaseEffects, cancellable, terminal in *; simpl in *;
  match goal with ph : BundlePhase |- _ => destruct ph end; try done; destruct_and?;
  repeat match goal with
  | H : ?x = true |- _ => is_var x; subst x
  | H : ?x = false |- _ => is_var x; subst x
  end;
  try solve [destruct_or!; done | exfalso; tauto];
  repeat match goal with
  | H : true = true → _ |- _ => specialize (H eq_refl)
  | H : true = false → _ |- _ => clear H
  | H : false = true → _ |- _ => clear H
  end.

(** Every action of the specification keeps the validity conditions. *)
Lemma Action_valid MaxChunks MaxCrashes a v v' :
  0 ≤ checkpoint v → bundleValid MaxChunks MaxCrashes v → Action MaxChunks MaxCrashes a v v' →
  bundleValid MaxChunks MaxCrashes v'.
Proof.
  intros Hc Hv Hstep. destruct Hv as [Hph Hr Hcr Ho Hi Hcl Hp Ht Hpu Hre Hrd Heff].
  destruct Hstep as [v|v|v|v|v|v|v|v|v|v|v b|v|v|v]; destruct v as [ph]; action_cases.
  all: constructor; unfold phaseEffects; simpl.
  all: try solve [done | lia | intros; destruct_and?; split_and?; (done || lia)].
  all: try case_bool_decide; simpl in *; intros; bool_prop; repeat match goal with
    | H : ?x = ?x → _ |- _ => specialize (H eq_refl)
    | H : ?P → _, H' : ?P |- _ => specialize (H H') end; destruct_and?; split_and?; try (done || lia).
  all: try match goal with |- ?b = false => destruct b; [exfalso|]; naive_solver lia end.
  by destruct (Z.ltb_spec checkpoint0 written0); [|apply Ht].

Qed.

(** ** The source's transition function is the specification's actions *)

Definition sameConstants (s s' : BundleState) : Prop :=
  bs_InitialSourceDigest s' = bs_InitialSourceDigest s ∧
  bs_MaxChunks s' = bs_MaxChunks s ∧ bs_MaxCrashes s' = bs_MaxCrashes s.

(** The guards a successful transition passed. *)
Ltac run_guards H :=
  repeat (match type of H with
    (guard_err ?b _ ≫= _) = Ok _ => destruct b eqn:?; simpl in H; [|done] end).
Ltac tests :=
  bool_prop;
  repeat match goal with
  | H : Z.eqb _ _ = true |- _ => apply Z.eqb_eq in H
  | H : Z.leb _ _ = false |- _ => apply Z.leb_gt in H
  end.

Lemma terminal_false p : bundleTerminal p = false → ¬ terminal p.
Proof. unfold terminal. destruct p; simpl; naive_solver. Qed.
Lemma cancellable_true p : bundleCancellable p = true ↔ cancellable p.
Proof. unfold cancellable. destruct p; simpl; naive_solver. Qed.

Lemma Action_eq MaxChunks MaxCrashes a v v1 v2 :
  Action MaxChunks MaxCrashes a v v1 → v2 = v1 → Action MaxChunks MaxCrashes a v v2.
Proof. by intros ? ->. Qed.

Lemma crash_tail s :
  bundleVars (let next := s <| bs_DaemonUp := false |> <| bs_CrashCount ::= u64_succ |> in
    if phaseIs BundlePhaseWriting s && (bs_Checkpoint s <? bs_Written s)
    then next <| bs_TailAuthentic := false |> else next) =
  (bundleVars s) <| daemonUp := false |> <| crashCount := u64_succ (bs_CrashCount s) |>
    <| tailAuthentic := if bool_decide (bs_Phase s = BundlePhaseWriting) &&
                           (bs_Checkpoint s <? bs_Written s)
                        then false else bs_TailAuthentic s |>.
Proof. unfold phaseIs. by destruct (_ && _). Qed.

#[local] Opaque u64_succ u8_succ.

Lemma bundleNext_action s t s' :
  validBundle s → bundleTyped s → bundleNext s t = Ok s' →
  Action (bs_MaxChunks s) (bs_MaxCrashes s) (bt_Action t) (bundleVars s) (bundleVars s') ∧
  sameConstants s s' ∧ bundleTyped s'.
Proof.
  intros (_&_&Hv) Ht H. pose proof (bv_range _ _ _ Hv) as Hr. simpl in Hr.
  pose proof Ht as (?&?&?&?&?&?&?).
  destruct t as [a retain]; destruct a; unfold bundleNext in H; simpl in H; try done.
  all: run_guards H; injection H as <-; unfold phaseIs in *; tests.
  all: split; [|split; [try case_match; done|]].
  all: try (unfold bundleTyped; simpl; try case_match; simpl;
            rewrite ?u64_succ_nowrap, ?u8_succ_nowrap by lia; lia).
  all: eapply Action_eq; [econstructor; simpl; first [done | lia | by apply terminal_false | by apply cancellable_true]|].
  all: try reflexivity.
  - rewrite <-(u8_succ_nowrap (snapshotEffects (bundleVars s))) by (simpl; lia). reflexivity.
  - rewrite <-(u64_succ_nowrap (written (bundleVars s))) by (simpl; lia). reflexivity.
  - etrans; [exact (crash_tail s)|].
    rewrite <-(u64_succ_nowrap (crashCount (bundleVars s))) by (simpl; lia). reflexivity.
  - rewrite <-(u8_succ_nowrap (sealEffects (bundleVars s))) by (simpl; lia). reflexivity.
Qed.

(** An action has one outcome, but for the retention choice of a cancellation. *)
Lemma Action_deterministic MaxChunks MaxCrashes a v v1 v2 :
  Action MaxChunks MaxCrashes a v v1 → Action MaxChunks MaxCrashes a v v2 →
  retainPartial v1 = retainPartial v2 → v1 = v2.
Proof. intros H1 H2. destruct H1; inversion H2; subst; try done. by intros [= ->]. Qed.

Lemma action_bundleNext s a v' :
  Action (bs_MaxChunks s) (bs_MaxCrashes s) a (bundleVars s) v' →
  is_ok (bundleNext s (mkBundleTransition a (retainPartial v'))) = true.
Proof.
  intros H. remember (bundleVars s) as v eqn:Hv. destruct H; subst v; unfold bundleNext, phaseIs; simpl in *.
  all: repeat match goal with
    | E : bs_Phase _ = _ |- _ => rewrite E
    | E : cancellable _ |- _ => apply cancellable_true in E; rewrite E
    | E : _ = true |- _ => rewrite E
    | E : _ = false |- _ => rewrite E
    | E : _ = 0 |- _ => rewrite E
    | |- context [Z.eqb ?x ?y] => rewrite (proj2 (Z.eqb_eq x y)) by lia
    | |- context [Z.leb ?x ?y] => rewrite (proj2 (Z.leb_gt x y)) by lia
    | E : ¬ terminal ?p |- _ => unfold terminal in E; destruct p; try tauto
    end; try done.
Qed.

Lemma Action_retain MaxChunks MaxCrashes a v v' :
  Action MaxChunks MaxCrashes a v v' → a ≠ BundleRequestCancel → retainPartial v' = retainPartial v.
Proof. by destruct 1. Qed.

(** The next state of an enabled action is valid: the last check of
    [ApplyBundleTransition] never fires. *)
Lemma bundleNext_valid s t s' :
  validBundle s → bundleTyped s → bundleNext s t = Ok s' → validBundle s'.
Proof.
  intros Hs Ht H. destruct (bundleNext_action s t s' Hs Ht H) as (Ha&(Hi&HM&HC)&_).
  destruct Hs as ((Hd1&Hd2)&Hm&Hv). unfold validBundle. rewrite Hi, HM, HC. split_and!; [done| |done|].
  - rewrite <-Hd2. change (sourceDigest (bundleVars s') = sourceDigest (bundleVars s)). by destruct Ha.
  - eapply Action_valid; [|done..]. apply Ht.
Qed.

Lemma Apply_ok s t s' :
  bundleTyped s →
  ApplyBundleTransition s t = (s', None) ↔ validBundle s ∧ bundleNext s t = Ok s'.
Proof.
  intros Ht. unfold ApplyBundleTransition. rewrite <-Validate_valid. split.
  - destruct (BundleState_Validate s) as [[]|] eqn:Hs; simpl; [|done].
    destruct (bundleNext s t) as [next|] eqn:Hn; simpl; [|done].
    destruct (BundleState_Validate next); simpl; [|done]. by intros [= ->].
  - intros [Hs Hn]. rewrite Hs, Hn. simpl.
    assert (BundleState_Validate s' = Ok tt) as ->; [|done].
    apply Validate_valid. apply Validate_valid in Hs. by eapply bundleNext_valid.
Qed.

(** ** Reachable states *)

Definition optionsTyped (o : BundleStateOptions) : Prop :=
  0 ≤ bo_MaxChunks o < two64 ∧ 0 ≤ bo_MaxCrashes o < two64.
Definition bundleStep (s s' : BundleState) : Prop := ∃ t, ApplyBundleTransition s t = (s', None).
Definition bundleReachable (s : BundleState) : Prop :=
  ∃ o s0, optionsTyped o ∧ NewBundleState o = Ok s0 ∧ rtc bundleStep s0 s.

(** What holds of reachable states beyond [Validate]: the two critical effects
    have not happened before their phase, and only a sealed bundle is
    tampered with. *)
Record effectsFresh (v : vars) : Prop := {
  ef_snapshot : phase v = BundlePhaseDraft ∨ phase v = BundlePhaseClaimed → snapshotEffects v = 0;
  ef_seal : phase v ≠ BundlePhaseSealed → sealEffects v = 0;
  ef_tamper : phase v ≠ BundlePhaseSealed → tampered v = false;
}.

Lemma Action_fresh MaxChunks MaxCrashes a v v' :
  Action MaxChunks MaxCrashes a v v' → effectsFresh v → effectsFresh v'.
Proof.
  intros Hstep [Hs He Ht].
  destruct Hstep; constructor; simpl; intros; try done.
  all: try solve [apply Hs; by destruct_or?; auto | apply He; congruence | apply Ht; congruence
    | destruct_or!; congruence].
  all: unfold cancellable in *; destruct_or!; first [apply He | apply Ht]; congruence.
Qed.

Record reached (s : BundleState) : Prop := {
  re_valid : validBundle s; re_typed : bundleTyped s; re_fresh : effectsFresh (bundleVars s);
}.

Lemma NewBundleState_reached o s :
  optionsTyped o → NewBundleState o = Ok s → reached s ∧ bs_MaxChunks s = bo_MaxChunks o ∧
  bs_MaxCrashes s = bo_MaxCrashes o ∧ Init (bo_SourceDigest o) (bundleVars s).
Proof.
  intros [HM HC] H. unfold NewBundleState in H. apply result_bind_ok in H as ([]&Hv&[= <-]).
  split_and!; [|done|done|by exists (bo_SourceStopped o)].
  split; [by apply Validate_valid| |by constructor]. unfold bundleTyped; simpl; lia.
Qed.

Lemma bundleStep_reached s s' : reached s → bundleStep s s' → reached s' ∧ sameConstants s s'.
Proof.
  intros [Hv Ht Hf] [t H]. apply Apply_ok in H as [_ H]; [|done].
  destruct (bundleNext_action s t s' Hv Ht H) as (Ha&Hc&Ht').
  split; [|done]. split; [by eapply bundleNext_valid|done|by eapply Action_fresh].
Qed.

Lemma bundleReachable_reached s : bundleReachable s → reached s.
Proof.
  intros (o&s0&Ho&H0&Hs). eapply (rtc_invariant bundleStep reached); [..|done].
  - by apply (NewBundleState_reached o).
  - intros y y' Hy Hstep. by eapply bundleStep_reached.
Qed.

Lemma bundleNext_retain s a v' s' :
  Action (bs_MaxChunks s) (bs_MaxCrashes s) a (bundleVars s) v' →
  Action (bs_MaxChunks s) (bs_MaxCrashes s) a (bundleVars s) (bundleVars s') →
  bundleNext s (mkBundleTransition a (retainPartial v')) = Ok s' →
  retainPartial (bundleVars s') = retainPartial v'.
Proof.
  intros H1 H2 Hn. destruct (decide (a = BundleRequestCancel)) as [->|Ha].
  - unfold bundleNext in Hn. simpl in Hn. by run_guards Hn; injection Hn as <-.
  - by rewrite (Action_retain _ _ _ _ _ H1 Ha), (Action_retain _ _ _ _ _ H2 Ha).
Qed.

Lemma bundleNext_error s t e : bundleNext s t = Err e → e = ErrInvalidStateTransition.
Proof.
  intros H. destruct t as [a r]; destruct a; unfold bundleNext in H; simpl in H;
    repeat (match type of H with (guard_err ?b _ ≫= _) = _ => destruct b; simpl in H end); try done; by injection H as <-.
Qed.

Lemma action_realised s a v' :
  reached s → Action (bs_MaxChunks s) (bs_MaxCrashes s) a (bundleVars s) v' →
  ∃ t s', bt_Action t = a ∧ ApplyBundleTransition s t = (s', None) ∧ bundleVars s' = v'.
Proof.
  intros [Hv Ht _] Ha. pose proof (action_bundleNext s a v' Ha) as Hok.
  destruct (bundleNext s _) as [s'|] eqn:Hn; [|done].
  exists (mkBundleTransition a (retainPartial v')), s'. split_and!; [done|by apply Apply_ok|].
  destruct (bundleNext_action s _ s' Hv Ht Hn) as (Ha'&_). simpl in Ha'.
  eapply Action_deterministic; [done..|]. by eapply (bundleNext_retain s a).
Qed.

Lemma Importable_spec s :
  MigrationBundle.Importable s = true ↔ BundleTLA.Importable (bs_MaxChunks s) (bundleVars s).
Proof.
  unfold MigrationBundle.Importable, phaseIs, BundleTLA.Importable.
  rewrite !andb_true_iff, bool_decide_eq_true, negb_true_iff, !Z.eqb_eq. simpl. tauto.
Qed.

(** C8: the export machine and the repository's TLA+ specification are the
    same machine. A fresh state is an initial state of the specification; in
    every reachable state an accepted transition is the specification's action
    of that name, every action the specification enables is accepted with its
    outcome, and a refused transition returns the state unchanged with the
    transition error, never with the invariant error: the check of the next
    state is never needed. The importable states are the specification's. *)
Theorem bundle_refines_spec :
  (∀ o s, optionsTyped o → NewBundleState o = Ok s → Init (bo_SourceDigest o) (bundleVars s)) ∧
  ∀ s, bundleReachable s →
    (∀ t s', ApplyBundleTransition s t = (s', None) →
      Action (bs_MaxChunks s) (bs_MaxCrashes s) (bt_Action t) (bundleVars s) (bundleVars s')) ∧
    (∀ a v', Action (bs_MaxChunks s) (bs_MaxCrashes s) a (bundleVars s) v' →
      ∃ t s', bt_Action t = a ∧ ApplyBundleTransition s t = (s', None) ∧ bundleVars s' = v') ∧
    (∀ t s' e, ApplyBundleTransition s t = (s', Some e) → s' = s ∧ e = ErrInvalidStateTransition) ∧
    (MigrationBundle.Importable s = true ↔ BundleTLA.Importable (bs_MaxChunks s) (bundleVars s)).
Proof.
  split; [intros o s Ho Hs; by apply NewBundleState_reached|].
  intros s Hs%bundleReachable_reached. pose proof Hs as [Hv Ht Hf]. split_and!.
  - intros t s' [_ H]%Apply_ok; [|done]. by apply bundleNext_action.
  - intros a v' Ha. by apply action_realised.
  - intros t s' e. unfold ApplyBundleTransition. rewrite (proj2 (Validate_valid s) Hv). simpl.
    destruct (bundleNext s t) as [next|e'] eqn:Hn; simpl.
    + by rewrite (proj2 (Validate_valid next) (bundleNext_valid _ _ _ Hv Ht Hn)).
    + intros [= <- <-]. split; [done|]. by eapply bundleNext_error.
  - apply Importable_spec.
Qed.

(** ** Termination

    Every action uses up part of a finite budget: the phases left, the chunks
    and checkpoints left, and for each crash the restart, the truncation and
    the chunks it may cost. *)
Definition flag (b : bool) : Z := if b then 1 else 0.
Definition phaseRank (p : BundlePhase) : Z :=
  match p with
  | BundlePhaseDraft => 5 | BundlePhaseClaimed => 4 | BundlePhaseSnapshotted => 3
  | BundlePhaseWriting => 2 | _ => 0
  end.
Definition work (MaxChunks : Z) (v : vars) : Z :=
  if bundleTerminal (phase v) then 0
  else (MaxChunks - written v) + (MaxChunks - checkpoint v)
       + (if tailAuthentic v then 0 else MaxChunks + 1).
Definition budget (MaxChunks MaxCrashes : Z) (v : vars) : Z :=
  phaseRank (phase v) + work MaxChunks v + (MaxCrashes - crashCount v) * (MaxChunks + 3)
  + flag (negb (sourceStopped v)) + flag (negb (cancelRequested v)) + flag (negb (tampered v))
  + flag (partialRetained v) + flag (negb (daemonUp v)).

(** The longest export: two steps for each chunk, the set-up and end steps,
    and [MaxChunks + 3] steps more for each crash. *)
Definition bundleBound (MaxChunks MaxCrashes : Z) : Z :=
  2 * MaxChunks + MaxCrashes * (MaxChunks + 3) + 8.

Lemma Action_budget MaxChunks MaxCrashes a v v' :
  0 ≤ checkpoint v → bundleValid MaxChunks MaxCrashes v → Action MaxChunks MaxCrashes a v v' →
  budget MaxChunks MaxCrashes v' < budget MaxChunks MaxCrashes v.
Proof.
  intros Hc [Hph Hr Hcr Ho Hi Hcl Hp Ht Hpu Hre Hrd Heff] Hstep.
  destruct Hstep as [v|v|v|v|v|v|v|v|v|v|v b|v|v|v]; destruct v as [ph]; action_cases.
  all: unfold budget, work, flag; simpl; try lia.
  all: repeat (case_match; try lia).
Qed.

Lemma budget_nonneg MaxChunks MaxCrashes v :
  0 ≤ MaxChunks → bundleValid MaxChunks MaxCrashes v → 0 ≤ budget MaxChunks MaxCrashes v.
Proof.
  intros HM [Hph Hr Hcr Ho Hi Hcl Hp Ht Hpu Hre Hrd Heff]. unfold budget, work, flag, phaseRank.
  assert (0 ≤ (MaxCrashes - crashCount v) * (MaxChunks + 3)) by nia.
  repeat case_match; lia.
Qed.

Lemma step_budget s s' :
  reached s → bundleStep s s' →
  budget (bs_MaxChunks s') (bs_MaxCrashes s') (bundleVars s') <
  budget (bs_MaxChunks s) (bs_MaxCrashes s) (bundleVars s).
Proof.
  intros Hs Hstep. destruct (bundleStep_reached s s' Hs Hstep) as (_&_&->&->).
  destruct Hs as [Hv Ht _]. destruct Hstep as [t H]. apply Apply_ok in H as [_ H]; [|done].
  eapply Action_budget; [apply Ht|apply Hv|by apply bundleNext_action].
Qed.

Lemma nsteps_budget n s s' :
  reached s → nsteps bundleStep n s s' →
  reached s' ∧ Z.of_nat n + budget (bs_MaxChunks s') (bs_MaxCrashes s') (bundleVars s') ≤
    budget (bs_MaxChunks s) (bs_MaxCrashes s) (bundleVars s).
Proof.
  intros Hs Hn. revert Hs. induction Hn as [s|n s s' s'' Hstep Hn IH]; intros Hs; [split; [done|lia]|].
  pose proof (step_budget s s' Hs Hstep). apply bundleStep_reached in Hstep as [Hs' _]; [|done].
  destruct (IH Hs'). split; [done|lia].
Qed.

Lemma nsteps_constants n s s' : reached s → nsteps bundleStep n s s' → sameConstants s s'.
Proof.
  intros Hs Hn. revert Hs. induction Hn as [s|n s s' s'' Hstep Hn IH]; intros Hs; [done|].
  destruct (bundleStep_reached s s' Hs Hstep) as [Hs' (?&?&?)]. destruct (IH Hs') as (?&?&?).
  split_and!; congruence.
Qed.

(** C27: exports end. No run of accepted transitions from a fresh export,
    crashes, cancellation and tampering included, is longer than a bound that
    depends only on the number of chunks and the number of crashes allowed. *)
Theorem bundle_terminates o s0 n s :
  optionsTyped o → NewBundleState o = Ok s0 → nsteps bundleStep n s0 s →
  Z.of_nat n ≤ bundleBound (bo_MaxChunks o) (bo_MaxCrashes o).
Proof.
  intros Ho H0 Hn. destruct (NewBundleState_reached o s0 Ho H0) as (Hr&HM&HC&stopped&Hi).
  destruct (nsteps_budget n s0 s Hr Hn) as [Hs Hle].
  assert (0 ≤ budget (bs_MaxChunks s) (bs_MaxCrashes s) (bundleVars s)).
  { apply budget_nonneg; [apply (re_typed _ Hs)|apply (re_valid _ Hs)]. }
  trans (budget (bs_MaxChunks s0) (bs_MaxCrashes s0) (bundleVars s0)); [lia|].
  rewrite HM, HC, Hi. unfold budget, work, flag, bundleBound. destruct stopped; simpl; lia.
Qed.

(** ** Completion *)

Fixpoint runBundle (s : BundleState) (ts : list BundleTransition) : option BundleState :=
  match ts with
  | [] => Some s
  | t :: ts => match ApplyBundleTransition s t with
               | (s', None) => runBundle s' ts
               | (_, Some _) => None
               end
  end.

(** The step that brings an export nearer to its seal. *)
Definition nextProgress (s : BundleState) : BundleAction :=
  if negb (bs_DaemonUp s) then BundleRestart else
  match bs_Phase s with
  | BundlePhaseDraft => if bs_SourceStopped s then BundleAcquireClaim else BundleStopSource
  | BundlePhaseClaimed => BundleCreateSnapshot
  | BundlePhaseSnapshotted => BundleBeginWriting
  | BundlePhaseWriting =>
      if negb (bs_TailAuthentic s) then BundleTruncateUnverifiedTail
      else if bs_Written s <? bs_MaxChunks s then BundleWriteNextChunk
      else if bs_Checkpoint s <? bs_Written s then BundleCheckpointPrefix
      else BundleSeal
  | _ => BundleActionOther ""
  end.

Ltac action_enabled :=
  eexists; split; [econstructor; simpl; first [done | by auto | lia]|simpl; split; congruence].

Lemma progress_action s :
  reached s → bs_Phase s ≠ BundlePhaseSealed → bs_Phase s ≠ BundlePhaseCancelled →
  ∃ v', Action (bs_MaxChunks s) (bs_MaxCrashes s) (nextProgress s) (bundleVars s) v' ∧
    phase v' ≠ BundlePhaseCancelled ∧ tampered v' = bs_Tampered s.
Proof.
  intros [(_&_&Hv) Ht [Hfs Hfe _]] Hns Hnc.
  destruct Hv as [Hph Hr _ _ _ _ _ Htl _ _ _ Heff]. unfold nextProgress, phaseEffects in *. simpl in *.
  destruct (bs_DaemonUp s) eqn:Hup; simpl; [|by action_enabled].
  destruct (bs_Phase s) eqn:Hphase; try done; destruct_and?.
  - destruct (bs_SourceStopped s) eqn:?; action_enabled.
  - action_enabled.
  - action_enabled.
  - destruct (bs_TailAuthentic s) eqn:?; simpl; [|action_enabled].
    destruct (Z.ltb_spec (bs_Written s) (bs_MaxChunks s)); [action_enabled|].
    destruct (Z.ltb_spec (bs_Checkpoint s) (bs_Written s)); action_enabled.
Qed.

Lemma sealed_importable s :
  reached s → bs_Phase s = BundlePhaseSealed → bs_Tampered s = false → MigrationBundle.Importable s = true.
Proof.
  intros [(_&_&Hv) _ _] Hp Ht. pose proof (bv_effects _ _ _ Hv) as He. unfold phaseEffects in He.
  simpl in He. rewrite Hp in He. destruct He as (_&_&_&Hw&Hc&Hta&Hf&Hpub&_).
  unfold MigrationBundle.Importable, phaseIs. rewrite Hp, Hw, Hc, Hta, Hf, Hpub, Ht, Z.eqb_refl. done.
Qed.

Lemma completes n s :
  reached s → bs_Phase s ≠ BundlePhaseCancelled → bs_Tampered s = false →
  budget (bs_MaxChunks s) (bs_MaxCrashes s) (bundleVars s) ≤ Z.of_nat n →
  ∃ ts s', (length ts ≤ n)%nat ∧ runBundle s ts = Some s' ∧ MigrationBundle.Importable s' = true.
Proof.
  revert s. induction n as [n IH] using lt_wf_ind. intros s Hs Hc Htm Hb.
  destruct (decide (bs_Phase s = BundlePhaseSealed)) as [Hsealed|Hns].
  { exists [], s. split_and!; [simpl; lia|done|by apply sealed_importable]. }
  destruct (progress_action s Hs Hns Hc) as (v'&Ha&Hp&Hta).
  destruct (action_realised s _ v' Hs Ha) as (t&s'&_&Hap&<-). simpl in Hp, Hta.
  assert (bundleStep s s') as Hstep by (by exists t).
  pose proof (step_budget s s' Hs Hstep). destruct (bundleStep_reached s s' Hs Hstep) as [Hs' _].
  assert (0 ≤ budget (bs_MaxChunks s') (bs_MaxCrashes s') (bundleVars s')).
  { apply budget_nonneg; [apply (re_typed _ Hs')|apply (re_valid _ Hs')]. }
  destruct (IH (n - 1)%nat) with s' as (ts&s''&Hlen&Hrun&Himp); [lia|done|done|congruence|lia|].
  exists (t :: ts), s''. split_and!; [simpl; lia|simpl; by rewrite Hap|done].
Qed.

(** C28: an export can always be completed. From every reachable state that
    was neither cancelled nor tampered with, whatever crashed before and
    whether or not the daemon is up, a bounded number of accepted transitions
    leads to a published bundle that is importable. *)
Theorem export_completes s :
  bundleReachable s → bs_Phase s ≠ BundlePhaseCancelled → bs_Tampered s = false →
  ∃ ts s', Z.of_nat (length ts) ≤ bundleBound (bs_MaxChunks s) (bs_MaxCrashes s) ∧
    runBundle s ts = Some s' ∧ MigrationBundle.Importable s' = true.
Proof.
  intros (o&s0&Ho&H0&Hrtc) Hc Htm. apply rtc_nsteps in Hrtc as [k Hk].
  destruct (NewBundleState_reached o s0 Ho H0) as (Hr&_&_&stopped&Hi).
  destruct (nsteps_budget k s0 s Hr Hk) as [Hs Hle].
  assert (sameConstants s0 s) as (_&HM&HC) by (by eapply nsteps_constants).
  set (b := budget (bs_MaxChunks s) (bs_MaxCrashes s) (bundleVars s)) in *.
  assert (b ≤ bundleBound (bs_MaxChunks s) (bs_MaxCrashes s)).
  { trans (budget (bs_MaxChunks s0) (bs_MaxCrashes s0) (bundleVars s0)); [lia|].
    rewrite HM, HC, Hi. unfold budget, work, flag, bundleBound. destruct stopped; simpl; lia. }
  assert (0 ≤ b) by (apply budget_nonneg; [apply (re_typed _ Hs)|apply (re_valid _ Hs)]).
  destruct (completes (Z.to_nat b) s) as (ts&s'&?&?&?); [done..|lia|].
  exists ts, s'. split_and!; [lia|done..].
Qed.

Module SampleExport.
Definition options := mkBundleStateOptions "sha256:5d" false 2 1.
Definition plain (a : BundleAction) := mkBundleTransition a false.
(** An export that wrote its first chunk, crashed before the checkpoint and
    restarted. *)
Definition torn : list BundleTransition := plain <$>
  [BundleStopSource; BundleAcquireClaim; BundleCreateSnapshot; BundleBeginWriting;
   BundleWriteNextChunk; BundleCrash; BundleRestart].
Definition fresh : BundleState :=
  match NewBundleState options with Ok s => s | Err _ => mkBundleState BundlePhaseDraft
    "" "" false false false false 0 0 true false false false false false false true 0 0 0 0 0 end.
Definition tornState : BundleState := default fresh (runBundle fresh torn).
End SampleExport.

Lemma runBundle_nsteps s ts s' : runBundle s ts = Some s' → nsteps bundleStep (length ts) s s'.
Proof.
  revert s. induction ts as [|t ts IH]; intros s; simpl; [intros [= ->]; constructor|].
  destruct (ApplyBundleTransition s t) as [s1 [|]] eqn:Ht; [done|]. intros H.
  econstructor; [by exists t|by apply IH].
Qed.

Lemma torn_run : nsteps bundleStep 7 SampleExport.fresh SampleExport.tornState.
Proof. apply (runBundle_nsteps _ SampleExport.torn). vm_compute. done. Qed.

Lemma torn_reachable : bundleReachable SampleExport.tornState.
Proof.
  exists SampleExport.options, SampleExport.fresh. split_and!.
  - unfold optionsTyped, two64; simpl; lia.
  - by vm_compute.
  - apply rtc_nsteps. eexists. apply torn_run.
Qed.

Lemma bundle_refines_spec_witness :
  Action 2 1 BundleTruncateUnverifiedTail (bundleVars SampleExport.tornState)
    (bundleVars (ApplyBundleTransition SampleExport.tornState
      (SampleExport.plain BundleTruncateUnverifiedTail)).1).
Proof.
  exact (proj1 (proj2 bundle_refines_spec SampleExport.tornState torn_reachable)
    (SampleExport.plain BundleTruncateUnverifiedTail) _ eq_refl).
Defined.

Lemma bundle_terminates_witness : 7 ≤ bundleBound 2 1.
Proof.
  refine (bundle_terminates SampleExport.options SampleExport.fresh 7 SampleExport.tornState _ _ torn_run).
  - unfold optionsTyped, two64; simpl; lia.
  - vm_compute. reflexivity.
Defined.

Lemma export_completes_witness :
  ∃ ts s', Z.of_nat (length ts) ≤ bundleBound 2 1 ∧
    runBundle SampleExport.tornState ts = Some s' ∧ MigrationBundle.Importable s' = true.
Proof. by apply (export_completes SampleExport.tornState torn_reachable). Defined.
