(* ===== verification/MigrationAdoption.v ===== *)
(** * The destination import state machine (src/internal/migration/state.go)

    [AdoptionState] groups the imports of one sealed bundle;
    [ApplyAdoptionTransition] moves one destination, or the daemon, by one
    atomic action.  The destination and name-owner tables are finite maps; they
    are never Go's nil map, because [NewAdoptionState] and [Clone] allocate
    them.  A [range] over a table visits its entries in some order and every
    failing check returns the same error class, so the order chosen here is
    immaterial. *)
From S2P Require Import Prelude MigrationBundle.
Open Scope Z_scope.

(** The empty string is the unset policy. *)
Inductive GuestIdentityPolicy :=
  | GuestIdentitySafeClone | GuestIdentityExactRestore | GuestIdentityOther (s : string).
#[global] Instance GuestIdentityPolicy_eq_dec : EqDecision GuestIdentityPolicy.
Proof. solve_decision. Defined.
Definition NoPolicy : GuestIdentityPolicy := GuestIdentityOther "".

Inductive AdoptionPhase :=
  | AdoptionPhaseDraft | AdoptionPhasePlanned | AdoptionPhaseClaimed | AdoptionPhaseStaged
  | AdoptionPhaseAdopting | AdoptionPhaseAdopted | AdoptionPhaseVerified
  | AdoptionPhaseCommitted | AdoptionPhaseActive | AdoptionPhaseRollingBack
  | AdoptionPhaseRolledBack | AdoptionPhaseBlocked | AdoptionPhaseReplacementPlanned
  | AdoptionPhaseReplacementConfirmed | AdoptionPhaseOther (s : string).
#[global] Instance AdoptionPhase_eq_dec : EqDecision AdoptionPhase.
Proof. solve_decision. Defined.

Inductive AdoptionDecision :=
  | AdoptionDecisionNone | AdoptionDecisionCommit | AdoptionDecisionRollback
  | AdoptionDecisionOther (s : string).
#[global] Instance AdoptionDecision_eq_dec : EqDecision AdoptionDecision.
Proof. solve_decision. Defined.

Inductive AdoptionAction :=
  | AdoptionRejectInvalidBundle | AdoptionPlanDestination | AdoptionApproveAuthority
  | AdoptionAcquireNameClaim | AdoptionBlockNameConflict | AdoptionRenameDestination
  | AdoptionPlanReplacement | AdoptionConfirmReplacement | AdoptionDeleteReplacement
  | AdoptionStageDestination | AdoptionBegin | AdoptionFinish | AdoptionVerifyDestination
  | AdoptionDecideCommit | AdoptionActivate | AdoptionRequestRollback | AdoptionRollback
  | AdoptionCrash | AdoptionRestart | AdoptionActionOther (s : string).

Record DestinationDraft := mkDestinationDraft {
  dd_ID : string; dd_RequestedName : string; dd_Policy : GuestIdentityPolicy;
}.

Record AdoptionStateOptions := mkAdoptionStateOptions {
  ao_BundleDigest : string; ao_BundleValid : bool; ao_SourceControlID : string;
  ao_SourceBackendID : string; ao_SourceGuestID : string; ao_MaxCrashes : Z;
  ao_Destinations : list DestinationDraft; ao_ExistingNames : list string;
}.

Record DestinationState := mkDestinationState {
  ds_ID : string; ds_RequestedName : string;
  ds_Policy : GuestIdentityPolicy; ds_PlannedPolicy : GuestIdentityPolicy;
  ds_Phase : AdoptionPhase; ds_ControlID : string; ds_BackendID : string; ds_GuestID : string;
  ds_AuthorityApproved : bool; ds_AuthorityEffective : bool; ds_Staged : bool;
  ds_ReceiptValid : bool; ds_DiskFidelityProved : bool; ds_Runnable : bool;
  ds_Decision : AdoptionDecision; ds_StageEffects : Z; ds_AdoptionEffects : Z;
  ds_CommitEffects : Z; ds_ReplacementConfirmed : bool; ds_ReplacementDeleted : bool;
  ds_ReplacementEffects : Z;
}.
#[global] Instance DestinationState_eta : Eta DestinationState := λ d, mkDestinationState
  (ds_ID d) (ds_RequestedName d) (ds_Policy d) (ds_PlannedPolicy d) (ds_Phase d) (ds_ControlID d)
  (ds_BackendID d) (ds_GuestID d) (ds_AuthorityApproved d) (ds_AuthorityEffective d) (ds_Staged d)
  (ds_ReceiptValid d) (ds_DiskFidelityProved d) (ds_Runnable d) (ds_Decision d)
  (ds_StageEffects d) (ds_AdoptionEffects d) (ds_CommitEffects d) (ds_ReplacementConfirmed d)
  (ds_ReplacementDeleted d) (ds_ReplacementEffects d).

Record AdoptionState := mkAdoptionState {
  as_InitialBundleDigest : string; as_BundleDigest : string; as_BundleValid : bool;
  as_SourceControlID : string; as_SourceBackendID : string; as_SourceGuestID : string;
  as_DaemonUp : bool; as_CrashCount : Z; as_MaxCrashes : Z;
  as_Destinations : gmap string DestinationState; as_NameOwners : gmap string string;
}.
#[global] Instance AdoptionState_eta : Eta AdoptionState := λ s, mkAdoptionState
  (as_InitialBundleDigest s) (as_BundleDigest s) (as_BundleValid s) (as_SourceControlID s)
  (as_SourceBackendID s) (as_SourceGuestID s) (as_DaemonUp s) (as_CrashCount s)
  (as_MaxCrashes s) (as_Destinations s) (as_NameOwners s).

Record AdoptionTransition := mkAdoptionTransition {
  at_Action : AdoptionAction; at_Destination : string; at_ControlID : string;
  at_BackendID : string; at_GuestID : string; at_RequestedName : string;
}.

Definition adoptionExistingNameOwner : string := "__existing_destination__".

(** [m[k]] of a [map[string]string]: a missing key reads as the empty string. *)
Definition getStr (m : gmap string string) (k : string) : string := default "" (m !! k).

(** ** Phase predicates *)

Definition validGuestIdentityPolicy (p : GuestIdentityPolicy) : bool :=
  match p with GuestIdentityOther _ => false | _ => true end.
Definition validAdoptionPhase (p : AdoptionPhase) : bool :=
  match p with AdoptionPhaseOther _ => false | _ => true end.
Definition validAdoptionDecision (d : AdoptionDecision) : bool :=
  match d with AdoptionDecisionOther _ => false | _ => true end.

Definition adoptionRequiresPlan (p : AdoptionPhase) : bool :=
  match p with
  | AdoptionPhasePlanned | AdoptionPhaseClaimed | AdoptionPhaseStaged | AdoptionPhaseAdopting
  | AdoptionPhaseAdopted | AdoptionPhaseVerified | AdoptionPhaseCommitted | AdoptionPhaseActive
  | AdoptionPhaseRollingBack | AdoptionPhaseRolledBack | AdoptionPhaseReplacementPlanned
  | AdoptionPhaseReplacementConfirmed => true
  | _ => false
  end.
Definition adoptionHasDestinationIdentity (p : AdoptionPhase) : bool :=
  match p with
  | AdoptionPhasePlanned | AdoptionPhaseClaimed | AdoptionPhaseStaged | AdoptionPhaseAdopting
  | AdoptionPhaseAdopted | AdoptionPhaseVerified | AdoptionPhaseCommitted | AdoptionPhaseActive
  | AdoptionPhaseRollingBack | AdoptionPhaseReplacementPlanned
  | AdoptionPhaseReplacementConfirmed => true
  | _ => false
  end.
Definition adoptionClaimPhase (p : AdoptionPhase) : bool :=
  match p with
  | AdoptionPhaseClaimed | AdoptionPhaseStaged | AdoptionPhaseAdopting | AdoptionPhaseAdopted
  | AdoptionPhaseVerified | AdoptionPhaseCommitted | AdoptionPhaseActive
  | AdoptionPhaseRollingBack => true
  | _ => false
  end.
Definition adoptionIdentityPhase (p : AdoptionPhase) : bool :=
  match p with
  | AdoptionPhaseAdopted | AdoptionPhaseVerified | AdoptionPhaseCommitted
  | AdoptionPhaseActive => true
  | _ => false
  end.
Definition adoptionNeedsStage (p : AdoptionPhase) : bool :=
  match p with
  | AdoptionPhaseStaged | AdoptionPhaseAdopting | AdoptionPhaseAdopted | AdoptionPhaseVerified
  | AdoptionPhaseCommitted | AdoptionPhaseActive => true
  | _ => false
  end.
Definition adoptionRollbackSourcePhase (p : AdoptionPhase) : bool :=
  match p with
  | AdoptionPhaseClaimed | AdoptionPhaseStaged | AdoptionPhaseAdopting | AdoptionPhaseAdopted
  | AdoptionPhaseVerified => true
  | _ => false
  end.

(** ** Validation *)

Definition check (b : bool) : result MigrationError () := guard_err b ErrStateInvariant.
Definition dphase (p : AdoptionPhase) (d : DestinationState) : bool := bool_decide (ds_Phase d = p).
Definition emptyStr (s : string) : bool := String.eqb s "".

(** The checks of one destination before its identities are compared with
    those of the others. *)
Definition checkDestination (s : AdoptionState) (id : string) (d : DestinationState) :
    result MigrationError () :=
  check (negb (negb (String.eqb (ds_ID d) id) || emptyStr (ds_ID d) || emptyStr (ds_RequestedName d)
    || negb (validGuestIdentityPolicy (ds_Policy d)) || negb (validAdoptionPhase (ds_Phase d))
    || negb (validAdoptionDecision (ds_Decision d))));;
  check (negb (negb (bool_decide (ds_PlannedPolicy d = NoPolicy))
    && negb (bool_decide (ds_PlannedPolicy d = ds_Policy d))));;
  check (negb (adoptionRequiresPlan (ds_Phase d)
    && negb (bool_decide (ds_PlannedPolicy d = ds_Policy d))));;
  check (negb ((1 <? ds_StageEffects d) || (1 <? ds_AdoptionEffects d)
    || (1 <? ds_CommitEffects d) || (1 <? ds_ReplacementEffects d)));;
  check (negb (ds_ReplacementDeleted d
    && (negb (ds_ReplacementConfirmed d) || negb (ds_ReplacementEffects d =? 1))));;
  check (negb (dphase AdoptionPhaseReplacementConfirmed d && negb (ds_ReplacementConfirmed d)));;
  check (negb (ds_ReplacementConfirmed d && negb (ds_ReplacementDeleted d)
    && negb (dphase AdoptionPhaseReplacementConfirmed d)));;
  check (Bool.eqb (ds_Runnable d) (dphase AdoptionPhaseActive d));;
  check (negb (ds_AuthorityEffective d && (negb (ds_AuthorityApproved d) || negb (ds_Runnable d))));;
  check (negb (dphase AdoptionPhaseActive d
    && negb (Bool.eqb (ds_AuthorityEffective d) (ds_AuthorityApproved d))));;
  check (Bool.eqb (String.eqb (getStr (as_NameOwners s) (ds_RequestedName d)) id)
    (adoptionClaimPhase (ds_Phase d)));;
  check (negb (if adoptionHasDestinationIdentity (ds_Phase d)
    then emptyStr (ds_ControlID d) || emptyStr (ds_BackendID d)
    else (dphase AdoptionPhaseDraft d || dphase AdoptionPhaseRolledBack d
          || dphase AdoptionPhaseBlocked d)
         && (negb (emptyStr (ds_ControlID d)) || negb (emptyStr (ds_BackendID d))))).

(** One identity: not the source's, and not recorded for another destination. *)
Definition recordIdentity (source value id : string) (owners : gmap string string) :
    result MigrationError (gmap string string) :=
  if emptyStr value then mret owners else
  check (negb (String.eqb value source));;
  check (negb (negb (emptyStr (getStr owners value)) && negb (String.eqb (getStr owners value) id)));;
  mret (<[value := id]> owners).

Definition recordGuest (s : AdoptionState) (id : string) (d : DestinationState)
    (owners : gmap string string) : result MigrationError (gmap string string) :=
  if emptyStr (ds_GuestID d) then mret owners else
  match ds_PlannedPolicy d with
  | GuestIdentitySafeClone => recordIdentity (as_SourceGuestID s) (ds_GuestID d) id owners
  | GuestIdentityExactRestore =>
      check (String.eqb (ds_GuestID d) (as_SourceGuestID s));; mret owners
  | GuestIdentityOther _ => Err ErrStateInvariant
  end.

(** The checks of one destination after that comparison. *)
Definition checkEffects (s : AdoptionState) (d : DestinationState) : result MigrationError () :=
  check (negb (adoptionIdentityPhase (ds_Phase d)
    && (emptyStr (ds_GuestID d) || negb (ds_ReceiptValid d) || negb (ds_DiskFidelityProved d)
        || negb (ds_AdoptionEffects d =? 1))));;
  check (negb (ds_DiskFidelityProved d && negb (adoptionIdentityPhase (ds_Phase d))
    && negb (dphase AdoptionPhaseRollingBack d)));;
  check (negb (ds_Staged d && negb (ds_StageEffects d =? 1)));;
  check (negb (adoptionNeedsStage (ds_Phase d) && negb (ds_Staged d)));;
  check (negb ((dphase AdoptionPhaseCommitted d || dphase AdoptionPhaseActive d)
    && (negb (bool_decide (ds_Decision d = AdoptionDecisionCommit))
        || negb (ds_CommitEffects d =? 1))));;
  check (negb ((dphase AdoptionPhaseRollingBack d || dphase AdoptionPhaseRolledBack d)
    && negb (bool_decide (ds_Decision d = AdoptionDecisionRollback))));;
  check (negb (dphase AdoptionPhaseRolledBack d
    && (ds_Staged d || ds_ReceiptValid d || ds_Runnable d || ds_DiskFidelityProved d
        || negb (emptyStr (ds_GuestID d)) || ds_AuthorityEffective d)));;
  check (negb (negb (as_BundleValid s)
    && (ds_Staged d || ds_DiskFidelityProved d || ds_Runnable d
        || (negb (dphase AdoptionPhaseDraft d) && negb (dphase AdoptionPhaseBlocked d))))).

(** The body of the loop over the destinations; the three tables are
    [controlOwners], [backendOwners] and [safeGuestOwners]. *)
Definition validateDestination (s : AdoptionState)
    (owners : gmap string string * gmap string string * gmap string string)
    (entry : string * DestinationState) :
    result MigrationError (gmap string string * gmap string string * gmap string string) :=
  let '(control, backend, guests) := owners in
  let '(id, d) := entry in
  checkDestination s id d;;
  control' ← recordIdentity (as_SourceControlID s) (ds_ControlID d) id control;
  backend' ← recordIdentity (as_SourceBackendID s) (ds_BackendID d) id backend;
  guests' ← recordGuest s id d guests;
  checkEffects s d;;
  mret (control', backend', guests').

Fixpoint validateDestinations (s : AdoptionState)
    (owners : gmap string string * gmap string string * gmap string string)
    (entries : list (string * DestinationState)) : result MigrationError () :=
  match entries with
  | [] => mret tt
  | e :: entries => owners' ← validateDestination s owners e; validateDestinations s owners' entries
  end.

(** The body of the loop over the name owners. *)
Definition nameOwnerOk (s : AdoptionState) (entry : string * string) : bool :=
  let '(name, owner) := entry in
  emptyStr owner || String.eqb owner adoptionExistingNameOwner
  || match as_Destinations s !! owner with
     | Some d => String.eqb (ds_RequestedName d) name && adoptionClaimPhase (ds_Phase d)
     | None => false
     end.

Definition AdoptionState_Validate (s : AdoptionState) : result MigrationError () :=
  check (negb (emptyStr (as_InitialBundleDigest s)
    || negb (String.eqb (as_BundleDigest s) (as_InitialBundleDigest s))));;
  check (negb (emptyStr (as_SourceControlID s) || emptyStr (as_SourceBackendID s)
    || emptyStr (as_SourceGuestID s)));;
  check (negb (as_MaxCrashes s <? as_CrashCount s));;
  check (negb (bool_decide (as_Destinations s = ∅)));;
  validateDestinations s (∅, ∅, ∅) (map_to_list (as_Destinations s));;
  check (forallb (nameOwnerOk s) (map_to_list (as_NameOwners s))).

(** ** Construction *)

Fixpoint addDrafts (drafts : list DestinationDraft) (ds : gmap string DestinationState) :
    result MigrationError (gmap string DestinationState) :=
  match drafts with
  | [] => mret ds
  | dr :: drafts =>
      check (negb (emptyStr (dd_ID dr) || emptyStr (dd_RequestedName dr)
        || negb (validGuestIdentityPolicy (dd_Policy dr))));;
      check (bool_decide (ds !! dd_ID dr = None));;
      addDrafts drafts (<[dd_ID dr := mkDestinationState (dd_ID dr) (dd_RequestedName dr)
        (dd_Policy dr) NoPolicy AdoptionPhaseDraft "" "" "" false false false false false false
        AdoptionDecisionNone 0 0 0 false false 0]> ds)
  end.

Fixpoint addExisting (names : list string) (owners : gmap string string) :
    result MigrationError (gmap string string) :=
  match names with
  | [] => mret owners
  | name :: names =>
      check (negb (emptyStr name || negb (emptyStr (getStr owners name))));;
      addExisting names (<[name := adoptionExistingNameOwner]> owners)
  end.

Definition NewAdoptionState (o : AdoptionStateOptions) : result MigrationError AdoptionState :=
  ds ← addDrafts (ao_Destinations o) ∅;
  owners ← addExisting (ao_ExistingNames o) ∅;
  let state := mkAdoptionState (ao_BundleDigest o) (ao_BundleDigest o) (ao_BundleValid o)
    (ao_SourceControlID o) (ao_SourceBackendID o) (ao_SourceGuestID o) true 0 (ao_MaxCrashes o)
    ds owners in
  AdoptionState_Validate state;; mret state.

(** ** Transitions *)

Definition adoptionControlIDUsed (s : AdoptionState) (value : string) : bool :=
  existsb (λ e, String.eqb (ds_ControlID e.2) value) (map_to_list (as_Destinations s)).
Definition adoptionBackendIDUsed (s : AdoptionState) (value : string) : bool :=
  existsb (λ e, String.eqb (ds_BackendID e.2) value) (map_to_list (as_Destinations s)).
Definition adoptionSafeGuestIDUsed (s : AdoptionState) (value : string) : bool :=
  existsb (λ e, bool_decide (ds_PlannedPolicy e.2 = GuestIdentitySafeClone)
    && String.eqb (ds_GuestID e.2) value) (map_to_list (as_Destinations s)).

Definition refuse (b : bool) : result MigrationError () :=
  guard_err (negb b) ErrInvalidStateTransition.

(** The guest identity a finished adoption records. *)
Definition finishGuestID (s : AdoptionState) (t : AdoptionTransition) (d : DestinationState) :
    result MigrationError string :=
  match ds_PlannedPolicy d with
  | GuestIdentitySafeClone =>
      refuse (emptyStr (at_GuestID t) || String.eqb (at_GuestID t) (as_SourceGuestID s)
        || adoptionSafeGuestIDUsed s (at_GuestID t));;
      mret (at_GuestID t)
  | GuestIdentityExactRestore =>
      refuse (negb (emptyStr (at_GuestID t))
        && negb (String.eqb (at_GuestID t) (as_SourceGuestID s)));;
      mret (as_SourceGuestID s)
  | GuestIdentityOther _ => Err ErrInvalidStateTransition
  end.

(** The action switch: the new name-owner table and destination. *)
Definition destinationNext (s : AdoptionState) (t : AdoptionTransition) (d : DestinationState) :
    result MigrationError (gmap string string * DestinationState) :=
  let owners := as_NameOwners s in
  let owner := getStr owners (ds_RequestedName d) in
  match at_Action t with
  | AdoptionRejectInvalidBundle =>
      refuse (as_BundleValid s || negb (dphase AdoptionPhaseDraft d));;
      mret (owners, d <| ds_Phase := AdoptionPhaseBlocked |>)
  | AdoptionPlanDestination =>
      refuse (negb (as_BundleValid s) || negb (dphase AdoptionPhaseDraft d)
        || emptyStr (at_ControlID t) || emptyStr (at_BackendID t)
        || String.eqb (at_ControlID t) (as_SourceControlID s)
        || String.eqb (at_BackendID t) (as_SourceBackendID s)
        || adoptionControlIDUsed s (at_ControlID t) || adoptionBackendIDUsed s (at_BackendID t));;
      mret (owners, d <| ds_Phase := AdoptionPhasePlanned |> <| ds_PlannedPolicy := ds_Policy d |>
        <| ds_ControlID := at_ControlID t |> <| ds_BackendID := at_BackendID t |>)
  | AdoptionApproveAuthority =>
      refuse (negb (dphase AdoptionPhasePlanned d) || ds_AuthorityApproved d);;
      mret (owners, d <| ds_AuthorityApproved := true |>)
  | AdoptionAcquireNameClaim =>
      refuse (negb (dphase AdoptionPhasePlanned d) || negb (emptyStr owner));;
      mret (<[ds_RequestedName d := ds_ID d]> owners, d <| ds_Phase := AdoptionPhaseClaimed |>)
  | AdoptionBlockNameConflict =>
      refuse (negb (dphase AdoptionPhasePlanned d) || emptyStr owner || String.eqb owner (ds_ID d));;
      mret (owners, d <| ds_Phase := AdoptionPhaseBlocked |> <| ds_ControlID := "" |>
        <| ds_BackendID := "" |>)
  | AdoptionRenameDestination =>
      refuse (negb (dphase AdoptionPhasePlanned d) || emptyStr owner || String.eqb owner (ds_ID d)
        || emptyStr (at_RequestedName t) || String.eqb (at_RequestedName t) (ds_RequestedName d)
        || negb (emptyStr (getStr owners (at_RequestedName t))));;
      mret (owners, d <| ds_Phase := AdoptionPhaseDraft |>
        <| ds_RequestedName := at_RequestedName t |> <| ds_PlannedPolicy := NoPolicy |>
        <| ds_ControlID := "" |> <| ds_BackendID := "" |>)
  | AdoptionPlanReplacement =>
      refuse (negb (dphase AdoptionPhasePlanned d)
        || negb (String.eqb owner adoptionExistingNameOwner));;
      mret (owners, d <| ds_Phase := AdoptionPhaseReplacementPlanned |>)
  | AdoptionConfirmReplacement =>
      refuse (negb (dphase AdoptionPhaseReplacementPlanned d) || ds_ReplacementConfirmed d);;
      mret (owners, d <| ds_Phase := AdoptionPhaseReplacementConfirmed |>
        <| ds_ReplacementConfirmed := true |>)
  | AdoptionDeleteReplacement =>
      refuse (negb (dphase AdoptionPhaseReplacementConfirmed d) || negb (ds_ReplacementConfirmed d)
        || negb (ds_ReplacementEffects d =? 0)
        || negb (String.eqb owner adoptionExistingNameOwner));;
      mret (<[ds_RequestedName d := ""]> owners, d <| ds_Phase := AdoptionPhaseDraft |>
        <| ds_PlannedPolicy := NoPolicy |> <| ds_ControlID := "" |> <| ds_BackendID := "" |>
        <| ds_ReplacementDeleted := true |> <| ds_ReplacementEffects ::= u8_succ |>)
  | AdoptionStageDestination =>
      refuse (negb (as_BundleValid s) || negb (dphase AdoptionPhaseClaimed d)
        || negb (String.eqb owner (ds_ID d)) || negb (ds_StageEffects d =? 0));;
      mret (owners, d <| ds_Phase := AdoptionPhaseStaged |> <| ds_Staged := true |>
        <| ds_StageEffects ::= u8_succ |>)
  | AdoptionBegin =>
      refuse (negb (as_BundleValid s) || negb (dphase AdoptionPhaseStaged d)
        || negb (ds_Staged d));;
      mret (owners, d <| ds_Phase := AdoptionPhaseAdopting |>)
  | AdoptionFinish =>
      refuse (negb (as_BundleValid s) || negb (dphase AdoptionPhaseAdopting d)
        || negb (ds_AdoptionEffects d =? 0));;
      guest ← finishGuestID s t d;
      mret (owners, d <| ds_GuestID := guest |> <| ds_Phase := AdoptionPhaseAdopted |>
        <| ds_ReceiptValid := true |> <| ds_DiskFidelityProved := true |>
        <| ds_AdoptionEffects ::= u8_succ |>)
  | AdoptionVerifyDestination =>
      refuse (negb (as_BundleValid s) || negb (dphase AdoptionPhaseAdopted d)
        || negb (ds_Staged d) || negb (ds_ReceiptValid d) || negb (ds_DiskFidelityProved d));;
      mret (owners, d <| ds_Phase := AdoptionPhaseVerified |>)
  | AdoptionDecideCommit =>
      refuse (negb (as_BundleValid s) || negb (dphase AdoptionPhaseVerified d)
        || negb (bool_decide (ds_Decision d = AdoptionDecisionNone))
        || negb (ds_CommitEffects d =? 0));;
      mret (owners, d <| ds_Phase := AdoptionPhaseCommitted |>
        <| ds_Decision := AdoptionDecisionCommit |> <| ds_CommitEffects ::= u8_succ |>)
  | AdoptionActivate =>
      refuse (negb (as_BundleValid s) || negb (dphase AdoptionPhaseCommitted d)
        || negb (bool_decide (ds_Decision d = AdoptionDecisionCommit))
        || negb (ds_DiskFidelityProved d));;
      mret (owners, d <| ds_Phase := AdoptionPhaseActive |> <| ds_Runnable := true |>
        <| ds_AuthorityEffective := ds_AuthorityApproved d |>)
  | AdoptionRequestRollback =>
      refuse (negb (adoptionRollbackSourcePhase (ds_Phase d))
        || negb (bool_decide (ds_Decision d = AdoptionDecisionNone)));;
      mret (owners, d <| ds_Phase := AdoptionPhaseRollingBack |>
        <| ds_Decision := AdoptionDecisionRollback |>)
  | AdoptionRollback =>
      refuse (negb (dphase AdoptionPhaseRollingBack d)
        || negb (bool_decide (ds_Decision d = AdoptionDecisionRollback))
        || negb (String.eqb owner (ds_ID d)));;
      mret (<[ds_RequestedName d := ""]> owners, d <| ds_Phase := AdoptionPhaseRolledBack |>
        <| ds_ControlID := "" |> <| ds_BackendID := "" |> <| ds_GuestID := "" |>
        <| ds_AuthorityEffective := false |> <| ds_Staged := false |>
        <| ds_ReceiptValid := false |> <| ds_DiskFidelityProved := false |>
        <| ds_Runnable := false |>)
  | AdoptionCrash | AdoptionRestart | AdoptionActionOther _ => Err ErrInvalidStateTransition
  end.

(** The state before the final check: the daemon actions, the daemon guard, and
    the destination's switch.  The source's [Clone] is the identity on maps
    without sharing. *)
Definition adoptionNext (s : AdoptionState) (t : AdoptionTransition) :
    result MigrationError AdoptionState :=
  match at_Action t with
  | AdoptionCrash =>
      refuse (negb (as_DaemonUp s) || (as_MaxCrashes s <=? as_CrashCount s));;
      mret (s <| as_DaemonUp := false |> <| as_CrashCount ::= u64_succ |>)
  | AdoptionRestart =>
      refuse (as_DaemonUp s);;
      mret (s <| as_DaemonUp := true |>)
  | _ =>
      refuse (negb (as_DaemonUp s));;
      match as_Destinations s !! at_Destination t with
      | None => Err ErrInvalidStateTransition
      | Some d =>
          next ← destinationNext s t d;
          mret (s <| as_NameOwners := next.1 |>
            <| as_Destinations ::= <[ds_ID next.2 := next.2]> |>)
      end
  end.

(** [validatedAdoptionNext] *)
Definition validatedAdoptionNext (next : AdoptionState) : result MigrationError AdoptionState :=
  AdoptionState_Validate next;; mret next.

Definition ApplyAdoptionTransition (s : AdoptionState) (t : AdoptionTransition) :
    AdoptionState * option MigrationError :=
  match AdoptionState_Validate s;; (next ← adoptionNext s t; validatedAdoptionNext next) with
  | Ok next => (next, None)
  | Err e => (s, Some e)
  end.
