(* ===== verification/MigrationAdoptionSpec.v ===== *)
(** * Correctness of the import machine

    What [AdoptionState.Validate] demands as a proposition, that every enabled
    transition keeps it, and the properties of the imports of one bundle: they
    never share an identity or a name, they do not disturb each other, and an
    import that holds its name can always be finished or rolled back. *)
From S2P Require Import Prelude MigrationBundle MigrationAdoption.
Open Scope Z_scope.

(** ** The meaning of the checks *)

Definition claimed (s : AdoptionState) (id : string) (d : DestinationState) : Prop :=
  getStr (as_NameOwners s) (ds_RequestedName d) = id.

Definition destinationMeaning (s : AdoptionState) (id : string) (d : DestinationState) : Prop :=
  (ds_ID d = id ∧ ds_ID d ≠ "" ∧ ds_RequestedName d ≠ "" ∧
    validGuestIdentityPolicy (ds_Policy d) = true ∧ validAdoptionPhase (ds_Phase d) = true ∧
    validAdoptionDecision (ds_Decision d) = true) ∧
  (ds_PlannedPolicy d = NoPolicy ∨ ds_PlannedPolicy d = ds_Policy d) ∧
  (adoptionRequiresPlan (ds_Phase d) = true → ds_PlannedPolicy d = ds_Policy d) ∧
  (ds_StageEffects d ≤ 1 ∧ ds_AdoptionEffects d ≤ 1 ∧ ds_CommitEffects d ≤ 1 ∧
    ds_ReplacementEffects d ≤ 1) ∧
  (ds_ReplacementDeleted d = true →
    ds_ReplacementConfirmed d = true ∧ ds_ReplacementEffects d = 1) ∧
  (ds_Phase d = AdoptionPhaseReplacementConfirmed → ds_ReplacementConfirmed d = true) ∧
  (ds_ReplacementConfirmed d = true → ds_ReplacementDeleted d = false →
    ds_Phase d = AdoptionPhaseReplacementConfirmed) ∧
  (ds_Runnable d = true ↔ ds_Phase d = AdoptionPhaseActive) ∧
  (ds_AuthorityEffective d = true → ds_AuthorityApproved d = true ∧ ds_Runnable d = true) ∧
  (ds_Phase d = AdoptionPhaseActive → ds_AuthorityEffective d = ds_AuthorityApproved d) ∧
  (claimed s id d ↔ adoptionClaimPhase (ds_Phase d) = true) ∧
  (if adoptionHasDestinationIdentity (ds_Phase d) then ds_ControlID d ≠ "" ∧ ds_BackendID d ≠ ""
   else ds_Phase d = AdoptionPhaseDraft ∨ ds_Phase d = AdoptionPhaseRolledBack ∨
        ds_Phase d = AdoptionPhaseBlocked → ds_ControlID d = "" ∧ ds_BackendID d = "").

Definition effectsMeaning (s : AdoptionState) (d : DestinationState) : Prop :=
  (adoptionIdentityPhase (ds_Phase d) = true → ds_GuestID d ≠ "" ∧ ds_ReceiptValid d = true ∧
    ds_DiskFidelityProved d = true ∧ ds_AdoptionEffects d = 1) ∧
  (ds_DiskFidelityProved d = true →
    adoptionIdentityPhase (ds_Phase d) = true ∨ ds_Phase d = AdoptionPhaseRollingBack) ∧
  (ds_Staged d = true → ds_StageEffects d = 1) ∧
  (adoptionNeedsStage (ds_Phase d) = true → ds_Staged d = true) ∧
  (ds_Phase d = AdoptionPhaseCommitted ∨ ds_Phase d = AdoptionPhaseActive →
    ds_Decision d = AdoptionDecisionCommit ∧ ds_CommitEffects d = 1) ∧
  (ds_Phase d = AdoptionPhaseRollingBack ∨ ds_Phase d = AdoptionPhaseRolledBack →
    ds_Decision d = AdoptionDecisionRollback) ∧
  (ds_Phase d = AdoptionPhaseRolledBack → ds_Staged d = false ∧ ds_ReceiptValid d = false ∧
    ds_Runnable d = false ∧ ds_DiskFidelityProved d = false ∧ ds_GuestID d = "" ∧
    ds_AuthorityEffective d = false) ∧
  (as_BundleValid s = false → ds_Staged d = false ∧ ds_DiskFidelityProved d = false ∧
    ds_Runnable d = false ∧ (ds_Phase d = AdoptionPhaseDraft ∨ ds_Phase d = AdoptionPhaseBlocked)).

Definition guestMeaning (s : AdoptionState) (d : DestinationState) : Prop :=
  ds_GuestID d ≠ "" →
  match ds_PlannedPolicy d with
  | GuestIdentitySafeClone => ds_GuestID d ≠ as_SourceGuestID s
  | GuestIdentityExactRestore => ds_GuestID d = as_SourceGuestID s
  | GuestIdentityOther _ => False
  end.

Lemma checkDestination_ok s id d : checkDestination s id d = Ok tt ↔ destinationMeaning s id d.
Proof.
  unfold checkDestination, check, destinationMeaning, claimed, emptyStr, dphase.
  rewrite !guard_then, guard_ok.
  repeat (apply and_iff; [bool_meaning|]); bool_meaning.
Qed.

Lemma checkEffects_ok s d : checkEffects s d = Ok tt ↔ effectsMeaning s d.
Proof.
  unfold checkEffects, check, effectsMeaning, emptyStr, dphase. rewrite !guard_then, guard_ok.
  repeat (apply and_iff; [bool_meaning|]); bool_meaning.
Qed.

(** ** The ownership tables

    [tracks f seen owners]: the table maps every identity [f] of the
    destinations seen so far to its destination, and nothing else. *)
Definition tracks (f : DestinationState → string) (seen : list (string * DestinationState))
    (owners : gmap string string) : Prop :=
  (∀ id d, (id, d) ∈ seen → id ≠ "") ∧
  ∀ v, v ≠ "" → (getStr owners v ≠ "" → ∃ d, (getStr owners v, d) ∈ seen ∧ f d = v) ∧
                (∀ id d, (id, d) ∈ seen → f d = v → getStr owners v = id).

(** The identity [f] of a destination is new, but for the destination itself. *)
Definition freshFor (f : DestinationState → string) (source : string)
    (seen : list (string * DestinationState)) (id : string) (d : DestinationState) : Prop :=
  f d ≠ "" → f d ≠ source ∧ ∀ id' d', (id', d') ∈ seen → f d' = f d → id' = id.

Lemma getStr_insert m k v : getStr (<[k := v]> m) k = v.
Proof. unfold getStr. by rewrite lookup_insert_eq. Qed.
Lemma getStr_insert_ne m k v k' : k ≠ k' → getStr (<[k := v]> m) k' = getStr m k'.
Proof. intros. unfold getStr. by rewrite lookup_insert_ne. Qed.

Lemma tracks_nil f : tracks f [] ∅.
Proof. split; [set_solver|]. intros v _. unfold getStr. rewrite lookup_empty. set_solver. Qed.

Lemma recordIdentity_ok f source seen owners id d :
  tracks f seen owners →
  is_ok (recordIdentity source (f d) id owners) = true ↔ freshFor f source seen id d.
Proof.
  intros [Hids Ht]. unfold recordIdentity, freshFor, check, emptyStr.
  destruct (String.eqb_spec (f d) "") as [->|Hne]; [naive_solver|].
  destruct (Ht (f d) Hne) as [Hsome Hall].
  destruct (String.eqb_spec (f d) source); simpl; [naive_solver|].
  destruct (String.eqb_spec (getStr owners (f d)) "") as [He|He]; simpl.
  - split; [intros _ _; split; [done|]|done]. intros id' d' Hin Hf.
    pose proof (Hall id' d' Hin Hf) as Hg. rewrite He in Hg. by destruct (Hids id' d').
  - destruct (String.eqb_spec (getStr owners (f d)) id) as [Hg|Hg]; simpl.
    + split; [intros _ _; split; [done|]|done]. intros id' d' Hin Hf. rewrite <-Hg. symmetry. by eapply Hall.
    + split; [done|]. intros H. destruct (H Hne) as [_ H']. destruct (Hsome He) as (d'&Hin&Hf).
      by destruct Hg, (H' _ _ Hin Hf).
Qed.

Lemma recordIdentity_tracks f source seen owners owners' id d :
  tracks f seen owners → id ≠ "" → freshFor f source seen id d →
  recordIdentity source (f d) id owners = Ok owners' → tracks f (seen ++ [(id, d)]) owners'.
Proof.
  intros [Hids Ht] Hid Hfresh H. split; [set_solver|]. intros v Hv.
  unfold recordIdentity, check, emptyStr in H.
  destruct (String.eqb_spec (f d) "") as [He|Hne]; simpl in H.
  { injection H as <-. destruct (Ht v Hv) as [H1 H2]. split; [set_solver|].
    intros id' d' [?|[= -> ->]%list_elem_of_singleton]%elem_of_app Hf; [by eapply H2|congruence]. }
  destruct (String.eqb_spec (f d) source); simpl in H; [done|].
  destruct (negb _); simpl in H; [|done]. injection H as <-.
  destruct (decide (f d = v)) as [<-|Hdv].
  - rewrite getStr_insert. split; [set_solver|].
    intros id' d' [Hin|[= -> ->]%list_elem_of_singleton]%elem_of_app Hf; [|done].
    symmetry. by eapply Hfresh.
  - rewrite getStr_insert_ne by done. destruct (Ht v Hv) as [H1 H2]. split; [set_solver|].
    intros id' d' [?|[= -> ->]%list_elem_of_singleton]%elem_of_app Hf; [by eapply H2|done].
Qed.

(** The guest identity that must be unique: a safe clone's. *)
Definition safeGuest (d : DestinationState) : string :=
  if decide (ds_PlannedPolicy d = GuestIdentitySafeClone) then ds_GuestID d else "".

Lemma recordGuest_split s id d owners :
  is_ok (recordGuest s id d owners) = true ↔
  guestMeaning s d ∧ is_ok (recordIdentity (as_SourceGuestID s) (safeGuest d) id owners) = true.
Proof.
  unfold recordGuest, guestMeaning, safeGuest, recordIdentity, check, emptyStr.
  destruct (String.eqb_spec (ds_GuestID d) "") as [->|Hne].
  - case_decide; simpl; naive_solver.
  - destruct (ds_PlannedPolicy d); simpl; [|destruct (String.eqb_spec (ds_GuestID d) (as_SourceGuestID s)); simpl; naive_solver|naive_solver].
    destruct (String.eqb_spec (ds_GuestID d) ""); [done|].
    destruct (String.eqb_spec (ds_GuestID d) (as_SourceGuestID s)); simpl; [naive_solver|].
    destruct (negb _); simpl; naive_solver.
Qed.

Lemma recordGuest_value s id d owners owners' :
  recordGuest s id d owners = Ok owners' →
  recordIdentity (as_SourceGuestID s) (safeGuest d) id owners = Ok owners'.
Proof.
  unfold recordGuest, safeGuest, recordIdentity, check, emptyStr.
  destruct (String.eqb_spec (ds_GuestID d) "") as [->|Hne]; [by case_decide|].
  destruct (ds_PlannedPolicy d); simpl; [|by destruct (String.eqb _ _)|done].
  destruct (String.eqb_spec (ds_GuestID d) ""); [done|]. done.
Qed.

(** ** Validity of a state *)

Definition destOk (s : AdoptionState) (id : string) (d : DestinationState) : Prop :=
  destinationMeaning s id d ∧ guestMeaning s d ∧ effectsMeaning s d.

Definition fresh3 (s : AdoptionState) (seen : list (string * DestinationState))
    (id : string) (d : DestinationState) : Prop :=
  freshFor ds_ControlID (as_SourceControlID s) seen id d ∧
  freshFor ds_BackendID (as_SourceBackendID s) seen id d ∧
  freshFor safeGuest (as_SourceGuestID s) seen id d.

Definition tracks3 (seen : list (string * DestinationState))
    (owners : gmap string string * gmap string string * gmap string string) : Prop :=
  tracks ds_ControlID seen owners.1.1 ∧ tracks ds_BackendID seen owners.1.2 ∧
  tracks safeGuest seen owners.2.

Lemma destinationMeaning_id s id d : destinationMeaning s id d → id ≠ "".
Proof. intros ((<-&?&_)&_). done. Qed.

Lemma is_ok_Ok {E A} (r : result E A) : is_ok r = true ↔ ∃ a, r = Ok a.
Proof. destruct r; naive_solver. Qed.

Lemma validateDestination_ok s seen owners id d owners' :
  tracks3 seen owners → validateDestination s owners (id, d) = Ok owners' →
  destOk s id d ∧ fresh3 s seen id d ∧ tracks3 (seen ++ [(id, d)]) owners'.
Proof.
  destruct owners as [[c b] g]. intros (Hc&Hb&Hg) H. simpl in *.
  apply result_bind_ok in H as ([]&H1&H). apply checkDestination_ok in H1.
  apply result_bind_ok in H as (c'&H2&H). apply result_bind_ok in H as (b'&H3&H).
  apply result_bind_ok in H as (g'&H4&H). apply result_bind_ok in H as ([]&H5&[= <-]).
  apply checkEffects_ok in H5. pose proof (destinationMeaning_id _ _ _ H1) as Hid.
  assert (freshFor ds_ControlID (as_SourceControlID s) seen id d) as F1.
  { eapply recordIdentity_ok; [done|]. by rewrite H2. }
  assert (freshFor ds_BackendID (as_SourceBackendID s) seen id d) as F2.
  { eapply recordIdentity_ok; [done|]. by rewrite H3. }
  assert (is_ok (recordGuest s id d g) = true) as Hok by (by rewrite H4).
  apply recordGuest_split in Hok as [Hgm F3]. apply (recordIdentity_ok safeGuest _ _ _ _ _ Hg) in F3.
  apply recordGuest_value in H4.
  split; [by split_and!|]. split; [by split_and!|].
  split_and!; simpl; by eapply recordIdentity_tracks.
Qed.

Lemma validateDestination_runs s seen owners id d :
  tracks3 seen owners → destOk s id d → fresh3 s seen id d →
  ∃ owners', validateDestination s owners (id, d) = Ok owners'.
Proof.
  destruct owners as [[c b] g]. intros (Hc&Hb&Hg) (H1&Hgm&H5) (F1&F2&F3). simpl in *.
  apply checkDestination_ok in H1. apply checkEffects_ok in H5.
  apply (recordIdentity_ok _ _ _ _ _ _ Hc), is_ok_Ok in F1 as [c' F1].
  apply (recordIdentity_ok _ _ _ _ _ _ Hb), is_ok_Ok in F2 as [b' F2].
  assert (is_ok (recordGuest s id d g) = true) as [g' Hg']%is_ok_Ok.
  { apply recordGuest_split. split; [done|]. by eapply (recordIdentity_ok safeGuest). }
  exists (c', b', g'). by rewrite H1, F1, F2, Hg', H5.
Qed.

Lemma validateDestinations_ok s l seen owners :
  tracks3 seen owners →
  validateDestinations s owners l = Ok tt ↔
  ∀ l1 id d l2, l = l1 ++ (id, d) :: l2 → destOk s id d ∧ fresh3 s (seen ++ l1) id d.
Proof.
  revert seen owners. induction l as [|[id d] l IH]; intros seen owners Ht; simpl.
  { split; [|done]. intros _ [|??] ??? [=]. }
  rewrite result_bind_ok. split.
  - intros (owners'&Hv&Hrest) l1 id' d' l2 Heq.
    destruct (validateDestination_ok _ _ _ _ _ _ Ht Hv) as (Hd&Hf&Ht').
    destruct l1 as [|e l1]; simplify_eq/=; [by rewrite (right_id_L [] (++))|].
    rewrite (IH _ _ Ht') in Hrest. specialize (Hrest l1 id' d' l2 eq_refl).
    by rewrite <-(assoc_L (++)) in Hrest.
  - intros H. destruct (H [] id d l eq_refl) as [Hd Hf]. rewrite (right_id_L [] (++)) in Hf.
    destruct (validateDestination_runs _ _ _ _ _ Ht Hd Hf) as [owners' Hv].
    exists owners'. split; [done|].
    destruct (validateDestination_ok _ _ _ _ _ _ Ht Hv) as (_&_&Ht'). apply (IH _ _ Ht').
    intros l1 id' d' l2 ->. rewrite <-(assoc_L (++)). by apply (H ((id, d) :: l1) id' d' l2).
Qed.

(** No two destinations share the identity [f], and none has the source's. *)
Definition uniqueIds (f : DestinationState → string) (source : string) (s : AdoptionState) : Prop :=
  ∀ id d, as_Destinations s !! id = Some d → f d ≠ "" →
    f d ≠ source ∧ ∀ id' d', as_Destinations s !! id' = Some d' → f d' = f d → id' = id.

Record adoptionValid (s : AdoptionState) : Prop := {
  av_digest : as_InitialBundleDigest s ≠ "" ∧ as_BundleDigest s = as_InitialBundleDigest s;
  av_source : as_SourceControlID s ≠ "" ∧ as_SourceBackendID s ≠ "" ∧ as_SourceGuestID s ≠ "";
  av_crash : as_CrashCount s ≤ as_MaxCrashes s;
  av_some : as_Destinations s ≠ ∅;
  av_dest : ∀ id d, as_Destinations s !! id = Some d → destOk s id d;
  av_control : uniqueIds ds_ControlID (as_SourceControlID s) s;
  av_backend : uniqueIds ds_BackendID (as_SourceBackendID s) s;
  av_guest : uniqueIds safeGuest (as_SourceGuestID s) s;
  av_owner : ∀ name owner, as_NameOwners s !! name = Some owner →
    owner = "" ∨ owner = adoptionExistingNameOwner ∨
    ∃ d, as_Destinations s !! owner = Some d ∧ ds_RequestedName d = name ∧
      adoptionClaimPhase (ds_Phase d) = true;
}.

Lemma ordered_pair {A} (l : list A) x y :
  x ∈ l → y ∈ l → x = y ∨ (∃ l1 l2, l = l1 ++ x :: l2 ∧ y ∈ l1) ∨ (∃ l1 l2, l = l1 ++ y :: l2 ∧ x ∈ l1).
Proof.
  intros (l1&l2&->)%list_elem_of_split [Hy|[<-|Hy]%elem_of_cons]%elem_of_app; [right; left; eauto|by left|].
  apply list_elem_of_split in Hy as (l3&l4&->). right; right. exists (l1 ++ x :: l3), l4.
  split; [by rewrite <-(assoc_L (++))|set_solver].
Qed.

Lemma uniqueIds_list f source s :
  uniqueIds f source s ↔ ∀ l1 id d l2, map_to_list (as_Destinations s) = l1 ++ (id, d) :: l2 →
    freshFor f source l1 id d.
Proof.
  assert (∀ id d, as_Destinations s !! id = Some d ↔ (id, d) ∈ map_to_list (as_Destinations s)) as Hel.
  { intros. symmetry. apply elem_of_map_to_list. }
  unfold uniqueIds, freshFor. setoid_rewrite Hel. split.
  - intros H l1 id d l2 Heq Hne. rewrite Heq in H. destruct (H id d) as [? Hu]; [set_solver|done|].
    split; [done|]. intros id' d' Hin. apply Hu. set_solver.
  - intros H id d Hin Hne. split.
    { apply list_elem_of_split in Hin as (l1&l2&Heq). by eapply H. }
    intros id' d' Hin' Hf. destruct (ordered_pair _ _ _ Hin Hin') as [[= -> ->]|[(l1&l2&Heq&?)|(l1&l2&Heq&?)]]; [done| |].
    + by eapply (H l1 id d l2).
    + symmetry. eapply (H l1 id' d' l2); [done|congruence|done|congruence].
Qed.

Lemma nameOwners_ok s :
  forallb (nameOwnerOk s) (map_to_list (as_NameOwners s)) = true ↔
  ∀ name owner, as_NameOwners s !! name = Some owner →
    owner = "" ∨ owner = adoptionExistingNameOwner ∨
    ∃ d, as_Destinations s !! owner = Some d ∧ ds_RequestedName d = name ∧
      adoptionClaimPhase (ds_Phase d) = true.
Proof.
  rewrite forallb_forall. setoid_rewrite <-list_elem_of_In. unfold nameOwnerOk, emptyStr.
  assert (∀ name owner, ((String.eqb owner "" || String.eqb owner adoptionExistingNameOwner
      || match as_Destinations s !! owner with
         | Some d => String.eqb (ds_RequestedName d) name && adoptionClaimPhase (ds_Phase d)
         | None => false end) = true) ↔
    owner = "" ∨ owner = adoptionExistingNameOwner ∨
    ∃ d, as_Destinations s !! owner = Some d ∧ ds_RequestedName d = name ∧
      adoptionClaimPhase (ds_Phase d) = true) as Hone.
  { intros. rewrite !orb_true_iff, !String.eqb_eq.
    destruct (as_Destinations s !! owner) as [d|]; [rewrite andb_true_iff, String.eqb_eq|]; naive_solver. }
  split.
  - intros H name owner Hn. apply Hone. apply (H (name, owner)). by apply elem_of_map_to_list.
  - intros H [name owner] Hin%elem_of_map_to_list. apply Hone. by apply H.
Qed.

Lemma destinations_ok s :
  validateDestinations s (∅, ∅, ∅) (map_to_list (as_Destinations s)) = Ok tt ↔
  (∀ id d, as_Destinations s !! id = Some d → destOk s id d) ∧
  uniqueIds ds_ControlID (as_SourceControlID s) s ∧
  uniqueIds ds_BackendID (as_SourceBackendID s) s ∧ uniqueIds safeGuest (as_SourceGuestID s) s.
Proof.
  assert (tracks3 [] (∅, ∅, ∅)) as Ht by (split_and!; apply tracks_nil).
  rewrite (validateDestinations_ok s _ [] (∅, ∅, ∅) Ht), !uniqueIds_list. unfold fresh3. simpl. split.
  - intros H. split_and!; [|intros ???? Heq; by apply (H _ _ _ _ Heq)..].
    intros id d Hd%elem_of_map_to_list. apply list_elem_of_split in Hd as (l1&l2&Heq).
    by apply (H _ _ _ _ Heq).
  - intros (Hd&Hc&Hb&Hg) l1 id d l2 Heq. split; [|by split_and!; eauto].
    apply Hd, elem_of_map_to_list. rewrite Heq. set_solver.
Qed.

Lemma then_ok {E} (m k : result E ()) : (m;; k) = Ok tt ↔ m = Ok tt ∧ k = Ok tt.
Proof. destruct m as [[]|]; simpl; naive_solver. Qed.

Lemma Validate_adoption s : AdoptionState_Validate s = Ok tt ↔ adoptionValid s.
Proof.
  unfold AdoptionState_Validate, check. rewrite !guard_then, then_ok, guard_ok, nameOwners_ok.
  transitivity (
    (as_InitialBundleDigest s ≠ "" ∧ as_BundleDigest s = as_InitialBundleDigest s) ∧
    (as_SourceControlID s ≠ "" ∧ as_SourceBackendID s ≠ "" ∧ as_SourceGuestID s ≠ "") ∧
    as_CrashCount s ≤ as_MaxCrashes s ∧ as_Destinations s ≠ ∅ ∧
    validateDestinations s (∅, ∅, ∅) (map_to_list (as_Destinations s)) = Ok tt ∧
    ∀ name owner, as_NameOwners s !! name = Some owner →
      owner = "" ∨ owner = adoptionExistingNameOwner ∨
      ∃ d, as_Destinations s !! owner = Some d ∧ ds_RequestedName d = name ∧
        adoptionClaimPhase (ds_Phase d) = true).
  - unfold emptyStr. repeat (apply and_iff; [bool_meaning|]).
    done.
  - rewrite destinations_ok. split; [intros (?&?&?&?&(?&?&?&?)&?); by constructor|].
    intros []. do 4 (split; [done|]). split; [|done]. do 3 (split; [done|]). done.
Qed.

(** ** Enabled transitions keep the state valid *)

(** What holds of a reachable destination beyond [Validate]: effects,
    decisions and the guest identity do not precede their phase. *)
Definition notYet (d : DestinationState) : Prop :=
  match ds_Phase d with
  | AdoptionPhaseDraft | AdoptionPhasePlanned | AdoptionPhaseClaimed | AdoptionPhaseBlocked
  | AdoptionPhaseReplacementPlanned | AdoptionPhaseReplacementConfirmed =>
      ds_StageEffects d = 0 ∧ ds_AdoptionEffects d = 0 ∧ ds_CommitEffects d = 0 ∧
      ds_Decision d = AdoptionDecisionNone ∧ ds_GuestID d = ""
  | AdoptionPhaseStaged | AdoptionPhaseAdopting =>
      ds_AdoptionEffects d = 0 ∧ ds_CommitEffects d = 0 ∧
      ds_Decision d = AdoptionDecisionNone ∧ ds_GuestID d = ""
  | AdoptionPhaseAdopted | AdoptionPhaseVerified =>
      ds_CommitEffects d = 0 ∧ ds_Decision d = AdoptionDecisionNone
  | _ => True
  end.

Ltac refusals H :=
  repeat (match type of H with
    (refuse ?b ≫= _) = Ok _ => unfold refuse at 1 in H; destruct (negb b) eqn:?; simpl in H; [|done] end).

Lemma u8_succ_0 : u8_succ 0 = 1.
Proof. done. Qed.

(** The name-owner table after a destination's step: only the entry of the
    destination's own name changes, to the destination, or from the
    destination or the existing owner to nobody. *)
Definition ownersStep (s : AdoptionState) (d : DestinationState) (owners' : gmap string string) : Prop :=
  let owners := as_NameOwners s in
  let owner := getStr owners (ds_RequestedName d) in
  owners' = owners ∨
  (owners' = <[ds_RequestedName d := ds_ID d]> owners ∧ owner = "") ∨
  (owners' = <[ds_RequestedName d := ""]> owners ∧
    (owner = ds_ID d ∨ owner = adoptionExistingNameOwner)).

(** Drop the implications whose premise is false in the current phase, apply
    those whose premise holds. *)
Ltac settle :=
  repeat match goal with
  | H : ?x = ?x → _ |- _ => specialize (H eq_refl)
  | H : ?x = ?y → _ |- _ => assert (x ≠ y) as _ by discriminate; clear H
  | H : ?x = ?y ∨ ?x = ?z → _ |- _ =>
      first [assert (x ≠ y ∧ x ≠ z) as _ by (split; discriminate); clear H
            |assert (x = y ∨ x = z) as ? by auto; specialize (H ltac:(auto))]
  | H : ?b = true ↔ ?x = ?y |- _ => is_var b;
      first [assert (x ≠ y) as _ by discriminate; assert (b = false) by (destruct b; [by destruct H as [H _]; specialize (H eq_refl)|done]); clear H
            |assert (b = true) by (by apply H); clear H]
  | H : _ ∧ _ |- _ => destruct H
  | H : ?b = true |- _ => is_var b; subst b
  | H : ?b = false |- _ => is_var b; subst b
  | H : ?x = 0 |- _ => is_var x; subst x
  | H : ?x = 1 |- _ => is_var x; subst x
  | H : ?x = AdoptionDecisionNone |- _ => is_var x; subst x
  | H : ?x = AdoptionDecisionCommit |- _ => is_var x; subst x
  | H : ?x = AdoptionDecisionRollback |- _ => is_var x; subst x
  | H : ?x = "" |- _ => is_var x; subst x
  end.

Lemma finishGuest_ok s t d g :
  finishGuestID s t d = Ok g → as_SourceGuestID s ≠ "" →
  g ≠ "" ∧ match ds_PlannedPolicy d with
           | GuestIdentitySafeClone => g ≠ as_SourceGuestID s ∧ adoptionSafeGuestIDUsed s g = false
           | GuestIdentityExactRestore => g = as_SourceGuestID s
           | GuestIdentityOther _ => False
           end.
Proof.
  unfold finishGuestID, refuse, emptyStr. intros H Hsrc.
  destruct (ds_PlannedPolicy d); [| |done].
  - destruct (negb _) eqn:Hb; simpl in H; [|done]. injection H as <-. bool_prop. done.
  - destruct (negb _); simpl in H; [|done]. by injection H as <-.
Qed.

Ltac local_step :=
  unfold destOk, destinationMeaning, claimed, effectsMeaning, guestMeaning, ownersStep; simpl;
  rewrite ?getStr_insert, ?u8_succ_0; split_and!; intros;
  first [done | lia | tauto | congruence | case_match; tauto | intuition (congruence || lia)].

Lemma destinationNext_local s t d id owners' d' :
  destOk s id d → notYet d → as_SourceGuestID s ≠ "" → destinationNext s t d = Ok (owners', d') →
  destOk (s <| as_NameOwners := owners' |>) id d' ∧ notYet d' ∧ ds_ID d' = id ∧ ownersStep s d owners'.
Proof.
  intros (Hm&Hg&He) Hn Hsrc H. destruct d as [did name pol plan ph].
  unfold destinationMeaning, claimed, effectsMeaning, guestMeaning, notYet in *. simpl in *.
  destruct t as [a]; destruct a; unfold destinationNext in H; simpl in H; try done.
  all: refusals H; unfold dphase, emptyStr in *; simpl in *.
  all: repeat match goal with Hb : negb (_ || _) = true |- _ => apply negb_true_iff in Hb end; bool_prop.
  all: try match goal with Hb : Z.eqb _ _ = true |- _ => apply Z.eqb_eq in Hb end.
  all: try (injection H as <- <-).
  all: destruct_and?; simpl in *; settle.
  all: try solve [local_step].
  - apply result_bind_ok in H as (g&Hfin&H). injection H as <- <-.
    apply finishGuest_ok in Hfin as [? ?]; [|done]. simpl in *. local_step.
  - destruct ph; try done; simpl in *; destruct_and?; settle; local_step.
Qed.

(** An identity after a step: dropped, kept, or fresh. *)
Definition idStep (f : DestinationState → string) (source : string) (s : AdoptionState)
    (d d' : DestinationState) : Prop :=
  f d' = "" ∨ f d' = f d ∨
  (f d' ≠ source ∧ ∀ id2 d2, as_Destinations s !! id2 = Some d2 → f d2 ≠ f d').

Lemma unused_fresh (f : DestinationState → string) s v :
  existsb (λ e, String.eqb (f e.2) v) (map_to_list (as_Destinations s)) = false →
  ∀ id2 d2, as_Destinations s !! id2 = Some d2 → f d2 ≠ v.
Proof.
  intros H id2 d2 Hd. rewrite existsb_false in H. apply elem_of_map_to_list in Hd.
  apply H in Hd. by apply String.eqb_neq in Hd.
Qed.

Lemma unused_guest s v :
  adoptionSafeGuestIDUsed s v = false → v ≠ "" →
  ∀ id2 d2, as_Destinations s !! id2 = Some d2 → safeGuest d2 ≠ v.
Proof.
  unfold adoptionSafeGuestIDUsed. intros H Hv id2 d2 Hd. rewrite existsb_false in H.
  apply elem_of_map_to_list in Hd. apply H in Hd. simpl in Hd. unfold safeGuest.
  destruct (decide (ds_PlannedPolicy d2 = GuestIdentitySafeClone)) as [E|E]; [|by apply not_eq_sym].
  rewrite bool_decide_eq_true_2 in Hd by done. by apply String.eqb_neq in Hd.
Qed.

Lemma destinationNext_ids s t d owners' d' :
  notYet d → as_SourceGuestID s ≠ "" → destinationNext s t d = Ok (owners', d') →
  idStep ds_ControlID (as_SourceControlID s) s d d' ∧
  idStep ds_BackendID (as_SourceBackendID s) s d d' ∧
  idStep safeGuest (as_SourceGuestID s) s d d' ∧
  (ds_RequestedName d' = ds_RequestedName d ∨
    adoptionClaimPhase (ds_Phase d) = false ∧ owners' = as_NameOwners s) ∧
  ds_Policy d' = ds_Policy d.
Proof.
  intros Hn Hsrc H.
  destruct t as [a]; destruct a; unfold destinationNext in H; simpl in H; try done.
  all: refusals H; unfold dphase, emptyStr in *; simpl in *.
  all: repeat match goal with Hb : negb (_ || _) = true |- _ => apply negb_true_iff in Hb end; bool_prop.
  all: unfold notYet in Hn; repeat match goal with E : ds_Phase _ = _ |- _ => rewrite E in * end; destruct_and?.
  all: try (injection H as <- <-; simpl; unfold idStep; split_and!; by auto).
  - injection H as <- <-. split_and!; [right; right| |left|by left|done].
    + split; [done|]. by apply (unused_fresh ds_ControlID).
    + right; right. split; [done|]. by apply (unused_fresh ds_BackendID).
    + unfold safeGuest. simpl. by case_decide.
  - apply result_bind_ok in H as (g&[Hg Hfin]%finishGuest_ok&H); [|done]. injection H as <- <-.
    split_and!; [by right; left|by right; left| |by left|done].
    match goal with |- idStep _ _ _ _ ?d' => assert (safeGuest d' =
      if decide (ds_PlannedPolicy d = GuestIdentitySafeClone) then g else "") as Hs by done end.
    unfold idStep. rewrite Hs. case_decide as Hp; [|by left]. right; right. rewrite Hp in Hfin.
    destruct Hfin. split; [done|]. by apply unused_guest.
  - injection H as <- <-. split_and!; [by left|by left| |by left|done].
    left. unfold safeGuest. simpl. by case_decide.
Qed.

Lemma uniqueIds_insert f source s id d d' :
  uniqueIds f source s → as_Destinations s !! id = Some d → idStep f source s d d' →
  uniqueIds f source (s <| as_Destinations ::= <[id := d']> |>).
Proof.
  intros Hu Hd Hstep id1 d1. simpl. rewrite lookup_insert_Some. intros [[<- <-]|[Hne H1]] Hf.
  - destruct Hstep as [?|[Heq|[Hsrc Hfresh]]]; [done| |].
    + rewrite Heq in *. destruct (Hu id d Hd Hf) as [? Hall]. split; [done|].
      intros id2 d2 [[<- <-]|[? H2]]%lookup_insert_Some Hf2; [done|]. by apply (Hall id2 d2).
    + split; [done|]. intros id2 d2 [[<- <-]|[? H2]]%lookup_insert_Some Hf2; [done|].
      by destruct (Hfresh id2 d2).
  - destruct (Hu id1 d1 H1 Hf) as [? Hall]. split; [done|].
    intros id2 d2 [[<- <-]|[? H2]]%lookup_insert_Some Hf2; [|by apply (Hall id2 d2)].
    destruct Hstep as [He|[Heq|[_ Hfresh]]]; [congruence|apply (Hall id d); congruence|].
    by destruct (Hfresh id1 d1).
Qed.

(** No destination uses the marker that owns the existing names. *)
Definition noReserved (s : AdoptionState) : Prop :=
  as_Destinations s !! adoptionExistingNameOwner = None.

Lemma claimed_frame s s' id d id2 d2 :
  ownersStep s d (as_NameOwners s') → ds_ID d = id → id ≠ id2 → id2 ≠ "" →
  id2 ≠ adoptionExistingNameOwner → claimed s id2 d2 ↔ claimed s' id2 d2.
Proof.
  unfold ownersStep, claimed. intros Hst Hid Hne H0 Hres.
  destruct (decide (ds_RequestedName d2 = ds_RequestedName d)) as [->|Hn].
  - destruct Hst as [->|[[-> Ho]|[-> Ho]]]; [done|rewrite getStr_insert..].
    + rewrite Ho, Hid. split; intros; congruence.
    + split; intros; destruct Ho; congruence.
  - destruct Hst as [->|[[-> _]|[-> _]]]; by rewrite ?getStr_insert_ne.
Qed.

Lemma destOk_frame s s' id d :
  as_BundleValid s' = as_BundleValid s → as_SourceGuestID s' = as_SourceGuestID s →
  (claimed s id d ↔ claimed s' id d) → destOk s id d → destOk s' id d.
Proof.
  unfold destOk, destinationMeaning, guestMeaning, effectsMeaning. intros -> -> Hc. tauto.
Qed.

Definition afterStep (s : AdoptionState) (owners' : gmap string string) (d' : DestinationState) :
    AdoptionState :=
  s <| as_NameOwners := owners' |> <| as_Destinations ::= <[ds_ID d' := d']> |>.

Lemma owners_after s id d owners' d' :
  adoptionValid s → noReserved s → as_Destinations s !! id = Some d → ownersStep s d owners' →
  destOk (s <| as_NameOwners := owners' |>) id d' → ds_ID d = id →
  (ds_RequestedName d' = ds_RequestedName d ∨
    adoptionClaimPhase (ds_Phase d) = false ∧ owners' = as_NameOwners s) →
  ∀ name owner, owners' !! name = Some owner →
    owner = "" ∨ owner = adoptionExistingNameOwner ∨
    ∃ d2, <[id := d']> (as_Destinations s) !! owner = Some d2 ∧ ds_RequestedName d2 = name ∧
      adoptionClaimPhase (ds_Phase d2) = true.
Proof.
  intros Hv Hres Hd Hst Hok Hid Hname name owner Ho.
  assert (getStr owners' (ds_RequestedName d') = id ↔ adoptionClaimPhase (ds_Phase d') = true)
    as Hcl by apply Hok.
  destruct (decide (owner = id)) as [->|Hne].
  - right; right. exists d'. rewrite lookup_insert_eq. split; [done|].
    assert (ds_RequestedName d' = name) as Hn; [|split; [done|]; apply Hcl; rewrite Hn; unfold getStr; by rewrite Ho].
    assert (id ≠ "") as Hid0 by (eapply destinationMeaning_id, Hok).
    assert (as_NameOwners s !! name = Some id ∨ name = ds_RequestedName d ∧ ds_RequestedName d' = name) as [Ho'|[_ ?]].
    { destruct Hname as [Hnm|[_ ->]]; [|by left].
      destruct Hst as [->|[[-> _]|[-> _]]]; [by left|..];
        apply lookup_insert_Some in Ho as [[<- ?]|[? Ho]]; [by right|by left|congruence|by left]. }
    2: done.
    destruct (av_owner _ Hv name id Ho') as [?|[->|(d2&Hd2&Hr&Hc)]]; [done| |].
    { unfold noReserved in Hres. congruence. }
    rewrite Hd in Hd2. injection Hd2 as <-. destruct Hname as [->|[? _]]; congruence.
  - assert (owner = "" ∨ as_NameOwners s !! name = Some owner) as [->|Ho'].
    { destruct Hst as [->|[[-> _]|[-> _]]]; [by right|..];
        apply lookup_insert_Some in Ho as [[<- <-]|[? Ho]]; [congruence|by right|by left|by right]. }
    { by left. }
    destruct (av_owner _ Hv name owner Ho') as [?|[?|(d2&Hd2&?&?)]]; [by left|by right; left|].
    right; right. exists d2. by rewrite lookup_insert_ne.
Qed.

Record adoptionReached (s : AdoptionState) : Prop := {
  ar_valid : adoptionValid s;
  ar_notYet : ∀ id d, as_Destinations s !! id = Some d → notYet d;
  ar_reserved : noReserved s;
  ar_crashes : 0 ≤ as_CrashCount s ∧ 0 ≤ as_MaxCrashes s < two64;
}.

Lemma afterStep_reached s t id d owners' d' :
  adoptionReached s → as_Destinations s !! id = Some d → destinationNext s t d = Ok (owners', d') →
  adoptionReached (afterStep s owners' d') ∧ ds_ID d' = id.
Proof.
  intros [Hv Hny Hres Hcr] Hd Hn. pose proof (av_dest _ Hv id d Hd) as Hok.
  destruct (av_source _ Hv) as (?&?&Hsrc).
  destruct (destinationNext_local s t d id owners' d' Hok (Hny _ _ Hd) Hsrc Hn) as (Hok'&Hny'&Hid'&Hst).
  destruct (destinationNext_ids s t d owners' d' (Hny _ _ Hd) Hsrc Hn) as (Hc&Hb&Hg&Hname&_).
  split; [|done]. assert (ds_ID d = id) as Hid by apply Hok.
  unfold afterStep. rewrite Hid'. split; [split|..]; simpl.
  - apply Hv.
  - apply Hv.
  - apply Hv.
  - apply insert_non_empty.
  - intros id2 d2 [[<- <-]|[Hne Hd2]]%lookup_insert_Some; [exact Hok'|].
    eapply destOk_frame; [..|by apply Hv]; [done|done|].
    eapply claimed_frame; simpl; [done|done|done|by eapply destinationMeaning_id, Hv|].
    intros ->. unfold noReserved in Hres. congruence.
  - by eapply (uniqueIds_insert ds_ControlID _ (s <| as_NameOwners := owners' |>)), Hc; [apply Hv|].
  - by eapply (uniqueIds_insert ds_BackendID _ (s <| as_NameOwners := owners' |>)), Hb; [apply Hv|].
  - by eapply (uniqueIds_insert safeGuest _ (s <| as_NameOwners := owners' |>)), Hg; [apply Hv|].
  - by eapply owners_after.
  - intros id2 d2 [[<- <-]|[Hne Hd2]]%lookup_insert_Some; [done|by eapply Hny].
  - unfold noReserved. simpl. rewrite lookup_insert_ne; [done|]. intros ->. unfold noReserved in Hres. congruence.
  - done.
Qed.

(** The state before the final check, by case: a daemon action or one
    destination's step. *)
Lemma adoptionNext_cases s t s' :
  adoptionNext s t = Ok s' →
  (as_CrashCount s < as_MaxCrashes s ∧ at_Action t = AdoptionCrash ∧
    s' = s <| as_DaemonUp := false |> <| as_CrashCount ::= u64_succ |>) ∨
  (at_Action t = AdoptionRestart ∧ s' = s <| as_DaemonUp := true |>) ∨
  (∃ d owners' d', as_Destinations s !! at_Destination t = Some d ∧
    destinationNext s t d = Ok (owners', d') ∧ s' = afterStep s owners' d').
Proof.
  unfold adoptionNext. intros H.
  assert ((refuse (negb (as_DaemonUp s));;
      match as_Destinations s !! at_Destination t with
      | None => Err ErrInvalidStateTransition
      | Some d =>
          next ← destinationNext s t d;
          mret (s <| as_NameOwners := next.1 |>
            <| as_Destinations ::= <[ds_ID next.2 := next.2]> |>)
      end) = Ok s' → ∃ d owners' d', as_Destinations s !! at_Destination t = Some d ∧
    destinationNext s t d = Ok (owners', d') ∧ s' = afterStep s owners' d') as Hdest.
  { intros (_&_&H1)%result_bind_ok. destruct (as_Destinations s !! _) as [d|]; [|done].
    apply result_bind_ok in H1 as ([o' d']&Hn&[= <-]). by exists d, o', d'. }
  destruct t as [a]; destruct a; simpl in *; auto.
  - left. unfold refuse in H. destruct (negb _) eqn:Hg; simpl in H; [|done]. injection H as <-.
    bool_prop. match goal with Hl : Z.leb _ _ = false |- _ => apply Z.leb_gt in Hl end. done.
  - right; left. unfold refuse in H. destruct (negb _); simpl in H; [|done]. by injection H as <-.
Qed.

Lemma daemon_reached s s' :
  as_InitialBundleDigest s' = as_InitialBundleDigest s → as_BundleDigest s' = as_BundleDigest s →
  as_BundleValid s' = as_BundleValid s → as_SourceControlID s' = as_SourceControlID s →
  as_SourceBackendID s' = as_SourceBackendID s → as_SourceGuestID s' = as_SourceGuestID s →
  as_Destinations s' = as_Destinations s → as_NameOwners s' = as_NameOwners s →
  as_CrashCount s' ≤ as_MaxCrashes s' → 0 ≤ as_CrashCount s' → as_MaxCrashes s' = as_MaxCrashes s →
  adoptionReached s → adoptionReached s'.
Proof.
  intros E1 E2 E3 E4 E5 E6 E7 E8 Hc H0 E9 [Hv Hny Hres Hcr]. destruct Hv as [??? ? Hdest ????].
  split; [split|..]; unfold noReserved, uniqueIds in *; rewrite ?E1, ?E2, ?E4, ?E5, ?E6, ?E7, ?E8; try done.
  - intros id d Hd. eapply destOk_frame; [done|done| |by apply Hdest].
    unfold claimed. by rewrite E8.
  - lia.
Qed.

Lemma adoptionNext_reached s t s' : adoptionReached s → adoptionNext s t = Ok s' → adoptionReached s'.
Proof.
  intros Hs H. destruct (ar_crashes _ Hs) as [Hc0 HM]. pose proof (av_crash _ (ar_valid _ Hs)).
  apply adoptionNext_cases in H as [(Hlt&_&->)|[[_ ->]|(d&o'&d'&Hd&Hn&->)]].
  - apply (daemon_reached s); simpl; try done; rewrite u64_succ_nowrap; lia.
  - by apply (daemon_reached s).
  - by eapply afterStep_reached.
Qed.

Lemma bind_err {E A B} (m : result E A) (f : A → result E B) e :
  (m ≫= f) = Err e → m = Err e ∨ ∃ a, m = Ok a ∧ f a = Err e.
Proof. destruct m as [a|e']; simpl; [intros; right; by exists a|intros [= ->]; by left]. Qed.

Lemma refuse_err b e : refuse b = Err e → e = ErrInvalidStateTransition.
Proof. unfold refuse. destruct b; simpl; by intros [= <-]. Qed.

Lemma finishGuestID_err s t d e : finishGuestID s t d = Err e → e = ErrInvalidStateTransition.
Proof.
  unfold finishGuestID. destruct (ds_PlannedPolicy d); [| |by intros [= <-]];
    intros [H|(?&_&H)]%bind_err; by eauto using refuse_err.
Qed.

Lemma destinationNext_error s t d e : destinationNext s t d = Err e → e = ErrInvalidStateTransition.
Proof.
  intros H. destruct t as [a]; destruct a; unfold destinationNext in H; simpl in H; try congruence;
    apply bind_err in H as [H|(?&_&H)]; eauto using refuse_err; try done.
  apply bind_err in H as [H|(?&_&H)]; [by eapply finishGuestID_err|done].
Qed.

Lemma adoptionNext_error s t e : adoptionNext s t = Err e → e = ErrInvalidStateTransition.
Proof.
  intros H. unfold adoptionNext, refuse in H.
  assert (∀ d, (next ← destinationNext s t d;
          mret (s <| as_NameOwners := next.1 |>
            <| as_Destinations ::= <[ds_ID next.2 := next.2]> |>)) = Err e → e = ErrInvalidStateTransition) as Hd.
  { intros d. destruct (destinationNext s t d) eqn:Hn; simpl; [done|]. intros [= <-].
    by eapply destinationNext_error. }
  destruct t as [a]; destruct a; simpl in *;
    destruct (negb _); simpl in H; try (by injection H as <-); try done;
    destruct (as_Destinations s !! _); eauto; by injection H as <-.
Qed.

Lemma Apply_reached s t :
  adoptionReached s →
  ApplyAdoptionTransition s t =
    match adoptionNext s t with Ok s' => (s', None) | Err _ => (s, Some ErrInvalidStateTransition) end.
Proof.
  intros Hs. unfold ApplyAdoptionTransition, validatedAdoptionNext.
  rewrite (proj2 (Validate_adoption s) (ar_valid _ Hs)). simpl.
  destruct (adoptionNext s t) as [s'|e] eqn:Hn; simpl; [|by rewrite (adoptionNext_error s t e Hn)].
  by rewrite (proj2 (Validate_adoption s') (ar_valid _ (adoptionNext_reached s t s' Hs Hn))).
Qed.

(** ** Reachable states *)

Definition adoptionStep (s s' : AdoptionState) : Prop :=
  ∃ t, ApplyAdoptionTransition s t = (s', None).
Definition adoptionReachable (o : AdoptionStateOptions) (s : AdoptionState) : Prop :=
  ∃ s0, NewAdoptionState o = Ok s0 ∧ rtc adoptionStep s0 s.

(** Options whose crash bound is a [uint64] and whose destinations do not use
    the reserved owner name. *)
Definition ordinaryOptions (o : AdoptionStateOptions) : Prop :=
  0 ≤ ao_MaxCrashes o < two64 ∧
  ∀ dr, dr ∈ ao_Destinations o → dd_ID dr ≠ adoptionExistingNameOwner.

Lemma Apply_valid s t s' : ApplyAdoptionTransition s t = (s', None) → adoptionValid s'.
Proof.
  unfold ApplyAdoptionTransition, validatedAdoptionNext.
  destruct (AdoptionState_Validate s); simpl; [|done]. destruct (adoptionNext s t) as [n|]; simpl; [|done].
  destruct (AdoptionState_Validate n) as [[]|] eqn:Hv; simpl; [|done]. intros [= <-].
  by apply Validate_adoption.
Qed.

Lemma New_valid o s : NewAdoptionState o = Ok s → adoptionValid s.
Proof.
  intros (ds&_&H)%result_bind_ok. apply result_bind_ok in H as (ow&_&H).
  apply result_bind_ok in H as ([]&Hv&[= <-]). by apply Validate_adoption.
Qed.

Lemma reachable_valid o s : adoptionReachable o s → adoptionValid s.
Proof.
  intros (s0&H0&Hs). eapply (rtc_invariant adoptionStep adoptionValid); [by eapply New_valid| |done].
  intros y y' _ [t Ht]. by eapply Apply_valid.
Qed.

Lemma addDrafts_lookup drafts ds ds' id d :
  addDrafts drafts ds = Ok ds' → ds' !! id = Some d →
  ds !! id = Some d ∨ (notYet d ∧ ∃ dr, dr ∈ drafts ∧ dd_ID dr = id).
Proof.
  revert ds. induction drafts as [|dr drafts IH]; intros ds; simpl; [intros [= <-]; by left|].
  intros (_&_&H)%result_bind_ok Hl. apply result_bind_ok in H as (_&_&H).
  destruct (IH _ H Hl) as [Hi|(Hn&dr'&?&?)]; [|right; split; [done|]; exists dr'; set_solver].
  apply lookup_insert_Some in Hi as [[<- <-]|[_ Hi]]; [|by left]. right. split; [done|].
  exists dr. set_solver.
Qed.

Lemma New_reached o s : ordinaryOptions o → NewAdoptionState o = Ok s → adoptionReached s.
Proof.
  intros [Hc Hr] H. pose proof (New_valid o s H) as Hv. unfold NewAdoptionState in H.
  apply result_bind_ok in H as (ds&Hds&H). apply result_bind_ok in H as (ow&_&H).
  apply result_bind_ok in H as ([]&_&[= <-]). split; [done|..]; simpl.
  - intros id d Hd. by destruct (addDrafts_lookup _ _ _ _ _ Hds Hd) as [?|[? _]].
  - unfold noReserved. simpl. destruct (ds !! _) as [d|] eqn:Hl; [|done].
    destruct (addDrafts_lookup _ _ _ _ _ Hds Hl) as [?|(_&dr&Hin&Hid)]; [done|].
    by destruct (Hr dr Hin).
  - lia.
Qed.

Lemma step_adoptionReached s s' : adoptionReached s → adoptionStep s s' → adoptionReached s'.
Proof.
  intros Hs [t H]. rewrite Apply_reached in H by done.
  destruct (adoptionNext s t) as [s''|] eqn:Hn; simplify_eq. by eapply adoptionNext_reached.
Qed.

Lemma reachable_reached o s : ordinaryOptions o → adoptionReachable o s → adoptionReached s.
Proof.
  intros Ho (s0&H0&Hs). eapply (rtc_invariant adoptionStep adoptionReached); [by eapply New_reached| |done].
  intros y y' Hy. by apply step_adoptionReached.
Qed.

(** C6: the imports of one bundle stay apart. In every reachable state no two
    destinations have the same control identity, backend identity, safe-clone
    guest identity or claimed name, none has the source's control or backend
    identity, and a safe clone never has the source's guest identity, while an
    exact restore has exactly it. Only a committed import with a verified disk
    is runnable, its authority is effective only when it was approved, and an
    invalid bundle produces nothing. *)
Theorem imports_isolated o s id d :
  adoptionReachable o s → as_Destinations s !! id = Some d →
  (∀ id2 d2, as_Destinations s !! id2 = Some d2 → id2 ≠ id →
    (ds_ControlID d ≠ "" → ds_ControlID d2 ≠ ds_ControlID d) ∧
    (ds_BackendID d ≠ "" → ds_BackendID d2 ≠ ds_BackendID d) ∧
    (safeGuest d ≠ "" → safeGuest d2 ≠ safeGuest d) ∧
    (adoptionClaimPhase (ds_Phase d) = true → adoptionClaimPhase (ds_Phase d2) = true →
      ds_RequestedName d2 ≠ ds_RequestedName d)) ∧
  ds_ControlID d ≠ as_SourceControlID s ∧ ds_BackendID d ≠ as_SourceBackendID s ∧
  (ds_GuestID d ≠ "" → ds_Policy d = GuestIdentitySafeClone ∧ ds_GuestID d ≠ as_SourceGuestID s ∨
    ds_Policy d = GuestIdentityExactRestore ∧ ds_GuestID d = as_SourceGuestID s) ∧
  (ds_Runnable d = true → ds_Decision d = AdoptionDecisionCommit ∧ ds_CommitEffects d = 1 ∧
    ds_ReceiptValid d = true ∧ ds_DiskFidelityProved d = true ∧ ds_Staged d = true ∧
    as_BundleValid s = true ∧ getStr (as_NameOwners s) (ds_RequestedName d) = id) ∧
  (ds_AuthorityEffective d = true → ds_AuthorityApproved d = true ∧ ds_Runnable d = true) ∧
  (as_BundleValid s = false → ds_Staged d = false ∧ ds_Runnable d = false).
Proof.
  intros Hv%reachable_valid Hd. pose proof (av_dest _ Hv id d Hd) as (Hm&Hg&He).
  destruct (av_source _ Hv) as (Hs1&Hs2&Hs3).
  split_and!.
  - intros id2 d2 Hd2 Hne. split_and!.
    + intros Hn Heq. destruct (av_control _ Hv id d Hd Hn) as [_ Hu]. by destruct Hne, (Hu id2 d2).
    + intros Hn Heq. destruct (av_backend _ Hv id d Hd Hn) as [_ Hu]. by destruct Hne, (Hu id2 d2).
    + intros Hn Heq. destruct (av_guest _ Hv id d Hd Hn) as [_ Hu]. by destruct Hne, (Hu id2 d2).
    + intros H1 H2 Heq. pose proof (av_dest _ Hv id2 d2 Hd2) as (Hm2&_&_).
      unfold destinationMeaning, claimed in *. rewrite Heq in Hm2. destruct Hne. intuition congruence.
  - intros Heq. destruct (av_control _ Hv id d Hd) as [? _]; congruence.
  - intros Heq. destruct (av_backend _ Hv id d Hd) as [? _]; congruence.
  - intros Hne. specialize (Hg Hne). destruct Hm as (_&Hp&_). destruct (ds_PlannedPolicy d); [| |done].
    + left. by destruct Hp as [|<-].
    + right. by destruct Hp as [|<-].
  - intros Hr. assert (ds_Phase d = AdoptionPhaseActive) as Hph by (by apply Hm).
    unfold destinationMeaning, effectsMeaning, claimed in *. rewrite Hph in *. simpl in *.
    destruct (as_BundleValid s); [intuition|]. destruct He as (_&_&_&_&_&_&_&Hi).
    by destruct Hi as (_&_&_&[|]).
  - apply Hm.
  - intros Hb. apply He in Hb. intuition.
Qed.

Lemma owner_frame s d owners' id id2 name :
  ownersStep s d owners' → ds_ID d = id → id2 ≠ id → id2 ≠ "" → id2 ≠ adoptionExistingNameOwner →
  getStr owners' name = id2 ↔ getStr (as_NameOwners s) name = id2.
Proof.
  intros Hst Hid Hne H0 Hres.
  destruct (decide (name = ds_RequestedName d)) as [->|Hn].
  - destruct Hst as [->|[[-> Ho]|[-> Ho]]]; [done|rewrite getStr_insert..];
      [|destruct Ho]; split; intros; congruence.
  - destruct Hst as [->|[[-> _]|[-> _]]]; by rewrite ?getStr_insert_ne.
Qed.

(** C29: a transition is accepted exactly when the guards of its action hold:
    in a reachable state whose destinations avoid the reserved owner name, the
    check of the next state never rejects an enabled action, so a refusal
    always is the transition error and leaves the state as it was. An accepted
    transition changes no other destination, neither its record nor the names
    it owns, and keeps the bundle and the source identities. *)
Theorem adoption_step_exact o s t :
  ordinaryOptions o → adoptionReachable o s →
  match adoptionNext s t with
  | Err _ => ApplyAdoptionTransition s t = (s, Some ErrInvalidStateTransition)
  | Ok s' =>
      ApplyAdoptionTransition s t = (s', None) ∧
      (∀ id2 d2, as_Destinations s !! id2 = Some d2 → id2 ≠ at_Destination t →
        as_Destinations s' !! id2 = Some d2 ∧
        ∀ name, getStr (as_NameOwners s') name = id2 ↔ getStr (as_NameOwners s) name = id2) ∧
      as_BundleDigest s' = as_BundleDigest s ∧ as_SourceControlID s' = as_SourceControlID s ∧
      as_SourceBackendID s' = as_SourceBackendID s ∧ as_SourceGuestID s' = as_SourceGuestID s
  end.
Proof.
  intros Ho Hs%reachable_reached; [|done]. pose proof (Apply_reached s t Hs) as Ha.
  destruct (adoptionNext s t) as [s'|e] eqn:Hn; [|done]. split; [done|].
  apply adoptionNext_cases in Hn as [(_&_&->)|[[_ ->]|(d&o'&d'&Hd&Hn&->)]]; [done|done|].
  split; [|done]. intros id2 d2 Hd2 Hne.
  pose proof (ar_valid _ Hs) as Hv. destruct (av_source _ Hv) as (_&_&Hsrc).
  destruct (destinationNext_local s t d _ o' d' (av_dest _ Hv _ _ Hd) (ar_notYet _ Hs _ _ Hd) Hsrc Hn)
    as (_&_&Hid'&Hst).
  assert (ds_ID d = at_Destination t) as Hid by apply (av_dest _ Hv _ _ Hd).
  unfold afterStep. rewrite Hid'. simpl. split; [by rewrite lookup_insert_ne|].
  intros name. eapply owner_frame; [done..| |].
  - by eapply destinationMeaning_id, Hv.
  - intros ->. pose proof (ar_reserved _ Hs) as Hr. unfold noReserved in Hr. congruence.
Qed.

(** ** Progress *)

Fixpoint runAdoption (s : AdoptionState) (ts : list AdoptionTransition) : option AdoptionState :=
  match ts with
  | [] => Some s
  | t :: ts => match ApplyAdoptionTransition s t with
               | (s', None) => runAdoption s' ts
               | (_, Some _) => None
               end
  end.

Lemma fresh_guest s : ∃ g, g ≠ "" ∧ g ≠ as_SourceGuestID s ∧ adoptionSafeGuestIDUsed s g = false.
Proof.
  set (used := {[""; as_SourceGuestID s]} ∪ list_to_set (C := gset string)
    ((λ e, ds_GuestID e.2) <$> map_to_list (as_Destinations s))).
  pose proof (is_fresh used) as Hf. exists (fresh used). split_and!; [set_solver..|].
  apply existsb_false. intros e He. apply andb_false_iff. right. apply String.eqb_neq.
  intros Heq. apply Hf. rewrite <-Heq. apply elem_of_union_r, elem_of_list_to_set.
  apply list_elem_of_fmap. by exists e.
Qed.

(** The steps left to activation, and the next of them. *)
Definition stepsLeft (p : AdoptionPhase) : option nat :=
  match p with
  | AdoptionPhaseClaimed => Some 6 | AdoptionPhaseStaged => Some 5 | AdoptionPhaseAdopting => Some 4
  | AdoptionPhaseAdopted => Some 3 | AdoptionPhaseVerified => Some 2
  | AdoptionPhaseCommitted => Some 1 | AdoptionPhaseActive => Some 0
  | _ => None
  end%nat.
Definition nextAction (p : AdoptionPhase) : AdoptionAction :=
  match p with
  | AdoptionPhaseClaimed => AdoptionStageDestination
  | AdoptionPhaseStaged => AdoptionBegin
  | AdoptionPhaseAdopting => AdoptionFinish
  | AdoptionPhaseAdopted => AdoptionVerifyDestination
  | AdoptionPhaseVerified => AdoptionDecideCommit
  | _ => AdoptionActivate
  end.

Lemma apply_destination s t d o' d' :
  adoptionReached s → as_DaemonUp s = true → as_Destinations s !! at_Destination t = Some d →
  (at_Action t ≠ AdoptionCrash ∧ at_Action t ≠ AdoptionRestart) →
  destinationNext s t d = Ok (o', d') →
  ApplyAdoptionTransition s t = (afterStep s o' d', None) ∧
  as_Destinations (afterStep s o' d') !! at_Destination t = Some d' ∧
  adoptionReached (afterStep s o' d').
Proof.
  intros Hs Hup Hd [Hc Hr] Hn. rewrite Apply_reached by done.
  destruct (afterStep_reached s t _ d o' d' Hs Hd Hn) as [Hs' Hid'].
  assert (adoptionNext s t = Ok (afterStep s o' d')) as ->.
  { unfold adoptionNext, refuse. destruct t as [a]; destruct a; simpl in *; try done;
      rewrite Hup; simpl; rewrite Hd; simpl; by rewrite Hn. }
  split_and!; [done| |done]. unfold afterStep. simpl. by rewrite Hid', lookup_insert_eq.
Qed.

Ltac known_tests :=
  repeat match goal with
  | H : true = true → _ |- _ => specialize (H eq_refl)
  | H : _ ↔ true = true |- _ => apply proj2 in H; specialize (H eq_refl)
  | H : ?x = ?x ∨ _ → _ |- _ => specialize (H (or_introl eq_refl))
  | H : _ ∧ _ |- _ => destruct H
  | H : true = true |- _ => clear H
  end;
  repeat match goal with
  | H : getStr ?m ?k = _ |- context [getStr ?m ?k] => rewrite H
  | H : ds_ID ?d = _ |- context [ds_ID ?d] => rewrite H
  | H : ?x = true |- context [?x] => rewrite H
  | H : ?x = 0 |- context [Z.eqb ?x 0] => rewrite H
  | H : ds_Decision ?d = _ |- context [ds_Decision ?d] => rewrite H
  end; rewrite ?String.eqb_refl; simpl.

Lemma advance s id d n :
  adoptionReached s → as_DaemonUp s = true → as_Destinations s !! id = Some d →
  stepsLeft (ds_Phase d) = Some (S n) →
  ∃ t s' d', at_Destination t = id ∧ ApplyAdoptionTransition s t = (s', None) ∧
    as_DaemonUp s' = true ∧ as_Destinations s' !! id = Some d' ∧ stepsLeft (ds_Phase d') = Some n ∧
    adoptionReached s'.
Proof.
  intros Hs Hup Hd Hn. destruct (fresh_guest s) as (g&Hg1&Hg2&Hg3).
  set (guest := if decide (ds_PlannedPolicy d = GuestIdentitySafeClone) then g else "").
  set (t := mkAdoptionTransition (nextAction (ds_Phase d)) id "" "" guest "").
  assert (∃ o' d', destinationNext s t d = Ok (o', d') ∧ stepsLeft (ds_Phase d') = Some n) as (o'&d'&Hnext&Hn').
  { pose proof (av_dest _ (ar_valid _ Hs) _ _ Hd) as (Hm&_&He). pose proof (ar_notYet _ Hs _ _ Hd) as Hny.
    unfold destinationMeaning, effectsMeaning, claimed, notYet in *. unfold t, destinationNext. simpl.
    assert (as_BundleValid s = true) as Hb.
    { destruct (as_BundleValid s); [done|]. destruct He as (_&_&_&_&_&_&_&He).
      destruct (He eq_refl) as (_&_&_&[Hph|Hph]); by rewrite Hph in Hn. }
    destruct (ds_Phase d) eqn:Hph; simplify_eq/=; destruct_and?; unfold refuse, dphase.
    all: rewrite Hb, Hph; simpl; known_tests.
    all: try (eexists _, _; split; [reflexivity|done]).
    assert (∃ g', finishGuestID s t d = Ok g') as [g' Hg']; [|unfold t in Hg'; simpl in Hg'; rewrite Hg'; by eexists _, _].
    unfold finishGuestID, refuse, emptyStr, t, guest. simpl.
    destruct (ds_PlannedPolicy d) eqn:Hp; simpl; [|by eexists|].
    - rewrite Hg3, (proj2 (String.eqb_neq _ _) Hg1), (proj2 (String.eqb_neq _ _) Hg2). simpl. by eexists.
    - match goal with E : _ = ds_Policy d, V : validGuestIdentityPolicy _ = true |- _ => by rewrite <-E in V end. }
  destruct (apply_destination s t d o' d' Hs Hup Hd) as (Ha&Hl&Hr); [|done|].
  { by unfold t; simpl; destruct (ds_Phase d). }
  exists t, (afterStep s o' d'), d'. done.
Qed.

Lemma activates n s id d :
  adoptionReached s → as_DaemonUp s = true → as_Destinations s !! id = Some d →
  stepsLeft (ds_Phase d) = Some n →
  ∃ ts s' d', length ts = n ∧ Forall (λ t, at_Destination t = id) ts ∧
    runAdoption s ts = Some s' ∧ as_Destinations s' !! id = Some d' ∧ ds_Phase d' = AdoptionPhaseActive.
Proof.
  revert s d. induction n as [|n IH]; intros s d Hs Hup Hd Hn.
  { exists [], s, d. split_and!; try done. by destruct (ds_Phase d). }
  destruct (advance s id d n Hs Hup Hd Hn) as (t&s1&d1&Ht&Ha&Hup1&Hd1&Hn1&Hs1).
  destruct (IH s1 d1 Hs1 Hup1 Hd1 Hn1) as (ts&s'&d'&Hlen&Hall&Hrun&Hd'&Hph).
  exists (t :: ts), s', d'. split_and!; [simpl; lia|by constructor|simpl; by rewrite Ha|done|done].
Qed.

Lemma restart_up s :
  adoptionReached s → ∃ ts s', (length ts ≤ 1)%nat ∧ runAdoption s ts = Some s' ∧
    as_DaemonUp s' = true ∧ as_Destinations s' = as_Destinations s ∧ adoptionReached s'.
Proof.
  intros Hs. destruct (as_DaemonUp s) eqn:Hup; [exists [], s; simpl; split_and!; done || lia|].
  set (t := mkAdoptionTransition AdoptionRestart "" "" "" "" "").
  assert (adoptionNext s t = Ok (s <| as_DaemonUp := true |>)) as Hn.
  { unfold adoptionNext, refuse, t. simpl. by rewrite Hup. }
  exists [t], (s <| as_DaemonUp := true |>). split_and!; [simpl; lia| |done|done|by eapply adoptionNext_reached].
  simpl. by rewrite Apply_reached, Hn.
Qed.

Lemma runAdoption_app s ts1 s1 ts2 :
  runAdoption s ts1 = Some s1 → runAdoption s (ts1 ++ ts2) = runAdoption s1 ts2.
Proof.
  revert s. induction ts1 as [|t ts1 IH]; intros s; simpl; [by intros [= ->]|].
  destruct (ApplyAdoptionTransition s t) as [s' [|]]; [done|]. apply IH.
Qed.

Lemma rolls_back s id d :
  adoptionReached s → as_DaemonUp s = true → as_Destinations s !! id = Some d →
  ds_Phase d = AdoptionPhaseRollingBack →
  ∃ t s' d', ApplyAdoptionTransition s t = (s', None) ∧ as_Destinations s' !! id = Some d' ∧
    ds_Phase d' = AdoptionPhaseRolledBack ∧
    getStr (as_NameOwners s') (ds_RequestedName d) = "".
Proof.
  intros Hs Hup Hd Hph. set (t := mkAdoptionTransition AdoptionRollback id "" "" "" "").
  pose proof (av_dest _ (ar_valid _ Hs) _ _ Hd) as (Hm&_&He).
  unfold destinationMeaning, effectsMeaning, claimed in *. rewrite Hph in Hm, He. simpl in Hm, He.
  destruct Hm as ((Hid&_)&_&_&_&_&_&_&_&_&_&Hcl&_). destruct He as (_&_&_&_&_&Hdec&_).
  assert (∃ o' d', destinationNext s t d = Ok (o', d') ∧ ds_Phase d' = AdoptionPhaseRolledBack ∧
    o' = <[ds_RequestedName d := ""]> (as_NameOwners s)) as (o'&d'&Hn&Hp'&->).
  { unfold destinationNext, refuse, dphase, t. simpl.
    rewrite Hph, (proj2 Hcl eq_refl), Hid, (Hdec (or_introl eq_refl)), String.eqb_refl. simpl.
    by eexists _, _. }
  destruct (apply_destination s t d (<[ds_RequestedName d := ""]> (as_NameOwners s)) d' Hs Hup Hd)
    as (Ha&Hl&Hr); [done|done|].
  exists t, (afterStep s (<[ds_RequestedName d := ""]> (as_NameOwners s)) d'), d'.
  split_and!; [done|done|done|]. apply getStr_insert.
Qed.

Lemma requests_rollback s id d :
  adoptionReached s → as_DaemonUp s = true → as_Destinations s !! id = Some d →
  adoptionRollbackSourcePhase (ds_Phase d) = true →
  ∃ t s' d', ApplyAdoptionTransition s t = (s', None) ∧ as_DaemonUp s' = true ∧
    as_Destinations s' !! id = Some d' ∧ ds_RequestedName d' = ds_RequestedName d ∧
    ds_Phase d' = AdoptionPhaseRollingBack ∧ adoptionReached s'.
Proof.
  intros Hs Hup Hd Hph. set (t := mkAdoptionTransition AdoptionRequestRollback id "" "" "" "").
  pose proof (ar_notYet _ Hs _ _ Hd) as Hny.
  assert (ds_Decision d = AdoptionDecisionNone) as Hdec.
  { unfold notYet in Hny. destruct (ds_Phase d); simpl in Hph; try done; intuition. }
  set (d' := d <| ds_Phase := AdoptionPhaseRollingBack |> <| ds_Decision := AdoptionDecisionRollback |>).
  assert (destinationNext s t d = Ok (as_NameOwners s, d')) as Hn.
  { unfold destinationNext, refuse, t. simpl. by rewrite Hph, Hdec. }
  destruct (apply_destination s t d (as_NameOwners s) d' Hs Hup Hd) as (Ha&Hl&Hr); [done|done|].
  by exists t, (afterStep s (as_NameOwners s) d'), d'.
Qed.

(** an import that holds its destination name can always be settled,
    whether or not the daemon has crashed: before a rollback decision at most
    seven transitions activate it, and before a commit decision at most three
    roll it back and free its name. *)
Theorem import_settles o s id d :
  ordinaryOptions o → adoptionReachable o s → as_Destinations s !! id = Some d →
  adoptionClaimPhase (ds_Phase d) = true →
  (ds_Phase d ≠ AdoptionPhaseRollingBack → ∃ ts s' d', (length ts ≤ 7)%nat ∧
    runAdoption s ts = Some s' ∧ as_Destinations s' !! id = Some d' ∧
    ds_Phase d' = AdoptionPhaseActive) ∧
  (ds_Phase d ∉ [AdoptionPhaseCommitted; AdoptionPhaseActive] → ∃ ts s' d', (length ts ≤ 3)%nat ∧
    runAdoption s ts = Some s' ∧ as_Destinations s' !! id = Some d' ∧
    ds_Phase d' = AdoptionPhaseRolledBack ∧ getStr (as_NameOwners s') (ds_RequestedName d) = "").
Proof.
  intros Ho Hs%reachable_reached Hd Hcl; [|done].
  destruct (restart_up s Hs) as (ts0&s0&Hl0&Hr0&Hup&Hds&Hs0). rewrite <-Hds in Hd. split.
  - intros Hne. assert (∃ n, stepsLeft (ds_Phase d) = Some n ∧ (n ≤ 6)%nat) as (n&Hn&Hle).
    { destruct (ds_Phase d); try done; eexists; (split; [done|lia]). }
    destruct (activates n s0 id d Hs0 Hup Hd Hn) as (ts&s'&d'&Hlen&_&Hrun&Hd'&Hph).
    exists (ts0 ++ ts), s', d'. rewrite (runAdoption_app _ _ _ _ Hr0), length_app. split_and!; [lia|done..].
  - intros Hne. assert (∃ ts1 s1 d1, (length ts1 ≤ 1)%nat ∧ runAdoption s0 ts1 = Some s1 ∧
      as_DaemonUp s1 = true ∧ as_Destinations s1 !! id = Some d1 ∧
      ds_RequestedName d1 = ds_RequestedName d ∧ ds_Phase d1 = AdoptionPhaseRollingBack ∧
      adoptionReached s1) as (ts1&s1&d1&Hl1&Hr1&Hup1&Hd1&Hnm&Hph1&Hs1).
    { destruct (decide (ds_Phase d = AdoptionPhaseRollingBack)) as [Hph|Hph].
      { exists [], s0, d. simpl. split_and!; done || lia. }
      destruct (requests_rollback s0 id d Hs0 Hup Hd) as (t&s1&d1&Ha&?&?&?&?&?).
      { destruct (ds_Phase d); try done; set_solver. }
      exists [t], s1, d1. simpl. rewrite Ha. split_and!; done || lia. }
    destruct (rolls_back s1 id d1 Hs1 Hup1 Hd1 Hph1) as (t&s'&d'&Ha&Hd'&Hph'&Hfree).
    exists (ts0 ++ ts1 ++ [t]), s', d'. rewrite (runAdoption_app _ _ _ _ Hr0), (runAdoption_app _ _ _ _ Hr1).
    rewrite !length_app. simpl. rewrite Ha, <-Hnm. split_and!; [lia|done..].
Qed.

(** ** Samples *)

Module SampleImport.
Definition act (a : AdoptionAction) (id : string) := mkAdoptionTransition a id "" "" "" "".
Definition plan (id : string) :=
  mkAdoptionTransition AdoptionPlanDestination id ("ctl-" +:+ id) ("vm-" +:+ id) "" "".
Definition options (existing : list string) := mkAdoptionStateOptions "sha256:5d" true "ctl-src"
  "vm-src" "guest-src" 1
  [mkDestinationDraft "a" "dev" GuestIdentitySafeClone;
   mkDestinationDraft "b" "dev" GuestIdentityExactRestore] existing.
Definition begin (o : AdoptionStateOptions) : AdoptionState :=
  match NewAdoptionState o with
  | Ok s => s
  | Err _ => mkAdoptionState "" "" false "" "" "" true 0 0 ∅ ∅
  end.
Definition start (existing : list string) : AdoptionState := begin (options existing).
(** [a] claims the name and is staged, then the daemon crashes. *)
Definition staging : list AdoptionTransition :=
  [plan "a"; act AdoptionAcquireNameClaim "a"; act AdoptionStageDestination "a"; plan "b";
   act AdoptionCrash ""].
Definition staged : AdoptionState := default (start []) (runAdoption (start []) staging).
Definition destination (id : string) : DestinationState :=
  default (mkDestinationState "" "" NoPolicy NoPolicy AdoptionPhaseDraft "" "" "" false false false
    false false false AdoptionDecisionNone 0 0 0 false false 0) (as_Destinations staged !! id).
(** Both imports confirm the replacement of the existing [dev]; [a] deletes it. *)
Definition race : list AdoptionTransition :=
  [plan "a"; plan "b"; act AdoptionPlanReplacement "a"; act AdoptionPlanReplacement "b";
   act AdoptionConfirmReplacement "a"; act AdoptionConfirmReplacement "b";
   act AdoptionDeleteReplacement "a"].
Definition raced : AdoptionState := default (start ["dev"]) (runAdoption (start ["dev"]) race).
(** A destination named like the reserved owner claims [dev]; [b] takes it for
    an existing one. *)
Definition reserved := mkAdoptionStateOptions "sha256:5d" true "ctl-src" "vm-src" "guest-src" 0
  [mkDestinationDraft adoptionExistingNameOwner "dev" GuestIdentitySafeClone;
   mkDestinationDraft "b" "dev" GuestIdentityExactRestore] [].
Definition takeOver : list AdoptionTransition :=
  [plan adoptionExistingNameOwner; act AdoptionAcquireNameClaim adoptionExistingNameOwner; plan "b";
   act AdoptionPlanReplacement "b"; act AdoptionConfirmReplacement "b"].
Definition takenOver : AdoptionState := default (begin reserved) (runAdoption (begin reserved) takeOver).
End SampleImport.

Lemma runAdoption_rtc s ts s' : runAdoption s ts = Some s' → rtc adoptionStep s s'.
Proof.
  revert s. induction ts as [|t ts IH]; intros s; simpl; [by intros [= ->]|].
  destruct (ApplyAdoptionTransition s t) as [s1 [|]] eqn:Ht; [done|]. intros H.
  econstructor; [by exists t|by apply IH].
Qed.

Lemma sample_ordinary existing : ordinaryOptions (SampleImport.options existing).
Proof. split; [simpl; unfold two64; lia|]. simpl. intros dr. set_solver. Qed.

Lemma staged_reachable : adoptionReachable (SampleImport.options []) SampleImport.staged.
Proof.
  exists (SampleImport.start []). split; [by vm_compute|].
  apply (runAdoption_rtc _ SampleImport.staging). by vm_compute.
Qed.

Lemma imports_isolated_witness :
  ds_BackendID (SampleImport.destination "b") ≠ ds_BackendID (SampleImport.destination "a").
Proof.
  apply (proj1 (imports_isolated (SampleImport.options []) SampleImport.staged "a"
    (SampleImport.destination "a") staged_reachable ltac:(by vm_compute)) "b"
    (SampleImport.destination "b")); by vm_compute.
Defined.

Lemma adoption_step_exact_witness :
  ApplyAdoptionTransition SampleImport.staged (SampleImport.act AdoptionBegin "a") =
    (SampleImport.staged, Some ErrInvalidStateTransition).
Proof.
  exact (adoption_step_exact (SampleImport.options []) SampleImport.staged
    (SampleImport.act AdoptionBegin "a") (sample_ordinary []) staged_reachable).
Defined.

Lemma import_settles_witness : ∃ ts s' d', (length ts ≤ 7)%nat ∧
  runAdoption SampleImport.staged ts = Some s' ∧ as_Destinations s' !! "a" = Some d' ∧
  ds_Phase d' = AdoptionPhaseActive.
Proof.
  destruct (as_Destinations SampleImport.staged !! "a") as [d|] eqn:Hd; [|by vm_compute in Hd].
  assert (ds_Phase d = AdoptionPhaseStaged) as Hp by (vm_compute in Hd; by injection Hd as <-).
  apply (import_settles (SampleImport.options []) SampleImport.staged "a" d
    (sample_ordinary []) staged_reachable Hd); by rewrite Hp.
Defined.

(** ** A replacement raced by another import *)

(** An import that waits for a replacement whose target is gone. *)
Definition waitsForever (id : string) (s : AdoptionState) : Prop :=
  ∃ d, as_Destinations s !! id = Some d ∧ ds_Phase d = AdoptionPhaseReplacementConfirmed ∧
    getStr (as_NameOwners s) (ds_RequestedName d) ≠ adoptionExistingNameOwner.

Lemma waits_own s t d owners' d' :
  ds_Phase d = AdoptionPhaseReplacementConfirmed →
  getStr (as_NameOwners s) (ds_RequestedName d) ≠ adoptionExistingNameOwner →
  destinationNext s t d ≠ Ok (owners', d').
Proof.
  intros Hph Ho H. destruct t as [a]; destruct a; unfold destinationNext, dphase, refuse in H; simpl in H;
    rewrite ?Hph, ?(proj2 (String.eqb_neq _ _) Ho) in H; simpl in H; rewrite ?orb_true_r in H; try done.
Qed.

Lemma waits_step id s s' :
  adoptionReached s → adoptionStep s s' → waitsForever id s → waitsForever id s'.
Proof.
  intros Hs [t Ht] (d&Hd&Hph&Ho). rewrite Apply_reached in Ht by done.
  destruct (adoptionNext s t) as [s1|] eqn:Hn; simplify_eq.
  apply adoptionNext_cases in Hn as [(_&_&->)|[[_ ->]|(d2&o'&d'&Hd2&Hn&->)]]; [by exists d|by exists d|].
  destruct (decide (at_Destination t = id)) as [<-|Hne].
  { rewrite Hd in Hd2. injection Hd2 as <-. by destruct (waits_own _ _ _ _ _ Hph Ho Hn). }
  pose proof (ar_valid _ Hs) as Hv. destruct (av_source _ Hv) as (_&_&Hsrc).
  destruct (destinationNext_local s t d2 _ o' d' (av_dest _ Hv _ _ Hd2) (ar_notYet _ Hs _ _ Hd2) Hsrc Hn)
    as (_&_&Hid'&Hst).
  assert (ds_ID d2 = at_Destination t) as Hid by apply (av_dest _ Hv _ _ Hd2).
  exists d. unfold afterStep. simpl. rewrite Hid', lookup_insert_ne by done. split_and!; [done..|].
  assert (at_Destination t ≠ adoptionExistingNameOwner) as Hres.
  { intros E. pose proof (ar_reserved _ Hs) as Hr. unfold noReserved in Hr. congruence. }
  destruct (decide (ds_RequestedName d = ds_RequestedName d2)) as [E|E].
  - rewrite E in *. destruct Hst as [->|[[-> _]|[-> _]]]; [done|rewrite getStr_insert; congruence|by rewrite getStr_insert].
  - destruct Hst as [->|[[-> _]|[-> _]]]; by rewrite ?getStr_insert_ne.
Qed.

(** C40: two imports that both confirm the replacement of one existing
    destination race: after the first has deleted it, the second stays in the
    confirmed phase in every later state. It can neither delete, plan anew,
    be renamed, be blocked nor be rolled back. *)
Theorem replacement_race_strands :
  adoptionReachable (SampleImport.options ["dev"]) SampleImport.raced ∧
  ∀ s', rtc adoptionStep SampleImport.raced s' →
    ∃ d, as_Destinations s' !! "b" = Some d ∧ ds_Phase d = AdoptionPhaseReplacementConfirmed.
Proof.
  assert (adoptionReachable (SampleImport.options ["dev"]) SampleImport.raced) as Hr.
  { exists (SampleImport.start ["dev"]). split; [by vm_compute|].
    apply (runAdoption_rtc _ SampleImport.race). by vm_compute. }
  split; [done|]. intros s' Hs'.
  enough (adoptionReached s' ∧ waitsForever "b" s') as (_&d&?&?&_) by (by exists d).
  eapply (rtc_invariant adoptionStep (λ s, adoptionReached s ∧ waitsForever "b" s)); [..|done].
  - split; [eapply reachable_reached; [apply sample_ordinary|done]|].
    destruct (as_Destinations SampleImport.raced !! "b") as [d|] eqn:Hd; [|by vm_compute in Hd].
    exists d. rewrite Hd. split; [done|]. vm_compute in Hd. injection Hd as <-.
    split; [done|]. by vm_compute.
  - intros y y' [Hy Hw] Hstep. split; [by eapply step_adoptionReached|by eapply waits_step].
Qed.

(** A destination that carries the reserved owner name defeats the guards:
    its claim reads as an existing destination's, another import may confirm
    and attempt its deletion, and only the final check refuses it, with the
    invariant error. *)
Lemma reserved_id_breaks_guards :
  is_ok (NewAdoptionState SampleImport.reserved) = true ∧
  runAdoption (SampleImport.begin SampleImport.reserved) SampleImport.takeOver =
    Some SampleImport.takenOver ∧
  (ApplyAdoptionTransition SampleImport.takenOver
    (SampleImport.act AdoptionDeleteReplacement "b")).2 = Some ErrStateInvariant.
Proof. split_and!; by vm_compute. Qed.
