(* ===== verification/Decision.v ===== *)
(** * Operator decisions (src/internal/decision)

    A decision is a question to the operator: a session wants to read a host
    file, to open a host application, and so on.  The store keeps one file per
    decision; an operator surface claims a pending decision for a lease, and
    only the holder of the claim token may resolve it.

    [Decision], [Notice] and their checks are types.go, the redactions are
    redaction.go, the operations of [Store] are store.go.  The files of a store
    are maps from paths to records, the JSON text in between is not modelled.
    The clock, the results of file operations (locking included) and the random
    bytes are sequences of which each call consumes one, so that the theorems
    hold for all of them.  A write replaces a file by [rename] as its last
    step: a failed write leaves the file as it was. *)
From S2P Require Import Prelude GoStrings GoTime GoHash GoPath Redact.
Open Scope Z_scope.

(** ** Constants (types.go) *)

Definition DecisionVersion : string := "hideout.decision/v1".
Definition DecisionClaimVersion : string := "hideout.decision-claim/v1".
Definition DecisionReleaseVersion : string := "hideout.decision-claim-release/v1".
Definition DecisionResultVersion : string := "hideout.decision-result/v1".
Definition NoticeVersion : string := "hideout.notice/v1".

Definition KindHostFSWrite : string := "hostfs.write".
Definition KindHostFSRead : string := "hostfs.read".
Definition KindHostAppOpenResource : string := "host-app.open-resource".
Definition KindAdapterProposal : string := "adapter.proposal".
Definition KindEvidenceShare : string := "evidence.share".
Definition KindPrivilegeStatus : string := "privilege.status".
Definition KindBackgroundStatus : string := "background.status".
Definition KindRuntimeStatus : string := "runtime.status".

Definition StatePending : string := "pending".
Definition StateClaimed : string := "claimed".
Definition StateApproved : string := "approved".
Definition StateApplied : string := "applied".
Definition StateDenied : string := "denied".
Definition StateDiscarded : string := "discarded".
Definition StateTimedOut : string := "timed-out".
Definition StateFailed : string := "failed".
Definition StateStale : string := "stale".

Definition ActionReopen : string := "reopen".
Definition ActionRevoke : string := "revoke".

(** ** Records *)

Abbreviation Details := (list (string * Value)).

Record Source := mkSource {
  so_Profile : string; so_Session : string; so_Backend : string; so_Surface : string }.

(** [Facts] and the other maps: Go's nil map is the empty list. *)
Record Preview := mkPreview {
  pv_Summary : string; pv_Facts : Details; pv_Diff : option Value; pv_UserDataPresent : bool }.
#[global] Instance Preview_eta : Eta Preview := λ p,
  mkPreview (pv_Summary p) (pv_Facts p) (pv_Diff p) (pv_UserDataPresent p).

Record Claim := mkClaim {
  cm_Surface : string; cm_Operator : string; cm_ClaimedAt : Time; cm_ExpiresAt : Time;
  cm_TokenHash : string }.
#[global] Instance Claim_eta : Eta Claim := λ c,
  mkClaim (cm_Surface c) (cm_Operator c) (cm_ClaimedAt c) (cm_ExpiresAt c) (cm_TokenHash c).

Record ProviderRef := mkProviderRef {
  pr_Provider : string; pr_OperationID : string; pr_DecisionID : string; pr_SessionID : string;
  pr_Data : Details }.
Definition noProvider : ProviderRef := mkProviderRef "" "" "" "" [].

Record Decision := mkDecision {
  d_Version : string; d_ID : string; d_Kind : string; d_Source : Source; d_State : string;
  d_Risk : Details; d_ProposedAction : Details; d_Preview : Preview; d_AllowedActions : list string;
  d_DefaultOutcome : string; d_TimeoutAt : Time; d_Claim : option Claim; d_ProviderRef : ProviderRef;
  d_AuditRef : string; d_Revision : Z; d_CreatedAt : Time; d_UpdatedAt : Time }.
#[global] Instance Decision_eta : Eta Decision := λ d,
  mkDecision (d_Version d) (d_ID d) (d_Kind d) (d_Source d) (d_State d) (d_Risk d)
    (d_ProposedAction d) (d_Preview d) (d_AllowedActions d) (d_DefaultOutcome d) (d_TimeoutAt d)
    (d_Claim d) (d_ProviderRef d) (d_AuditRef d) (d_Revision d) (d_CreatedAt d) (d_UpdatedAt d).

Record ClaimResponse := mkClaimResponse {
  cr_DecisionID : string; cr_State : string; cr_ClaimToken : string; cr_Surface : string;
  cr_ClaimedAt : Time; cr_ClaimExpiresAt : Time; cr_LeaseSeconds : Z; cr_Takeover : bool;
  cr_Revision : Z }.

Record ClaimOptions := mkClaimOptions {
  co_Surface : string; co_Operator : string; co_Lease : Z; co_ExpectedRevision : Z;
  co_TakeoverExpired : bool }.

Record ClaimRelease := mkClaimRelease {
  rl_DecisionID : string; rl_State : string; rl_Reason : string; rl_ReleasedAt : Time;
  rl_PreviousSurface : string; rl_PreviousClaimedAt : Time; rl_PreviousExpiresAt : Time;
  rl_Expired : bool; rl_Revision : Z }.

Record Resolution := mkResolution {
  rs_DecisionID : string; rs_Kind : string; rs_Status : string; rs_Decision : string;
  rs_Reason : string; rs_ProviderResult : Details; rs_AuditRef : string; rs_Revision : Z }.

Record Notice := mkNotice {
  n_Version : string; n_ID : string; n_Kind : string; n_Source : Source; n_Severity : string;
  n_Status : string; n_Payload : Details; n_Preview : Preview; n_Acknowledged : bool;
  n_AcknowledgedBy : string; n_AcknowledgedAt : Time; n_AuditRef : string; n_Revision : Z;
  n_CreatedAt : Time; n_UpdatedAt : Time }.
#[global] Instance Notice_eta : Eta Notice := λ n,
  mkNotice (n_Version n) (n_ID n) (n_Kind n) (n_Source n) (n_Severity n) (n_Status n) (n_Payload n)
    (n_Preview n) (n_Acknowledged n) (n_AcknowledgedBy n) (n_AcknowledgedAt n) (n_AuditRef n)
    (n_Revision n) (n_CreatedAt n) (n_UpdatedAt n).

Record Acknowledgement := mkAck {
  ak_NoticeID : string; ak_Surface : string; ak_AcknowledgedAt : Time; ak_AuditRef : string;
  ak_Revision : Z }.

Record ListFilter := mkFilter {
  lf_Kind : string; lf_State : string; lf_Profile : string; lf_Session : string;
  lf_Severity : string; lf_IncludeTerminal : bool }.

(** ** Checks and normal forms (types.go) *)

Definition among (s : string) (l : list string) : bool := existsb (String.eqb s) l.

Definition KnownDecisionKind (kind : string) : bool :=
  among kind [KindHostFSWrite; KindHostFSRead; KindHostAppOpenResource; KindAdapterProposal;
    KindEvidenceShare].
Definition KnownNoticeKind (kind : string) : bool :=
  among kind [KindPrivilegeStatus; KindBackgroundStatus; KindRuntimeStatus].
Definition KnownDecisionState (state : string) : bool :=
  among state [StatePending; StateClaimed; StateApproved; StateApplied; StateDenied; StateDiscarded;
    StateTimedOut; StateFailed; StateStale].
Definition DecisionTerminal (state : string) : bool :=
  among state [StateApproved; StateApplied; StateDenied; StateDiscarded; StateTimedOut; StateFailed;
    StateStale].
Definition ActionAllowed (d : Decision) (action : string) : bool :=
  existsb (λ allowed, String.eqb allowed action) (d_AllowedActions d).

Definition defaultOutcomeForKind (kind : string) : string :=
  if String.eqb kind KindHostFSWrite then "discard"
  else if String.eqb kind KindEvidenceShare then "no-release"
  else "deny".

Definition orDefault (s default : string) : string := if String.eqb s "" then default else s.

Definition Decision_Normalize (now : Time) (d : Decision) : Decision :=
  let id := TrimSpace (d_ID d) in
  let kind := TrimSpace (d_Kind d) in
  mkDecision (orDefault (d_Version d) DecisionVersion) id kind (d_Source d)
    (orDefault (d_State d) StatePending) (d_Risk d) (d_ProposedAction d) (d_Preview d)
    (d_AllowedActions d) (orDefault (d_DefaultOutcome d) (defaultOutcomeForKind kind))
    (d_TimeoutAt d) (d_Claim d) (d_ProviderRef d)
    (orDefault (d_AuditRef d) ("audit:decision:" +:+ id))
    (if d_Revision d <=? 0 then 1 else d_Revision d)
    (if IsZero (d_CreatedAt d) then now else d_CreatedAt d) now.

Definition Notice_Normalize (now : Time) (n : Notice) : Notice :=
  let id := TrimSpace (n_ID n) in
  mkNotice (orDefault (n_Version n) NoticeVersion) id (TrimSpace (n_Kind n)) (n_Source n)
    (orDefault (n_Severity n) "info") (n_Status n) (n_Payload n) (n_Preview n) (n_Acknowledged n)
    (n_AcknowledgedBy n) (n_AcknowledgedAt n) (orDefault (n_AuditRef n) ("audit:notice:" +:+ id))
    (if n_Revision n <=? 0 then 1 else n_Revision n)
    (if IsZero (n_CreatedAt n) then now else n_CreatedAt n) now.

Inductive DecisionError :=
  | ErrNotExist | ErrIO | ErrRoot | ErrRandom | ErrIDRequired
  | ErrInvalid (what : string)
  | ErrLeaseRange | ErrRevisionChanged | ErrTimedOut | ErrNoExpiredClaim | ErrClaimLeaseExpired
  | ErrTakeoverRevision | ErrDecisionState
  | ErrNotClaimed | ErrTokenRequired | ErrTokenInvalid | ErrTokenExpired
  | ErrNotTerminal | ErrNotGrant | ErrProviderKind | ErrNotReopenable | ErrReopenTimeout
  | ErrNotApplied.

Definition blank (s : string) : bool := String.eqb (TrimSpace s) "".
Definition isSome {A} (o : option A) : bool := match o with Some _ => true | None => false end.

Definition validateClaimRecord (c : Claim) : result DecisionError () :=
  guard_err (negb (blank (cm_Surface c))) (ErrInvalid "decision claim surface is required");;
  guard_err (negb (IsZero (cm_ClaimedAt c) || IsZero (cm_ExpiresAt c)
      || negb (After (cm_ExpiresAt c) (cm_ClaimedAt c)))) (ErrInvalid "decision claim lease is invalid");;
  guard_err (negb (blank (cm_TokenHash c))) (ErrInvalid "decision claim token hash is required").

Definition ValidateDecision (d : Decision) : result DecisionError () :=
  guard_err (String.eqb (d_Version d) DecisionVersion) (ErrInvalid "unsupported decision version");;
  guard_err (negb (String.eqb (d_ID d) "")) (ErrInvalid "decision id is required");;
  guard_err (KnownDecisionKind (d_Kind d)) (ErrInvalid "unsupported decision kind");;
  guard_err (KnownDecisionState (d_State d)) (ErrInvalid "unsupported decision state");;
  guard_err (negb (String.eqb (d_DefaultOutcome d) "")) (ErrInvalid "decision defaultOutcome is required");;
  guard_err (negb (IsZero (d_TimeoutAt d) && negb (DecisionTerminal (d_State d))))
    (ErrInvalid "decision timeoutAt is required");;
  guard_err (negb (String.eqb (pv_Summary (d_Preview d)) ""
      && (length (pv_Facts (d_Preview d)) =? 0)%nat && negb (isSome (pv_Diff (d_Preview d)))))
    (ErrInvalid "decision preview is required");;
  guard_err (negb (String.eqb (d_AuditRef d) "")) (ErrInvalid "decision auditRef is required");;
  guard_err (negb (String.eqb (d_State d) StateClaimed && negb (isSome (d_Claim d))))
    (ErrInvalid "claimed decision requires claim metadata");;
  guard_err (negb (negb (String.eqb (d_State d) StateClaimed) && isSome (d_Claim d)))
    (ErrInvalid "claim metadata is only allowed in claimed state");;
  match d_Claim d with Some c => validateClaimRecord c | None => mret tt end.

Definition ValidateNotice (n : Notice) : result DecisionError () :=
  guard_err (String.eqb (n_Version n) NoticeVersion) (ErrInvalid "unsupported notice version");;
  guard_err (negb (String.eqb (n_ID n) "")) (ErrInvalid "notice id is required");;
  guard_err (KnownNoticeKind (n_Kind n)) (ErrInvalid "unsupported notice kind");;
  guard_err (among (n_Severity n) ["info"; "warning"; "error"]) (ErrInvalid "unsupported notice severity");;
  guard_err (negb (String.eqb (n_Status n) "")) (ErrInvalid "notice status is required");;
  guard_err (negb (String.eqb (n_AuditRef n) "")) (ErrInvalid "notice auditRef is required");;
  guard_err (negb (String.eqb (pv_Summary (n_Preview n)) "" && (length (pv_Facts (n_Preview n)) =? 0)%nat))
    (ErrInvalid "notice preview is required").

(** ** Redactions (redaction.go) *)

Definition RedactPreview (p : Preview) : Preview :=
  mkPreview (RedactString (pv_Summary p)) (RedactDetails (pv_Facts p))
    (RedactValue "diff" <$> pv_Diff p) (pv_UserDataPresent p).

Definition RedactDecision (d : Decision) : Decision :=
  mkDecision (d_Version d) (d_ID d) (d_Kind d) (d_Source d) (d_State d) (RedactDetails (d_Risk d))
    (RedactDetails (d_ProposedAction d)) (RedactPreview (d_Preview d)) (d_AllowedActions d)
    (d_DefaultOutcome d) (d_TimeoutAt d) ((λ c, c <| cm_TokenHash := "" |>) <$> d_Claim d)
    noProvider (d_AuditRef d) (d_Revision d) (d_CreatedAt d) (d_UpdatedAt d).

Definition RedactNotice (n : Notice) : Notice :=
  n <| n_Preview ::= RedactPreview |> <| n_Payload ::= RedactDetails |>.

Definition RedactResolution (r : Resolution) : Resolution :=
  mkResolution (rs_DecisionID r) (rs_Kind r) (rs_Status r) (rs_Decision r)
    (RedactString (rs_Reason r)) (RedactDetails (rs_ProviderResult r)) (rs_AuditRef r) (rs_Revision r).
