(* ===== verification/DecisionStore.v ===== *)
(** * The decision store (src/internal/decision/store.go)

    Every operation of [Store] as a state transformer.  [locked] is the file
    lock and the mutex around an operation; an operation that fails may hand
    back the redacted decision beside the error, as in the source. *)
From S2P Require Import Prelude GoStrings GoTime GoHash GoPath Redact Decision.
Open Scope Z_scope.

Definition DefaultClaimLease : Z := Minute.
Definition MinClaimLease : Z := 5 * Second.
Definition MaxClaimLease : Z := 5 * Minute.

Record Store := mkStore {
  st_root : string;
  st_decisions : gmap string Decision;
  st_notices : gmap string Notice;
  st_clock : nat → Time; st_reads : nat;
  st_io : nat → bool; st_ios : nat;
  st_rand : nat → option (list Z); st_rands : nat }.
#[global] Instance Store_eta : Eta Store := λ s,
  mkStore (st_root s) (st_decisions s) (st_notices s) (st_clock s) (st_reads s) (st_io s) (st_ios s)
    (st_rand s) (st_rands s).

(** An error with the decision returned beside it. *)
Record Failure := mkFailure { f_error : DecisionError; f_decision : option Decision }.
Abbreviation DM := (SE Store Failure).

Definition failE {A} (e : DecisionError) : DM A := fail (mkFailure e None).
Definition failD {A} (e : DecisionError) (d : Decision) : DM A :=
  fail (mkFailure e (Some (RedactDecision d))).
Definition guardE (b : bool) (e : DecisionError) : DM () := if b then mret tt else failE e.
Definition guardD (b : bool) (e : DecisionError) (d : Decision) : DM () :=
  if b then mret tt else failD e d.

(** ** The outside world *)

Definition now_ : DM Time := λ s, (s <| st_reads ::= S |>, Ok (UTC (st_clock s (st_reads s)))).
Definition io : DM () := λ s,
  (s <| st_ios ::= S |>, if st_io s (st_ios s) then Ok tt else Err (mkFailure ErrIO None)).

Definition decisionsDir (root : string) : string := Join root "decisions".
Definition noticesDir (root : string) : string := Join root "notices".
Definition decisionPath (root id : string) : string := Join (decisionsDir root) (id +:+ ".json").
Definition noticePath (root id : string) : string := Join (noticesDir root) (id +:+ ".json").

(** [lockFile] and the deferred unlock: the operation's effects stay when the
    unlock fails. *)
Definition locked {A} (m : DM A) : DM A :=
  s ← get_state;
  guardE (negb (String.eqb (st_root s) "")) ErrRoot;;
  io;;
  r ← attempt m;
  unlocked ← attempt io;
  match r, unlocked with
  | Ok a, Err e => lift (Err e)
  | _, _ => lift r
  end.

Definition readDecision (path : string) : DM Decision :=
  io;;
  s ← get_state;
  match st_decisions s !! path with Some d => mret d | None => failE ErrNotExist end.
Definition writeDecision (path : string) (d : Decision) : DM () :=
  io;; modify (λ s, s <| st_decisions ::= <[path := d]> |>).
Definition readNotice (path : string) : DM Notice :=
  io;;
  s ← get_state;
  match st_notices s !! path with Some n => mret n | None => failE ErrNotExist end.
Definition writeNotice (path : string) (n : Notice) : DM () :=
  io;; modify (λ s, s <| st_notices ::= <[path := n]> |>).

Definition committedJSONEntry (name : string) : bool :=
  negb (HasPrefix name ".") && HasSuffix name ".json".

(** [os.ReadDir] of a directory of files, in the order of the names. *)
Definition readDir {A} (dir : string) (m : gmap string A) : list string :=
  sort_strings (Base <$> filter (λ p, String.eqb (Dir p) dir = true) (map_to_list m).*1).
Definition entriesOf {A} (dir : string) (m : gmap string A) : list string :=
  List.filter committedJSONEntry (readDir dir m).

(** ** Claims and tokens *)

Definition newClaimToken : DM string := λ s,
  (s <| st_rands ::= S |>,
   match st_rand s (st_rands s) with
   | Some raw => Ok ("claim_" +:+ EncodeToString raw)
   | None => Err (mkFailure ErrRandom None)
   end).
Definition HashClaimToken (token : string) : string := hexSum256 token.

Definition validateClaimToken (d : Decision) (token : string) : result DecisionError Claim :=
  match d_Claim d with
  | Some c =>
      guard_err (String.eqb (d_State d) StateClaimed) ErrNotClaimed;;
      guard_err (negb (blank token)) ErrTokenRequired;;
      guard_err (String.eqb (HashClaimToken token) (cm_TokenHash c)) ErrTokenInvalid;;
      mret c
  | None => Err ErrNotClaimed
  end.
Definition validateClaim (d : Decision) (token : string) (now : Time) : result DecisionError () :=
  c ← validateClaimToken d token;
  guard_err (Before now (cm_ExpiresAt c)) ErrTokenExpired.
(** [if err := ...; err != nil { return RedactDecision(d), err }] *)
Definition checkD {A} (r : result DecisionError A) (d : Decision) : DM A :=
  match r with Ok a => mret a | Err e => failD e d end.

Definition expiredDecision (d : Decision) (now : Time) : bool :=
  negb (DecisionTerminal (d_State d)) && negb (IsZero (d_TimeoutAt d))
  && negb (Before now (d_TimeoutAt d)).

(** The assignments every transition makes: state, no claim or the given one,
    the next revision and the time. *)
Definition moveTo (state : string) (claim : option Claim) (now : Time) (d : Decision) : Decision :=
  d <| d_State := state |> <| d_Claim := claim |> <| d_Revision ::= int_succ |> <| d_UpdatedAt := now |>.

Definition decisionLocked (id : string) : DM Decision :=
  let id := TrimSpace id in
  guardE (negb (String.eqb id "")) ErrIDRequired;;
  s ← get_state;
  readDecision (decisionPath (st_root s) id).
Definition save (d : Decision) : DM () :=
  s ← get_state; writeDecision (decisionPath (st_root s) (d_ID d)) d.

Definition timeoutDecisionLocked (d : Decision) (now : Time) : DM Decision :=
  let d := moveTo StateTimedOut None now d in save d;; mret d.
(** The check of the decision's own timeout in front of an operation. *)
Definition refuseExpired (d : Decision) (now : Time) : DM () :=
  if expiredDecision d now
  then d ← timeoutDecisionLocked d now; failD ErrTimedOut d
  else mret tt.

(** ** Decisions *)

(** What is stored for a proposed decision, beside the one it replaces. *)
Definition updateOf (existing d : Decision) : Decision :=
  d <| d_CreatedAt := d_CreatedAt existing |>
    <| d_Revision ::= λ r, if r <=? d_Revision existing then int_succ (d_Revision existing) else r |>.
Definition storedForm (now : Time) (d : Decision) : Decision :=
  Decision_Normalize now d <| d_Preview ::= RedactPreview |> <| d_Risk ::= RedactDetails |>
    <| d_ProposedAction ::= RedactDetails |>.
Definition CreateOrUpdateDecision (d : Decision) : DM Decision := locked (
  now ← now_;
  existing ← attempt (decisionLocked (d_ID d));
  d ← match existing with
      | Ok e => mret (updateOf e d)
      | Err (mkFailure ErrNotExist _) => mret d
      | Err f => fail f
      end;
  let d := storedForm now d in
  match ValidateDecision d with Ok _ => mret tt | Err e => failE e end;;
  save d;;
  mret (RedactDecision d)).

Definition RawDecision (id : string) : DM Decision := decisionLocked id.
Definition GetDecision (id : string) : DM Decision :=
  d ← decisionLocked id; mret (RedactDecision d).

Definition decisionMatches (d : Decision) (f : ListFilter) : bool :=
  let fits want got := String.eqb want "" || String.eqb got want in
  fits (lf_Kind f) (d_Kind d) && fits (lf_State f) (d_State d)
  && fits (lf_Profile f) (so_Profile (d_Source d)) && fits (lf_Session f) (so_Session (d_Source d))
  && (lf_IncludeTerminal f || negb (DecisionTerminal (d_State d))).

Fixpoint collectDecisions (f : ListFilter) (dir : string) (names : list string) : DM (list Decision) :=
  match names with
  | [] => mret []
  | name :: names =>
      d ← readDecision (Join dir name);
      rest ← collectDecisions f dir names;
      mret (if decisionMatches d f then RedactDecision d :: rest else rest)
  end.
Definition Decisions (f : ListFilter) : DM (list Decision) :=
  s ← get_state;
  io;;
  let dir := decisionsDir (st_root s) in
  out ← collectDecisions f dir (entriesOf dir (st_decisions s));
  mret (sort_by d_ID out).

(** The [switch] on the state of a decision to be claimed: whether the claim
    takes an expired one over. *)
Definition claimable (d : Decision) (opts : ClaimOptions) (now : Time) : result DecisionError bool :=
  if String.eqb (d_State d) StatePending
  then guard_err (negb (co_TakeoverExpired opts)) ErrNoExpiredClaim;; mret false
  else match d_Claim d with
  | Some c =>
      if String.eqb (d_State d) StateClaimed && negb (Before now (cm_ExpiresAt c))
      then guard_err (co_TakeoverExpired opts) ErrClaimLeaseExpired;;
           guard_err (negb (co_ExpectedRevision opts <=? 0)) ErrTakeoverRevision;;
           mret true
      else Err ErrDecisionState
  | None => Err ErrDecisionState
  end.

Definition ClaimDecisionWithOptions (id : string) (opts : ClaimOptions) : DM (ClaimResponse * Decision) :=
  locked (
  now ← now_;
  let lease := if co_Lease opts <=? 0 then DefaultClaimLease else co_Lease opts in
  guardE (negb ((lease <? MinClaimLease) || (MaxClaimLease <? lease))) ErrLeaseRange;;
  d ← decisionLocked id;
  guardD (negb ((0 <? co_ExpectedRevision opts) && negb (d_Revision d =? co_ExpectedRevision opts)))
    ErrRevisionChanged d;;
  refuseExpired d now;;
  takeover ← checkD (claimable d opts now) d;
  token ← newClaimToken;
  let surface := orDefault (TrimSpace (co_Surface opts)) "manager-client" in
  let claim := mkClaim surface (TrimSpace (co_Operator opts)) now (AddDur now lease) (HashClaimToken token) in
  let d := moveTo StateClaimed (Some claim) now d in
  save d;;
  mret (mkClaimResponse (d_ID d) (d_State d) token surface now (AddDur now lease) (Z.quot lease Second)
          takeover (d_Revision d), RedactDecision d)).

Definition ClaimDecision (id surface : string) (lease : Z) : DM (ClaimResponse * Decision) :=
  ClaimDecisionWithOptions id (mkClaimOptions surface "" lease 0 false).

Definition claimRelease (d : Decision) (previous : Claim) (releasedAt : Time) (reason : string)
    (expired : bool) : ClaimRelease :=
  mkClaimRelease (d_ID d) (d_State d) (RedactString (orDefault (TrimSpace reason) "client released claim"))
    releasedAt (RedactString (cm_Surface previous)) (cm_ClaimedAt previous) (cm_ExpiresAt previous)
    expired (d_Revision d).

Definition ReleaseDecisionClaim (id token : string) (expectedRevision : Z) (reason : string) :
    DM (ClaimRelease * Decision) := locked (
  now ← now_;
  d ← decisionLocked id;
  refuseExpired d now;;
  guardD (negb ((0 <? expectedRevision) && negb (d_Revision d =? expectedRevision))) ErrRevisionChanged d;;
  previous ← checkD (validateClaimToken d token) d;
  let d := moveTo StatePending None now d in
  checkD (ValidateDecision d) d;;
  save d;;
  mret (claimRelease d previous now reason (negb (Before now (cm_ExpiresAt previous))), RedactDecision d)).

Definition ResolveDecision (id token state decision reason : string) (providerResult : Details) :
    DM (Resolution * Decision) := locked (
  now ← now_;
  d ← decisionLocked id;
  refuseExpired d now;;
  checkD (validateClaim d token now) d;;
  guardD (DecisionTerminal state) ErrNotTerminal d;;
  let d := moveTo state None now d in
  save d;;
  mret (RedactResolution (mkResolution (d_ID d) (d_Kind d) state decision reason providerResult
          (d_AuditRef d) (d_Revision d)), RedactDecision d)).

Definition RevokeGrantedDecision (id expectedKind reason : string) : DM (Resolution * Decision) := locked (
  d ← decisionLocked id;
  guardD (String.eqb (d_Kind d) expectedKind && String.eqb (d_State d) StateApproved) ErrNotGrant d;;
  now ← now_;
  let d := moveTo StateDenied None now d in
  save d;;
  mret (RedactResolution (mkResolution (d_ID d) (d_Kind d) (d_State d) ActionRevoke reason []
          (d_AuditRef d) (d_Revision d)), RedactDecision d)).

Definition InvalidateProviderDecision (id expectedKind reason : string) : DM (Resolution * Decision) :=
  locked (
  d ← decisionLocked id;
  guardD (String.eqb (d_Kind d) expectedKind) ErrProviderKind d;;
  if negb (among (d_State d) [StatePending; StateClaimed; StateApproved])
  then mret (RedactResolution (mkResolution (d_ID d) (d_Kind d) (d_State d) "unchanged" reason []
               (d_AuditRef d) (d_Revision d)), RedactDecision d)
  else
    now ← now_;
    let d := moveTo StateStale None now d in
    save d;;
    mret (RedactResolution (mkResolution (d_ID d) (d_Kind d) (d_State d) "invalidate" reason []
            (d_AuditRef d) (d_Revision d)), RedactDecision d)).

Definition ReopenProviderDecision (id expectedKind : string) (timeout : Z) (reason : string) :
    DM (Resolution * Decision) := locked (
  guardE (negb (timeout <=? 0)) ErrReopenTimeout;;
  d ← decisionLocked id;
  guardD (String.eqb (d_Kind d) expectedKind) ErrProviderKind d;;
  guardD (among (d_State d) [StateDenied; StateTimedOut]) ErrNotReopenable d;;
  now ← now_;
  let d := moveTo StatePending None now d <| d_TimeoutAt := AddDur now timeout |> in
  checkD (ValidateDecision d) d;;
  save d;;
  mret (RedactResolution (mkResolution (d_ID d) (d_Kind d) StatePending ActionReopen reason []
          (d_AuditRef d) (d_Revision d)), RedactDecision d)).

(** [m[k] = v] *)
Definition setDetail (k : string) (v : Value) (m : Details) : Details :=
  List.filter (λ e, negb (String.eqb (fst e) k)) m ++ [(k, v)].

Definition FailAppliedProviderDecision (id expectedKind : string) : DM Decision := locked (
  d ← decisionLocked id;
  guardD (String.eqb (d_Kind d) expectedKind && String.eqb (d_State d) StateApplied) ErrNotApplied d;;
  now ← now_;
  let d := moveTo StateFailed None now d
             <| d_Preview ::= (λ p, p <| pv_Facts ::= setDetail "activation" (VString "failed") |>) |> in
  checkD (ValidateDecision d) d;;
  save d;;
  mret (RedactDecision d)).

Definition ValidateDecisionClaim (id token : string) : DM Decision := locked (
  now ← now_;
  d ← decisionLocked id;
  refuseExpired d now;;
  checkD (validateClaim d token now) d;;
  mret (RedactDecision d)).

(** ** Sweeps *)

Fixpoint releaseEach (now : Time) (dir : string) (names : list string) :
    DM (list (ClaimRelease * Decision)) :=
  match names with
  | [] => mret []
  | name :: names =>
      d ← readDecision (Join dir name);
      match d_Claim d with
      | Some previous =>
          if negb (String.eqb (d_State d) StateClaimed) || Before now (cm_ExpiresAt previous)
             || expiredDecision d now
          then releaseEach now dir names
          else
            let d := moveTo StatePending None now d in
            match ValidateDecision d with Ok _ => mret tt | Err e => failE e end;;
            writeDecision (Join dir name) d;;
            rest ← releaseEach now dir names;
            mret ((claimRelease d previous now "claim lease expired" true, RedactDecision d) :: rest)
      | None => releaseEach now dir names
      end
  end.
Definition ReleaseExpiredClaims (at_ : Time) : DM (list (ClaimRelease * Decision)) := locked (
  now ← (if IsZero at_ then now_ else mret (UTC at_));
  s ← get_state;
  io;;
  let dir := decisionsDir (st_root s) in
  releaseEach now dir (entriesOf dir (st_decisions s))).

Fixpoint timeoutEach (now : Time) (dir : string) (names : list string) : DM (list Decision) :=
  match names with
  | [] => mret []
  | name :: names =>
      d ← readDecision (Join dir name);
      if negb (expiredDecision d now) then timeoutEach now dir names
      else
        d ← timeoutDecisionLocked d now;
        rest ← timeoutEach now dir names;
        mret (RedactDecision d :: rest)
  end.
Definition TimeoutExpiredDecisions (at_ : Time) : DM (list Decision) := locked (
  now ← (if IsZero at_ then now_ else mret at_);
  s ← get_state;
  io;;
  let dir := decisionsDir (st_root s) in
  timeoutEach now dir (entriesOf dir (st_decisions s))).
Definition TimeoutExpired (at_ : Time) : DM Z :=
  timedOut ← TimeoutExpiredDecisions at_; mret (Z.of_nat (length timedOut)).

(** ** Notices *)

Definition noticeLocked (id : string) : DM Notice :=
  let id := TrimSpace id in
  guardE (negb (String.eqb id "")) ErrIDRequired;;
  s ← get_state;
  readNotice (noticePath (st_root s) id).
Definition saveNotice (n : Notice) : DM () :=
  s ← get_state; writeNotice (noticePath (st_root s) (n_ID n)) n.

Definition CreateOrUpdateNotice (n : Notice) : DM Notice := locked (
  now ← now_;
  existing ← attempt (noticeLocked (n_ID n));
  n ← match existing with
      | Ok e =>
          let n := n <| n_CreatedAt := n_CreatedAt e |>
                     <| n_Revision ::= λ r, if r <=? n_Revision e then int_succ (n_Revision e) else r |> in
          mret (if negb (n_Acknowledged n) && n_Acknowledged e
                then n <| n_Acknowledged := true |> <| n_AcknowledgedBy := n_AcknowledgedBy e |>
                       <| n_AcknowledgedAt := n_AcknowledgedAt e |>
                else n)
      | Err (mkFailure ErrNotExist _) => mret n
      | Err f => fail f
      end;
  let n := Notice_Normalize now n in
  let n := n <| n_Preview ::= RedactPreview |> <| n_Payload ::= RedactDetails |> in
  match ValidateNotice n with Ok _ => mret tt | Err e => failE e end;;
  saveNotice n;;
  mret (RedactNotice n)).

Definition GetNotice (id : string) : DM Notice := n ← noticeLocked id; mret (RedactNotice n).

Definition noticeMatches (n : Notice) (f : ListFilter) : bool :=
  let fits want got := String.eqb want "" || String.eqb got want in
  fits (lf_Kind f) (n_Kind n) && fits (lf_Profile f) (so_Profile (n_Source n))
  && fits (lf_Session f) (so_Session (n_Source n)) && fits (lf_Severity f) (n_Severity n).

Fixpoint collectNotices (f : ListFilter) (dir : string) (names : list string) : DM (list Notice) :=
  match names with
  | [] => mret []
  | name :: names =>
      n ← readNotice (Join dir name);
      rest ← collectNotices f dir names;
      mret (if noticeMatches n f then RedactNotice n :: rest else rest)
  end.
Definition Notices (f : ListFilter) : DM (list Notice) :=
  s ← get_state;
  io;;
  let dir := noticesDir (st_root s) in
  out ← collectNotices f dir (entriesOf dir (st_notices s));
  mret (sort_by n_ID out).

Definition AckNotice (id surface : string) : DM (Acknowledgement * Notice) := locked (
  now ← now_;
  n ← noticeLocked id;
  let surface := if blank surface then "manager-client" else surface in
  let n := n <| n_Acknowledged := true |> <| n_AcknowledgedBy := surface |> <| n_AcknowledgedAt := now |>
             <| n_Revision ::= int_succ |> <| n_UpdatedAt := now |> in
  saveNotice n;;
  mret (mkAck (n_ID n) surface now (n_AuditRef n) (n_Revision n), RedactNotice n)).
