(* ===== verification/DecisionSpec.v ===== *)
(** * What the decision store guarantees

    The moves a decision can make, each with the condition under which an
    operation makes it ([Move]); that every operation of the store makes only
    these moves; and what follows from them: the authority of the claim token,
    the protection of a claim, the validity of every stored decision and the
    completeness of the time-out sweep. *)
From S2P Require Import Prelude GoStrings GoTime GoHash GoPath Redact Decision DecisionStore.
Open Scope Z_scope.

(** ** Operations as steps *)

Inductive Op :=
  | OpCreate (d : Decision)
  | OpClaim (id : string) (opts : ClaimOptions)
  | OpRelease (id token : string) (expectedRevision : Z) (reason : string)
  | OpResolve (id token state decision reason : string) (providerResult : Details)
  | OpRevoke (id kind reason : string)
  | OpInvalidate (id kind reason : string)
  | OpReopen (id kind : string) (timeout : Z) (reason : string)
  | OpFail (id kind : string)
  | OpValidateClaim (id token : string)
  | OpReleaseExpired (at_ : Time)
  | OpTimeoutExpired (at_ : Time)
  | OpNotice (n : Notice)
  | OpAck (id surface : string).

Definition exec (op : Op) (s : Store) : Store :=
  match op with
  | OpCreate d => (CreateOrUpdateDecision d s).1
  | OpClaim id opts => (ClaimDecisionWithOptions id opts s).1
  | OpRelease id token rev reason => (ReleaseDecisionClaim id token rev reason s).1
  | OpResolve id token state decision reason result =>
      (ResolveDecision id token state decision reason result s).1
  | OpRevoke id kind reason => (RevokeGrantedDecision id kind reason s).1
  | OpInvalidate id kind reason => (InvalidateProviderDecision id kind reason s).1
  | OpReopen id kind timeout reason => (ReopenProviderDecision id kind timeout reason s).1
  | OpFail id kind => (FailAppliedProviderDecision id kind s).1
  | OpValidateClaim id token => (ValidateDecisionClaim id token s).1
  | OpReleaseExpired at_ => (ReleaseExpiredClaims at_ s).1
  | OpTimeoutExpired at_ => (TimeoutExpiredDecisions at_ s).1
  | OpNotice n => (CreateOrUpdateNotice n s).1
  | OpAck id surface => (AckNotice id surface s).1
  end.

(** The time an operation runs at: its one reading of the clock, or the time
    its caller gives. *)
Definition opNow (op : Op) (s : Store) : Time :=
  let clock := UTC (st_clock s (st_reads s)) in
  match op with
  | OpReleaseExpired at_ => if IsZero at_ then clock else UTC at_
  | OpTimeoutExpired at_ => if IsZero at_ then clock else at_
  | _ => clock
  end.

(** ** The moves of a decision *)

Inductive Move (op : Op) (now : Time) (d : Decision) : Decision → Prop :=
  | MoveUpdate d0 :
      op = OpCreate d0 → ValidateDecision (storedForm now (updateOf d d0)) = Ok tt →
      Move op now d (storedForm now (updateOf d d0))
  | MoveTimeout :
      expiredDecision d now = true → Move op now d (moveTo StateTimedOut None now d)
  | MoveClaim id opts takeover lease claim token :
      op = OpClaim id opts → expiredDecision d now = false →
      claimable d opts now = Ok takeover →
      (0 < co_ExpectedRevision opts → d_Revision d = co_ExpectedRevision opts) →
      MinClaimLease ≤ lease ≤ MaxClaimLease →
      cm_ClaimedAt claim = now → cm_ExpiresAt claim = AddDur now lease →
      blank (cm_Surface claim) = false → cm_TokenHash claim = HashClaimToken token →
      Move op now d (moveTo StateClaimed (Some claim) now d)
  | MoveRelease id token rev reason claim :
      op = OpRelease id token rev reason → expiredDecision d now = false →
      validateClaimToken d token = Ok claim →
      Move op now d (moveTo StatePending None now d)
  | MoveLapse at_ claim :
      op = OpReleaseExpired at_ → expiredDecision d now = false → d_State d = StateClaimed →
      d_Claim d = Some claim → Before now (cm_ExpiresAt claim) = false →
      Move op now d (moveTo StatePending None now d)
  | MoveResolve id token state decision reason result :
      op = OpResolve id token state decision reason result → expiredDecision d now = false →
      validateClaim d token now = Ok tt → DecisionTerminal state = true →
      Move op now d (moveTo state None now d)
  | MoveRevoke id reason :
      op = OpRevoke id (d_Kind d) reason → d_State d = StateApproved →
      Move op now d (moveTo StateDenied None now d)
  | MoveInvalidate id reason :
      op = OpInvalidate id (d_Kind d) reason →
      among (d_State d) [StatePending; StateClaimed; StateApproved] = true →
      Move op now d (moveTo StateStale None now d)
  | MoveReopen id timeout reason :
      op = OpReopen id (d_Kind d) timeout reason → 0 < timeout →
      among (d_State d) [StateDenied; StateTimedOut] = true →
      Move op now d (moveTo StatePending None now d <| d_TimeoutAt := AddDur now timeout |>)
  | MoveFail id :
      op = OpFail id (d_Kind d) → d_State d = StateApplied →
      Move op now d (moveTo StateFailed None now d
        <| d_Preview ::= (λ p, p <| pv_Facts ::= setDetail "activation" (VString "failed") |>) |>).

(** ** Running an operation

    What an operation sees of the store: the files, the root and the clock.
    [wp m v Q] says that [m], started on any store with the view [v], whatever
    the outcomes of its file operations and its random bytes, ends in a view and
    a result that satisfy [Q].  The rules run an operation statement by
    statement. *)

Record View := mkView {
  v_root : string; v_decisions : gmap string Decision; v_notices : gmap string Notice;
  v_clock : nat → Time; v_reads : nat }.
#[global] Instance View_eta : Eta View := λ v,
  mkView (v_root v) (v_decisions v) (v_notices v) (v_clock v) (v_reads v).
Definition view (s : Store) : View :=
  mkView (st_root s) (st_decisions s) (st_notices s) (st_clock s) (st_reads s).

(** The view after a write and after a reading of the clock. *)
Definition filedAt (p : string) (d : Decision) (v : View) : View := v <| v_decisions ::= <[p := d]> |>.
Definition tick (v : View) : View := v <| v_reads ::= S |>.

Definition wp {A} (m : DM A) (v : View) (Q : View → result Failure A → Prop) : Prop :=
  ∀ s, view s = v → Q (view (m s).1) (m s).2.

Section rules.
Context {A : Type}.
Implicit Types (v : View) (Q : View → result Failure A → Prop).

Lemma wp_mono (m : DM A) v Q Q' : wp m v Q → (∀ v' r, Q v' r → Q' v' r) → wp m v Q'.
Proof. intros H HQ s Hs. apply HQ, H, Hs. Qed.
Lemma wp_ret (a : A) v Q : Q v (Ok a) → wp (mret a) v Q.
Proof. intros H s <-. exact H. Qed.
Lemma wp_lift (r : result Failure A) v Q : Q v r → wp (lift r) v Q.
Proof. intros H s <-. exact H. Qed.
Lemma wp_fail f v Q : Q v (Err f) → wp (fail f) v Q.
Proof. intros H s <-. exact H. Qed.
Lemma wp_failE e v Q : Q v (Err (mkFailure e None)) → wp (failE e) v Q.
Proof. apply wp_fail. Qed.
Lemma wp_failD e d v Q : Q v (Err (mkFailure e (Some (RedactDecision d)))) → wp (failD e d) v Q.
Proof. apply wp_fail. Qed.
Lemma wp_checkD (r : result DecisionError A) d v Q :
  (∀ a, r = Ok a → Q v (Ok a)) → (∀ f, Q v (Err f)) → wp (checkD r d) v Q.
Proof. intros H1 H2. destruct r; [by apply wp_ret, H1|by apply wp_failD]. Qed.

Lemma wp_bind {B} (m : DM B) (f : B → DM A) v Q :
  wp m v (λ v' r, match r with Ok b => wp (f b) v' Q | Err e => Q v' (Err e) end) → wp (m ≫= f) v Q.
Proof.
  intros H s Hs. specialize (H s Hs). unfold mbind, SE_bind.
  destruct (m s) as [s' [b|e]]; [exact (H s' eq_refl)|exact H].
Qed.
Lemma wp_attempt (m : DM A) v (Q : View → result Failure (result Failure A) → Prop) :
  wp m v (λ v' r, Q v' (Ok r)) → wp (attempt m) v Q.
Proof. intros H s Hs. exact (H s Hs). Qed.
End rules.

Lemma wp_io v (Q : View → result Failure () → Prop) :
  Q v (Ok tt) → Q v (Err (mkFailure ErrIO None)) → wp io v Q.
Proof. intros H1 H2 s <-. unfold io. simpl. by destruct (st_io s (st_ios s)). Qed.
Lemma wp_now v (Q : View → result Failure Time → Prop) :
  Q (tick v) (Ok (UTC (v_clock v (v_reads v)))) → wp now_ v Q.
Proof. intros H s <-. exact H. Qed.
Lemma wp_get v (Q : View → result Failure Store → Prop) :
  (∀ s, view s = v → Q v (Ok s)) → wp get_state v Q.
Proof. intros H s Hs. simpl. rewrite Hs. by apply H. Qed.
Lemma wp_token v (Q : View → result Failure string → Prop) : (∀ r, Q v r) → wp newClaimToken v Q.
Proof. intros H s <-. apply H. Qed.
Lemma wp_guardE b e v (Q : View → result Failure () → Prop) :
  (b = true → Q v (Ok tt)) → (b = false → Q v (Err (mkFailure e None))) → wp (guardE b e) v Q.
Proof. intros H1 H2. destruct b; [by apply wp_ret, H1|by apply wp_failE, H2]. Qed.
Lemma wp_guardD b e d v (Q : View → result Failure () → Prop) :
  (b = true → Q v (Ok tt)) → (∀ f, Q v (Err f)) → wp (guardD b e d) v Q.
Proof. intros H1 H2. destruct b; [by apply wp_ret, H1|by apply wp_failD]. Qed.

Lemma wp_readDecision path v (Q : View → result Failure Decision → Prop) :
  (∀ d, v_decisions v !! path = Some d → Q v (Ok d)) →
  (∀ f, (f_error f = ErrNotExist → v_decisions v !! path = None) → Q v (Err f)) →
  wp (readDecision path) v Q.
Proof.
  intros H1 H2. apply wp_bind, wp_io; [|by apply H2]. apply wp_bind, wp_get. intros s <-.
  change (st_decisions s) with (v_decisions (view s)).
  destruct (v_decisions (view s) !! path) as [d|] eqn:E; [by apply wp_ret, H1|by apply wp_failE, H2].
Qed.
Lemma wp_writeDecision path d v (Q : View → result Failure () → Prop) :
  Q (filedAt path d v) (Ok tt) → (∀ f, Q v (Err f)) → wp (writeDecision path d) v Q.
Proof. intros H1 H2. apply wp_bind, wp_io; [|apply H2]. intros s <-. exact H1. Qed.

Lemma wp_decisionLocked id v (Q : View → result Failure Decision → Prop) :
  (∀ d, v_decisions v !! decisionPath (v_root v) (TrimSpace id) = Some d → Q v (Ok d)) →
  (∀ f, (f_error f = ErrNotExist →
      v_decisions v !! decisionPath (v_root v) (TrimSpace id) = None) → Q v (Err f)) →
  wp (decisionLocked id) v Q.
Proof.
  intros H1 H2. apply wp_bind, wp_guardE; [intros _|intros _; by apply H2].
  apply wp_bind, wp_get. intros s <-. by apply wp_readDecision.
Qed.
Lemma wp_save d v (Q : View → result Failure () → Prop) :
  Q (filedAt (decisionPath (v_root v) (d_ID d)) d v) (Ok tt) →
  (∀ f, Q v (Err f)) → wp (save d) v Q.
Proof. intros H1 H2. apply wp_bind, wp_get. intros s <-. by apply wp_writeDecision. Qed.

(** The lock changes nothing in the view; a failing unlock turns a result into
    an error. *)
Lemma wp_locked {A} (m : DM A) v (Q : View → result Failure A → Prop) :
  wp m v (λ v' r, Q v' r ∧ ∀ f, Q v' (Err f)) → (∀ f, Q v (Err f)) → wp (locked m) v Q.
Proof.
  intros H1 H2. apply wp_bind, wp_get. intros s <-. apply wp_bind, wp_guardE; [|intros _; apply H2].
  intros _. apply wp_bind, wp_io; [|apply H2]. apply wp_bind, wp_attempt. eapply wp_mono; [exact H1|].
  intros v' r [Hr Hf]. apply wp_bind, wp_attempt, wp_io; destruct r; by apply wp_lift.
Qed.

Lemma wp_locked_view {A} (m : DM A) v (P : View → Prop) :
  wp m v (λ v' _, P v') → P v → wp (locked m) v (λ v' _, P v').
Proof. intros H1 H2. apply wp_locked; [|done]. eapply wp_mono; [exact H1|done]. Qed.

Lemma wp_refuseExpired d now v (Q : View → result Failure () → Prop) :
  (expiredDecision d now = false → Q v (Ok tt)) →
  (expiredDecision d now = true →
     ∀ f, let d' := moveTo StateTimedOut None now d in
     Q (filedAt (decisionPath (v_root v) (d_ID d')) d' v) (Err f)) →
  (∀ f, Q v (Err f)) →
  wp (refuseExpired d now) v Q.
Proof.
  intros H1 H2 H3. unfold refuseExpired. destruct (expiredDecision d now); [|by apply wp_ret, H1].
  apply wp_bind, wp_bind, wp_save; [|done]. apply wp_ret, wp_failD. by apply H2.
Qed.

Lemma wp_valid d v (Q : View → result Failure () → Prop) :
  (ValidateDecision d = Ok tt → Q v (Ok tt)) → (∀ f, Q v (Err f)) →
  wp (match ValidateDecision d with Ok _ => mret tt | Err e => failE e end) v Q.
Proof. intros H1 H2. destruct (ValidateDecision d) as [[]|e]; [by apply wp_ret, H1|by apply wp_failE]. Qed.

(** One rule for the head of an operation. *)
Ltac wp_step :=
  lazymatch goal with
  | |- wp (mbind _ _) _ _ => apply wp_bind
  | |- wp (mret _) _ _ => apply wp_ret
  | |- wp (locked _) _ _ => apply wp_locked_view
  | |- wp (decisionLocked _) _ _ => apply wp_decisionLocked; [intros ? ?|intros ? _]
  | |- wp (refuseExpired _ _) _ _ => apply wp_refuseExpired; [intros ?|intros ? ?|intros ?]
  | |- wp (checkD _ _) _ _ => apply wp_checkD; [intros ? ?|intros ?]
  | |- wp (guardD _ _ _) _ _ => apply wp_guardD; [intros ?|intros ?]
  | |- wp (guardE _ _) _ _ => apply wp_guardE; [intros ?|intros ?]
  | |- wp (save _) _ _ => apply wp_save; [|intros ?]
  | |- wp now_ _ _ => apply wp_now
  | |- wp newClaimToken _ _ => apply wp_token; intros [?|?]
  | |- wp io _ _ => apply wp_io
  end.

(** ** One decision moves, or nothing *)

(** The file an operation is about; a sweep is about every file. *)
Definition target (op : Op) (root p : string) : Prop :=
  match op with
  | OpCreate d => p = decisionPath root (TrimSpace (d_ID d))
  | OpClaim id _ | OpRelease id _ _ _ | OpResolve id _ _ _ _ _ | OpRevoke id _ _
  | OpInvalidate id _ _ | OpReopen id _ _ _ | OpFail id _ | OpValidateClaim id _ =>
      p = decisionPath root (TrimSpace id)
  | OpReleaseExpired _ | OpTimeoutExpired _ => True
  | OpNotice _ | OpAck _ _ => False
  end.


(** What an operation may do to a file: move the decision in it, or create it. *)
Definition Change (op : Op) (now : Time) (o o' : option Decision) : Prop :=
  (∃ d d', o = Some d ∧ o' = Some d' ∧ Move op now d d') ∨
  (∃ d0 d', o = None ∧ op = OpCreate d0 ∧ d' = storedForm now d0 ∧ ValidateDecision d' = Ok tt ∧ o' = Some d').
Definition changes (op : Op) (now : Time) (root : string) (ds ds' : gmap string Decision) : Prop :=
  ∀ p, ds' !! p = ds !! p ∨ (target op root p ∧ Change op now (ds !! p) (ds' !! p)).

Lemma changes_refl op now root ds : changes op now root ds ds.
Proof. intros p. by left. Qed.
Lemma changes_insert op now root ds p d' :
  target op root p → Change op now (ds !! p) (Some d') → changes op now root ds (<[p := d']> ds).
Proof.
  intros Ht Hc q. destruct (decide (p = q)) as [<-|]; [by right; rewrite lookup_insert_eq|].
  left. by rewrite lookup_insert_ne.
Qed.

(** Every decision is stored under the path of its own identifier. *)
Definition filed (root : string) (ds : gmap string Decision) : Prop :=
  ∀ p d, ds !! p = Some d → p = decisionPath root (d_ID d).



Section single.
Context (v : View) (Hfiled : filed (v_root v) (v_decisions v)).
Let now := UTC (v_clock v (v_reads v)).

(** Saving the moved decision where it was read. *)
Lemma save_changes op id d d' :
  v_decisions v !! decisionPath (v_root v) (TrimSpace id) = Some d →
  d_ID d' = d_ID d → target op (v_root v) (decisionPath (v_root v) (TrimSpace id)) →
  Move op now d d' →
  changes op now (v_root v) (v_decisions v)
    (<[decisionPath (v_root v) (d_ID d') := d']> (v_decisions v)).
Proof.
  intros Hd Hid Ht Hm. rewrite Hid, <-(Hfiled _ _ Hd).
  apply changes_insert; [done|rewrite Hd; left; eauto].
Qed.

(** The end of a path through an operation: nothing written, or one decision
    moved. *)
Ltac settle := intros;
  lazymatch goal with
  | H : _ !! _ = Some ?d |- changes _ _ _ _ (v_decisions (filedAt _ _ _)) =>
      eapply (save_changes _ _ d); [exact H|exact eq_refl|exact eq_refl|]
  | |- changes _ _ _ _ _ => apply changes_refl
  end.

Definition changed {A} (op : Op) (m : DM A) : Prop :=
  wp m v (λ v' _, changes op now (v_root v) (v_decisions v) (v_decisions v')).

Lemma resolve_changes id token state decision reason result :
  changed (OpResolve id token state decision reason result) (ResolveDecision id token state decision reason result).
Proof.
  unfold changed, ResolveDecision.
  repeat wp_step; settle; [destruct a; by eapply MoveResolve|by apply MoveTimeout].
Qed.
Lemma release_changes id token rev reason :
  changed (OpRelease id token rev reason) (ReleaseDecisionClaim id token rev reason).
Proof.
  unfold changed, ReleaseDecisionClaim.
  repeat wp_step; settle; [by eapply MoveRelease|by apply MoveTimeout].
Qed.
Lemma validate_changes id token : changed (OpValidateClaim id token) (ValidateDecisionClaim id token).
Proof. unfold changed, ValidateDecisionClaim. repeat wp_step; settle. by apply MoveTimeout. Qed.
Lemma revoke_changes id kind reason :
  changed (OpRevoke id kind reason) (RevokeGrantedDecision id kind reason).
Proof.
  unfold changed, RevokeGrantedDecision. repeat wp_step; settle. bool_prop. subst. by eapply MoveRevoke.
Qed.
Lemma invalidate_changes id kind reason :
  changed (OpInvalidate id kind reason) (InvalidateProviderDecision id kind reason).
Proof.
  unfold changed, InvalidateProviderDecision. repeat wp_step; try settle.
  destruct among eqn:Ha; simpl; repeat wp_step; settle. bool_prop. subst. by eapply MoveInvalidate.
Qed.
Lemma reopen_changes id kind timeout reason :
  changed (OpReopen id kind timeout reason) (ReopenProviderDecision id kind timeout reason).
Proof.
  unfold changed, ReopenProviderDecision. repeat wp_step; settle. bool_prop. subst.
  eapply MoveReopen; [done|lia|done].
Qed.
Lemma fail_changes id kind :
  changed (OpFail id kind) (FailAppliedProviderDecision id kind).
Proof.
  unfold changed, FailAppliedProviderDecision. repeat wp_step; settle. bool_prop. subst. by eapply MoveFail.
Qed.
Lemma claim_changes id opts :
  changed (OpClaim id opts) (ClaimDecisionWithOptions id opts).
Proof.
  unfold changed, ClaimDecisionWithOptions. repeat wp_step; settle; [|by apply MoveTimeout].
  eapply (MoveClaim _ _ _ _ _ _ (if co_Lease opts <=? 0 then DefaultClaimLease else co_Lease opts));
    try done; [bool_prop; lia|bool_prop; lia|].
  simpl. unfold orDefault. destruct (String.eqb_spec (TrimSpace (co_Surface opts)) "") as [|Hs]; [done|].
  unfold blank. rewrite TrimSpace_idem. by apply String.eqb_neq.
Qed.

Lemma create_changes d : changed (OpCreate d) (CreateOrUpdateDecision d).
Proof.
  unfold changed, CreateOrUpdateDecision. wp_step; [|settle]. wp_step; wp_step. wp_step. apply wp_attempt.
  apply wp_decisionLocked; [intros e He|intros [e od] Hd].
  - repeat wp_step. apply wp_valid; [intros Hv|intros; settle]. repeat wp_step; [|settle].
    apply changes_insert; [exact eq_refl|]. left. exists e. eexists. split; [exact He|]. 
    split; [done|]. by eapply MoveUpdate.
  - wp_step. destruct e; try (apply wp_fail; settle).
    repeat wp_step. apply wp_valid; [intros Hv|intros; settle]. repeat wp_step; [|settle].
    apply changes_insert; [exact eq_refl|]. right. exists d. eexists. split; [exact (Hd eq_refl)|]. 
    by split_and!.
Qed.
End single.

(** ** The sweeps *)

Definition sweeps (op : Op) : Prop :=
  match op with OpReleaseExpired _ | OpTimeoutExpired _ => True | _ => False end.

(** A sweep moves a decision at most once. *)
Lemma sweep_once op now d d' d'' : sweeps op → Move op now d d' → ¬ Move op now d' d''.
Proof.
  intros Hop M1 M2. destruct M1; try (subst op; destruct Hop); destruct M2; try discriminate;
    subst; try destruct Hop.
  unfold expiredDecision in *. rewrite H1 in *. simpl in *. congruence.
Qed.
Lemma sweep_trans op now root ds1 ds2 ds3 :
  sweeps op → changes op now root ds1 ds2 → changes op now root ds2 ds3 → changes op now root ds1 ds3.
Proof.
  intros Hop H1 H2 p. destruct (H1 p) as [E1|[T1 C1]], (H2 p) as [E2|[T2 C2]].
  - left. by rewrite E2.
  - right. by rewrite <-E1.
  - right. by rewrite E2.
  - destruct C1 as [(d&d'&E1&E1'&M1)|(?&?&?&->&_)]; [|done].
    destruct C2 as [(d1&d''&E2&E2'&M2)|(?&?&?&->&_)]; [|done].
    simplify_eq. by destruct (sweep_once _ _ _ _ _ Hop M1 M2).
Qed.

Lemma filed_insert root ds d : filed root ds → filed root (<[decisionPath root (d_ID d) := d]> ds).
Proof.
  intros H p e. destruct (decide (decisionPath root (d_ID d) = p)) as [<-|].
  - rewrite lookup_insert_eq. by intros [= <-].
  - rewrite lookup_insert_ne by done. apply H.
Qed.

Lemma releaseEach_changes at_ now dir names v :
  wp (releaseEach now dir names) v
    (λ v' _, changes (OpReleaseExpired at_) now (v_root v) (v_decisions v) (v_decisions v')).
Proof.
  revert v. induction names as [|name names IH]; intros v; simpl; [apply wp_ret, changes_refl|].
  apply wp_bind, wp_readDecision; [intros d Hd|intros; apply changes_refl].
  destruct (d_Claim d) as [c|] eqn:Hc; [|apply IH]. destruct (_ || _) eqn:Hskip; [apply IH|].
  apply wp_bind, wp_valid; [intros _|intros; apply changes_refl].
  apply wp_bind, wp_writeDecision; [|intros; apply changes_refl]. bool_prop.
  assert (changes (OpReleaseExpired at_) now (v_root v) (v_decisions v)
    (v_decisions (filedAt (Join dir name) (moveTo StatePending None now d) v))) as Hone.
  { apply changes_insert; [done|rewrite Hd; left]. eexists _, _. split_and!; [done..|]. by eapply MoveLapse. }
  apply wp_bind. eapply wp_mono; [apply IH|]. intros v' r H'.
  destruct r; [apply wp_ret|]; by eapply sweep_trans.
Qed.
Lemma timeoutEach_changes at_ now dir names v :
  filed (v_root v) (v_decisions v) →
  wp (timeoutEach now dir names) v
    (λ v' _, changes (OpTimeoutExpired at_) now (v_root v) (v_decisions v) (v_decisions v')).
Proof.
  revert v. induction names as [|name names IH]; intros v Hf; simpl; [apply wp_ret, changes_refl|].
  apply wp_bind, wp_readDecision; [intros d Hd|intros; apply changes_refl].
  destruct (expiredDecision d now) eqn:He; simpl; [|by apply IH].
  apply wp_bind, wp_bind, wp_save; [|intros; apply changes_refl]. apply wp_ret.
  set (d' := moveTo StateTimedOut None now d).
  assert (changes (OpTimeoutExpired at_) now (v_root v) (v_decisions v)
    (v_decisions (filedAt (decisionPath (v_root v) (d_ID d')) d' v))) as Hone.
  { apply changes_insert; [done|]. change (d_ID d') with (d_ID d). rewrite <-(Hf _ _ Hd), Hd. left.
    eexists _, _. split_and!; [done..|]. by apply MoveTimeout. }
  apply wp_bind. eapply wp_mono; [apply IH; by apply filed_insert|]. intros v' r H'.
  destruct r; [apply wp_ret|]; by eapply sweep_trans.
Qed.

Lemma wp_opNow (at_ : Time) (f : Time → Time) v (Q : View → result Failure Time → Prop) :
  let now := if IsZero at_ then UTC (v_clock v (v_reads v)) else f at_ in
  (∀ v', v_root v' = v_root v → v_decisions v' = v_decisions v → Q v' (Ok now)) →
  wp (if IsZero at_ then now_ else mret (f at_)) v Q.
Proof. simpl. intros H. destruct (IsZero at_); [apply wp_now|apply wp_ret]; by apply H. Qed.

Lemma releaseExpired_changes at_ v :
  let now := if IsZero at_ then UTC (v_clock v (v_reads v)) else UTC at_ in
  wp (ReleaseExpiredClaims at_) v
    (λ v' _, changes (OpReleaseExpired at_) now (v_root v) (v_decisions v) (v_decisions v')).
Proof.
  intros now. unfold ReleaseExpiredClaims. wp_step; [|apply changes_refl].
  wp_step. apply (wp_opNow at_ UTC). intros v' Hr Hd. rewrite <-Hr, <-Hd.
  wp_step. apply wp_get. intros s <-. wp_step. apply wp_io; [|apply changes_refl]. apply releaseEach_changes.
Qed.
Lemma timeoutExpired_changes at_ v :
  filed (v_root v) (v_decisions v) →
  let now := if IsZero at_ then UTC (v_clock v (v_reads v)) else at_ in
  wp (TimeoutExpiredDecisions at_) v
    (λ v' _, changes (OpTimeoutExpired at_) now (v_root v) (v_decisions v) (v_decisions v')).
Proof.
  intros Hf now. unfold TimeoutExpiredDecisions. wp_step; [|apply changes_refl].
  wp_step. apply (wp_opNow at_ id). intros v' Hr Hd. rewrite <-Hr, <-Hd in *.
  wp_step. apply wp_get. intros s <-. wp_step. apply wp_io; [|apply changes_refl].
  by apply timeoutEach_changes.
Qed.

(** ** Notices leave the decisions alone *)

Lemma wp_noticeLocked id v (Q : View → result Failure Notice → Prop) :
  (∀ r, Q v r) → wp (noticeLocked id) v Q.
Proof.
  intros H. apply wp_bind, wp_guardE; [intros _|done]. apply wp_bind, wp_get. intros s <-.
  apply wp_bind, wp_io; [|done]. apply wp_bind, wp_get. intros s' Hs.
  destruct (st_notices s' !! _); [by apply wp_ret|by apply wp_failE].
Qed.
Lemma wp_saveNotice n v (Q : View → result Failure () → Prop) :
  (∀ v' r, v_decisions v' = v_decisions v → Q v' r) → wp (saveNotice n) v Q.
Proof.
  intros H. apply wp_bind, wp_get. intros s <-. apply wp_bind, wp_io; [|by apply H].
  intros s' Hs'. by apply H; rewrite <-Hs'.
Qed.
Lemma notice_decisions n v :
  wp (CreateOrUpdateNotice n) v (λ v' _, v_decisions v' = v_decisions v).
Proof.
  unfold CreateOrUpdateNotice. wp_step; [|done]. wp_step. wp_step. wp_step. apply wp_attempt, wp_noticeLocked.
  intros existing. wp_step.
  assert (∀ n' : Notice, wp (
    (match ValidateNotice n' with Ok _ => mret tt | Err e => failE e end);;
    saveNotice n';; mret (RedactNotice n')) (tick v) (λ v' _, v_decisions v' = v_decisions v)) as Hend.
  { intros n'. wp_step. destruct (ValidateNotice n'); [wp_step|by apply wp_failE].
    wp_step. apply wp_saveNotice. intros v' [] Hv; [by wp_step|done]. }
  destruct existing as [e|[[] od]]; try (by apply wp_fail); (wp_step; apply Hend).
Qed.
Lemma ack_decisions id surface v :
  wp (AckNotice id surface) v (λ v' _, v_decisions v' = v_decisions v).
Proof.
  unfold AckNotice. wp_step; [|done]. wp_step; wp_step. wp_step. apply wp_noticeLocked.
  intros [n|]; [|done]. wp_step. apply wp_saveNotice. intros v' [] Hv; [by wp_step|done].
Qed.

(** ** Every operation *)

Lemma wp_run {A} (m : DM A) s Q : wp m (view s) Q → Q (view (m s).1) (m s).2.
Proof. intros H. by apply H. Qed.

Lemma exec_changes op s :
  filed (st_root s) (st_decisions s) →
  changes op (opNow op s) (st_root s) (st_decisions s) (st_decisions (exec op s)).
Proof.
  intros Hf. destruct op.
  - exact (wp_run _ s _ (create_changes (view s) d)).
  - exact (wp_run _ s _ (claim_changes (view s) Hf id opts)).
  - exact (wp_run _ s _ (release_changes (view s) Hf id token expectedRevision reason)).
  - exact (wp_run _ s _ (resolve_changes (view s) Hf id token state decision reason providerResult)).
  - exact (wp_run _ s _ (revoke_changes (view s) Hf id kind reason)).
  - exact (wp_run _ s _ (invalidate_changes (view s) Hf id kind reason)).
  - exact (wp_run _ s _ (reopen_changes (view s) Hf id kind timeout reason)).
  - exact (wp_run _ s _ (fail_changes (view s) Hf id kind)).
  - exact (wp_run _ s _ (validate_changes (view s) Hf id token)).
  - exact (wp_run _ s _ (releaseExpired_changes at_ (view s))).
  - exact (wp_run _ s _ (timeoutExpired_changes at_ (view s) Hf)).
  - assert (st_decisions (exec (OpNotice n) s) = st_decisions s) as ->; [|apply changes_refl].
    exact (wp_run _ s _ (notice_decisions n (view s))).
  - assert (st_decisions (exec (OpAck id surface) s) = st_decisions s) as ->; [|apply changes_refl].
    exact (wp_run _ s _ (ack_decisions id surface (view s))).
Qed.

(** The clock, the root and the outcomes of the outside world are not the
    store's to change. *)
Lemma move_id op now d d' : Move op now d d' → (∀ d0, op ≠ OpCreate d0) → d_ID d' = d_ID d.
Proof. intros [] Hc; try reflexivity. by destruct (Hc d0). Qed.

Lemma exec_filed op s :
  filed (st_root s) (st_decisions s) → filed (st_root s) (st_decisions (exec op s)).
Proof.
  intros Hf p d Hd. destruct (exec_changes op s Hf p) as [E|[HT [(e&e'&E&E'&M)|(d0&d'&E&->&->&_&E')]]].
  - rewrite E in Hd. by apply Hf.
  - rewrite E' in Hd. injection Hd as <-. destruct M; try exact (Hf _ _ E). by subst op.
  - rewrite E' in Hd. by injection Hd as <-.
Qed.

(** ** Stored decisions are valid *)

Lemma hash_not_blank token : blank (HashClaimToken token) = false.
Proof.
  pose proof (hexSum256_length token) as Hl. pose proof (hexSum256_hex token) as Hh.
  unfold HashClaimToken, blank. destruct (hexSum256 token) as [|a s]; [done|]. simpl in Hh.
  apply andb_true_iff in Hh as [Ha _]. apply String.eqb_neq, TrimSpace_head.
  apply forallb_forall. intros p Hp. apply list_elem_of_In in Hp. unfold space_encodings in Hp.
  repeat (apply elem_of_cons in Hp as [->|Hp]; [
    unfold HasPrefix; simpl; case_match; subst; done|]). by apply elem_of_nil in Hp.
Qed.

Lemma moveTo_valid d state claim now :
  ValidateDecision d = Ok tt → KnownDecisionState state = true →
  (DecisionTerminal state = false →
    DecisionTerminal (d_State d) = false ∨ IsZero (d_TimeoutAt d) = false) →
  match claim with
  | Some c => state = StateClaimed ∧ validateClaimRecord c = Ok tt
  | None => state ≠ StateClaimed
  end →
  ValidateDecision (moveTo state claim now d) = Ok tt.
Proof.
  unfold ValidateDecision. rewrite !guard_then.
  intros (H1&H2&H3&H4&H5&H6&H7&H8&_) Hk Ht Hc. split_and!; try done.
  all: change (d_TimeoutAt (moveTo state claim now d)) with (d_TimeoutAt d);
    change (d_State (moveTo state claim now d)) with state;
    change (d_Claim (moveTo state claim now d)) with claim.
  - destruct (IsZero (d_TimeoutAt d)); [|done]. destruct (DecisionTerminal state); [done|].
    destruct (Ht eq_refl) as [Hd|?]; [by rewrite Hd in H6|done].
  - destruct claim; simpl; [by rewrite andb_false_r|]. by destruct (String.eqb_spec state StateClaimed).
  - destruct claim as [c|]; simpl; [destruct Hc as [-> _]; done|by rewrite andb_false_r].
  - destruct claim; [by destruct Hc|done].
Qed.

(** Setting a time-out and adding a fact keep a decision valid. *)
Lemma timeout_valid d t : ValidateDecision d = Ok tt → IsZero t = false →
  ValidateDecision (d <| d_TimeoutAt := t |>) = Ok tt.
Proof.
  unfold ValidateDecision. rewrite !guard_then. intros H Ht. split_and!; try apply H.
  change (d_TimeoutAt (d <| d_TimeoutAt := t |>)) with t. by rewrite Ht.
Qed.
Lemma fact_valid d k x : ValidateDecision d = Ok tt →
  ValidateDecision (d <| d_Preview ::= (λ p, p <| pv_Facts ::= setDetail k x |>) |>) = Ok tt.
Proof.
  unfold ValidateDecision. rewrite !guard_then. intros H. split_and!; try apply H.
  change (pv_Facts (d_Preview (d <| d_Preview ::= (λ p, p <| pv_Facts ::= setDetail k x |>) |>)))
    with (setDetail k x (pv_Facts (d_Preview d))).
  unfold setDetail. rewrite length_app. simpl. rewrite Nat.add_1_r. simpl. by rewrite andb_false_r.
Qed.

Lemma among_true x l : among x l = true ↔ x ∈ l.
Proof.
  unfold among. rewrite existsb_true. split; [intros (y&Hy&->%String.eqb_eq)|]; [done|].
  intros H. exists x. by rewrite String.eqb_refl.
Qed.
Lemma terminal_known st : DecisionTerminal st = true → KnownDecisionState st = true ∧ st ≠ StateClaimed.
Proof.
  unfold DecisionTerminal, KnownDecisionState. rewrite !among_true. intros H. split; [set_solver|].
  intros ->. by apply among_true in H.
Qed.

(** What the tests of a claim establish. *)
Lemma claimable_spec d opts now t :
  claimable d opts now = Ok t →
  (d_State d = StatePending ∧ t = false) ∨
  (d_State d = StateClaimed ∧ t = true ∧ co_TakeoverExpired opts = true ∧
   ∃ c, d_Claim d = Some c ∧ Before now (cm_ExpiresAt c) = false).
Proof.
  unfold claimable. destruct (String.eqb_spec (d_State d) StatePending).
  { rewrite guard_then. intros [_ [= <-]]. by left. }
  destruct (d_Claim d) as [c|]; [|done]. destruct (_ && _) eqn:E; [|done]. rewrite !guard_then.
  intros (Ho&_&[= <-]). bool_prop. right. split_and!; eauto.
Qed.
Lemma validateClaimToken_spec d token c :
  validateClaimToken d token = Ok c →
  d_State d = StateClaimed ∧ d_Claim d = Some c ∧ HashClaimToken token = cm_TokenHash c.
Proof.
  unfold validateClaimToken. destruct (d_Claim d) as [c'|]; [|done]. rewrite !guard_then.
  intros (H1&_&H2&[= ->]). by bool_prop.
Qed.
Lemma validateClaim_spec d token now :
  validateClaim d token now = Ok tt →
  ∃ c, d_State d = StateClaimed ∧ d_Claim d = Some c ∧ HashClaimToken token = cm_TokenHash c ∧
    Before now (cm_ExpiresAt c) = true.
Proof.
  unfold validateClaim. intros (c&Hc&Hb)%result_bind_ok. apply guard_ok in Hb.
  apply validateClaimToken_spec in Hc as (?&?&?). eauto.
Qed.

Lemma claim_valid claim now lease token :
  (0 < unixNano now)%Z → MinClaimLease ≤ lease → cm_ClaimedAt claim = now → cm_ExpiresAt claim = AddDur now lease →
  blank (cm_Surface claim) = false → cm_TokenHash claim = HashClaimToken token →
  validateClaimRecord claim = Ok tt.
Proof.
  intros Hnow Hl Ha He Hs Hh. unfold validateClaimRecord. rewrite !guard_then, guard_ok, Hs, Hh, hash_not_blank, Ha, He.
  split_and!; [done| |done]. unfold IsZero, AddDur, After, MinClaimLease, Second, Millisecond in *. simpl.
  destruct (Z.eqb_spec (unixNano now) 0), (Z.eqb_spec (unixNano now + lease) 0),
    (Z.ltb_spec (unixNano now) (unixNano now + lease)); simpl; [lia..|done|lia].
Qed.

Lemma move_valid op now d d' :
  (¬ sweeps op → (0 < unixNano now)%Z) → ValidateDecision d = Ok tt → Move op now d d' →
  ValidateDecision d' = Ok tt.
Proof.
  intros Hnow Hd M. destruct M as [?| |? ? ? lease claim ? -> Hexp Hcl ? [Hl _] Ha He Hs Hh|
    ? ? ? ? ? -> ? Hv|? ? ? ? Hst|? ? st ? ? ? ? ? ? Ht| |? ? ? Hst|? ? ? -> Hpos Hst|].
  - done.
  - by apply moveTo_valid.
  - apply moveTo_valid; [done..| |by split; [|eapply claim_valid; eauto]].
    intros _. left. apply claimable_spec in Hcl as [[-> _]|[-> _]]; done.
  - apply validateClaimToken_spec in Hv as (Hst&_). by apply moveTo_valid; [..|rewrite Hst; left|].
  - by apply moveTo_valid; [..|rewrite Hst; left|].
  - destruct (terminal_known _ Ht). apply moveTo_valid; [done..|congruence|done].
  - by apply moveTo_valid.
  - by apply moveTo_valid.
  - apply (moveTo_valid (d <| d_TimeoutAt := AddDur now timeout |>)); try done; [|right].
    all: assert (IsZero (AddDur now timeout) = false) by
      (unfold IsZero, AddDur; simpl; apply Z.eqb_neq; specialize (Hnow (λ H, H)); lia).
    + by apply timeout_valid.
    + done.
  - apply (fact_valid (moveTo StateFailed None now d)). by apply moveTo_valid.
Qed.


(** ** Runs *)

(** The root, the clock, the failures and the random bytes are not the store's to
    change; a random byte is drawn once. *)
Definition sameWorld (s s' : Store) : Prop :=
  st_root s' = st_root s ∧ st_clock s' = st_clock s ∧ st_io s' = st_io s ∧ st_rand s' = st_rand s ∧
  (st_rands s <= st_rands s')%nat.
#[global] Instance sameWorld_preorder : PreOrder sameWorld.
Proof. split; [done|]. intros s1 s2 s3 (?&?&?&?&?) (?&?&?&?&?). split_and!; [congruence..|lia]. Qed.

Lemma io_world : preserves sameWorld io.
Proof. intros s. by split_and!. Qed.
Lemma now_world : preserves sameWorld now_.
Proof. intros s. by split_and!. Qed.
Lemma token_world : preserves sameWorld newClaimToken.
Proof. intros s. split_and!; try done. cbn. lia. Qed.

Create HintDb world discriminated.
#[export] Hint Resolve io_world now_world token_world : world.
Ltac world :=
  repeat lazymatch goal with
  | |- preserves _ (_ ≫= _) => apply preserves_bind; [exact sameWorld_preorder| |intros ?]
  | |- preserves _ (attempt _) => apply preserves_attempt
  | |- preserves _ get_state => apply preserves_get; exact sameWorld_preorder
  | |- preserves _ (mret _) => apply preserves_ret; exact sameWorld_preorder
  | |- preserves _ (fail _) => apply preserves_fail; exact sameWorld_preorder
  | |- preserves _ (lift _) => apply preserves_lift; exact sameWorld_preorder
  | |- preserves _ (modify _) => apply preserves_modify; intros ?; split_and!; reflexivity
  | |- preserves _ (match ?x with _ => _ end) => destruct x
  | |- _ => solve [auto with world]
  end.

Lemma failE_world {A} e : preserves sameWorld (failE (A := A) e).
Proof. unfold failE. world. Qed.
Lemma failD_world {A} e d : preserves sameWorld (failD (A := A) e d).
Proof. unfold failD. world. Qed.
#[export] Hint Resolve failE_world failD_world : world.
Lemma guardE_world b e : preserves sameWorld (guardE b e).
Proof. unfold guardE. world. Qed.
Lemma guardD_world b e d : preserves sameWorld (guardD b e d).
Proof. unfold guardD. world. Qed.
Lemma checkD_world {A} (r : result DecisionError A) d : preserves sameWorld (checkD r d).
Proof. unfold checkD. world. Qed.
Lemma readDecision_world p : preserves sameWorld (readDecision p).
Proof. unfold readDecision. world. Qed.
Lemma writeDecision_world p d : preserves sameWorld (writeDecision p d).
Proof. unfold writeDecision. world. Qed.
#[export] Hint Resolve guardE_world guardD_world checkD_world readDecision_world writeDecision_world : world.
Lemma decisionLocked_world id : preserves sameWorld (decisionLocked id).
Proof. unfold decisionLocked. world. Qed.
Lemma save_world d : preserves sameWorld (save d).
Proof. unfold save. world. Qed.
#[export] Hint Resolve decisionLocked_world save_world : world.
Lemma refuseExpired_world d now : preserves sameWorld (refuseExpired d now).
Proof. unfold refuseExpired, timeoutDecisionLocked. world. Qed.
Lemma releaseEach_world now dir names : preserves sameWorld (releaseEach now dir names).
Proof. induction names; simpl; world. Qed.
Lemma timeoutEach_world now dir names : preserves sameWorld (timeoutEach now dir names).
Proof. unfold timeoutEach, timeoutDecisionLocked. induction names; world. Qed.
Lemma noticeLocked_world id : preserves sameWorld (noticeLocked id).
Proof. unfold noticeLocked, readNotice. world. Qed.
Lemma saveNotice_world n : preserves sameWorld (saveNotice n).
Proof. unfold saveNotice, writeNotice. world. Qed.
#[export] Hint Resolve refuseExpired_world releaseEach_world timeoutEach_world noticeLocked_world
  saveNotice_world : world.

Lemma locked_world {A} (m : DM A) : preserves sameWorld m → preserves sameWorld (locked m).
Proof. intros Hm. unfold locked. world. destruct a2; world. Qed.
Lemma exec_world op s : sameWorld s (exec op s).
Proof.
  destruct op; unfold exec. 
  all: unfold CreateOrUpdateDecision, ClaimDecisionWithOptions, ReleaseDecisionClaim, ResolveDecision,
    RevokeGrantedDecision, InvalidateProviderDecision, ReopenProviderDecision, FailAppliedProviderDecision,
    ValidateDecisionClaim, ReleaseExpiredClaims, TimeoutExpiredDecisions, CreateOrUpdateNotice, AckNotice.
  all: apply locked_world; world.
Qed.

Definition execs (ops : list Op) (s : Store) : Store := foldl (λ s op, exec op s) s ops.

(** The stored decisions are valid and stand under their own names. *)
Definition wfDecisions (s : Store) : Prop :=
  filed (st_root s) (st_decisions s) ∧
  ∀ p d, st_decisions s !! p = Some d → ValidateDecision d = Ok tt.

Lemma exec_wf op s :
  (∀ n, 0 < unixNano (st_clock s n)) → wfDecisions s → wfDecisions (exec op s).
Proof.
  intros Hclk [Hf Hv]. destruct (exec_world op s) as [Hr _]. split; [rewrite Hr; by apply exec_filed|].
  intros p d Hd. destruct (exec_changes op s Hf p) as [E|[_ [(e&e'&E&E'&M)|(d0&d'&_&_&_&Hd'&E')]]].
  - rewrite E in Hd. by eapply Hv.
  - rewrite E' in Hd. injection Hd as <-. eapply move_valid; [|by eapply Hv|done].
    intros Hs. destruct op; try apply Hclk; by destruct Hs.
  - by rewrite E' in Hd; injection Hd as <-.
Qed.
Lemma execs_wf ops s :
  (∀ n, 0 < unixNano (st_clock s n)) → wfDecisions s → wfDecisions (execs ops s).
Proof.
  revert s. induction ops as [|op ops IH]; intros s Hclk Hs; [done|].
  apply IH; [|by apply exec_wf]. by destruct (exec_world op s) as (_&->&_).
Qed.
Lemma empty_wf s : st_decisions s = ∅ → wfDecisions s.
Proof. intros H. split; intros p d Hd; rewrite H, lookup_empty in Hd; done. Qed.

(** ** The time-out sweep is complete *)

Lemma wp_and {A} (m : DM A) v Q1 Q2 : wp m v Q1 → wp m v Q2 → wp m v (λ v' r, Q1 v' r ∧ Q2 v' r).
Proof. intros H1 H2 s Hs. split; [by apply H1|by apply H2]. Qed.

(** What is not expired stays so, and no file appears or disappears. *)
Definition settled (now : Time) (p : string) (ds : gmap string Decision) : Prop :=
  ∀ d, ds !! p = Some d → expiredDecision d now = false.
Lemma changes_settled at_ now root ds ds' p :
  changes (OpTimeoutExpired at_) now root ds ds' → settled now p ds → settled now p ds'.
Proof.
  intros Hc Hs d Hd. destruct (Hc p) as [E|[_ [(e&e'&_&E'&M)|(?&?&_&?&_)]]]; [|..|done].
  - rewrite E in Hd. by apply Hs.
  - rewrite E' in Hd. injection Hd as <-. by destruct M.
Qed.

Lemma timeoutEach_done now dir names v :
  filed (v_root v) (v_decisions v) →
  wp (timeoutEach now dir names) v (λ v' r,
    is_ok r = true → ∀ name, name ∈ names → settled now (Join dir name) (v_decisions v')).
Proof.
  revert v. induction names as [|name names IH]; intros v Hf; simpl.
  { apply wp_ret. intros _ ? []%elem_of_nil. }
  assert (∀ v1, filed (v_root v1) (v_decisions v1) → settled now (Join dir name) (v_decisions v1) →
    wp (timeoutEach now dir names) v1 (λ v' r, is_ok r = true →
      ∀ nm, nm ∈ name :: names → settled now (Join dir nm) (v_decisions v'))) as Hrest.
  { intros v1 Hf1 H1. eapply wp_mono; [apply (wp_and _ _ _ _ (timeoutEach_changes zeroTime now dir names v1 Hf1) (IH v1 Hf1))|].
    intros v' r [Hc Hr] Hok nm [->|Hin]%elem_of_cons; [by eapply changes_settled|by apply Hr]. }
  apply wp_bind, wp_readDecision; [intros d Hd|done].
  destruct (expiredDecision d now) eqn:He; simpl; [|apply Hrest; [done|intros d' Hd'; congruence]].
  apply wp_bind, wp_bind, wp_save; [|done]. apply wp_ret, wp_bind.
  eapply wp_mono; [apply Hrest; [by apply filed_insert|]|intros v' [l|] H; [by apply wp_ret|done]].
  intros d' Hd'. rewrite (Hf _ _ Hd) in Hd'. unfold filedAt in Hd'. simpl in Hd'.
  rewrite lookup_insert_eq in Hd'. by injection Hd' as <-.
Qed.

(** An identifier that is one plain file name. *)
Definition plainID (id : string) : Prop := noSlash id = true ∧ id ≠ "" ∧ HasPrefix id "." = false.
#[export] Instance plainID_dec id : base.Decision (plainID id).
Proof. unfold plainID. apply _. Defined.
(** A root that is a clean absolute path other than that of the file system. *)
Definition plainRoot (root : string) : Prop := ∃ rs, rs ≠ [] ∧ Forall isName rs ∧ root = absPath rs.

(** The file of a plain identifier, as the listing of the directory sees it. *)
Lemma plain_path rs id :
  rs ≠ [] → Forall isName rs → plainID id →
  let dir := decisionsDir (absPath rs) in
  let p := decisionPath (absPath rs) id in
  Dir p = dir ∧ committedJSONEntry (Base p) = true ∧ Join dir (Base p) = p.
Proof.
  intros Hne Hrs (Hs&He&Hdot). assert (isName "decisions") as Hd by by split_and!.
  assert (isName (id +:+ ".json")) as Hn.
  { destruct id as [|a id]; [done|]. split_and!; try done.
    - unfold noSlash in *. by rewrite str_forall_app, Hs.
    - by destruct id.
    - destruct id as [|? [|? id]]; try done. }
  assert (decisionsDir (absPath rs) = absPath (rs ++ ["decisions"])) as ED.
  { unfold decisionsDir. apply (Join_absPath rs ["decisions"]); auto. }
  assert (Forall isName (rs ++ ["decisions"])) as Hrd by (apply Forall_app; auto).
  assert (rs ++ ["decisions"] ≠ []) as Hrn by by destruct rs.
  assert (decisionPath (absPath rs) id = absPath ((rs ++ ["decisions"]) ++ [id +:+ ".json"])) as EP.
  { unfold decisionPath. rewrite ED. apply (Join_absPath _ [id +:+ ".json"]); auto. }
  simpl. rewrite EP, ED, Dir_absPath, Base_absPath by done. split_and!; [done| |].
  - unfold committedJSONEntry. rewrite HasSuffix_app, andb_true_r. destruct id as [|a id]; [done|].
    unfold HasPrefix in *. simpl in *. case_match; [|done]. destruct id; done.
  - apply (Join_absPath _ [id +:+ ".json"]); auto.
Qed.

Lemma entriesOf_elem {A} dir (m : gmap string A) p x :
  m !! p = Some x → Dir p = dir → committedJSONEntry (Base p) = true → Base p ∈ entriesOf dir m.
Proof.
  intros Hp HD HB. unfold entriesOf, readDir, sort_strings. apply list_elem_of_In, filter_In. split; [|done].
  apply list_elem_of_In, merge_sort_elem_of, list_elem_of_fmap. exists p. split; [done|].
  apply list_elem_of_filter. split; [by apply String.eqb_eq|].
  apply list_elem_of_fmap. exists (p, x). split; [done|]. by apply elem_of_map_to_list.
Qed.

(** What the sweep leaves in every listed file. *)
Lemma timeoutExpired_settled at_ v :
  filed (v_root v) (v_decisions v) →
  let now := if IsZero at_ then UTC (v_clock v (v_reads v)) else at_ in
  let dir := decisionsDir (v_root v) in
  wp (TimeoutExpiredDecisions at_) v (λ v' r, is_ok r = true →
    ∀ name, name ∈ entriesOf dir (v_decisions v) → settled now (Join dir name) (v_decisions v')).
Proof.
  intros Hf now dir. unfold TimeoutExpiredDecisions. apply wp_locked; [|done].
  apply wp_bind, (wp_opNow at_ id). intros v' Hr Hd. unfold dir. rewrite <-Hr, <-Hd in *.
  apply wp_bind, wp_get. intros s <-. apply wp_bind, wp_io; [|done].
  eapply wp_mono; [by apply timeoutEach_done|]. done.
Qed.

(** Files the sweep does not list stay as they are. *)
Lemma timeoutEach_frame now dir names v p :
  filed (v_root v) (v_decisions v) → (∀ name, name ∈ names → Join dir name ≠ p) →
  wp (timeoutEach now dir names) v (λ v' _, v_decisions v' !! p = v_decisions v !! p).
Proof.
  revert v. induction names as [|name names IH]; intros v Hf Hp; simpl; [by apply wp_ret|].
  apply wp_bind, wp_readDecision; [intros d Hd|done].
  destruct (expiredDecision d now); simpl; [|apply IH; [done|set_solver]].
  apply wp_bind, wp_bind, wp_save; [|done]. apply wp_ret, wp_bind.
  eapply wp_mono; [apply IH; [by apply filed_insert|set_solver]|].
  assert (decisionPath (v_root v) (d_ID d) ≠ p) as Hne by (rewrite <-(Hf _ _ Hd); apply Hp; set_solver).
  intros v' r E. cbn in E. rewrite lookup_insert_ne in E by done. destruct r; [by apply wp_ret|done].
Qed.
Lemma timeoutExpired_frame at_ v p :
  filed (v_root v) (v_decisions v) →
  let dir := decisionsDir (v_root v) in
  wp (TimeoutExpiredDecisions at_) v (λ v' _,
    (∀ name, name ∈ entriesOf dir (v_decisions v) → Join dir name ≠ p) → v_decisions v' !! p = v_decisions v !! p).
Proof.
  intros Hf dir. unfold TimeoutExpiredDecisions. apply wp_locked; [|done].
  apply wp_bind, (wp_opNow at_ id). intros v' Hr Hd. unfold dir. rewrite <-Hr, <-Hd in *.
  apply wp_bind, wp_get. intros s <-. apply wp_bind, wp_io; [|done].
  destruct (decide (Forall (λ name, Join (decisionsDir (v_root (view s))) name ≠ p) (entriesOf (decisionsDir (v_root (view s))) (v_decisions (view s))))) as [Hn|Hn].
  - rewrite Forall_forall in Hn. eapply wp_mono; [by apply (timeoutEach_frame _ _ _ _ p)|]. done.
  - eapply wp_mono; [by apply (timeoutEach_changes zeroTime)|]. intros v'' r _.
    split; [|intros _]; intros H; exfalso; apply Hn, Forall_forall, H.
Qed.
Lemma Base_json p : HasSuffix (Base p) ".json" = true → isName (Base p).
Proof.
  unfold Base. destruct (String.eqb p ""); [done|].
  destruct (last _) as [e|] eqn:E; [|done]. intros Hj.
  apply last_Some_elem_of, list_elem_of_filter in E as [He Hin].
  pose proof (SplitSlash_noSlash p) as Hn. rewrite Forall_forall in Hn.
  split_and!; [by apply Hn|done|by intros ->|by intros ->].
Qed.
Lemma entriesOf_name {A} dir (m : gmap string A) name :
  name ∈ entriesOf dir m → isName name ∧ HasPrefix name "." = false.
Proof.
  unfold entriesOf, readDir, sort_strings. intros [Hin Hc]%list_elem_of_In%filter_In.
  apply list_elem_of_In, merge_sort_elem_of, list_elem_of_fmap in Hin as (p&->&_).
  unfold committedJSONEntry in Hc. apply andb_true_iff in Hc as [Hd%negb_true_iff Hj]. split; [by apply Base_json|done].
Qed.
(** The file of an identifier that begins with a dot is no listed file. *)
Lemma hidden_path rs id name :
  rs ≠ [] → Forall isName rs → noSlash id = true → HasPrefix id "." = true → isName name →
  Join (decisionsDir (absPath rs)) name = decisionPath (absPath rs) id → HasPrefix name "." = true.
Proof.
  intros Hne Hrs Hs Hdot Hn. assert (isName "decisions") as Hd by by split_and!.
  assert (isName (id +:+ ".json")) as Hi.
  { destruct id as [|a id]; [done|]. split_and!; try done.
    - unfold noSlash in *. by rewrite str_forall_app, Hs.
    - by destruct id.
    - destruct id as [|? [|? id]]; done. }
  assert (Forall isName (rs ++ ["decisions"])) as Hrd by (apply Forall_app; auto).
  assert (∀ x, isName x → Join (decisionsDir (absPath rs)) x = absPath ((rs ++ ["decisions"]) ++ [x])) as HJ.
  { intros x Hx. unfold decisionsDir.
    change (Join (absPath rs) "decisions") with (Join (absPath rs) (JoinSlash ["decisions"])).
    rewrite Join_absPath by auto. apply (Join_absPath _ [x]); auto. by destruct rs. }
  unfold decisionPath. rewrite !HJ by done. intros E%absPath_inj; [|by destruct rs|by destruct rs|apply Forall_app; auto..].
  apply app_inj_tail in E as [_ ->]. destruct id as [|a id]; [done|]. unfold HasPrefix in *. simpl in *. case_match; [|done]. by destruct id.
Qed.

(** ** Properties *)

(** C7: Every operation, from any store whose decisions are filed, changes each
    file not at all or by one move of the state machine under the operation's
    conditions; and only the files the operation names. *)
Theorem decisions_refine_moves op s p :
  filed (st_root s) (st_decisions s) →
  st_decisions (exec op s) !! p = st_decisions s !! p ∨
  (target op (st_root s) p ∧ Change op (opNow op s) (st_decisions s !! p) (st_decisions (exec op s) !! p)).
Proof. intros Hf. exact (exec_changes op s Hf p). Qed.

(** Whatever operations run from an empty store, with a clock that is past the
    epoch, every stored decision is valid and stands under its own name. *)
Theorem stored_decisions_valid ops s p d :
  st_decisions s = ∅ → (∀ n, 0 < unixNano (st_clock s n)) →
  st_decisions (execs ops s) !! p = Some d →
  ValidateDecision d = Ok tt ∧ p = decisionPath (st_root (execs ops s)) (d_ID d).
Proof.
  intros He Hclk Hd. destruct (execs_wf ops s Hclk (empty_wf s He)) as [Hf Hv]. split; [by eapply Hv|by apply Hf].
Qed.

(** C4: A decision becomes approved, applied or discarded only by a resolution
    that carries the token of the decision's claim, while the claim's lease and
    the decision itself have not expired; the claim is gone afterwards.  (The
    other way to store such a decision is to create it so.) *)
Theorem approval_needs_claim op s p d' :
  filed (st_root s) (st_decisions s) →
  st_decisions (exec op s) !! p = Some d' → st_decisions (exec op s) !! p ≠ st_decisions s !! p →
  d_State d' ∈ [StateApproved; StateApplied; StateDiscarded] →
  (∃ d0, op = OpCreate d0) ∨
  ∃ d c id token state decision reason result,
    op = OpResolve id token state decision reason result ∧ p = decisionPath (st_root s) (TrimSpace id) ∧
    st_decisions s !! p = Some d ∧ d_State d = StateClaimed ∧ d_Claim d = Some c ∧
    HashClaimToken token = cm_TokenHash c ∧ Before (opNow op s) (cm_ExpiresAt c) = true ∧
    expiredDecision d (opNow op s) = false ∧ d_State d' = state ∧ d_Claim d' = None.
Proof.
  intros Hf Hd' Hne Hst. destruct (exec_changes op s Hf p) as [E|[T [(d&e'&E&E'&M)|(d0&?&_&->&_)]]];
    [done| |by left; exists d0].
  rewrite Hd' in E'. injection E' as <-. destruct M; try (left; by eauto); try (by apply among_true in Hst).
  right. subst op. apply validateClaim_spec in H1 as (c&?&?&?&?).
  exists d, c, id, token, state, decision, reason, result. by split_and!.
Qed.

(** C18: While a claim's lease and its decision have not expired, no operation
    touches the claimed decision but a release or a resolution that carries the
    claim's token, the invalidation by the provider of its kind, and a new
    proposal under the same identifier. *)
Theorem claim_protected op s p d c :
  filed (st_root s) (st_decisions s) → st_decisions s !! p = Some d →
  d_State d = StateClaimed → d_Claim d = Some c → Before (opNow op s) (cm_ExpiresAt c) = true →
  expiredDecision d (opNow op s) = false →
  st_decisions (exec op s) !! p = Some d ∨
  (target op (st_root s) p ∧
   match op with
   | OpRelease _ token _ _ | OpResolve _ token _ _ _ _ => HashClaimToken token = cm_TokenHash c
   | OpInvalidate _ kind _ => kind = d_Kind d
   | OpCreate _ => True
   | _ => False
   end).
Proof.
  intros Hf Hd Hst Hc Hlive Hexp.
  destruct (exec_changes op s Hf p) as [E|[T [(e&e'&E&E'&M)|(d0&?&_&->&_)]]]; [left; by rewrite E| |by right].
  right. split; [done|]. rewrite Hd in E. injection E as <-. 
  destruct M; subst; try congruence; try done; try (by rewrite Hst in * ).
  - apply claimable_spec in H1 as [[? _]|(_&_&_&c'&?&?)]; [by rewrite Hst in *|congruence].
  - apply validateClaimToken_spec in H1 as (_&?&?). congruence.
  - apply validateClaim_spec in H1 as (?&_&?&?&_). congruence.
Qed.

(** C22: The only expired decisions that a successful time-out sweep leaves in a
    store (filed, under a clean absolute root) are those whose identifier is not
    one plain file name: it begins with a dot, has a slash, or is empty. *)
Theorem timeouts_complete s at_ s' l p d :
  filed (st_root s) (st_decisions s) → plainRoot (st_root s) →
  TimeoutExpiredDecisions at_ s = (s', Ok l) → st_decisions s' !! p = Some d →
  expiredDecision d (opNow (OpTimeoutExpired at_) s) = false ∨ ¬ plainID (d_ID d).
Proof.
  intros Hf (rs&Hne&Hrs&Hroot) Hrun Hd. destruct (decide (plainID (d_ID d))) as [Hplain|]; [left|by right].
  assert (∃ e, st_decisions s !! p = Some e ∧ d_ID e = d_ID d) as (e&He&Hid).
  { destruct (exec_changes (OpTimeoutExpired at_) s Hf p) as [E|[_ [(e&e'&E&E'&M)|(?&?&_&?&_)]]]; [|..|done].
    all: unfold exec in *; rewrite Hrun in *; simpl in *.
    - exists d. by rewrite <-E.
    - exists e. split; [done|]. rewrite Hd in E'. injection E' as ->. by apply move_id in M. }
  destruct (plain_path rs (d_ID d) Hne Hrs Hplain) as (HD&HB&HJ).
  rewrite <-Hid, <-Hroot, <-(Hf _ _ He) in HD, HB, HJ.
  pose proof (entriesOf_elem _ _ _ _ He HD HB) as Hin.
  pose proof (wp_run _ s _ (timeoutExpired_settled at_ (view s) Hf)) as Hs. rewrite Hrun in Hs.
  specialize (Hs eq_refl _ Hin). simpl in Hs. rewrite HJ in Hs. by apply Hs.
Qed.

(** C39: No time-out sweep, at whatever time, changes a decision whose identifier
    begins with a dot and has no slash: the listing of the directory skips its file
    (in a store that is filed, under a clean absolute root). *)
Theorem hidden_decision_outlives_sweeps s at_ id :
  filed (st_root s) (st_decisions s) → plainRoot (st_root s) → noSlash id = true → HasPrefix id "." = true →
  let p := decisionPath (st_root s) id in
  st_decisions (exec (OpTimeoutExpired at_) s) !! p = st_decisions s !! p.
Proof.
  intros Hf (rs&Hne&Hrs&Hroot) Hs Hdot p.
  pose proof (wp_run _ s _ (timeoutExpired_frame at_ (view s) p Hf)) as Hr. apply Hr. clear Hr.
  intros name [Hn Hd]%entriesOf_name E. cbn in E. unfold p in E. rewrite Hroot in E.
  apply (hidden_path rs id name) in E; [congruence|done..].
Qed.

(** ** A run, for the witnesses *)

Module Sample.
Definition secs (n : Z) : Time := mkTime (n * Second) 0.
(** A store whose clock advances one second at a reading, whose files can be
    read and written and whose random bytes are [7]. *)
Definition empty (root : string) : Store :=
  mkStore root ∅ ∅ (λ n, secs (1000 + Z.of_nat n)) 0 (λ _, true) 0 (λ _, Some (repeat 7%Z 24)) 0.
Definition preview : Preview := mkPreview "read one file" [] None true.
Definition asked : Decision :=
  mkDecision "" "dec_1" KindHostFSRead (mkSource "p" "s" "b" "") "" [] [] preview [] "" (secs 1300) None
    noProvider "" 0 zeroTime zeroTime.
Definition opts : ClaimOptions := mkClaimOptions "tui" "" 0 0 false.
Definition token : string := "claim_" +:+ EncodeToString (repeat 7%Z 24).
Definition opened : Store := exec (OpCreate asked) (empty "/store").
Definition claimed : Store := exec (OpClaim "dec_1" opts) opened.
Definition resolve : Op := OpResolve "dec_1" token StateApplied "allow" "" [].
Definition path : string := decisionPath "/store" "dec_1".

Lemma clock_positive n : 0 < unixNano (st_clock (empty "/store") n).
Proof. unfold empty, secs, Second, Millisecond. simpl. lia. Qed.

Definition swept : Store * result Failure (list Decision) := TimeoutExpiredDecisions (secs 2000) claimed.
Definition sweptDecision : Decision := default asked (st_decisions swept.1 !! path).
Definition sweptList : list Decision := match swept.2 with Ok l => l | Err _ => [] end.
Lemma swept_ok :
  TimeoutExpiredDecisions (secs 2000) claimed = (swept.1, Ok sweptList).
Proof.
  unfold sweptList.
  assert (is_ok swept.2 = true) as H by (vm_compute; reflexivity).
  change (TimeoutExpiredDecisions (secs 2000) claimed) with swept. destruct swept as [s [l|e]]; [done|discriminate H].
Qed.
Lemma swept_decision : st_decisions swept.1 !! path = Some sweptDecision.
Proof.
  assert (isSome (st_decisions swept.1 !! path) = true) as H by (vm_compute; reflexivity).
  unfold sweptDecision. destruct (st_decisions swept.1 !! path); [done|discriminate H].
Qed.
Lemma claimed_root : plainRoot (st_root claimed).
Proof. exists ["store"]. split_and!; [done|by repeat constructor|vm_compute; reflexivity]. Qed.
(** A decision under a hidden name. *)
Definition hiding : Op := OpCreate (asked <| d_ID := ".dec" |>).
Definition hidden : Store := execs [hiding] (empty "/store").
Lemma hidden_root : plainRoot (st_root hidden).
Proof. exists ["store"]. split_and!; [done|by repeat constructor|vm_compute; reflexivity]. Qed.
Lemma hidden_filed : filed (st_root hidden) (st_decisions hidden).
Proof.
  unfold hidden. destruct (execs_wf [hiding] (empty "/store") clock_positive) as [Hf _]; [by apply empty_wf|exact Hf].
Qed.
Lemma claim_live :
  let now := opNow (OpClaim "dec_1" (mkClaimOptions "other" "" 0 0 true)) claimed in
  match st_decisions claimed !! path with
  | Some d => match d_Claim d with
              | Some c => d_State d = StateClaimed ∧ Before now (cm_ExpiresAt c) = true ∧
                  expiredDecision d now = false
              | None => False
              end
  | None => False
  end.
Proof. vm_compute. auto. Qed.
End Sample.
Lemma sample_filed : filed (st_root Sample.claimed) (st_decisions Sample.claimed).
Proof.
  refine (proj1 (execs_wf [OpCreate Sample.asked; OpClaim "dec_1" Sample.opts] (Sample.empty "/store") _ _)).
  - exact Sample.clock_positive.
  - by apply empty_wf.
Qed.
Lemma sample_state :
  d_State <$> st_decisions (exec Sample.resolve Sample.claimed) !! Sample.path = Some StateApplied ∧
  d_State <$> st_decisions Sample.claimed !! Sample.path = Some StateClaimed.
Proof. split; vm_compute; reflexivity. Qed.

Lemma decisions_refine_moves_witness :
  target Sample.resolve (st_root Sample.claimed) Sample.path ∧
  Change Sample.resolve (opNow Sample.resolve Sample.claimed) (st_decisions Sample.claimed !! Sample.path)
    (st_decisions (exec Sample.resolve Sample.claimed) !! Sample.path).
Proof.
  destruct (decisions_refine_moves Sample.resolve Sample.claimed Sample.path sample_filed) as [E|H]; [|exact H].
  destruct sample_state as [H1 H2]. rewrite E, H2 in H1. discriminate H1.
Defined.
Lemma stored_decisions_valid_witness :
  ∃ d, st_decisions Sample.claimed !! Sample.path = Some d ∧ ValidateDecision d = Ok tt.
Proof.
  destruct (st_decisions Sample.claimed !! Sample.path) as [d|] eqn:E;
    [|apply (f_equal (fmap d_State)) in E; vm_compute in E; discriminate E].
  exists d. split; [reflexivity|].
  apply (stored_decisions_valid [OpCreate Sample.asked; OpClaim "dec_1" Sample.opts] (Sample.empty "/store")
    Sample.path d); [reflexivity|exact Sample.clock_positive|exact E].
Defined.
Lemma approval_needs_claim_witness :
  ∃ d c, st_decisions Sample.claimed !! Sample.path = Some d ∧ d_Claim d = Some c ∧
    HashClaimToken Sample.token = cm_TokenHash c.
Proof.
  destruct sample_state as [H1 H2].
  destruct (st_decisions (exec Sample.resolve Sample.claimed) !! Sample.path) as [d'|] eqn:E; [|discriminate H1].
  destruct (approval_needs_claim Sample.resolve Sample.claimed Sample.path d' sample_filed E)
    as [[d0 H]|(d&c&id&token&state&decision&reason&result&H&_&Hd&_&Hc&Ht&_)].
  - intros H. rewrite <-H in H2. rewrite E in H2. simpl in H1, H2. rewrite H1 in H2. discriminate H2.
  - injection H1 as ->. apply among_true. reflexivity.
  - discriminate H.
  - injection H as <- <- <- <- <- <-. exists d, c. auto.
Defined.
Lemma claim_protected_witness :
  st_decisions (exec (OpClaim "dec_1" (mkClaimOptions "other" "" 0 0 true)) Sample.claimed) !! Sample.path =
  st_decisions Sample.claimed !! Sample.path.
Proof.
  pose proof Sample.claim_live as Hlive.
  destruct (st_decisions Sample.claimed !! Sample.path) as [d|] eqn:E; [|destruct Hlive].
  destruct (d_Claim d) as [c|] eqn:Hc; [|destruct Hlive]. destruct Hlive as (H1&H2&H3).
  destruct (claim_protected (OpClaim "dec_1" (mkClaimOptions "other" "" 0 0 true)) Sample.claimed Sample.path d c
    sample_filed E H1 Hc H2 H3) as [H|[_ []]]. exact H.
Defined.
Lemma timeouts_complete_witness :
  expiredDecision Sample.sweptDecision (opNow (OpTimeoutExpired (Sample.secs 2000)) Sample.claimed) = false.
Proof.
  destruct (timeouts_complete Sample.claimed (Sample.secs 2000) Sample.swept.1 Sample.sweptList Sample.path
    Sample.sweptDecision sample_filed Sample.claimed_root Sample.swept_ok Sample.swept_decision) as [H|H]; [exact H|].
  exfalso. apply H. vm_compute. split_and!; [reflexivity|discriminate|reflexivity].
Defined.
Lemma hidden_decision_outlives_sweeps_witness :
  (λ d, (d_State d, expiredDecision d (Sample.secs 2000))) <$>
    st_decisions (exec (OpTimeoutExpired (Sample.secs 2000)) Sample.hidden) !! decisionPath "/store" ".dec" =
  Some (StatePending, true).
Proof.
  assert (st_root Sample.hidden = "/store") as E by (vm_compute; reflexivity).
  pose proof (hidden_decision_outlives_sweeps Sample.hidden (Sample.secs 2000) ".dec" Sample.hidden_filed Sample.hidden_root
    eq_refl eq_refl) as H. cbv zeta in H. rewrite E in H. rewrite H. vm_compute. reflexivity.
Defined.
