(* ===== verification/GoGlob.v ===== *)
(** * [filepath.Match]

    Go's matcher of shell patterns: the pattern is cut at its stars into chunks
    ([scanChunk]); a chunk is matched at one place ([matchChunk]), and a chunk
    after a star at the first place where it fits, a star never skipping a
    slash.  An error is a malformed pattern.  On patterns without character
    classes and escapes it decides the textbook relation ([globSpec]). *)
From Stdlib Require Import Ascii.
From S2P Require Import Prelude GoStrings GoRunes GoPath.

Inductive GlobError := ErrBadPattern.
Abbreviation GR := (result GlobError).

(** ** The matcher *)

Fixpoint skipStars (pattern : string) : string :=
  match pattern with
  | String c rest => if Ascii.eqb c "*" then skipStars rest else pattern
  | EmptyString => EmptyString
  end.
Fixpoint scanRange (inrange : bool) (pattern : string) : string * string :=
  match pattern with
  | EmptyString => (EmptyString, EmptyString)
  | String c rest =>
      if Ascii.eqb c "\" then
        match rest with
        | String d rest => let '(chunk, rest) := scanRange inrange rest in (String c (String d chunk), rest)
        | EmptyString => (String c EmptyString, EmptyString)
        end
      else if Ascii.eqb c "*" && negb inrange then (EmptyString, pattern)
      else
        let inrange := if Ascii.eqb c "[" then true else if Ascii.eqb c "]" then false else inrange in
        let '(chunk, rest) := scanRange inrange rest in (String c chunk, rest)
  end.
Definition scanChunk (pattern : string) : bool * string * string :=
  let star := HasPrefix pattern "*" in
  let '(chunk, rest) := scanRange false (skipStars pattern) in (star, chunk, rest).

(** The rune at the start of a string, and what follows it. *)
Definition firstRune (s : string) : N * nat :=
  match s with String a rest => DecodeRune a rest | EmptyString => (RuneError, 0) end.

Definition getEsc (chunk : string) : GR (N * string) :=
  match chunk with
  | EmptyString => Err ErrBadPattern
  | String c rest =>
      if Ascii.eqb c "-" || Ascii.eqb c "]" then Err ErrBadPattern
      else
        let chunk := if Ascii.eqb c "\" then rest else chunk in
        if String.eqb chunk EmptyString then Err ErrBadPattern
        else
          let '(r, n) := firstRune chunk in
          let nchunk := drop_str n chunk in
          if ((r =? RuneError)%N && (n =? 1)) || String.eqb nchunk EmptyString
          then Err ErrBadPattern else Ok (r, nchunk)
  end.

(** The ranges of a character class: whether one holds [r], and the pattern
    after the closing bracket.  Every range takes a byte, so the length of the
    chunk is enough fuel. *)
Fixpoint classRanges (fuel : nat) (r : N) (first matched : bool) (chunk : string) : GR (bool * string) :=
  match fuel with
  | O => Err ErrBadPattern
  | S fuel =>
      if negb first && HasPrefix chunk "]" then Ok (matched, drop_str 1 chunk)
      else
        '(lo, chunk) ← getEsc chunk;
        '(hi, chunk) ← (if HasPrefix chunk "-" then getEsc (drop_str 1 chunk) else Ok (lo, chunk));
        classRanges fuel r false (matched || ((lo <=? r)%N && (r <=? hi)%N)) chunk
  end.

(** [matchChunk]; after a failure the rest of the chunk is still parsed. *)
Fixpoint matchChunk_go (fuel : nat) (failed : bool) (chunk s : string) : GR (option string) :=
  match fuel, chunk with
  | O, _ | _, EmptyString => Ok (if failed then None else Some s)
  | S fuel, String c rest =>
      let failed := failed || String.eqb s EmptyString in
      if Ascii.eqb c "[" then
        let '(r, n) := if failed then (0%N, 0) else firstRune s in
        let negated := HasPrefix rest "^" in
        let ranges := if negated then drop_str 1 rest else rest in
        '(matched, rest) ← classRanges (String.length ranges) r true false ranges;
        matchChunk_go fuel (failed || Bool.eqb matched negated) rest (drop_str n s)
      else if Ascii.eqb c "?" then
        if failed then matchChunk_go fuel failed rest s
        else matchChunk_go fuel (HasPrefix s "/") rest (drop_str (firstRune s).2 s)
      else
        let '(c, rest, bad) :=
          if Ascii.eqb c "\" then
            match rest with String c rest => (c, rest, false) | EmptyString => (c, rest, true) end
          else (c, rest, false) in
        if bad : bool then Err ErrBadPattern
        else matchChunk_go fuel (failed || negb (HasPrefix s (String c EmptyString))) rest
               (if failed then s else drop_str 1 s)
  end.
Definition matchChunk (chunk s : string) : GR (option string) :=
  matchChunk_go (String.length chunk) false chunk s.

(** The loop that skips bytes for a star. *)
Fixpoint matchAfterStar (chunk : string) (last : bool) (name : string) : GR (option string) :=
  match name with
  | EmptyString => Ok None
  | String c rest =>
      if Ascii.eqb c slash then Ok None
      else
        m ← matchChunk chunk rest;
        match m with
        | Some t => if last && negb (String.eqb t EmptyString) then matchAfterStar chunk last rest
                    else Ok (Some t)
        | None => matchAfterStar chunk last rest
        end
  end.

(** Before a mismatch is reported, the rest of the pattern is parsed. *)
Fixpoint checkRest (fuel : nat) (pattern : string) : GR bool :=
  match fuel, pattern with
  | O, _ | _, EmptyString => Ok false
  | S fuel, _ =>
      let '(_, chunk, rest) := scanChunk pattern in
      matchChunk chunk EmptyString;; checkRest fuel rest
  end.

Fixpoint Match_go (fuel : nat) (pattern name : string) : GR bool :=
  match fuel, pattern with
  | O, _ | _, EmptyString => Ok (String.eqb name EmptyString)
  | S fuel, _ =>
      let '(star, chunk, rest) := scanChunk pattern in
      if star && String.eqb chunk EmptyString then Ok (negb (ContainsByte name slash))
      else
        m ← matchChunk chunk name;
        match m with
        | Some t =>
            if String.eqb t EmptyString || negb (String.eqb rest EmptyString) then Match_go fuel rest t
            else if star then
              m ← matchAfterStar chunk true name;
              match m with Some t => Match_go fuel rest t | None => checkRest fuel rest end
            else checkRest fuel rest
        | None =>
            if star then
              m ← matchAfterStar chunk (String.eqb rest EmptyString) name;
              match m with Some t => Match_go fuel rest t | None => checkRest fuel rest end
            else checkRest fuel rest
        end
  end.
(** A chunk with its stars takes at least one byte of the pattern. *)
Definition Match (pattern name : string) : GR bool := Match_go (String.length pattern) pattern name.
Open Scope nat_scope.
(** ** The relation it decides

    Over the bytes of a pattern and a name: a star is any run without a slash,
    a question mark any byte but a slash, anything else itself. *)

Definition fits (c d : ascii) : bool :=
  if Ascii.eqb c "?" then negb (Ascii.eqb d slash) else Ascii.eqb c d.
Fixpoint globSpec (p : string) : string → bool :=
  match p with
  | EmptyString => λ s, String.eqb s EmptyString
  | String c p =>
      if Ascii.eqb c "*" then
        fix star s := globSpec p s ||
          match s with String d s => negb (Ascii.eqb d slash) && star s | EmptyString => false end
      else λ s, match s with String d s => fits c d && globSpec p s | EmptyString => false end
  end.

(** Patterns of literal bytes, stars and question marks; a name in which a
    question mark stands for one byte. *)
Definition plainPattern (p : string) : bool :=
  str_forall (λ c, negb (Ascii.eqb c "[" || Ascii.eqb c "\")) p.
Definition noAny (p : string) : bool := str_forall (λ c, negb (Ascii.eqb c "?")) p.
Definition isAscii (s : string) : bool := str_forall (λ c, (byte_of c <? 128)%N) s.
Definition bytewise (p s : string) : Prop := noAny p = true ∨ isAscii s = true.

(** The remainder of a name after a chunk without stars. *)
Fixpoint after (c s : string) : option string :=
  match c, s with
  | EmptyString, _ => Some s
  | String a c, String b s => if fits a b then after c s else None
  | _, EmptyString => None
  end.

Lemma plain_cons a c :
  plainPattern (String a c) = true ↔ (Ascii.eqb a "[" = false ∧ Ascii.eqb a "\" = false) ∧ plainPattern c = true.
Proof. unfold plainPattern. simpl. by rewrite andb_true_iff, negb_true_iff, orb_false_iff. Qed.
Lemma bytewise_cons a c b s : bytewise (String a c) (String b s) → bytewise c s.
Proof.
  unfold bytewise, noAny, isAscii. simpl. rewrite !andb_true_iff. naive_solver.
Qed.

Lemma matchChunk_failed n c s : plainPattern c = true → matchChunk_go n true c s = Ok None.
Proof.
  revert c s. induction n as [|n IH]; intros [|a c] s H; try done.
  apply plain_cons in H as [[H1 H2] Hc]. simpl. rewrite H1, H2. destruct (Ascii.eqb a "?"); by apply IH.
Qed.
Lemma firstRune_ascii b s : (byte_of b <? 128)%N = true → (firstRune (String b s)).2 = 1.
Proof. intros H. unfold firstRune, DecodeRune. destruct (second_bounds _). by rewrite H. Qed.
Lemma HasPrefix_one b s a : HasPrefix (String b s) (String a "") = Ascii.eqb a b.
Proof.
  unfold HasPrefix. simpl. case_match; [subst; rewrite Ascii.eqb_refl; by destruct s|].
  symmetry. by apply Ascii.eqb_neq.
Qed.
Lemma matchChunk_plain n c s :
  plainPattern c = true → bytewise c s → String.length c <= n → matchChunk_go n false c s = Ok (after c s).
Proof.
  revert c s. induction n as [|n IH]; intros [|a c] s H Hb Hn; simpl in Hn; try done; try lia.
  apply plain_cons in H as [[H1 H2] Hc].
  destruct s as [|b s].
  { simpl. rewrite H1, H2. destruct (Ascii.eqb a "?"); by apply matchChunk_failed. }
  pose proof (bytewise_cons _ _ _ _ Hb) as Hb'.
  cbn [matchChunk_go after]. unfold fits. rewrite H1, H2. cbn [String.eqb orb].
  destruct (Ascii.eqb a "?") eqn:Ha.
  - destruct Hb as [Hb|Hb]; [unfold noAny in Hb; simpl in Hb; by rewrite Ha in Hb|].
    unfold isAscii in Hb. simpl in Hb. apply andb_true_iff in Hb as [Hb _].
    rewrite firstRune_ascii, HasPrefix_one by done. rewrite Ascii.eqb_sym. change (Ascii.eqb b slash) with (Ascii.eqb b "/").
    destruct (Ascii.eqb b "/"); simpl; [by apply matchChunk_failed|]. apply IH; [done..|lia].
  - rewrite HasPrefix_one. destruct (Ascii.eqb a b); simpl; [apply IH; [done..|lia]|by apply matchChunk_failed].
Qed.

(** ** Chunks *)

Definition noStar (p : string) : bool := str_forall (λ c, negb (Ascii.eqb c "*")) p.

Lemma scanRange_plain p c r :
  plainPattern p = true → scanRange false p = (c, r) →
  p = c +:+ r ∧ noStar c = true ∧ (r = "" ∨ HasPrefix r "*" = true).
Proof.
  revert c r. induction p as [|a p IH]; intros c r Hp; [by intros [= <- <-]; auto|].
  apply plain_cons in Hp as [[H1 H2] Hp]. simpl. rewrite H1, H2.
  destruct (Ascii.eqb_spec a "*") as [->|Hs]; simpl.
  { intros [= <- <-]. split_and!; auto. right. apply HasPrefix_one. }
  assert ((if Ascii.eqb a "]" then false else false) = false) as -> by by destruct (Ascii.eqb a "]").
  destruct (scanRange false p) as [c' r'] eqn:E. intros [= <- <-].
  destruct (IH c' r' Hp eq_refl) as (->&Hc&Hr). split_and!; [done| |done].
  unfold noStar in *. simpl. rewrite Hc. by destruct (Ascii.eqb_spec a "*").
Qed.

Lemma globSpec_star p s :
  globSpec (String "*" p) s =
    globSpec p s || match s with String d s => negb (Ascii.eqb d slash) && globSpec (String "*" p) s | "" => false end.
Proof. by destruct s. Qed.
(** Many stars are one. *)
Lemma globSpec_stars p s : globSpec (String "*" (String "*" p)) s = globSpec (String "*" p) s.
Proof.
  induction s as [|d s IH]; rewrite (globSpec_star (String "*" p)); [by rewrite orb_false_r|].
  rewrite IH, (globSpec_star p (String d s)).
  by destruct (globSpec p (String d s)), (negb (Ascii.eqb d slash)), (globSpec (String "*" p) s).
Qed.
Lemma globSpec_star_ext p q s :
  (∀ s, globSpec p s = globSpec q s) → globSpec (String "*" p) s = globSpec (String "*" q) s.
Proof.
  intros H. induction s as [|d s IH]; rewrite (globSpec_star p), (globSpec_star q), H; [done|]. by rewrite IH.
Qed.

Definition starred (star : bool) (p : string) : string := if star then String "*" p else p.
Lemma skipStars_spec p :
  (∀ s, globSpec p s = globSpec (starred (HasPrefix p "*") (skipStars p)) s) ∧
  HasPrefix (skipStars p) "*" = false ∧ (plainPattern p = true → plainPattern (skipStars p) = true).
Proof.
  induction p as [|c p (IH1&IH2&IH3)]; [done|]. rewrite HasPrefix_one, Ascii.eqb_sym. cbn [skipStars].
  destruct (Ascii.eqb_spec c "*") as [->|Hc].
  - split_and!; [|done|intros [_ Hp]%plain_cons; auto]. intros s.
    rewrite (globSpec_star_ext _ _ _ IH1). unfold starred.
    destruct (HasPrefix p "*"); [apply globSpec_stars|done].
  - split_and!; [done| |done]. rewrite HasPrefix_one, Ascii.eqb_sym. by apply Ascii.eqb_neq.
Qed.

Lemma skipStars_app p : ∃ w, p = w +:+ skipStars p ∧ (HasPrefix p "*" = true → w ≠ "").
Proof.
  induction p as [|c p (w&IH&_)]; [by exists ""|]. rewrite HasPrefix_one, Ascii.eqb_sym. cbn [skipStars].
  destruct (Ascii.eqb_spec c "*") as [->|Hc]; [|by exists ""].
  exists (String "*" w). split; [|done]. exact (f_equal (String "*") IH).
Qed.

Lemma scanChunk_plain p star c r :
  plainPattern p = true → scanChunk p = (star, c, r) →
  (∀ s, globSpec p s = globSpec (starred star (c +:+ r)) s) ∧ noStar c = true ∧
  (r = "" ∨ HasPrefix r "*" = true) ∧ (c = "" → r = "") ∧
  (p ≠ "" → String.length r < String.length p) ∧
  plainPattern c = true ∧ plainPattern r = true ∧ (noAny p = true → noAny c = true ∧ noAny r = true).
Proof.
  intros Hp. unfold scanChunk. destruct (scanRange false (skipStars p)) as [c' r'] eqn:E. intros [= <- <- <-].
  destruct (skipStars_spec p) as (H1&H2&H3). specialize (H3 Hp).
  destruct (scanRange_plain _ _ _ H3 E) as (Heq&Hc&Hr). rewrite Heq in *.
  destruct (skipStars_app p) as (w&Hw&Hstar). rewrite Heq in Hw.
  assert (c' = "" → r' = "") as Hempty by (intros ->; destruct Hr as [?|Hr]; [done|]; change (HasPrefix r' "*" = false) in H2; congruence).
  split_and!; try done.
  - intros Hne. rewrite Hw, !str_length_app. destruct c' as [|a c']; [|simpl; lia].
    rewrite Hempty by done. rewrite (Hempty eq_refl) in Hw. destruct w; [done|simpl; lia].
  - unfold plainPattern in *. rewrite str_forall_app in H3. by apply andb_true_iff in H3 as [? _].
  - unfold plainPattern in *. rewrite str_forall_app in H3. by apply andb_true_iff in H3 as [_ ?].
  - unfold noAny. rewrite Hw at 1. rewrite !str_forall_app, !andb_true_iff. tauto.
Qed.

(** ** Matching a chunk *)

Lemma globSpec_chunk c r s :
  noStar c = true → globSpec (c +:+ r) s = match after c s with Some t => globSpec r t | None => false end.
Proof.
  revert s. induction c as [|a c IH]; intros s Hc; [done|]. unfold noStar in Hc. simpl in Hc.
  apply andb_true_iff in Hc as [Ha Hc]. simpl. rewrite (proj1 (negb_true_iff _) Ha).
  destruct s as [|b s]; [done|]. destruct (fits a b); [|done]. by apply IH.
Qed.

(** The slashes of a string: a chunk takes as many as it has. *)
Fixpoint slashes (s : string) : nat :=
  match s with "" => 0 | String a s => (if Ascii.eqb a slash then 1 else 0) + slashes s end.
Lemma slashes_app s1 s2 : slashes (s1 +:+ s2) = slashes s1 + slashes s2.
Proof. induction s1 as [|a s1 IH]; simpl; [done|]. rewrite IH. lia. Qed.
Lemma slashes_none s : slashes s = 0 ↔ ContainsByte s slash = false.
Proof.
  unfold ContainsByte, str_exists. rewrite negb_false_iff. induction s as [|a s IH]; [done|].
  cbn [slashes str_forall]. rewrite andb_true_iff, negb_true_iff, <-IH, (Ascii.eqb_sym slash a).
  destruct (Ascii.eqb a slash); simpl; [split; [lia|by intros [[=] _]]|tauto].
Qed.
Lemma fits_slash a b : fits a b = true → Ascii.eqb a slash = Ascii.eqb b slash.
Proof.
  unfold fits. destruct (Ascii.eqb_spec a "?") as [->|]; [intros H%negb_true_iff; by rewrite H|].
  by intros ->%Ascii.eqb_eq.
Qed.
Lemma after_Some c s t :
  after c s = Some t → ∃ x, s = x +:+ t ∧ String.length x = String.length c ∧ slashes x = slashes c.
Proof.
  revert s. induction c as [|a c IH]; intros s H; [injection H as ->; by exists ""|].
  destruct s as [|b s]; [done|]. simpl in H. destruct (fits a b) eqn:Hf; [|done].
  destruct (IH s H) as (x&->&Hl&Hs). exists (String b x). simpl. rewrite (fits_slash _ _ Hf). auto.
Qed.
Lemma str_app_split (x t y r : string) :
  x +:+ t = y +:+ r → String.length x <= String.length y → ∃ w, y = x +:+ w ∧ t = w +:+ r.
Proof.
  revert y. induction x as [|a x IH]; intros y H Hl; [by exists y|].
  destruct y as [|b y]; simpl in Hl; [lia|]. injection H as -> H.
  destruct (IH y H) as (w&->&->); [lia|]. by exists w.
Qed.

(** The first place where a chunk fits leaves a name that a later place
    reaches by skipping bytes that are no slashes. *)
Lemma after_leftmost c u s t t2 :
  after c (u +:+ s) = Some t → after c s = Some t2 → slashes u = 0 → ∃ w, t = w +:+ t2 ∧ slashes w = 0.
Proof.
  intros (x&H1&Hx&Sx)%after_Some (y&->&Hy&Sy)%after_Some Hu. rewrite <-str_app_assoc in H1.
  destruct (str_app_split _ _ _ _ (eq_sym H1)) as (w&Hw&->); [rewrite str_length_app; lia|].
  exists w. split; [done|]. apply (f_equal slashes) in Hw. rewrite !slashes_app in Hw. lia.
Qed.
Lemma globSpec_skip p w s :
  slashes w = 0 → globSpec (String "*" p) s = true → globSpec (String "*" p) (w +:+ s) = true.
Proof.
  induction w as [|a w IH]; intros Hw Hs; [done|]. simpl in Hw. destruct (Ascii.eqb a slash) eqn:Ha; [done|].
  rewrite globSpec_star. change (String a w +:+ s) with (String a (w +:+ s)). cbv iota.
  rewrite Ha, IH by done. by rewrite orb_true_r.
Qed.

Lemma globSpec_star_split p s :
  globSpec (String "*" p) s = true ↔ ∃ u s', s = u +:+ s' ∧ slashes u = 0 ∧ globSpec p s' = true.
Proof.
  split.
  - induction s as [|d s IH]; rewrite globSpec_star; intros [H|H]%orb_true_iff; try done; try (by exists ""; eauto).
    apply andb_true_iff in H as [Hd%negb_true_iff H]. destruct (IH H) as (u&s'&->&Hu&Hs).
    exists (String d u), s'. simpl. by rewrite Hd.
  - intros (u&s'&->&Hu&Hs). apply globSpec_skip; [done|]. rewrite globSpec_star. by rewrite Hs.
Qed.

(** A chunk after a star may be taken at the first place where it fits. *)
Lemma globSpec_leftmost c r s t :
  noStar c = true → after c s = Some t → (r = "" ∧ t = "") ∨ HasPrefix r "*" = true →
  globSpec (String "*" (c +:+ r)) s = globSpec r t.
Proof.
  intros Hc Ht Hr. apply Bool.eq_iff_eq_true. rewrite globSpec_star_split. split.
  - intros (u&s'&->&Hu&Hs). rewrite globSpec_chunk in Hs by done. destruct (after c s') as [t2|] eqn:Ht2; [|done].
    destruct (after_leftmost _ _ _ _ _ Ht Ht2 Hu) as (w&->&Hw).
    destruct Hr as [[-> Hr]|Hr]; [by destruct w|]. destruct r as [|a r]; [done|].
    rewrite HasPrefix_one in Hr. apply Ascii.eqb_eq in Hr as <-. by apply globSpec_skip.
  - intros H. exists "", s. split_and!; [done..|]. rewrite globSpec_chunk by done. by rewrite Ht.
Qed.

(** ** [Match] decides [globSpec] *)

Lemma matchChunk_eq c s : plainPattern c = true → bytewise c s → matchChunk c s = Ok (after c s).
Proof. intros Hp Hb. by apply matchChunk_plain. Qed.

(** Is the chunk's match at this place taken? *)
Definition taken (r : string) (m : option string) : bool :=
  match m with Some t => String.eqb t "" || negb (String.eqb r "") | None => false end.
Lemma globSpec_next c r d s :
  noStar c = true → taken r (after c (String d s)) = false →
  globSpec (String "*" (c +:+ r)) (String d s) = negb (Ascii.eqb d slash) && globSpec (String "*" (c +:+ r)) s.
Proof.
  intros Hc Ht. rewrite globSpec_star, globSpec_chunk by done.
  destruct (after c (String d s)) as [t|]; [|done]. simpl in Ht. apply orb_false_iff in Ht as [Ht Hr%negb_false_iff].
  apply String.eqb_eq in Hr as ->. simpl. by rewrite Ht.
Qed.
Lemma matchAfterStar_spec c r name :
  plainPattern c = true → noStar c = true → r = "" ∨ HasPrefix r "*" = true →
  bytewise c name → taken r (after c name) = false →
  ∃ m, matchAfterStar c (String.eqb r "") name = Ok m ∧
    globSpec (String "*" (c +:+ r)) name = match m with Some t => globSpec r t | None => false end ∧
    ∀ t, m = Some t → ∃ u, name = u +:+ t.
Proof.
  intros Hp Hc Hr. induction name as [|d name IH]; intros Hb Hno.
  { exists None. split_and!; [done| |done]. rewrite globSpec_star, globSpec_chunk by done.
    destruct (after c "") as [t|]; [|done]. simpl in Hno. apply orb_false_iff in Hno as [Ht Hr'%negb_false_iff].
    apply String.eqb_eq in Hr' as ->. simpl. by rewrite Ht. }
  rewrite globSpec_next by done. simpl. destruct (Ascii.eqb d slash); [by exists None|].
  assert (bytewise c name) as Hb'.
  { destruct Hb as [?|Hb]; [by left|right]. unfold isAscii in *. simpl in Hb. by apply andb_true_iff in Hb as [_ ?]. }
  rewrite matchChunk_eq by done. simpl. destruct (taken r (after c name)) eqn:Htk.
  - destruct (after c name) as [t|] eqn:Ht; [|done]. simpl in Htk.
    exists (Some t). split_and!.
    + destruct (String.eqb r ""), (String.eqb t ""); done.
    + simpl. apply globSpec_leftmost; [done..|]. destruct Hr as [->|?]; [left|by right]. split; [done|].
      rewrite orb_false_r in Htk. by apply String.eqb_eq.
    + intros ? [= <-]. apply after_Some in Ht as (x&->&_). by exists (String d x).
  - destruct (IH Hb' eq_refl) as (m&Hm&Hg&Hu). exists m. split_and!; [|done|].
    + destruct (after c name) as [t|]; [|done]. simpl in Htk. destruct (String.eqb r ""), (String.eqb t ""); done.
    + intros t Ht. destruct (Hu t Ht) as [u ->]. by exists (String d u).
Qed.

Lemma bytewise_suffix p q u t : (noAny p = true → noAny q = true) → bytewise p (u +:+ t) → bytewise q t.
Proof.
  intros Hpq [H|H]; [left; auto|right]. unfold isAscii in *. rewrite str_forall_app in H.
  by apply andb_true_iff in H as [_ ?].
Qed.
Lemma checkRest_plain n p : plainPattern p = true → checkRest n p = Ok false.
Proof.
  revert p. induction n as [|n IH]; intros p Hp; [done|]. destruct p as [|a p]; [done|]. cbn [checkRest].
  destruct (scanChunk (String a p)) as [[star c] r] eqn:E.
  destruct (scanChunk_plain _ _ _ _ Hp E) as (_&_&_&_&_&Hc&Hr&_).
  rewrite matchChunk_eq; [by apply IH|done|by right].
Qed.

Lemma str_app_nil s : s +:+ "" = s.
Proof. induction s as [|a s IH]; [done|]. exact (f_equal (String a) IH). Qed.
Lemma globSpec_only_star s : globSpec "*" s = negb (ContainsByte s slash).
Proof.
  apply Bool.eq_iff_eq_true. rewrite globSpec_star_split, negb_true_iff, <-slashes_none. split.
  - intros (u&s'&->&Hu&->%String.eqb_eq). rewrite slashes_app. simpl. lia.
  - intros Hs. exists s, "". split_and!; [|done..]. by rewrite str_app_nil.
Qed.

(** The loop of [Match], by whether the chunk's match at the current place is
    taken. *)
Lemma Match_go_eq n p s star c r :
  p ≠ "" → scanChunk p = (star, c, r) → star && String.eqb c "" = false → plainPattern c = true → bytewise c s →
  Match_go (S n) p s =
    if taken r (after c s) then Match_go n r (default "" (after c s))
    else if star then
      m ← matchAfterStar c (String.eqb r "") s;
      match m with Some t => Match_go n r t | None => checkRest n r end
    else checkRest n r.
Proof.
  intros Hne E Hs Hp Hb. destruct p as [|a p]; [done|]. cbn [Match_go]. rewrite E, Hs, matchChunk_eq by done.
  simpl. destruct (after c s) as [t|]; [|done]. simpl. destruct (String.eqb t ""), (String.eqb r ""); done.
Qed.
Lemma Match_go_spec n p s :
  plainPattern p = true → bytewise p s → String.length p <= n → Match_go n p s = Ok (globSpec p s).
Proof.
  revert p s. induction n as [|n IH]; intros p s Hp Hb Hn.
  { destruct p; simpl in Hn; [done|lia]. }
  destruct (decide (p = "")) as [->|Hne]; [done|].
  destruct (scanChunk p) as [[star c] r] eqn:E.
  destruct (scanChunk_plain _ _ _ _ Hp E) as (Hg&Hc&Hr&He&Hlen&Hpc&Hpr&Hany). rewrite Hg. specialize (Hlen Hne).
  destruct (star && String.eqb c "") eqn:Hstar.
  { apply andb_true_iff in Hstar as [-> ->%String.eqb_eq]. rewrite (He eq_refl). simpl starred.
    rewrite globSpec_only_star. destruct p; [done|]. cbn [Match_go]. by rewrite E. }
  assert (∀ t u, s = u +:+ t → Match_go n r t = Ok (globSpec r t)) as Hrec.
  { intros t u ->. apply IH; [done| |lia]. eapply (bytewise_suffix p); [|done]. naive_solver. }
  assert (bytewise c s) as Hbc by (eapply (bytewise_suffix p _ ""); naive_solver).
  rewrite (Match_go_eq n p s star c r) by done.
  destruct (taken r (after c s)) eqn:Htk.
  - destruct (after c s) as [t|] eqn:Ht; [|done]. simpl default.
    destruct (after_Some _ _ _ Ht) as (u&Hu&_). rewrite (Hrec _ _ Hu). f_equal. destruct star; simpl starred.
    + symmetry. apply globSpec_leftmost; [done..|]. simpl in Htk. destruct Hr as [->|?]; [left|by right].
      split; [done|]. rewrite orb_false_r in Htk. by apply String.eqb_eq.
    + by rewrite globSpec_chunk, Ht.
  - destruct star; simpl starred.
    + destruct (matchAfterStar_spec c r s Hpc Hc Hr Hbc Htk) as (m&Hm&->&Hu). rewrite Hm. simpl.
      destruct m as [t|]; [|by apply checkRest_plain]. destruct (Hu t eq_refl) as [u Ht]. by apply (Hrec t u).
    + rewrite checkRest_plain, globSpec_chunk by done. f_equal. destruct (after c s) as [t|]; [|done].
      simpl in Htk. apply orb_false_iff in Htk as [Ht ->%negb_false_iff%String.eqb_eq]. simpl. by rewrite Ht.
Qed.

(** On a pattern of literals, stars and question marks, and a name a question
    mark can take byte by byte, [Match] decides the textbook relation and never
    reports an error. *)
Lemma Match_spec p s : plainPattern p = true → bytewise p s → Match p s = Ok (globSpec p s).
Proof. intros Hp Hb. by apply Match_go_spec. Qed.

(** A slash of the pattern matches exactly a slash of the name: a pattern is
    matched element by element. *)
Lemma globSpec_slash a p s :
  slashes a = 0 →
  globSpec (a +:+ String slash p) s = true ↔
  ∃ x y, s = x +:+ String slash y ∧ slashes x = 0 ∧ globSpec a x = true ∧ globSpec p y = true.
Proof.
  revert s. induction a as [|c a IH]; intros s Ha.
  - change ("" +:+ String slash p) with (String slash p). split.
    + destruct s as [|d s]; [done|]. intros [Hf Hg]%andb_true_iff. apply Ascii.eqb_eq in Hf as <-.
      by exists "", s.
    + intros (x&y&->&Hx&Hg&Hp). destruct x; [|done]. change (fits slash slash && globSpec p y = true).
      by rewrite Hp.
  - assert (slashes a = 0) as Ha' by (simpl in Ha; lia). specialize (IH) with (1 := Ha').
    change (String c a +:+ String slash p) with (String c (a +:+ String slash p)).
    destruct (Ascii.eqb_spec c "*") as [->|Hc].
    + rewrite globSpec_star_split. split.
      * intros (u&s'&->&Hu&(x&y&->&Hx&Hgx&Hgy)%IH). exists (u +:+ x), y.
        rewrite <-str_app_assoc, slashes_app. split_and!; [done|lia| |done]. apply globSpec_star_split; eauto.
      * intros (x&y&->&Hx&(u&s'&->&Hu&Hg)%globSpec_star_split&Hgy). rewrite slashes_app in Hx.
        exists u, (s' +:+ String slash y). rewrite str_app_assoc. split_and!; [done..|].
        apply IH. exists s', y. split_and!; [done|lia|done..].
    + assert (∀ q s, globSpec (String c q) s = match s with String d s => fits c d && globSpec q s | "" => false end) as Hlit.
      { intros q s'. simpl. by destruct (Ascii.eqb_spec c "*"). }
      rewrite Hlit. split.
      * destruct s as [|d s]; [done|]. intros [Hf (x&y&->&Hx&Hgx&Hgy)%IH]%andb_true_iff.
        exists (String d x), y. rewrite Hlit, Hf, Hgx. split_and!; [done| |done..].
        simpl. rewrite <-(fits_slash _ _ Hf). simpl in Ha. lia.
      * intros (x&y&->&Hx&Hgx&Hgy). rewrite Hlit in Hgx. destruct x as [|d x]; [done|].
        apply andb_true_iff in Hgx as [Hf Hgx]. change (fits c d && globSpec (a +:+ String slash p) (x +:+ String slash y) = true).
        rewrite Hf. apply IH. exists x, y. split_and!; [done|simpl in Hx; lia|done..].
Qed.

Lemma globSpec_slashes p s : globSpec p s = true → slashes s = slashes p.
Proof.
  revert s. induction p as [|c p IH]; intros s; [by intros ->%String.eqb_eq|].
  destruct (Ascii.eqb_spec c "*") as [->|Hc].
  - rewrite globSpec_star_split. intros (u&s'&->&Hu&H%IH). rewrite slashes_app. simpl. lia.
  - simpl. destruct (Ascii.eqb_spec c "*"); [done|]. destruct s as [|d s]; [done|].
    intros [Hf H%IH]%andb_true_iff. simpl. rewrite (fits_slash _ _ Hf). lia.
Qed.

Fixpoint globElements (ps xs : list string) : bool :=
  match ps, xs with
  | [], [] => true
  | p :: ps, x :: xs => globSpec p x && globElements ps xs
  | _, _ => false
  end.
Lemma slash_split_inj x1 x2 y1 y2 :
  slashes x1 = 0 → slashes x2 = 0 → x1 +:+ String slash y1 = x2 +:+ String slash y2 → x1 = x2 ∧ y1 = y2.
Proof.
  revert x2. induction x1 as [|a x1 IH]; intros [|b x2] H1 H2 E; simpl in *; try (injection E as <- E; done).
  - by injection E as ->.
  - injection E as -> E. by rewrite Ascii.eqb_refl in H1.
  - injection E as -> E. destruct (IH x2) as [-> ->]; [lia..|done|done].
Qed.
Lemma noSlash_slashes s : noSlash s = true ↔ slashes s = 0.
Proof.
  unfold noSlash. induction s as [|a s IH]; [done|]. cbn [str_forall slashes].
  rewrite andb_true_iff, IH. destruct (Ascii.eqb a slash); simpl; [split; [by intros [[=] _]|lia]|tauto].
Qed.
Lemma JoinSlash_slashes l : Forall (λ e, noSlash e = true) l → slashes (JoinSlash l) = length l - 1.
Proof.
  induction 1 as [|x l Hx Hl IH]; [done|]. apply noSlash_slashes in Hx. destruct l as [|y l]; [done|].
  rewrite JoinSlash_cons, slashes_app, Hx by done. cbn [slashes]. rewrite Ascii.eqb_refl, IH. simpl. lia.
Qed.
Lemma globSpec_elements ps xs :
  ps ≠ [] → xs ≠ [] → Forall (λ e, noSlash e = true) ps → Forall (λ e, noSlash e = true) xs →
  globSpec (JoinSlash ps) (JoinSlash xs) = globElements ps xs.
Proof.
  intros Hne Hnx Hps. revert xs Hnx. induction Hps as [|p ps Hp Hps IH]; [done|].
  intros xs Hnx Hxs. destruct Hxs as [|x xs Hx Hxs]; [done|]. clear Hne Hnx.
  pose proof (proj1 (noSlash_slashes _) Hp) as Sp. pose proof (proj1 (noSlash_slashes _) Hx) as Sx.
  destruct ps as [|p' ps], xs as [|x' xs].
  - simpl. by rewrite andb_true_r.
  - simpl. rewrite andb_false_r. apply not_true_iff_false. intros H%globSpec_slashes.
    rewrite slashes_app in H. cbn [slashes] in H. rewrite Ascii.eqb_refl in H. lia.
  - simpl. rewrite andb_false_r. apply not_true_iff_false. intros H%globSpec_slashes.
    rewrite slashes_app in H. cbn [slashes] in H. rewrite Ascii.eqb_refl in H. lia.
  - rewrite !JoinSlash_cons by done. apply Bool.eq_iff_eq_true. rewrite globSpec_slash by done.
    change (globElements (p :: p' :: ps) (x :: x' :: xs)) with (globSpec p x && globElements (p' :: ps) (x' :: xs)).
    assert (globSpec (JoinSlash (p' :: ps)) (JoinSlash (x' :: xs)) = globElements (p' :: ps) (x' :: xs)) as <-
      by (by apply IH).
    rewrite andb_true_iff. split.
    + intros (u&y&E&Hu&H1&H2). destruct (slash_split_inj _ _ _ _ Sx Hu E) as [<- <-]. done.
    + intros [H1 H2]. by eexists x, _.
Qed.

(** ** Samples *)

Example Match_star : Match "a*b?c*x" "abxbbxdbxebxczzx" = Ok true.
Proof. vm_compute. reflexivity. Qed.
Example Match_star_slash : Match "a*/b" "a/c/b" = Ok false.
Proof. vm_compute. reflexivity. Qed.
Example Match_bad : Match "[-x]" "x" = Err ErrBadPattern.
Proof. vm_compute. reflexivity. Qed.
(** A negated class takes a slash, which neither a star nor a question mark does. *)
Example Match_class_slash : Match "a[^x]c" "a/c" = Ok true.
Proof. vm_compute. reflexivity. Qed.
