(* ===== verification/HostPathRisk.v ===== *)
(** * Risky host roots (src/internal/hostpathrisk/catalog.go)

    The categorised roots shared by the workspace checks and the broad
    discovery policy.  The process's home directory is an argument. *)
From S2P Require Import Prelude GoStrings GoPath.
Open Scope list_scope.

Definition CategoryHomeBoundary : string := "home-boundary".
Definition CategoryControlPlane : string := "control-plane".
Definition CategoryCredential : string := "credential".
Definition CategoryBrowser : string := "browser".
Definition CategorySystemKey : string := "system-key".

Record Root := mkRoot {
  rt_Path : string; rt_Reason : string; rt_Category : string;
  rt_WorkspaceRestricted : bool; rt_BroadDiscoveryHidden : bool }.
#[global] Instance Root_eta : Eta Root := λ r,
  mkRoot (rt_Path r) (rt_Reason r) (rt_Category r) (rt_WorkspaceRestricted r) (rt_BroadDiscoveryHidden r).

Definition hiddenRoot (home relative category reason : string) : Root :=
  mkRoot (Join home relative) reason category true true.

Fixpoint deduplicateFrom (seen : list string) (roots : list Root) : list Root :=
  match roots with
  | [] => []
  | root :: roots =>
      let root := root <| rt_Path ::= Clean |> in
      if existsb (String.eqb (rt_Path root)) seen then deduplicateFrom seen roots
      else root :: deduplicateFrom (rt_Path root :: seen) roots
  end.
Definition deduplicate (roots : list Root) : list Root := deduplicateFrom [] roots.

Definition credentialRoots : list string :=
  [".ssh"; ".gnupg"; ".aws"; ".azure"; ".kube"; ".docker"; ".android"; ".config/gcloud"; ".config/gh"].
Definition browserRoots : list string :=
  [".config/google-chrome"; ".config/BraveSoftware"; ".config/microsoft-edge"; ".mozilla";
   "Library/Application Support/Google/Chrome"; "Library/Application Support/BraveSoftware";
   "Library/Application Support/Firefox"; "Library/Application Support/Microsoft Edge"].

Definition catalogFor (home storeRoot : string) : list Root :=
  let store :=
    if String.eqb (TrimSpace storeRoot) "" then []
    else [mkRoot (Clean storeRoot) "Hideout control-plane store" CategoryControlPlane true true] in
  let home := TrimSpace home in
  let homes :=
    if String.eqb home "" then []
    else
      let home := Clean home in
      [mkRoot home "host home contains credentials and Hideout control-plane state" CategoryHomeBoundary
         true false]
      ++ map (λ rel, hiddenRoot home rel CategoryCredential "credential root") credentialRoots
      ++ map (λ rel, hiddenRoot home rel CategoryBrowser "browser profile root") browserRoots
      ++ [hiddenRoot home "Library/Keychains" CategorySystemKey "host keychain root"] in
  deduplicate (store ++ homes
    ++ [mkRoot "/Library/Keychains" "system credential root" CategorySystemKey true true]).

Definition BroadDiscoveryHiddenRootsFor (home storeRoot : string) : list Root :=
  List.filter rt_BroadDiscoveryHidden (catalogFor home storeRoot).

(** ** Lemmas *)

Lemma deduplicateFrom_hidden seen roots r :
  r ∈ roots → Clean (rt_Path r) ∉ seen →
  (∀ x, x ∈ roots → Clean (rt_Path x) = Clean (rt_Path r) → rt_BroadDiscoveryHidden x = true) →
  ∃ r', r' ∈ deduplicateFrom seen roots ∧ rt_Path r' = Clean (rt_Path r) ∧ rt_BroadDiscoveryHidden r' = true.
Proof.
  revert seen. induction roots as [|x roots IH]; intros seen Hin Hs Hall; [by apply elem_of_nil in Hin|].
  assert (∀ x0, x0 ∈ roots → Clean (rt_Path x0) = Clean (rt_Path r) → rt_BroadDiscoveryHidden x0 = true) as Hall'
    by (intros; apply Hall; [by apply elem_of_cons; right|done]).
  simpl. destruct (existsb _ seen) eqn:E.
  - apply existsb_true in E as (y&Hy&E%String.eqb_eq). simpl in E. subst y.
    apply elem_of_cons in Hin as [->|Hin]; [done|by apply IH].
  - destruct (decide (Clean (rt_Path x) = Clean (rt_Path r))) as [Heq|Hne].
    + exists (x <| rt_Path ::= Clean |>). split_and!; [apply elem_of_cons; by left|done|].
      apply (Hall x); [apply elem_of_cons; by left|done].
    + apply elem_of_cons in Hin as [->|Hin]; [done|].
      destruct (IH (Clean (rt_Path x) :: seen) Hin) as (r'&?&?); [set_solver|done|].
      exists r'. split; [apply elem_of_cons; by right|done].
Qed.

(** Under an absolute home directory, every credential, browser and key root of
    the catalogue is hidden from broad discovery. *)
Definition homeHidden : list string := credentialRoots ++ browserRoots ++ ["Library/Keychains"].
Lemma homeHidden_rel rel : rel ∈ homeHidden → ∃ r, rel = JoinSlash r ∧ r ≠ [] ∧ Forall isName r.
Proof.
  intros H. exists (SplitSlash rel). split_and!; [by rewrite Join_SplitSlash|apply SplitSlash_nonempty|].
  assert (forallb (λ rel, forallb (λ e, negb (existsb (String.eqb e) [""; "."; ".."])) (SplitSlash rel)) homeHidden
    = true) as Hall by (vm_compute; reflexivity).
  rewrite forallb_forall in Hall. apply list_elem_of_In, Hall in H. rewrite forallb_forall in H.
  apply Forall_forall. intros e He. pose proof (SplitSlash_noSlash rel) as Hs. rewrite Forall_forall in Hs.
  specialize (Hs e He). apply list_elem_of_In, H, negb_true_iff in He.
  split_and!; [done|..]; intros ->; vm_compute in He; discriminate He.
Qed.

Definition rawCatalog (home storeRoot : string) : list Root :=
  (if String.eqb (TrimSpace storeRoot) "" then []
   else [mkRoot (Clean storeRoot) "Hideout control-plane store" CategoryControlPlane true true])
  ++ [mkRoot home "host home contains credentials and Hideout control-plane state" CategoryHomeBoundary true false]
  ++ map (λ rel, hiddenRoot home rel CategoryCredential "credential root") credentialRoots
  ++ map (λ rel, hiddenRoot home rel CategoryBrowser "browser profile root") browserRoots
  ++ [hiddenRoot home "Library/Keychains" CategorySystemKey "host keychain root"]
  ++ [mkRoot "/Library/Keychains" "system credential root" CategorySystemKey true true].

Lemma catalogFor_raw home storeRoot :
  TrimSpace home ≠ "" → catalogFor home storeRoot = deduplicate (rawCatalog (Clean (TrimSpace home)) storeRoot).
Proof.
  intros Hne%String.eqb_neq. unfold catalogFor, rawCatalog. by rewrite Hne.
Qed.

Lemma hidden_under_home home storeRoot hs rel :
  Clean (TrimSpace home) = absPath hs → hs ≠ [] → Forall isName hs → rel ∈ homeHidden →
  ∃ r, r ∈ BroadDiscoveryHiddenRootsFor home storeRoot ∧
    rt_Path r = Join (absPath hs) rel ∧ rt_BroadDiscoveryHidden r = true.
Proof.
  intros Hhome Hne Hhs Hrel. destruct (homeHidden_rel rel Hrel) as (rs&Heq&Hrne&Hrs).
  assert (TrimSpace home ≠ "") as Hnb by (intros E; rewrite E in Hhome; done).
  pose proof (Join_absPath hs rs Hne Hhs Hrne Hrs) as HJ. rewrite <-Heq in HJ.
  assert (Forall isName (hs ++ rs)) as Hn by (apply Forall_app; auto).
  assert (hs ++ rs ≠ []) as Hnn by (by destruct hs).
  assert (∃ cat reason, hiddenRoot (absPath hs) rel cat reason ∈ rawCatalog (absPath hs) storeRoot)
    as (cat&reason&Hin).
  { unfold rawCatalog, homeHidden in *. rewrite !elem_of_app in Hrel.
    destruct Hrel as [H|[H|H]]; eexists _, _; rewrite !elem_of_app.
    - right; right; left. apply list_elem_of_fmap. eauto.
    - right; right; right; left. apply list_elem_of_fmap. eauto.
    - apply list_elem_of_singleton in H as ->. right; right; right; right; left. by apply list_elem_of_singleton. }
  destruct (deduplicateFrom_hidden [] (rawCatalog (absPath hs) storeRoot) _ Hin) as (r&Hr&Hp&Hh).
  - apply not_elem_of_nil.
  - intros x Hx Hc. unfold rawCatalog in Hx. rewrite !elem_of_app in Hx. simpl in Hc. rewrite HJ, Clean_absPath in Hc by done.
    destruct Hx as [Hx|[Hx|[Hx|[Hx|[Hx|Hx]]]]].
    + destruct (String.eqb _ ""); [by apply elem_of_nil in Hx|]. by apply list_elem_of_singleton in Hx as ->.
    + apply list_elem_of_singleton in Hx as ->. simpl in Hc. rewrite Clean_absPath in Hc by done.
      apply absPath_inj in Hc; [|done..]. apply (f_equal length) in Hc. rewrite length_app in Hc.
      destruct rs; [done|simpl in Hc; lia].
    + by apply list_elem_of_fmap in Hx as (?&->&_).
    + by apply list_elem_of_fmap in Hx as (?&->&_).
    + by apply list_elem_of_singleton in Hx as ->.
    + by apply list_elem_of_singleton in Hx as ->.
  - exists r. unfold BroadDiscoveryHiddenRootsFor. rewrite catalogFor_raw, Hhome by done. split_and!; [|..|done].
    + apply list_elem_of_In, filter_In. split; [by apply list_elem_of_In|done].
    + rewrite Hp. simpl. by rewrite HJ, Clean_absPath.
Qed.
