(* ===== verification/HostFS.v ===== *)
(** * The HostFS policy (src/internal/hostfs/hostfs.go, visibility.go)

    Rules, the policy built from the profile, environment and run
    configurations, and its two questions: [Decide] an operation on a path, and
    the [Visibility] of a path.  What the process reads of its host (symbolic
    links, its home directory, whether file names fold case, and the lower case
    of a string) is the record [Host]. *)
From Stdlib Require Import Ascii.
From S2P Require Import Prelude GoStrings GoTime GoHash GoRunes GoPath GoGlob HostPathRisk.
Open Scope Z_scope.

(** The classes of file system errors the code tells apart. *)
Inductive FsError := FsNotExist | FsPermission | FsOther.
Record Host := mkHost {
  h_EvalSymlinks : string → result FsError string;
  h_Home : string;
  h_FoldsCase : bool;
  h_ToLower : string → string }.

(** ** Constants and records *)

Definition OpStat : string := "stat".
Definition OpDiscover : string := "discover".
Definition OpRead : string := "read".
Definition OpList : string := "list".
Definition OpWrite : string := "write".
Definition OpCreate : string := "create".
Definition OpAppend : string := "append".
Definition OpTruncate : string := "truncate".
Definition OpMkdir : string := "mkdir".
Definition OpDelete : string := "delete".
Definition OpRename : string := "rename".
Definition OpChmod : string := "chmod".
Definition OpChown : string := "chown".

Definition ScopeExactFile : string := "exact-file".
Definition ScopeGlob : string := "glob".
Definition ScopeDir : string := "dir".
Definition ScopeRecursiveDir : string := "recursive-dir".

Definition SourceProfile : string := "profile".
Definition SourceEnvironment : string := "environment".
Definition SourceRun : string := "run".

Definition ReservedRootReason : string := "Hideout control-plane path is reserved".

Definition writeOps : list string :=
  [OpWrite; OpCreate; OpAppend; OpTruncate; OpMkdir; OpDelete; OpRename; OpChmod; OpChown].

Record Rule := mkRule {
  r_ID : string; r_HostPath : string; r_GuestPath : string; r_Ops : list string; r_Overlay : bool;
  r_Scope : string; r_Subject : string; r_TTL : string; r_CreatedAt : option Time;
  r_ExpiresAt : option Time; r_Reason : string }.
#[global] Instance Rule_eta : Eta Rule := λ r,
  mkRule (r_ID r) (r_HostPath r) (r_GuestPath r) (r_Ops r) (r_Overlay r) (r_Scope r) (r_Subject r)
    (r_TTL r) (r_CreatedAt r) (r_ExpiresAt r) (r_Reason r).

Record Config := mkConfig { c_Grants : list Rule; c_Deny : list Rule }.

Record BuildInput := mkBuildInput {
  bi_Profile : Config; bi_Environment : Config; bi_Run : Config; bi_Now : Time;
  bi_StoreRoot : string; bi_Home : string }.

Record Grant := mkGrant { g_Rule : Rule; g_Source : string; g_Index : Z }.

Record EffectivePolicy := mkPolicy {
  p_Grants : list Grant; p_Deny : list Grant; p_Now : Time; p_ReservedRoots : list string }.
#[global] Instance EffectivePolicy_eta : Eta EffectivePolicy := λ p,
  mkPolicy (p_Grants p) (p_Deny p) (p_Now p) (p_ReservedRoots p).

(** [hostfs.Decision] *)
Record FSDecision := mkFSDecision {
  fd_Allowed : bool; fd_Effect : string; fd_Reason : string; fd_RuleID : string; fd_GrantID : string;
  fd_Source : string }.

Inductive HostFSError := ErrHostFS (what : string).
Abbreviation HR := (result HostFSError).
Definition check (b : bool) (what : string) : HR () := guard_err b (ErrHostFS what).

Definition contains (l : list string) (x : string) : bool := existsb (String.eqb x) l.

(** ** Paths *)

Definition cleanHostPath (path : string) : HR string :=
  check (negb (String.eqb (TrimSpace path) "")) "hostPath is required";;
  check (negb (ContainsByte path zero)) "hostPath must not contain NUL";;
  check (negb (ContainsByte path "\")) "hostPath must use slash-separated paths";;
  check (negb (Contains path "://" || HasPrefix path "//")) "must be an absolute local path";;
  check (IsAbs path) "must be absolute";;
  let clean := Clean path in
  check (negb (String.eqb clean "/")) "hostPath must not be host root";;
  mret clean.

Definition cleanGuestPath (path : string) : HR string :=
  check (negb (String.eqb (TrimSpace path) "")) "guestPath is required when present";;
  check (negb (ContainsByte path zero)) "guestPath must not contain NUL";;
  check (negb (ContainsByte path "\")) "guestPath must use slash-separated paths";;
  check (negb (Contains path "://" || HasPrefix path "//")) "must be an absolute guest path";;
  check (IsAbs path) "must be absolute";;
  let clean := Clean path in
  check (negb (String.eqb clean "/")) "guestPath must not be guest root";;
  mret clean.

Definition pathInRoot (path root : string) : bool :=
  let path := Clean path in
  let root := Clean root in
  String.eqb path root || HasPrefix path (root +:+ "/").
Definition pathInReservedRoots (path : string) (reservedRoots : list string) : bool :=
  existsb (pathInRoot path) reservedRoots.

Definition pathParts (path : string) : list string :=
  let clean := TrimSet (Ascii.eqb slash) (Clean path) in
  if String.eqb clean "" then [] else SplitSlash clean.

Definition normalizeReservedRoots (storeRoot : string) : HR (list string) :=
  if String.eqb (TrimSpace storeRoot) "" then mret []
  else root ← cleanHostPath storeRoot; mret [root].

(** ** Glob selectors *)

Definition oneOfRunes (set : string) (r : N) : bool := existsb (N.eqb r) ((λ t, t.1) <$> runes set).

(** The byte offset of the first unescaped metacharacter; [None] is [-1]. *)
Fixpoint firstMeta (index : nat) (escaped : bool) (ts : list Tok) : option nat :=
  match ts with
  | [] => None
  | (r, b) :: ts =>
      let next := (index + String.length b)%nat in
      if escaped then firstMeta next false ts
      else if (r =? byte_of "\")%N then firstMeta next true ts
      else if oneOfRunes "*?[" r then Some index
      else firstMeta next false ts
  end.
Definition firstUnescapedGlobMeta (path : string) : option nat := firstMeta 0 false (runes path).
Definition hasGlobMeta (path : string) : bool :=
  match firstUnescapedGlobMeta path with Some _ => true | None => false end.

Fixpoint unescapedMeta (escaped : bool) (ts : list Tok) : HR bool :=
  match ts with
  | [] => check (negb escaped) "trailing backslash escape";; mret false
  | (r, _) :: ts =>
      if escaped then
        check (oneOfRunes "*?[]\" r) "backslash may only escape *, ?, [, ], or \";; unescapedMeta false ts
      else if (r =? byte_of "\")%N then unescapedMeta true ts
      else if oneOfRunes "*?[" r then mret true
      else unescapedMeta false ts
  end.
Definition hasUnescapedGlobMeta (path : string) : HR bool := unescapedMeta false (runes path).

(** [WriteRune]: an invalid byte is written as U+FFFD. *)
Definition WriteRune (t : Tok) : string :=
  if (t.1 =? RuneError)%N then bytes [239; 191; 189]%N else t.2.
Definition escapedSelector (hasGlob : bool) (t : Tok) : string :=
  if hasGlob then
    if (t.1 =? byte_of "*")%N then "[*]"
    else if (t.1 =? byte_of "?")%N then "[?]"
    else if (t.1 =? byte_of "[")%N then "[[]"
    else if (t.1 =? byte_of "]")%N then "]"
    else if (t.1 =? byte_of "\")%N then "\\"
    else ""
  else WriteRune t.
Fixpoint selectorText (hasGlob escaped : bool) (ts : list Tok) : HR string :=
  match ts with
  | [] => mret ""
  | (r, b) :: ts =>
      if escaped then
        check (oneOfRunes "*?[]\" r) "backslash may only escape *, ?, [, ], or \";;
        out ← selectorText hasGlob false ts;
        mret (escapedSelector hasGlob (r, b) +:+ out)
      else if (r =? byte_of "\")%N then selectorText hasGlob true ts
      else out ← selectorText hasGlob false ts; mret (WriteRune (r, b) +:+ out)
  end.
Definition normalizeHostPathSelector (path : string) : HR (string * bool) :=
  hasGlob ← hasUnescapedGlobMeta path;
  out ← selectorText hasGlob false (runes path);
  mret (out, hasGlob).

Definition validateGlobPattern (pattern : string) : HR () :=
  check (hasGlobMeta pattern) "glob HostFS scope requires a pattern containing *, ?, or [";;
  match Match pattern pattern with Ok _ => mret tt | Err _ => Err (ErrHostFS "invalid HostFS glob pattern") end.

Definition globStaticBase (pattern : string) : string :=
  match firstUnescapedGlobMeta pattern with
  | None => Dir pattern
  | Some index =>
      let prefix := SplitSlash (take_str index pattern) in
      (* everything before the last slash of the prefix, unless it starts there *)
      match removelast prefix with
      | [] | [EmptyString] => "/"
      | l => Clean (JoinSlash l)
      end
  end.

Section glob.
Context (h : Host).

Definition normalizeGlobMatchInputs (pattern hostPath : string) (caseInsensitive : bool) : string * string :=
  if caseInsensitive then (h_ToLower h pattern, h_ToLower h hostPath) else (pattern, hostPath).

Fixpoint dotHidden (patternParts hostParts : list string) : bool :=
  match patternParts, hostParts with
  | p :: ps, x :: xs => (HasPrefix x "." && negb (HasPrefix p ".")) || dotHidden ps xs
  | _, _ => false
  end.
Definition globDotfileImplicitlyMatches (pattern hostPath : string) : bool :=
  let patternParts := pathParts pattern in
  let hostParts := pathParts hostPath in
  (length patternParts =? length hostParts)%nat && dotHidden patternParts hostParts.

Definition matches (pattern name : string) : bool :=
  match Match pattern name with Ok b => b | Err _ => false end.
Definition globMatchesWithCaseMode (pattern hostPath : string) (caseInsensitive : bool) : bool :=
  let '(matchPattern, matchPath) := normalizeGlobMatchInputs pattern hostPath caseInsensitive in
  if globDotfileImplicitlyMatches matchPattern matchPath then false else matches matchPattern matchPath.
Definition globMatches (pattern hostPath : string) : bool :=
  globMatchesWithCaseMode pattern hostPath (h_FoldsCase h).
Definition globMatchesIncludingDotfile (pattern hostPath : string) : bool :=
  let '(matchPattern, matchPath) := normalizeGlobMatchInputs pattern hostPath (h_FoldsCase h) in
  matches matchPattern matchPath.

Fixpoint prefixMatches (patternParts dirParts : list string) : bool :=
  match dirParts, patternParts with
  | [], _ => true
  | dirPart :: dirParts, patternPart :: patternParts =>
      let '(p, d) := normalizeGlobMatchInputs patternPart dirPart (h_FoldsCase h) in
      if globDotfileImplicitlyMatches p d then false
      else matches p d && prefixMatches patternParts dirParts
  | _, [] => false
  end.
Definition globCouldMatchChildOf (pattern dir : string) : bool :=
  let dirParts := pathParts dir in
  let patternParts := pathParts pattern in
  if (length patternParts <=? length dirParts)%nat then false else prefixMatches patternParts dirParts.
End glob.

(** ** Rules *)

Definition knownOp (op : string) : bool :=
  contains [OpDiscover; OpStat; OpRead; OpList; OpWrite; OpCreate; OpAppend; OpTruncate; OpMkdir; OpDelete;
    OpRename; OpChmod; OpChown] op.
Definition validateKnownOp (op : string) : HR () := check (knownOp op) "unsupported HostFS op".

Definition opRank (op : string) : Z :=
  if String.eqb op OpDiscover then 0 else if String.eqb op OpStat then 1
  else if String.eqb op OpRead then 2 else if String.eqb op OpList then 3
  else if String.eqb op OpWrite then 4 else if String.eqb op OpCreate then 5
  else if String.eqb op OpAppend then 6 else if String.eqb op OpTruncate then 7
  else if String.eqb op OpMkdir then 8 else if String.eqb op OpDelete then 9
  else if String.eqb op OpRename then 10 else if String.eqb op OpChmod then 11
  else if String.eqb op OpChown then 12 else 100.
Definition rankLe (a b : string) : Prop := opRank a ≤ opRank b.
#[global] Instance rankLe_dec a b : base.Decision (rankLe a b) := Z_le_dec (opRank a) (opRank b).
Definition sortOps (ops : list string) : list string := merge_sort rankLe ops.

Definition appendMissingOp (ops : list string) (op : string) : list string :=
  if contains ops op then ops else (ops ++ [op])%list.

Fixpoint normalizeOpsFrom (seen ops : list string) : HR (list string) :=
  match ops with
  | [] => mret []
  | op :: ops =>
      validateKnownOp op;;
      check (negb (contains seen op)) "duplicate op";;
      rest ← normalizeOpsFrom (op :: seen) ops;
      mret (op :: rest)
  end.
Definition normalizeOps (ops : list string) : HR (list string) := normalizeOpsFrom [] ops.

Fixpoint checkGrantOps (overlay : bool) (ops : list string) : HR () :=
  match ops with
  | [] => mret tt
  | op :: ops =>
      (if contains writeOps op
       then check overlay "write-class op requires an explicit overlay grant"
       else check (negb overlay) "overlay grant cannot include a non-write op");;
      checkGrantOps overlay ops
  end.
Definition normalizeGrantOps (rule : Rule) : HR (list string) :=
  check (negb (length (r_Ops rule) =? 0)%nat) "ops are required";;
  normalized ← normalizeOps (r_Ops rule);
  checkGrantOps (r_Overlay rule) normalized;;
  let normalized :=
    if negb (r_Overlay rule) && (contains normalized OpRead || contains normalized OpList)
    then appendMissingOp normalized OpStat else normalized in
  mret (sortOps normalized).
Definition normalizeDenyOps (ops : list string) : HR (list string) :=
  if (length ops =? 0)%nat then mret []
  else
    normalized ← normalizeOps ops;
    let normalized :=
      if contains normalized OpRead || contains normalized OpList
      then appendMissingOp normalized OpStat else normalized in
    mret (sortOps normalized).

Definition opAllowed (rule : Rule) (op : string) : bool := contains (r_Ops rule) op.
Definition discoverOnlyRule (rule : Rule) : bool :=
  match r_Ops rule with [op] => String.eqb op OpDiscover && negb (r_Overlay rule) | _ => false end.

Definition ruleExpired (rule : Rule) (now : Time) : bool :=
  match r_ExpiresAt rule with Some t => negb (IsZero now) && negb (After t now) | None => false end.
Definition validateExpiry (rule : Rule) : HR () :=
  match r_CreatedAt rule, r_ExpiresAt rule with
  | Some c, Some e => check (negb (Before e c)) "expiresAt must not be before createdAt"
  | _, _ => mret tt
  end.
Definition validateScope (scope : string) : HR () :=
  check (contains [ScopeExactFile; ScopeGlob; ScopeDir; ScopeRecursiveDir] scope) "unsupported HostFS scope".
Definition validateSource (source : string) : HR () :=
  check (contains [SourceProfile; SourceEnvironment; SourceRun] source) "unsupported HostFS source".

Definition defaultSubject (source : string) : string :=
  if String.eqb source SourceProfile then "profile"
  else if String.eqb source SourceEnvironment then "environment" else "session".
Definition normalizeSubject (subject source : string) : HR string :=
  let want := defaultSubject source in
  if String.eqb subject "" then mret want
  else
    check (contains ["profile"; "environment"; "session"; "command"] subject) "unsupported HostFS subject";;
    check (String.eqb subject want) "HostFS subject does not match source";;
    mret subject.
Definition defaultTTL (source : string) : string :=
  if String.eqb source SourceProfile then "profile"
  else if String.eqb source SourceEnvironment then "environment" else "run".
Definition normalizeTTL (ttl source : string) : HR string :=
  let want := defaultTTL source in
  if String.eqb ttl "" then mret want
  else
    check (contains ["run"; "session"; "environment"; "profile"] ttl) "unsupported HostFS ttl";;
    check (String.eqb ttl want) "HostFS ttl does not match source";;
    mret ttl.

(** [ParseRuleSpec]: [kind:/absolute/path]. *)
Definition ruleOf (path : string) (ops : list string) (overlay : bool) (scope reason : string) : Rule :=
  mkRule "" path "" ops overlay scope "" "" None None reason.
Definition ParseRuleSpec (value reason : string) : HR Rule :=
  match Cut value ":" with
  | None => Err (ErrHostFS "must use kind:/absolute/path")
  | Some (kind, path) =>
      check (negb (String.eqb (TrimSpace kind) "" || String.eqb (TrimSpace path) ""))
        "must use kind:/absolute/path";;
      '(path, hasGlob) ← normalizeHostPathSelector path;
      let noGlob := check (negb hasGlob) "kind does not support glob path selectors" in
      let fileScope := if hasGlob : bool then ScopeGlob else ScopeExactFile in
      if String.eqb kind "see" then noGlob;; mret (ruleOf path [OpDiscover] false ScopeExactFile reason)
      else if String.eqb kind "see-dir" then noGlob;; mret (ruleOf path [OpDiscover] false ScopeDir reason)
      else if String.eqb kind "see-tree" then noGlob;; mret (ruleOf path [OpDiscover] false ScopeRecursiveDir reason)
      else if String.eqb kind "stat" then mret (ruleOf path [OpStat] false fileScope reason)
      else if String.eqb kind "read" then mret (ruleOf path [OpRead] false fileScope reason)
      else if String.eqb kind "list" then Err (ErrHostFS "kind is legacy and cannot be added")
      else if String.eqb kind "dir" then noGlob;; mret (ruleOf path [OpRead; OpList] false ScopeDir reason)
      else if String.eqb kind "tree" then noGlob;; mret (ruleOf path [OpRead; OpList] false ScopeRecursiveDir reason)
      else if String.eqb kind "overlay" then mret (ruleOf path writeOps true fileScope reason)
      else if String.eqb kind "overlay-dir" then noGlob;; mret (ruleOf path writeOps true ScopeDir reason)
      else if String.eqb kind "overlay-tree" then noGlob;; mret (ruleOf path writeOps true ScopeRecursiveDir reason)
      else Err (ErrHostFS "unsupported kind")
  end.

Definition RuleIDExists (config : Config) (id : string) : bool :=
  existsb (λ r, String.eqb (r_ID r) id) (c_Grants config)
  || existsb (λ r, String.eqb (r_ID r) id) (c_Deny config).
(** [NewRuleID]: at most sixteen draws of six random bytes ([None]: the source
    of randomness fails). *)
Fixpoint newRuleID (config : Config) (draws : list (option (list Z))) : HR string :=
  match draws with
  | [] => Err (ErrHostFS "could not allocate unique HostFS rule id")
  | None :: _ => Err (ErrHostFS "random")
  | Some raw :: draws =>
      let id := "hfs_" +:+ EncodeToString raw in
      if RuleIDExists config id then newRuleID config draws else mret id
  end.
Definition NewRuleID (config : Config) (draw : nat → option (list Z)) : HR string :=
  newRuleID config (draw <$> seq 0 16).

Section policy.
Context (h : Host).

Definition ruleCoversPath (rule : Rule) (path : string) : bool :=
  if String.eqb (r_Scope rule) ScopeExactFile then String.eqb (r_HostPath rule) path
  else if String.eqb (r_Scope rule) ScopeGlob then globMatches h (r_HostPath rule) path
  else if String.eqb (r_Scope rule) ScopeDir
       then String.eqb (r_HostPath rule) path || String.eqb (Dir path) (r_HostPath rule)
  else if String.eqb (r_Scope rule) ScopeRecursiveDir then pathInRoot path (r_HostPath rule)
  else false.
Definition ruleCoversReservedRoot (rule : Rule) (reservedRoots : list string) : bool :=
  existsb (λ root,
    ruleCoversPath rule root || pathInRoot (r_HostPath rule) root
    || (String.eqb (r_Scope rule) ScopeGlob
        && (pathInRoot (globStaticBase (r_HostPath rule)) root
            || globMatchesIncludingDotfile h (r_HostPath rule) root
            || globCouldMatchChildOf h (r_HostPath rule) root))) reservedRoots.

(** ** Matching a rule *)

Definition readsOrStats (rule : Rule) : bool := contains (r_Ops rule) OpRead || contains (r_Ops rule) OpStat.
Definition exactGrantAllowsParentList (rule : Rule) (hostPath : string) : bool :=
  String.eqb (r_Scope rule) ScopeExactFile && String.eqb (Dir (r_HostPath rule)) hostPath && readsOrStats rule.
Definition globAllowsParentList (rule : Rule) (hostPath : string) : bool :=
  String.eqb (r_Scope rule) ScopeGlob && readsOrStats rule && globCouldMatchChildOf h (r_HostPath rule) hostPath.
Definition ruleAllowsSyntheticList (rule : Rule) (hostPath : string) : bool :=
  if String.eqb (r_Scope rule) ScopeExactFile then exactGrantAllowsParentList rule hostPath
  else if String.eqb (r_Scope rule) ScopeGlob then globAllowsParentList rule hostPath
  else false.

Definition scopeMatches (rule : Rule) (op hostPath : string) (deny : bool) : bool :=
  let list := String.eqb op OpList in
  if String.eqb (r_Scope rule) ScopeExactFile then
    String.eqb hostPath (r_HostPath rule) || (negb deny && list && exactGrantAllowsParentList rule hostPath)
  else if String.eqb (r_Scope rule) ScopeGlob then
    if list then negb deny && globAllowsParentList rule hostPath else globMatches h (r_HostPath rule) hostPath
  else if String.eqb (r_Scope rule) ScopeDir then
    String.eqb hostPath (r_HostPath rule) || (negb list && String.eqb (Dir hostPath) (r_HostPath rule))
  else if String.eqb (r_Scope rule) ScopeRecursiveDir then
    String.eqb hostPath (r_HostPath rule) || HasPrefix hostPath (r_HostPath rule +:+ "/")
  else false.
Definition ruleMatches (rule : Rule) (op hostPath : string) (deny : bool) : bool :=
  if negb deny && negb (opAllowed rule op)
     && negb (String.eqb op OpList && ruleAllowsSyntheticList rule hostPath) then false
  else if deny && negb (length (r_Ops rule) =? 0)%nat && negb (opAllowed rule op) then false
  else scopeMatches rule op hostPath deny.

(** [EffectivePolicy.Decide] *)
Definition denyOf (g : Grant) : FSDecision :=
  mkFSDecision false "deny" "denied by HostFS policy" (r_ID (g_Rule g)) (r_ID (g_Rule g)) (g_Source g).
Definition allowOf (g : Grant) : FSDecision :=
  mkFSDecision true "allow" (r_Reason (g_Rule g)) (r_ID (g_Rule g)) (r_ID (g_Rule g)) (g_Source g).
Definition refusal (effect reason : string) : FSDecision := mkFSDecision false effect reason "" "" "".
Definition Decide (p : EffectivePolicy) (op hostPath : string) : FSDecision :=
  match validateKnownOp op with
  | Err (ErrHostFS e) => refusal "" e
  | Ok _ =>
      match cleanHostPath hostPath with
      | Err (ErrHostFS e) => refusal "" e
      | Ok clean =>
          if pathInReservedRoots clean (p_ReservedRoots p) then refusal "deny" ReservedRootReason
          else match List.find (λ d, ruleMatches (g_Rule d) op clean true) (p_Deny p) with
               | Some d => denyOf d
               | None =>
                   match List.find (λ g, negb (ruleExpired (g_Rule g) (p_Now p))
                                         && ruleMatches (g_Rule g) op clean false) (p_Grants p) with
                   | Some g => allowOf g
                   | None => refusal "none" "no matching HostFS grant"
                   end
               end
      end
  end.

(** ** Building a policy *)

Definition normalizeRule (rule : Rule) (source : string) (index : nat) (deny : bool)
    (reservedRoots : list string) : HR Grant :=
  hostPath ← cleanHostPath (r_HostPath rule);
  let rule := rule <| r_HostPath := hostPath |> in
  rule ← (if String.eqb (r_GuestPath rule) "" then mret rule
          else guestPath ← cleanGuestPath (r_GuestPath rule); mret (rule <| r_GuestPath := guestPath |>));
  validateScope (r_Scope rule);;
  (if String.eqb (r_Scope rule) ScopeGlob then validateGlobPattern (r_HostPath rule) else mret tt);;
  check (negb (negb deny && ruleCoversReservedRoot rule reservedRoots && negb (discoverOnlyRule rule)))
    "HostFS grant covers Hideout control-plane store";;
  check (negb (String.eqb (TrimSpace (r_Reason rule)) "")) "reason is required";;
  subject ← normalizeSubject (r_Subject rule) source;
  ttl ← normalizeTTL (r_TTL rule) source;
  let rule := rule <| r_Subject := subject |> <| r_TTL := ttl |> in
  validateExpiry rule;;
  ops ← (if deny then normalizeDenyOps (r_Ops rule) else normalizeGrantOps rule);
  let id := if String.eqb (r_ID rule) "" then source +:+ "-" +:+ pretty index else r_ID rule in
  mret (mkGrant (rule <| r_Ops := ops |> <| r_ID := id |>) source (Z.of_nat index)).

Fixpoint normalizeRules (rules : list Rule) (source : string) (index : nat) (deny : bool) (now : Time)
    (reservedRoots : list string) : HR (list Grant) :=
  match rules with
  | [] => mret []
  | rule :: rules =>
      grant ← normalizeRule rule source index deny reservedRoots;
      rest ← normalizeRules rules source (S index) deny now reservedRoots;
      mret (if ruleExpired (g_Rule grant) now then rest else grant :: rest)
  end.
Definition buildSourcePolicy (c : Config) (source : string) (now : Time) (reservedRoots : list string) :
    HR EffectivePolicy :=
  validateSource source;;
  grants ← normalizeRules (c_Grants c) source 0 false now reservedRoots;
  denies ← normalizeRules (c_Deny c) source 0 true now reservedRoots;
  mret (mkPolicy grants denies now reservedRoots).

Definition implicitDeny (source : string) (root : Root) (clean : string) : Grant :=
  mkGrant (mkRule ("hfs_implicit_" +:+ take_str 12 (hexSum256 ("implicit-discover-deny" +:+ String zero clean)))
      clean "" [OpDiscover] false ScopeRecursiveDir (defaultSubject source) (defaultTTL source) None None
      ("implicit broad discovery exclusion: " +:+ rt_Category root)) source (-1).
Fixpoint implicitDenies (source : string) (seen : list string) (roots : list Root) : HR (list Grant) :=
  match roots with
  | [] => mret []
  | root :: roots =>
      clean ← cleanHostPath (rt_Path root);
      if contains seen clean then implicitDenies source seen roots
      else rest ← implicitDenies source (clean :: seen) roots; mret (implicitDeny source root clean :: rest)
  end.
Definition hiddenRoots (storeRoot runHome : string) : list Root :=
  let trimmed := TrimSpace runHome in
  (BroadDiscoveryHiddenRootsFor (h_Home h) storeRoot
   ++ (if IsAbs trimmed then BroadDiscoveryHiddenRootsFor trimmed storeRoot else []))%list.
Definition addImplicitBroadDiscoveryDenies (policy : EffectivePolicy) (storeRoot runHome : string) :
    HR EffectivePolicy :=
  match List.find (λ g, opAllowed (g_Rule g) OpDiscover) (p_Grants policy) with
  | None => mret policy
  | Some g =>
      denies ← implicitDenies (g_Source g) [] (hiddenRoots storeRoot runHome);
      mret (policy <| p_Deny ::= λ l, (l ++ denies)%list |>)
  end.

Definition nowOrDefault (clock now : Time) : Time := if IsZero now then UTC clock else now.
Definition ValidateConfig (clock : Time) (c : Config) (source : string) : HR () :=
  buildSourcePolicy c source (nowOrDefault clock zeroTime) [];; mret tt.

Definition appendPolicy (out policy : EffectivePolicy) : EffectivePolicy :=
  out <| p_Grants ::= λ l, (l ++ p_Grants policy)%list |> <| p_Deny ::= λ l, (l ++ p_Deny policy)%list |>.
Definition Build (clock : Time) (input : BuildInput) : HR EffectivePolicy :=
  let now := nowOrDefault clock (bi_Now input) in
  reservedRoots ← normalizeReservedRoots (bi_StoreRoot input);
  let out := mkPolicy [] [] now reservedRoots in
  profile ← buildSourcePolicy (bi_Profile input) SourceProfile now reservedRoots;
  environment ← buildSourcePolicy (bi_Environment input) SourceEnvironment now reservedRoots;
  run ← buildSourcePolicy (bi_Run input) SourceRun now reservedRoots;
  addImplicitBroadDiscoveryDenies (appendPolicy (appendPolicy (appendPolicy out profile) environment) run)
    (bi_StoreRoot input) (bi_Home input).

(** ** Visibility (visibility.go) *)

Definition MaxDiscoverDepth : nat := 32.
Definition VisibilityHidden : string := "hidden".
Definition VisibilityExact : string := "exact-visible".
Definition VisibilityEnumerable : string := "enumerable".
Definition VisibilityContentGranted : string := "content-granted".

Record VisibilityResult := mkVisibility {
  v_State : string; v_ExplicitDomain : bool; v_Enumerable : bool; v_ReservedHidden : bool;
  v_DiscoverDenied : bool; v_DepthExceeded : bool; v_RuleID : string; v_Source : string; v_Root : string;
  v_RelativeDepth : nat; v_ContentDecision : FSDecision; v_DiscoverDecision : FSDecision }.
#[global] Instance VisibilityResult_eta : Eta VisibilityResult := λ v,
  mkVisibility (v_State v) (v_ExplicitDomain v) (v_Enumerable v) (v_ReservedHidden v) (v_DiscoverDenied v)
    (v_DepthExceeded v) (v_RuleID v) (v_Source v) (v_Root v) (v_RelativeDepth v) (v_ContentDecision v)
    (v_DiscoverDecision v).
Definition noDecision : FSDecision := refusal "" "".
(** [VisibilityResult{State: VisibilityHidden}] *)
Definition hiddenResult : VisibilityResult :=
  mkVisibility VisibilityHidden false false false false false "" "" "" 0 noDecision noDecision.

Definition combinedDecision (requested canonical : FSDecision) : FSDecision :=
  if String.eqb (fd_Effect requested) "deny" then requested
  else if String.eqb (fd_Effect canonical) "deny" then canonical
  else if fd_Allowed requested then requested
  else if fd_Allowed canonical then canonical
  else requested.

Definition visibilityPolicyPath (path : string) : string :=
  match h_EvalSymlinks h (Dir path) with
  | Ok resolvedParent => Join resolvedParent (Base path)
  | Err _ => path
  end.

Definition discoverGrant (p : EffectivePolicy) (decision : FSDecision) : option Grant :=
  if fd_Allowed decision
  then List.find (λ g, String.eqb (r_ID (g_Rule g)) (fd_RuleID decision)
                       && String.eqb (g_Source g) (fd_Source decision)
                       && opAllowed (g_Rule g) OpDiscover) (p_Grants p)
  else None.

Definition relativeDepth (root path : string) : nat :=
  match Rel root path with
  | None => 0
  | Some rel =>
      if String.eqb rel "." then 0
      else if String.eqb rel ".." || HasPrefix rel "../" then S MaxDiscoverDepth
      else length (SplitSlash rel)
  end.

Definition Visibility (p : EffectivePolicy) (hostPath : string) : VisibilityResult :=
  match cleanHostPath hostPath with
  | Err _ => hiddenResult
  | Ok clean =>
      let policyPath := visibilityPolicyPath clean in
      if pathInReservedRoots clean (p_ReservedRoots p) || pathInReservedRoots policyPath (p_ReservedRoots p)
      then hiddenResult <| v_ReservedHidden := true |>
      else
        let content := combinedDecision (Decide p OpStat clean) (Decide p OpStat policyPath) in
        let discover := combinedDecision (Decide p OpDiscover clean) (Decide p OpDiscover policyPath) in
        let denied := String.eqb (fd_Effect discover) "deny" in
        let explicit := String.eqb (fd_Effect discover) "allow" || denied in
        if fd_Allowed content then
          mkVisibility VisibilityContentGranted explicit false false denied false (fd_RuleID content)
            (fd_Source content) "" 0 content discover
        else if denied then
          mkVisibility VisibilityHidden true false false true false (fd_RuleID discover)
            (fd_Source discover) "" 0 content discover
        else if negb (fd_Allowed discover) then
          mkVisibility VisibilityHidden false false false false false "" "" "" 0 content discover
        else
          let result := mkVisibility VisibilityExact true false false false false (fd_RuleID discover)
            (fd_Source discover) "" 0 content discover in
          match discoverGrant p discover with
          | None => result
          | Some grant =>
              let rule := g_Rule grant in
              let result := result <| v_Root := r_HostPath rule |> in
              if String.eqb (r_Scope rule) ScopeDir then
                if String.eqb policyPath (r_HostPath rule)
                then result <| v_State := VisibilityEnumerable |> <| v_Enumerable := true |> else result
              else if String.eqb (r_Scope rule) ScopeRecursiveDir then
                let depth := relativeDepth (r_HostPath rule) policyPath in
                let result := result <| v_RelativeDepth := depth |> in
                if (MaxDiscoverDepth <? depth)%nat
                then result <| v_State := VisibilityHidden |> <| v_DepthExceeded := true |>
                else result <| v_State := VisibilityEnumerable |> <| v_Enumerable := true |>
              else result
          end
  end.
End policy.
