(* ===== verification/HostFSSpec.v ===== *)
(** * What the HostFS policy decides

    Paths as lists of names; the exact condition of [Decide]; what [Build]
    establishes of a policy; the visibility of a path; globs element by
    element; and the roots that broad discovery never shows. *)
From Stdlib Require Import Ascii.
From S2P Require Import Prelude GoStrings GoTime GoHash GoRunes GoPath GoGlob HostPathRisk HostFS.
Open Scope Z_scope.

(** ** Clean paths *)

(** A clean absolute path below the root, and its names. *)
Definition isPath (p : string) (l : list string) : Prop := p = absPath l ∧ l ≠ [] ∧ Forall isName l.

Lemma isPath_inj p l1 l2 : isPath p l1 → isPath p l2 → l1 = l2.
Proof. intros (->&?&?) (E&?&?). by apply absPath_inj in E. Qed.
Lemma cleanHostPath_path path c : cleanHostPath path = Ok c → ∃ l, isPath c l.
Proof.
  unfold cleanHostPath, check. rewrite !guard_then. intros (_&_&_&_&Habs&Hroot&[= <-]).
  destruct (Clean_names path Habs) as (l&Hl&Hn). exists l. split_and!; [done| |done].
  intros ->. rewrite Hl in Hroot. done.
Qed.
Lemma pathInRoot_spec p l r rl : isPath p l → isPath r rl → pathInRoot p r = true ↔ rl `prefix_of` l.
Proof.
  intros (->&Hl&Fl) (->&Hr&Fr). unfold pathInRoot. rewrite !Clean_absPath by done.
  rewrite orb_true_iff, String.eqb_eq, HasPrefix_iff. split.
  - intros [E|[rest E]]; [by apply absPath_inj in E as ->|].
    change (absPath rl +:+ "/") with (absPath rl +:+ String slash "") in E. rewrite str_app_assoc in E.
    apply (absPath_prefix l rl rest) in E as (l'&->&_&_); [by exists l'|done..].
  - intros [[|x l'] ->]; [left; by rewrite (right_id_L [] (++))|right]. exists (JoinSlash (x :: l')).
    change (absPath rl +:+ "/") with (absPath rl +:+ String slash ""). rewrite str_app_assoc.
    apply (absPath_prefix _ rl); [done..|]. by exists (x :: l').
Qed.
Lemma Dir_path p l x : isPath p (l ++ [x]) → Dir p = absPath l.
Proof.
  intros (->&_&F). apply Forall_app in F as [Fl Fx]. inversion Fx; subst. destruct l as [|y l].
  - unfold Dir. by rewrite absPath_split.
  - by apply Dir_absPath.
Qed.

(** ** The parts of a path *)

Definition isSlash : ascii → bool := Ascii.eqb slash.
Lemma noSlash_forall s : noSlash s = true → s ≠ "" → str_forall isSlash s = false.
Proof.
  unfold noSlash, isSlash. destruct s as [|a s]; [done|]. cbn [str_forall].
  intros [Ha _]%andb_true_iff _. rewrite Ascii.eqb_sym. by apply negb_true_iff in Ha as ->.
Qed.
Lemma TrimRight_noSlash s : noSlash s = true → TrimRightSet isSlash s = s.
Proof.
  induction s as [|a s IH]; [done|]. intros H. cbn [TrimRightSet]. rewrite noSlash_forall by done.
  unfold noSlash in *. cbn [str_forall] in H. apply andb_true_iff in H as [_ H]. by rewrite IH.
Qed.
Lemma TrimRight_app s t : TrimRightSet isSlash t = t → t ≠ "" → TrimRightSet isSlash (s +:+ t) = s +:+ t.
Proof.
  intros Ht Hne. induction s as [|a s IH]; [done|]. change (String a s +:+ t) with (String a (s +:+ t)).
  cbn [TrimRightSet str_forall]. rewrite IH, str_forall_app.
  assert (str_forall isSlash t = false) as ->; [|by rewrite !andb_false_r].
  destruct (str_forall isSlash t) eqn:E; [|done]. destruct t; [done|]. cbn [TrimRightSet] in Ht. by rewrite E in Ht.
Qed.
Lemma JoinSlash_trimmed l :
  l ≠ [] → Forall isName l → TrimSet isSlash (JoinSlash l) = JoinSlash l ∧ JoinSlash l ≠ "" ∧
    TrimLeftSet isSlash (JoinSlash l) = JoinSlash l.
Proof.
  intros Hne Hl. assert (TrimRightSet isSlash (JoinSlash l) = JoinSlash l ∧ JoinSlash l ≠ "") as [HR HN].
  { induction Hl as [|x l (Hs&Hx&_) Hl IH]; [done|]. destruct l as [|y l]; [split; [by apply TrimRight_noSlash|done]|].
    rewrite JoinSlash_cons by done. destruct (IH ltac:(done)) as [IH1 IH2]. split; [|by destruct x].
    change (String slash (JoinSlash (y :: l))) with (String slash "" +:+ JoinSlash (y :: l)).
    rewrite <-str_app_assoc. by apply TrimRight_app. }
  assert (TrimLeftSet isSlash (JoinSlash l) = JoinSlash l) as HL.
  { destruct Hl as [|x l (Hs&Hx&_) Hl]; [done|]. destruct x as [|a x]; [done|].
    assert (isSlash a = false) as Ha.
    { unfold noSlash in Hs. cbn [str_forall] in Hs. apply andb_true_iff in Hs as [Hs%negb_true_iff _].
      unfold isSlash. by rewrite Ascii.eqb_sym. }
    destruct l; simpl; by rewrite Ha. }
  unfold TrimSet. by rewrite HL.
Qed.
Lemma pathParts_path p l : isPath p l → pathParts p = l.
Proof.
  intros (->&Hne&Hl). unfold pathParts. rewrite Clean_absPath by done.
  destruct (JoinSlash_trimmed l Hne Hl) as (HT&HN&HL). change (Ascii.eqb slash) with isSlash.
  assert (TrimSet isSlash (absPath l) = JoinSlash l) as ->.
  { unfold absPath, TrimSet. cbn [TrimLeftSet]. rewrite (Ascii.eqb_refl slash : isSlash slash = true), HL.
    unfold TrimSet in HT. by rewrite HL in HT. }
  apply String.eqb_neq in HN as ->. apply SplitSlash_Join; [done|]. eapply Forall_impl; [done|]. by intros x [? _].
Qed.
Lemma pathParts_name x : isName x → pathParts x = [x].
Proof.
  intros Hx. pose proof Hx as (Hs&Hne&Hd&Hdd). assert (Clean x = x) as HC.
  { unfold Clean. assert (IsAbs x = false) as ->.
    { destruct x as [|a x]; [done|]. unfold noSlash in Hs. cbn [str_forall] in Hs.
      apply andb_true_iff in Hs as [Hs%negb_true_iff _]. done. }
    unfold cleanElements. rewrite SplitSlash_single by done. simpl. unfold cleanElement.
    apply String.eqb_neq in Hne as ->, Hd as ->, Hdd as ->. done. }
  unfold pathParts. rewrite HC. destruct (JoinSlash_trimmed [x]) as (HT&_&_); [done|by repeat constructor|].
  simpl in HT. change (Ascii.eqb slash) with isSlash. rewrite HT. apply String.eqb_neq in Hne as ->.
  by apply SplitSlash_single.
Qed.

(** ** Globs, element by element *)

Lemma str_forall_Join f l x : str_forall f (JoinSlash l) = true → x ∈ l → str_forall f x = true.
Proof.
  induction l as [|y l IH]; [by intros _ ?%elem_of_nil|]. destruct l as [|z l].
  - by intros H ->%list_elem_of_singleton.
  - rewrite JoinSlash_cons, str_forall_app by done. cbn [str_forall].
    intros [H1 [_ H2]%andb_true_iff]%andb_true_iff [->|Hin]%elem_of_cons; [done|by apply IH].
Qed.
Lemma str_forall_path f p l x : isPath p l → str_forall f p = true → x ∈ l → str_forall f x = true.
Proof.
  intros (->&_&_). unfold absPath. cbn [str_forall]. intros [_ H]%andb_true_iff. by apply str_forall_Join.
Qed.
Lemma bytewise_path p pl s sl x y :
  isPath p pl → isPath s sl → bytewise p s → x ∈ pl → y ∈ sl → bytewise x y.
Proof.
  intros Hp Hs [H|H] Hx Hy; [left|right]; [by eapply (str_forall_path _ p)|by eapply (str_forall_path _ s)].
Qed.

(** A name an element of a pattern hides because of its dot. *)
Definition dotHides (p x : string) : bool := HasPrefix x "." && negb (HasPrefix p ".").

Section globs.
Context (h : Host) (Hcase : h_FoldsCase h = false).

Lemma globMatches_elements pattern ps path xs :
  isPath pattern ps → isPath path xs → plainPattern pattern = true → bytewise pattern path →
  globMatches h pattern path = globElements ps xs && negb (dotHidden ps xs).
Proof.
  intros Hp Hx Hplain Hb. unfold globMatches, globMatchesWithCaseMode, normalizeGlobMatchInputs. rewrite Hcase.
  unfold globDotfileImplicitlyMatches, matches.
  rewrite (pathParts_path _ _ Hp), (pathParts_path _ _ Hx), Match_spec by done.
  assert (globSpec pattern path = globElements ps xs) as ->.
  { destruct Hp as (->&Hpn&Fp), Hx as (->&Hxn&Fx).
    change (fits slash slash && globSpec (JoinSlash ps) (JoinSlash xs) = globElements ps xs).
    change (fits slash slash) with true. rewrite andb_true_l.
    apply globSpec_elements; [done..| |]; (eapply Forall_impl; [done|by intros ? [? _]]). }
  destruct (Nat.eqb_spec (length ps) (length xs)) as [Heq|Hne]; simpl.
  - destruct (dotHidden ps xs); simpl; [by rewrite andb_false_r|by rewrite andb_true_r].
  - assert (globElements ps xs = false) as ->; [|done].
    clear -Hne. revert xs Hne. induction ps as [|p ps IH]; intros [|x xs] H; simpl in *; try done.
    rewrite IH by lia. by rewrite andb_false_r.
Qed.

Lemma element_matches p x :
  isName p → isName x → plainPattern p = true → bytewise p x →
  (if globDotfileImplicitlyMatches p x then false else matches p x) = negb (dotHides p x) && globSpec p x.
Proof.
  intros Hp Hx Hplain Hb. unfold globDotfileImplicitlyMatches, matches. rewrite !pathParts_name, Match_spec by done.
  simpl. rewrite orb_false_r. fold (dotHides p x). by destruct (dotHides p x).
Qed.
Lemma prefixMatches_prefix ps xs ys :
  Forall isName ps → Forall isName xs → (∀ p x, p ∈ ps → x ∈ xs → plainPattern p = true ∧ bytewise p x) →
  globElements ps (xs ++ ys) = true → dotHidden ps (xs ++ ys) = false → prefixMatches h ps xs = true.
Proof.
  intros Hps. revert xs. induction Hps as [|p ps Hp Hps IH]; intros xs Hxs Hall Hg Hd.
  { destruct xs; done. }
  destruct Hxs as [|x xs Hx Hxs]; [done|]. simpl in Hg, Hd. apply andb_true_iff in Hg as [Hg1 Hg2].
  apply orb_false_iff in Hd as [Hd1 Hd2]. simpl. unfold normalizeGlobMatchInputs. rewrite Hcase.
  destruct (Hall p x) as [H1 H2]; [by left|by left|].
  pose proof (element_matches p x Hp Hx H1 H2) as He. unfold dotHides in He. rewrite Hd1, Hg1 in He. simpl in He.
  destruct (globDotfileImplicitlyMatches p x); [done|]. rewrite He. simpl. apply IH; [done| |done..].
  intros p' x' ??. apply Hall; by right.
Qed.

(** A glob that matches a path below a directory could match a child of it. *)
Lemma globCouldMatch_prefix pattern ps path xs dir ds :
  isPath pattern ps → isPath path xs → isPath dir ds → plainPattern pattern = true → bytewise pattern path →
  globMatches h pattern path = true → ds `prefix_of` xs → ds ≠ xs → globCouldMatchChildOf h pattern dir = true.
Proof.
  intros Hp Hx Hd Hplain Hb Hm [ys ->] Hne. rewrite (globMatches_elements pattern ps path _ Hp Hx) in Hm by done.
  apply andb_true_iff in Hm as [Hg Hh%negb_true_iff]. unfold globCouldMatchChildOf.
  rewrite (pathParts_path _ _ Hp), (pathParts_path _ _ Hd).
  assert (length ps = length (ds ++ ys)) as Hlen.
  { clear -Hg. revert Hg. generalize (ds ++ ys) as l. induction ps as [|p ps IH]; intros [|x l]; try done.
    simpl. intros [_ H]%andb_true_iff. by rewrite (IH l H). }
  destruct (Nat.leb_spec (length ps) (length ds)) as [Hle|_].
  { rewrite length_app in Hlen. destruct ys; [by rewrite (right_id_L [] (++)) in Hne|simpl in Hlen; lia]. }
  destruct Hp as (Hp1&Hp2&Fp), Hd as (Hd1&Hd2&Fd).
  apply (prefixMatches_prefix ps ds ys); [done..| |done|done]. intros p x ??. split.
  - unfold plainPattern. by apply (str_forall_path _ pattern ps).
  - eapply (bytewise_path pattern ps path (ds ++ ys)); [by split_and!|done..|]. apply elem_of_app. by left.
Qed.
End globs.

(** ** What [Decide] decides *)

Lemma contains_true l x : contains l x = true ↔ x ∈ l.
Proof.
  unfold contains. rewrite existsb_true. split; [by intros (y&Hy&->%String.eqb_eq)|].
  intros H. exists x. by rewrite String.eqb_refl.
Qed.
Lemma find_Some_elem {A} (f : A → bool) l x : List.find f l = Some x → x ∈ l ∧ f x = true.
Proof. intros [H ?]%find_some. by rewrite list_elem_of_In. Qed.
Lemma find_None_elem {A} (f : A → bool) l : List.find f l = None ↔ ∀ x, x ∈ l → f x = false.
Proof.
  split; [intros H x Hx; apply (find_none f l H x); by apply list_elem_of_In|].
  intros H. destruct (List.find f l) as [x|] eqn:E; [|done]. apply find_Some_elem in E as [Hx Hf]. by rewrite H in Hf.
Qed.

Section decide.
Context (h : Host) (p : EffectivePolicy).

(** The path is not reserved, no deny rule matches, a live grant does. *)
Definition permits (op c : string) : Prop :=
  pathInReservedRoots c (p_ReservedRoots p) = false ∧
  (∀ d, d ∈ p_Deny p → ruleMatches h (g_Rule d) op c true = false) ∧
  ∃ g, g ∈ p_Grants p ∧ ruleExpired (g_Rule g) (p_Now p) = false ∧ ruleMatches h (g_Rule g) op c false = true.
Definition forbids (op c : string) : Prop :=
  pathInReservedRoots c (p_ReservedRoots p) = true ∨
  ∃ d, d ∈ p_Deny p ∧ ruleMatches h (g_Rule d) op c true = true.

Lemma Decide_allowed op path :
  fd_Allowed (Decide h p op path) = true ↔
  knownOp op = true ∧ ∃ c, cleanHostPath path = Ok c ∧ permits op c.
Proof.
  unfold Decide, validateKnownOp, check. destruct (knownOp op); simpl; [|split; [done|by intros [[=] _]]].
  destruct (cleanHostPath path) as [c|[e]]; [|split; [done|by intros (_&?&[=]&_)]].
  transitivity (permits op c); [|split; [eauto|by intros (_&?&[= <-]&?)]].
  unfold permits. destruct (pathInReservedRoots c (p_ReservedRoots p)); [split; [done|by intros [[=] _]]|].
  destruct (List.find _ (p_Deny p)) as [d|] eqn:Ed.
  { apply find_Some_elem in Ed as [Hd Hm]. split; [done|]. intros (_&Hall&_). by rewrite Hall in Hm. }
  rewrite find_None_elem in Ed. destruct (List.find _ (p_Grants p)) as [g|] eqn:Eg.
  - apply find_Some_elem in Eg as [Hg [He%negb_true_iff Hm]%andb_true_iff]. split; [intros _|done]. eauto 10.
  - rewrite find_None_elem in Eg. split; [done|]. intros (_&_&g&Hg&He&Hm). specialize (Eg g Hg).
    by rewrite He, Hm in Eg.
Qed.
Lemma Decide_denied op path :
  fd_Effect (Decide h p op path) = "deny" ↔
  knownOp op = true ∧ ∃ c, cleanHostPath path = Ok c ∧ forbids op c.
Proof.
  unfold Decide, validateKnownOp, check. destruct (knownOp op); simpl; [|split; [done|by intros [[=] _]]].
  destruct (cleanHostPath path) as [c|[e]]; [|split; [done|by intros (_&?&[=]&_)]].
  transitivity (forbids op c); [|split; [eauto|by intros (_&?&[= <-]&?)]].
  unfold forbids. destruct (pathInReservedRoots c (p_ReservedRoots p)); [split; [by left|done]|].
  destruct (List.find _ (p_Deny p)) as [d|] eqn:Ed.
  { apply find_Some_elem in Ed as [Hd Hm]. split; [eauto|done]. }
  rewrite find_None_elem in Ed. destruct (List.find _ (p_Grants p)) as [g|]; (split; [done|]);
    intros [[=]|(d&Hd&Hm)]; by rewrite Ed in Hm.
Qed.
Lemma Decide_effect op path :
  fd_Allowed (Decide h p op path) = true ↔ fd_Effect (Decide h p op path) = "allow".
Proof.
  unfold Decide, validateKnownOp, check. destruct (knownOp op); [|done]. simpl.
  destruct (cleanHostPath path) as [c|[e]]; [|done].
  destruct (pathInReservedRoots _ _); [done|]. destruct (List.find _ _); [done|]. by destruct (List.find _ _).
Qed.
End decide.

(** ** Cleaning twice *)

Lemma Contains_split s p : Contains s p = true → ∃ u v, s = u +:+ p +:+ v.
Proof.
  induction s as [|a s IH]; cbn [Contains]; intros [H|H]%orb_true_iff; try done.
  - apply HasPrefix_iff in H as [v ->]. by exists "", v.
  - apply HasPrefix_iff in H as [v ->]. by exists "", v.
  - destruct (IH H) as (u&v&->). by exists (String a u), v.
Qed.
Lemma str_forall_Split f s : str_forall f s = true → Forall (λ e, str_forall f e = true) (SplitSlash s).
Proof.
  induction s as [|a s IH]; [by repeat constructor|]. cbn [str_forall]. intros [Ha Hs]%andb_true_iff.
  specialize (IH Hs). cbn [SplitSlash]. destruct (Ascii.eqb a slash); [by constructor|].
  destruct IH as [|x xs Hx Hxs]; constructor; try done; cbn [str_forall]; rewrite Ha; done.
Qed.
Lemma str_forall_Join_intro f l :
  f slash = true → Forall (λ e, str_forall f e = true) l → str_forall f (JoinSlash l) = true.
Proof.
  intros Hf. induction 1 as [|x l Hx Hl IH]; [done|]. destruct l as [|y l]; [done|].
  rewrite JoinSlash_cons, str_forall_app, Hx by done. cbn [str_forall]. by rewrite Hf, IH.
Qed.
Lemma foldl_clean_forall (P : string → Prop) l kept :
  Forall P l → Forall P kept → Forall P (foldl (cleanElement true) kept l).
Proof.
  intros Hl. revert kept. induction Hl as [|e l He Hl IH]; intros kept Hk; [done|]. simpl. apply IH.
  unfold cleanElement. destruct (_ || _); [done|]. destruct (String.eqb e ".."); [|by constructor].
  destruct Hk as [|top kept ??]; [done|]. destruct (String.eqb top ".."); [by repeat constructor|done].
Qed.
Lemma str_forall_Clean f p :
  f slash = true → IsAbs p = true → str_forall f p = true → str_forall f (Clean p) = true.
Proof.
  intros Hf Hp H. unfold Clean. rewrite Hp. cbn [str_forall]. rewrite Hf. apply str_forall_Join_intro; [done|].
  unfold cleanElements. apply Forall_rev, foldl_clean_forall; [by apply str_forall_Split|done].
Qed.
Lemma ContainsByte_Clean p b :
  b ≠ slash → IsAbs p = true → ContainsByte p b = false → ContainsByte (Clean p) b = false.
Proof.
  intros Hb Hp. unfold ContainsByte, str_exists. rewrite !negb_false_iff. apply str_forall_Clean; [|done].
  apply negb_true_iff. by apply Ascii.eqb_neq.
Qed.
(** A path of names has no double slash. *)
Lemma path_no_empty l u v : l ≠ [] → Forall isName l → absPath l ≠ u +:+ String slash (String slash v).
Proof.
  intros Hne Hl E. pose proof (absPath_split l Hne Hl) as Hs.
  rewrite E, SplitSlash_app in Hs. change (SplitSlash (String slash v)) with ("" :: SplitSlash v) in Hs.
  destruct (SplitSlash u) as [|x xs] eqn:Hu; [by apply SplitSlash_nonempty in Hu|]. injection Hs as -> Hs.
  rewrite Forall_forall in Hl. destruct (Hl "") as (_&?&_); [|done]. rewrite <-Hs. set_solver.
Qed.
Lemma cleanHostPath_idem path c : cleanHostPath path = Ok c → cleanHostPath c = Ok c.
Proof.
  intros H. destruct (cleanHostPath_path path c H) as (l&->&Hne&Hl). revert H.
  unfold cleanHostPath, check. rewrite !guard_then. intros (_&Hz&Hb&_&Habs&_&[= Hc]).
  pose proof (Clean_absPath l Hne Hl) as HC.
  split; [by apply negb_true_iff, String.eqb_neq, TrimSpace_head|]. split_and!; [| | |done| |].
  - rewrite <-Hc. apply negb_true_iff, ContainsByte_Clean; [done..|]. by apply negb_true_iff.
  - rewrite <-Hc. apply negb_true_iff, ContainsByte_Clean; [done..|]. by apply negb_true_iff.
  - apply negb_true_iff, orb_false_iff. split.
    + destruct (Contains (absPath l) "://") eqn:E; [|done]. apply Contains_split in E as (u&v&E).
      exfalso. apply (path_no_empty l (u +:+ ":") v Hne Hl). rewrite E, str_app_assoc. done.
    + destruct (HasPrefix (absPath l) "//") eqn:E; [|done]. apply HasPrefix_iff in E as [v E].
      exfalso. by apply (path_no_empty l "" v Hne Hl).
  - rewrite HC. apply negb_true_iff, String.eqb_neq. intros E. destruct (JoinSlash_trimmed l Hne Hl) as (_&HN&_).
    unfold absPath in E. by injection E.
  - by rewrite HC.
Qed.
Lemma cleanHostPath_Clean path c : cleanHostPath path = Ok c → Clean path = c.
Proof. unfold cleanHostPath, check. rewrite !guard_then. by intros (_&_&_&_&_&_&[= ?]). Qed.
Lemma cleanHostPath_fix c l c' : isPath c l → cleanHostPath c = Ok c' → c' = c.
Proof.
  intros (->&?&?) <-%cleanHostPath_Clean. by apply Clean_absPath.
Qed.

(** ** Visibility *)

Lemma recursive_matches h rule rl op c cl deny :
  r_Scope rule = ScopeRecursiveDir → isPath (r_HostPath rule) rl → isPath c cl →
  scopeMatches h rule op c deny = true ↔ rl `prefix_of` cl.
Proof.
  intros Hs Hr Hc. rewrite <-(pathInRoot_spec c cl _ rl Hc Hr). unfold scopeMatches, pathInRoot. rewrite Hs. simpl.
  destruct Hr as (->&?&?), Hc as (->&?&?). by rewrite !Clean_absPath.
Qed.
Lemma ruleMatches_scope h rule op c deny :
  ruleMatches h rule op c deny = true → scopeMatches h rule op c deny = true.
Proof. unfold ruleMatches. destruct (_ && _); [done|]. by destruct (_ && _). Qed.
Lemma ruleMatches_op h rule op c :
  ruleMatches h rule op c false = true → op ≠ OpList → opAllowed rule op = true.
Proof.
  unfold ruleMatches. intros H Hop. destruct (opAllowed rule op); [done|]. simpl in H.
  apply String.eqb_neq in Hop. by rewrite Hop in H.
Qed.

Section visibility.
Context (h : Host) (p : EffectivePolicy).

Definition inSight (s : string) : Prop := s = VisibilityExact ∨ s = VisibilityEnumerable.

Lemma combined_denied d1 d2 :
  fd_Effect d1 = "deny" → combinedDecision d1 d2 = d1.
Proof. intros H. unfold combinedDecision. by rewrite H. Qed.
Lemma combined_cases d1 d2 : combinedDecision d1 d2 = d1 ∨ combinedDecision d1 d2 = d2.
Proof.
  unfold combinedDecision. destruct (String.eqb (fd_Effect d1) _); [by left|].
  destruct (String.eqb (fd_Effect d2) _); [by right|]. destruct (fd_Allowed d1); [by left|].
  destruct (fd_Allowed d2); [by right|by left].
Qed.
Lemma combined_not_denied d1 d2 :
  fd_Effect (combinedDecision d1 d2) ≠ "deny" → fd_Effect d1 ≠ "deny" ∧ fd_Effect d2 ≠ "deny".
Proof.
  unfold combinedDecision. destruct (String.eqb_spec (fd_Effect d1) "deny") as [E1|E1]; [done|].
  destruct (String.eqb_spec (fd_Effect d2) "deny") as [E2|E2]; [done|]. done.
Qed.

(** What a path in sight owes to: a live discover grant for the path or for the
    path its parent resolves to, no deny rule for either, neither reserved. *)
Lemma Visibility_inSight path :
  inSight (v_State (Visibility h p path)) →
  ∃ c, cleanHostPath path = Ok c ∧
    (permits h p OpDiscover c ∨ ∃ c', cleanHostPath (visibilityPolicyPath h c) = Ok c' ∧ permits h p OpDiscover c') ∧
    pathInReservedRoots c (p_ReservedRoots p) = false ∧
    pathInReservedRoots (visibilityPolicyPath h c) (p_ReservedRoots p) = false ∧
    fd_Effect (Decide h p OpDiscover c) ≠ "deny" ∧
    fd_Effect (Decide h p OpDiscover (visibilityPolicyPath h c)) ≠ "deny".
Proof.
  unfold Visibility. destruct (cleanHostPath path) as [c|] eqn:Hclean; [|by intros [[=]|[=]]].
  destruct (_ || _) eqn:Hres; [by intros [[=]|[=]]|]. apply orb_false_iff in Hres as [Hr1 Hr2].
  set (content := combinedDecision (Decide h p OpStat c) _).
  set (discover := combinedDecision (Decide h p OpDiscover c) _).
  destruct (fd_Allowed content); [by intros [[=]|[=]]|].
  destruct (String.eqb_spec (fd_Effect discover) "deny") as [|Hnd]; [by intros [[=]|[=]]|].
  destruct (fd_Allowed discover) eqn:Ha; [|by intros [[=]|[=]]]. intros _. exists c. split; [done|].
  apply combined_not_denied in Hnd as [Hn1 Hn2]. split_and!; [|done..].
  unfold discover in Ha. destruct (combined_cases (Decide h p OpDiscover c)
    (Decide h p OpDiscover (visibilityPolicyPath h c))) as [E|E]; rewrite E in Ha;
    apply Decide_allowed in Ha as (_&c'&Hc'&Hp); [left|right; eauto].
  rewrite (cleanHostPath_idem _ _ Hclean) in Hc'. by injection Hc' as <-.
Qed.

(** A path whose discovery is denied, or that no discover grant can reach, is
    not in sight. *)
Lemma Visibility_denied path c :
  cleanHostPath path = Ok c → fd_Effect (Decide h p OpDiscover c) = "deny" →
  ¬ inSight (v_State (Visibility h p path)).
Proof.
  intros Hc Hd Hs. apply Visibility_inSight in Hs as (c'&Hc'&_&_&_&Hn&_). congruence.
Qed.
Lemma Visibility_no_grant path :
  (∀ g, g ∈ p_Grants p → opAllowed (g_Rule g) OpDiscover = false) → ¬ inSight (v_State (Visibility h p path)).
Proof.
  intros Hno Hs. apply Visibility_inSight in Hs as (c&_&[Hp|(c'&_&Hp)]&_);
    destruct Hp as (_&_&g&Hg&_&Hm); apply ruleMatches_op in Hm; try done; by rewrite Hno in Hm.
Qed.
Lemma Visibility_enumerable path :
  v_Enumerable (Visibility h p path) = true → inSight (v_State (Visibility h p path)).
Proof.
  unfold Visibility. destruct (cleanHostPath path); [|done]. destruct (_ || _); [done|].
  destruct (fd_Allowed _); [done|]. destruct (String.eqb _ "deny"); [done|]. destruct (negb _); [done|].
  destruct (discoverGrant _ _); [|done]. destruct (String.eqb _ ScopeDir).
  { destruct (String.eqb _ _); [|done]. by right. }
  destruct (String.eqb _ ScopeRecursiveDir); [|done]. destruct (_ <? _)%nat; [done|]. by right.
Qed.
End visibility.

(** ** What [Build] establishes *)

Definition wfRule (r : Rule) : Prop := cleanHostPath (r_HostPath r) = Ok (r_HostPath r).
Definition wfPolicy (p : EffectivePolicy) : Prop :=
  Forall (λ g, wfRule (g_Rule g)) (p_Grants p) ∧ Forall (λ g, wfRule (g_Rule g)) (p_Deny p) ∧
  Forall (λ r, cleanHostPath r = Ok r) (p_ReservedRoots p).

Lemma wfRule_path r : wfRule r → ∃ l, isPath (r_HostPath r) l.
Proof. apply cleanHostPath_path. Qed.

Section build.
Context (h : Host).

Lemma normalizeRule_wf rule source index deny reserved g :
  normalizeRule h rule source index deny reserved = Ok g → wfRule (g_Rule g) ∧ g_Source g = source.
Proof.
  unfold normalizeRule. intros (hp&Hhp&H)%result_bind_ok. apply result_bind_ok in H as (r1&Hr1&H).
  assert (r_HostPath r1 = hp) as Hr.
  { destruct (String.eqb _ "") in Hr1; [by injection Hr1 as <-|].
    apply result_bind_ok in Hr1 as (gp&_&Hr1). by injection Hr1 as <-. }
  repeat (apply result_bind_ok in H as (?&_&H)). injection H as <-. split; [|done].
  unfold wfRule. change (cleanHostPath (r_HostPath r1) = Ok (r_HostPath r1)). rewrite Hr. by eapply cleanHostPath_idem.
Qed.
Lemma normalizeRules_wf rules source index deny now reserved gs :
  normalizeRules h rules source index deny now reserved = Ok gs →
  Forall (λ g, wfRule (g_Rule g) ∧ ruleExpired (g_Rule g) now = false) gs.
Proof.
  revert index gs. induction rules as [|r rules IH]; intros index gs; [by intros [= <-]|]. simpl.
  intros (g&Hg&H)%result_bind_ok. apply result_bind_ok in H as (rest&Hrest&H). injection H as <-.
  destruct (ruleExpired (g_Rule g) now) eqn:E; [by eapply IH|]. constructor; [|by eapply IH].
  split; [by eapply normalizeRule_wf|done].
Qed.
Lemma buildSourcePolicy_wf c source now reserved p :
  buildSourcePolicy h c source now reserved = Ok p →
  Forall (λ g, wfRule (g_Rule g) ∧ ruleExpired (g_Rule g) now = false) (p_Grants p ++ p_Deny p).
Proof.
  unfold buildSourcePolicy. intros (_&_&H)%result_bind_ok. apply result_bind_ok in H as (gs&Hgs&H).
  apply result_bind_ok in H as (ds&Hds&H). injection H as <-. simpl.
  apply Forall_app. split; by eapply normalizeRules_wf.
Qed.
Lemma implicitDenies_wf source seen roots l :
  implicitDenies source seen roots = Ok l →
  Forall (λ g, wfRule (g_Rule g) ∧ r_ExpiresAt (g_Rule g) = None) l.
Proof.
  revert seen l. induction roots as [|r roots IH]; intros seen l; [by intros [= <-]|]. simpl.
  intros (c&Hc&H)%result_bind_ok. destruct (contains seen c); [by eapply IH|].
  apply result_bind_ok in H as (rest&Hrest&H). injection H as <-. constructor; [|by eapply IH].
  split; [|done]. by eapply cleanHostPath_idem.
Qed.

(** The policy before the implicit denials. *)
Lemma Build_base clock input p :
  Build h clock input = Ok p →
  ∃ p0, addImplicitBroadDiscoveryDenies h p0 (bi_StoreRoot input) (bi_Home input) = Ok p ∧
    Forall (λ g, wfRule (g_Rule g) ∧ ruleExpired (g_Rule g) (p_Now p0) = false) (p_Grants p0 ++ p_Deny p0) ∧
    normalizeReservedRoots (bi_StoreRoot input) = Ok (p_ReservedRoots p0).
Proof.
  unfold Build. intros (rr&Hrr&H)%result_bind_ok. apply result_bind_ok in H as (p1&H1&H).
  apply result_bind_ok in H as (p2&H2&H). apply result_bind_ok in H as (p3&H3&H).
  eexists. split; [exact H|]. simpl. split; [|done].
  apply buildSourcePolicy_wf in H1, H2, H3. rewrite !Forall_app in *. naive_solver.
Qed.
Lemma Build_wf clock input p :
  Build h clock input = Ok p → wfPolicy p ∧ Forall (λ g, ruleExpired (g_Rule g) (p_Now p) = false) (p_Deny p).
Proof.
  intros (p0&Ha&Hw&Hr)%Build_base.
  assert (Forall (λ r, cleanHostPath r = Ok r) (p_ReservedRoots p0)) as Hroots.
  { unfold normalizeReservedRoots in Hr. destruct (String.eqb _ ""); [by injection Hr as <-|].
    apply result_bind_ok in Hr as (r&Hc&Hr). injection Hr as <-. constructor; [by eapply cleanHostPath_idem|done]. }
  apply Forall_app in Hw as [Hg Hd]. unfold addImplicitBroadDiscoveryDenies in Ha.
  destruct (List.find _ (p_Grants p0)) as [g|].
  - apply result_bind_ok in Ha as (l&Hl&Ha). injection Ha as <-. apply implicitDenies_wf in Hl. simpl.
    unfold wfPolicy. simpl. rewrite !Forall_app. split_and!; try done.
    + eapply Forall_impl; [exact Hg|]. by intros ? [? _].
    + eapply Forall_impl; [exact Hd|]. by intros ? [? _].
    + eapply Forall_impl; [exact Hl|]. by intros ? [? _].
    + eapply Forall_impl; [exact Hd|]. by intros ? [_ ?].
    + eapply Forall_impl; [exact Hl|]. intros x [_ Hx]. unfold ruleExpired. by rewrite Hx.
  - injection Ha as <-. unfold wfPolicy. split_and!; try done; (eapply Forall_impl; [eassumption|]); by intros ? [? ?].
Qed.

(** ** Hidden roots *)

Lemma implicitDenies_covers source seen roots l r :
  implicitDenies source seen roots = Ok l → r ∈ roots →
  ∃ c, cleanHostPath (rt_Path r) = Ok c ∧ (c ∈ seen ∨ ∃ r', implicitDeny source r' c ∈ l).
Proof.
  revert seen l. induction roots as [|x roots IH]; intros seen l H Hr; [by apply elem_of_nil in Hr|].
  simpl in H. apply result_bind_ok in H as (cx&Hcx&H). destruct (contains seen cx) eqn:E.
  - apply contains_true in E. apply elem_of_cons in Hr as [->|Hr]; [eauto|by eapply IH].
  - apply result_bind_ok in H as (rest&Hrest&H). injection H as <-. apply elem_of_cons in Hr as [->|Hr].
    { exists cx. split; [done|]. right. exists x. by apply elem_of_cons; left. }
    destruct (IH _ _ Hrest Hr) as (c&Hc&Hor); exists c; split; [done|].
    destruct Hor as [[->|Hs]%elem_of_cons|(r'&Hin)].
    + right. exists x. by apply elem_of_cons; left.
    + by left.
    + right. exists r'. by apply elem_of_cons; right.
Qed.
Lemma implicitDeny_matches source r root rl c cl :
  isPath root rl → isPath c cl → rl `prefix_of` cl →
  ruleMatches h (g_Rule (implicitDeny source r root)) OpDiscover c true = true.
Proof.
  intros Hr Hc Hpre. unfold ruleMatches. simpl.
  apply (recursive_matches h (g_Rule (implicitDeny source r root)) rl _ c cl); done.
Qed.

(** The home directories whose credentials a built policy hides. *)
Definition hidesHome (input : BuildInput) (home : string) : Prop :=
  home = h_Home h ∨ (home = TrimSpace (bi_Home input) ∧ IsAbs home = true).

Lemma credentials_not_in_sight clock input p home hs rel path c :
  Build h clock input = Ok p → hidesHome input home → isPath (Clean (TrimSpace home)) hs → rel ∈ homeHidden →
  cleanHostPath path = Ok c → pathInRoot c (Join (absPath hs) rel) = true →
  ¬ inSight (v_State (Visibility h p path)).
Proof.
  intros (p0&Ha&_&_)%Build_base Hhome (Hh&Hne&Hhs) Hrel Hc Hin. unfold addImplicitBroadDiscoveryDenies in Ha.
  destruct (List.find _ (p_Grants p0)) as [g|] eqn:Eg; [|injection Ha as <-; apply Visibility_no_grant; by apply find_None_elem].
  apply result_bind_ok in Ha as (l&Hl&Ha). injection Ha as <-.
  destruct (hidden_under_home home (bi_StoreRoot input) hs rel Hh Hne Hhs Hrel) as (r&Hr&Hp&_).
  assert (r ∈ hiddenRoots h (bi_StoreRoot input) (bi_Home input)) as Hr'.
  { unfold hiddenRoots. apply elem_of_app. destruct Hhome as [->|[-> Habs]]; [by left|right]. by rewrite Habs. }
  destruct (homeHidden_rel rel Hrel) as (rs&->&Hrne&Hrs).
  rewrite (Join_absPath hs rs) in Hp, Hin by done.
  assert (isPath (absPath (hs ++ rs)) (hs ++ rs)) as HP
    by (split_and!; [done|by destruct hs|by apply Forall_app]).
  destruct (implicitDenies_covers _ _ _ _ _ Hl Hr') as (c0&Hc0&[?%elem_of_nil|(r'&Hd)]); [done|].
  rewrite Hp in Hc0. pose proof (cleanHostPath_fix _ _ _ HP Hc0) as ->.
  destruct (cleanHostPath_path path c Hc) as (cl&Hcl).
  apply (Visibility_denied h _ path c Hc). apply Decide_denied. split; [done|]. exists c.
  split; [by eapply cleanHostPath_idem|]. right. eexists. split; [apply elem_of_app; right; exact Hd|].
  eapply implicitDeny_matches; [done..|]. by eapply pathInRoot_spec.
Qed.
End build.

(** ** The properties *)


(** C24: On a host whose file names do not fold case, a glob of literal bytes,
    [*] and [?] (without classes and escapes) matches, of the clean absolute paths
    (ASCII ones, when the pattern has a [?]), exactly those with as many names as
    the pattern, each matching its element, and no name with a leading dot under
    an element without one. *)
Theorem glob_elementwise h pattern ps path xs :
  h_FoldsCase h = false → isPath pattern ps → isPath path xs → plainPattern pattern = true → bytewise pattern path →
  globMatches h pattern path = true ↔
  Forall2 (λ e x, globSpec e x = true ∧ (HasPrefix x "." = true → HasPrefix e "." = true)) ps xs.
Proof.
  intros Hcase Hp Hx Hplain Hb. rewrite (globMatches_elements h Hcase pattern ps path xs) by done.
  rewrite andb_true_iff, negb_true_iff. clear. revert xs.
  induction ps as [|e ps IH]; intros [|x xs]; simpl;
    [by split|split; [by intros []|by intros ?%Forall2_length]..|].
  rewrite Forall2_cons, <-IH, andb_true_iff, orb_false_iff, andb_false_iff, negb_false_iff.
  destruct (HasPrefix x "."), (HasPrefix e "."); naive_solver.
Qed.

Module Sample.
Definition host : Host := mkHost Ok "/home/u" false (λ s, s).
Definition see (path : string) : Rule := ruleOf path [OpDiscover] false ScopeRecursiveDir "look around".
Definition tree (path : string) : Rule := ruleOf path [OpRead; OpList] false ScopeRecursiveDir "work".
Definition deny (path scope : string) : Rule := ruleOf path [] false scope "private".
Definition now : Time := mkTime 1700000000000000000 0.
Definition input (grants denies : list Rule) : BuildInput :=
  mkBuildInput (mkConfig grants denies) (mkConfig [] []) (mkConfig [] []) now "/home/u/.hideout" "/home/u".
Definition empty : EffectivePolicy := mkPolicy [] [] now [].
Definition built (h : Host) (grants denies : list Rule) : EffectivePolicy :=
  match Build h now (input grants denies) with Ok p => p | Err _ => empty end.
End Sample.


Lemma glob_elementwise_witness :
  globMatches Sample.host "/home/u/*.txt" "/home/u/a.txt" = true ∧
  globMatches Sample.host "/home/u/*.txt" "/home/u/.a.txt" = false.
Proof.
  split.
  - apply (glob_elementwise Sample.host "/home/u/*.txt" ["home"; "u"; "*.txt"] "/home/u/a.txt" ["home"; "u"; "a.txt"]);
      [done|split_and!; [reflexivity|done|repeat constructor; done]..|reflexivity|by left|].
    repeat constructor; done.
  - vm_compute. reflexivity.
Defined.
