(* ===== verification/HostTree.v ===== *)
(** * The host's files, as the package [os] changes them

    A tree of nodes by absolute path, file modes with their text, and the calls
    of package [os] the sources make on host files.  What only the kernel decides
    is an argument ([Kernel]): where a path leads through symbolic links, the
    time stamps and owners of new nodes, and how much a failing write wrote.
    Every call may fail besides (the callers draw that outcome); the failures
    here are those that follow from the tree.  A hard link is a second node. *)
From Stdlib Require Import Ascii.
From S2P Require Import Prelude GoStrings GoTime GoPath.
Open Scope Z_scope.

(** ** Modes *)

Definition bit (n : Z) : Z := Z.shiftl 1 n.
Definition ModeDir : Z := bit 31.
Definition ModeSymlink : Z := bit 27.
Definition ModeType : Z :=
  foldr (λ i m, Z.lor (bit i) m) 0 [31; 27; 25; 24; 26; 21; 19].
Definition permissions : Z := 511.
(** Permissions, setuid, setgid and sticky: what [Chmod] sets. *)
Definition chmodBits : Z := foldr (λ i m, Z.lor (bit i) m) permissions [23; 22; 20].

Fixpoint modeLetters (letters : string) (n m : Z) (absent : option ascii) : string :=
  match letters with
  | EmptyString => EmptyString
  | String c rest =>
      let tail := modeLetters rest (n - 1) m absent in
      if Z.testbit m n then String c tail
      else match absent with Some a => String a tail | None => tail end
  end.
(** [FileMode.String] *)
Definition modeString (m : Z) : string :=
  let kind := modeLetters "dalTLDpSugct?" 31 m None in
  (if String.eqb kind "" then "-" else kind) +:+ modeLetters "rwxrwxrwx" 8 m (Some "-"%char).
Definition isRegularMode (m : Z) : bool := Z.land m ModeType =? 0.
Definition isDirMode (m : Z) : bool := Z.testbit m 31.
Definition isSymlinkMode (m : Z) : bool := Z.testbit m 27.
#[global] Arguments isRegularMode : simpl never.
#[global] Arguments isDirMode : simpl never.
#[global] Arguments isSymlinkMode : simpl never.
Definition setMode (m old : Z) : Z := Z.lor (Z.land old (Z.lnot chmodBits)) (Z.land m chmodBits).

(** ** Nodes and trees *)

(** [nd_size] is the size of a node that is not a regular file. *)
Record Node := mkNode {
  nd_mode : Z; nd_data : list Z; nd_target : string; nd_size : Z; nd_uid : Z; nd_gid : Z; nd_mtime : Time }.
#[global] Instance Node_eta : Eta Node := λ n,
  mkNode (nd_mode n) (nd_data n) (nd_target n) (nd_size n) (nd_uid n) (nd_gid n) (nd_mtime n).
Definition nodeSize (n : Node) : Z :=
  if isRegularMode (nd_mode n) then Z.of_nat (length (nd_data n)) else nd_size n.
Abbreviation Tree := (gmap string Node).

(** The symbolic links of a tree, with their targets: all that decides where a
    path leads. *)
Definition linksOf (t : Tree) : gmap string string :=
  omap (λ n, if isSymlinkMode (nd_mode n) then Some (nd_target n) else None) t.
(** [k_parents]: where a path leads when links among its parents are followed;
    [k_follow]: when its last element is followed too. *)
Record Kernel := mkKernel {
  k_parents : gmap string string → string → string; k_follow : gmap string string → string → string;
  k_umask : Z; k_uid : Z; k_gid : Z; k_stamp : nat → Time; k_short : nat → nat }.

Inductive OsError := OsNotExist | OsExist | OsNotDir | OsIsDir | OsNotEmpty | OsInvalid.
Abbreviation OR := (result OsError).

Definition below (d k : string) : bool :=
  HasPrefix k (if String.eqb d "/" then d else d +:+ "/") && negb (String.eqb k d).
Definition isDirAt (t : Tree) (k : string) : bool :=
  match t !! k with Some n => isDirMode (nd_mode n) | None => false end.
Definition emptyDir (t : Tree) (d : string) : bool := negb (existsb (below d) (map_to_list t).*1).
(** A new name needs its directory. *)
Definition parentDir (t : Tree) (k : string) : OR () :=
  match t !! Dir k with
  | None => Err OsNotExist
  | Some n => guard_err (isDirMode (nd_mode n)) OsNotDir
  end.

Definition place (K : Kernel) (t : Tree) (p : string) : string := k_parents K (linksOf t) p.
Definition behind (K : Kernel) (t : Tree) (p : string) : string := k_follow K (linksOf t) p.

Section calls.
Context (K : Kernel).
Implicit Types (t : Tree) (p : string).

Definition lstat t p : OR Node :=
  match t !! place K t p with Some n => Ok n | None => Err OsNotExist end.
Definition readFile t p : OR (list Z) :=
  match t !! behind K t p with
  | Some n => guard_err (negb (isDirMode (nd_mode n))) OsIsDir;; mret (nd_data n)
  | None => Err OsNotExist
  end.

(** [clock] counts the calls, for the time stamps. *)
Definition newNode (clock : nat) (mode : Z) (data : list Z) : Node :=
  mkNode (Z.land mode (Z.lnot (Z.land permissions (k_umask K)))) data "" 0 (k_uid K) (k_gid K) (k_stamp K clock).
(** [O_CREATE|O_EXCL] *)
Definition create (clock : nat) (mode : Z) p t : OR Tree :=
  let k := place K t p in
  match t !! k with
  | Some _ => Err OsExist
  | None => parentDir t k;; mret (<[k := newNode clock mode []]> t)
  end.
Definition mkdir (clock : nat) (mode : Z) p t : OR Tree :=
  let k := place K t p in
  match t !! k with
  | Some _ => Err OsExist
  | None => parentDir t k;;
            mret (<[k := newNode clock (Z.lor ModeDir (Z.land mode permissions)) []]> t)
  end.
Definition remove p t : OR Tree :=
  let k := place K t p in
  match t !! k with
  | None => Err OsNotExist
  | Some n => guard_err (negb (isDirMode (nd_mode n)) || emptyDir t k) OsNotEmpty;; mret (delete k t)
  end.
Definition chmod (mode : Z) p t : OR Tree :=
  let k := behind K t p in
  match t !! k with
  | None => Err OsNotExist
  | Some n => mret (<[k := n <| nd_mode ::= setMode mode |>]> t)
  end.
(** [File.Chmod] of a file opened under its own name. *)
Definition fchmod (mode : Z) p t : OR Tree :=
  let k := place K t p in
  match t !! k with
  | None => Err OsNotExist
  | Some n => mret (<[k := n <| nd_mode ::= setMode mode |>]> t)
  end.
Definition link p q t : OR Tree :=
  let k := place K t p in
  let l := place K t q in
  match t !! k with
  | None => Err OsNotExist
  | Some n =>
      guard_err (negb (isDirMode (nd_mode n))) OsInvalid;;
      match t !! l with
      | Some _ => Err OsExist
      | None => parentDir t l;; mret (<[l := n]> t)
      end
  end.

(** [os.Rename]: everything at and below the old name moves. *)
Definition moves (k e : string) : bool := String.eqb e k || below k e.
Definition movedKey (k l e : string) : string := l +:+ drop_str (String.length k) e.
Definition moveTree (k l : string) t : Tree :=
  list_to_map ((λ x : string * Node, (movedKey k l x.1, x.2)) <$> List.filter (λ x, moves k x.1) (map_to_list t))
  ∪ filter (λ x, moves k x.1 = false) t.
Definition rename p q t : OR Tree :=
  let k := place K t p in
  let l := place K t q in
  match t !! k with
  | None => Err OsNotExist
  | Some n =>
      guard_err (negb (String.eqb q "")) OsNotExist;;
      guard_err (negb (isDirAt t l)) OsExist;;
      guard_err (negb (String.eqb k "/" || below k l)) OsInvalid;;
      guard_err (negb (isDirMode (nd_mode n) && match t !! l with Some _ => true | None => false end)) OsNotDir;;
      parentDir t l;;
      mret (if String.eqb k l then t else moveTree k l t)
  end.
End calls.

(** ** What a call leaves alone *)

Definition agreeOff (P : string → Prop) (t t' : Tree) : Prop := ∀ k, ¬ P k → t' !! k = t !! k.
#[global] Instance agreeOff_pre P : PreOrder (agreeOff P).
Proof. split; [done|]. intros t1 t2 t3 H1 H2 k Hk. by rewrite H2, H1. Qed.
Lemma agreeOff_mono (P Q : string → Prop) t t' : (∀ k, P k → Q k) → agreeOff P t t' → agreeOff Q t t'.
Proof. intros HPQ H k Hk. apply H. auto. Qed.
Lemma agreeOff_insert k n t : agreeOff (.= k) t (<[k := n]> t).
Proof. intros k' Hk'. by rewrite lookup_insert_ne. Qed.
Lemma agreeOff_delete k t : agreeOff (.= k) t (delete k t).
Proof. intros k' Hk'. by rewrite lookup_delete_ne. Qed.

Lemma result_then {E A B} (m : result E A) (k : result E B) b : (m;; k) = Ok b → k = Ok b.
Proof. by destruct m. Qed.
Lemma mret_ok {E A} (a b : A) : mret (M := result E) a = Ok b → a = b.
Proof. by intros [= ->]. Qed.
(** Peel the guards off a call that succeeded. *)
Ltac peel H :=
  repeat match type of H with
  | context [match ?t !! ?k with _ => _ end] => let E := fresh "Hat" in destruct (t !! k) eqn:E; try discriminate H
  | (_;; _) = Ok _ => first [apply guard_then in H as [? H] | apply result_then in H]
  | mret _ = Ok _ => apply mret_ok in H as <-
  end.

Section frames.
Context (K : Kernel).
Implicit Types (t : Tree) (p : string).

Lemma create_frame clock mode p t t' :
  create K clock mode p t = Ok t' →
  t !! place K t p = None ∧ t' = <[place K t p := newNode K clock mode []]> t.
Proof. unfold create. intros H. peel H; done. Qed.
Lemma mkdir_frame clock mode p t t' :
  mkdir K clock mode p t = Ok t' →
  t !! place K t p = None ∧
  t' = <[place K t p := newNode K clock (Z.lor ModeDir (Z.land mode permissions)) []]> t.
Proof. unfold mkdir. intros H. peel H; done. Qed.
Lemma remove_frame p t t' : remove K p t = Ok t' → t' = delete (place K t p) t.
Proof. unfold remove. intros H. peel H; done. Qed.
Lemma chmod_frame mode p t t' :
  chmod K mode p t = Ok t' →
  ∃ n, t !! behind K t p = Some n ∧ t' = <[behind K t p := n <| nd_mode ::= setMode mode |>]> t.
Proof. unfold chmod. intros H. peel H; naive_solver. Qed.
Lemma fchmod_frame mode p t t' :
  fchmod K mode p t = Ok t' →
  ∃ n, t !! place K t p = Some n ∧ t' = <[place K t p := n <| nd_mode ::= setMode mode |>]> t.
Proof. unfold fchmod. intros H. peel H; naive_solver. Qed.
Lemma link_frame p q t t' :
  link K p q t = Ok t' →
  ∃ n, t !! place K t p = Some n ∧ t !! place K t q = None ∧ t' = <[place K t q := n]> t.
Proof. unfold link. intros H. peel H; naive_solver. Qed.

Lemma app_nil_r_str a : a +:+ "" = a.
Proof. induction a as [|c a IH]; [done|]. exact (f_equal (String c) IH). Qed.
Lemma app_longer a c b : a +:+ String c b ≠ a.
Proof. induction a as [|x a IH]; [done|]. intros [= H]. by apply IH. Qed.

Lemma movedKey_moves k l e : k ≠ "/" → moves k e = true → moves l (movedKey k l e) = true.
Proof.
  intros Hk [->%String.eqb_eq|H]%orb_true_iff; unfold moves, movedKey.
  - replace (drop_str _ k) with "" by (rewrite <-(app_nil_r_str k) at 2; by rewrite drop_str_app).
    by rewrite app_nil_r_str, String.eqb_refl.
  - unfold below in *. apply andb_true_iff in H as [H _]. destruct (String.eqb_spec k "/"); [done|].
    apply HasPrefix_Some in H. rewrite H, str_app_assoc, drop_str_app. simpl. apply orb_true_iff. right.
    apply andb_true_iff. split; [|apply negb_true_iff, String.eqb_neq, app_longer].
    destruct (String.eqb_spec l "/") as [->|]; [apply HasPrefix_app|].
    change (String "/" ?x) with ("/" +:+ x). rewrite <-str_app_assoc. apply HasPrefix_app.
Qed.
Lemma moveTree_frame k l t :
  k ≠ "/" → agreeOff (λ e, moves k e = true ∨ moves l e = true) t (moveTree k l t).
Proof.
  intros Hk e He. unfold moveTree. rewrite lookup_union_r.
  - destruct (t !! e) as [n|] eqn:Ht.
    + apply map_lookup_filter_Some. split; [done|]. simpl. apply not_true_is_false. tauto.
    + apply map_lookup_filter_None. by left.
  - apply not_elem_of_list_to_map_1. intros Hin. apply list_elem_of_fmap in Hin as ([e' n]&->&Hin).
    apply list_elem_of_fmap in Hin as ([e'' n']&[= -> ->]&Hin). apply list_elem_of_In, filter_In in Hin as [_ Hm].
    apply He. right. simpl. by apply movedKey_moves.
Qed.
Lemma rename_frame p q t t' :
  rename K p q t = Ok t' →
  q ≠ "" ∧ (∃ n, t !! place K t p = Some n) ∧ isDirAt t (place K t q) = false ∧
  agreeOff (λ e, moves (place K t p) e = true ∨ moves (place K t q) e = true) t t'.
Proof.
  unfold rename. intros H. destruct (t !! place K t p) as [n|]; [|done].
  apply guard_then in H as [Hq%negb_true_iff%String.eqb_neq H].
  apply guard_then in H as [Hd%negb_true_iff H]. apply guard_then in H as [Hb H]. apply guard_then in H as [_ H].
  apply result_then, mret_ok in H. subst t'. split_and!; [done|eauto|done|].
  destruct (String.eqb_spec (place K t p) (place K t q)) as [|Hne]; [done|].
  apply moveTree_frame. by bool_prop.
Qed.
Lemma moves_refl k : moves k k = true.
Proof. unfold moves. by rewrite String.eqb_refl. Qed.

(** ** Links *)

Lemma linksOf_insert k n t :
  isSymlinkMode (nd_mode n) = false → (∀ n0, t !! k = Some n0 → isSymlinkMode (nd_mode n0) = false) →
  linksOf (<[k := n]> t) = linksOf t.
Proof.
  intros Hn Ht. apply map_eq. intros e. unfold linksOf. rewrite !lookup_omap.
  destruct (decide (k = e)) as [<-|]; [|by rewrite lookup_insert_ne].
  rewrite lookup_insert_eq. cbn. rewrite Hn. destruct (t !! k) as [n0|] eqn:E; [|done]. cbn. by rewrite (Ht n0).
Qed.
Lemma linksOf_delete k t :
  (∀ n0, t !! k = Some n0 → isSymlinkMode (nd_mode n0) = false) → linksOf (delete k t) = linksOf t.
Proof.
  intros Ht. apply map_eq. intros e. unfold linksOf. rewrite !lookup_omap.
  destruct (decide (k = e)) as [<-|]; [|by rewrite lookup_delete_ne].
  rewrite lookup_delete_eq. cbn. destruct (t !! k) as [n0|] eqn:E; [|done]. cbn. by rewrite (Ht n0).
Qed.
Lemma setMode_symlink m old : isSymlinkMode (setMode m old) = isSymlinkMode old.
Proof.
  unfold isSymlinkMode, setMode. rewrite Z.lor_spec, !Z.land_spec, Z.lnot_spec by lia.
  change (Z.testbit chmodBits 27) with false. by rewrite andb_true_r, andb_false_r, orb_false_r.
Qed.
Lemma setMode_dir m old : isDirMode (setMode m old) = isDirMode old.
Proof.
  unfold isDirMode, setMode. rewrite Z.lor_spec, !Z.land_spec, Z.lnot_spec by lia.
  change (Z.testbit chmodBits 31) with false. by rewrite andb_true_r, andb_false_r, orb_false_r.
Qed.
End frames.
