(* ===== verification/Overlay.v ===== *)
(** * Staged host writes (src/internal/hostfs/overlay)

    A write of a session to a host file is staged: the new content becomes an
    object, the operation and a pending decision become records, and the host is
    not touched.  [Apply] carries an approved operation out when the path is
    still as it was.  [View] and [Entries] are what the session sees meanwhile.

    The state is the files of one overlay, the host's tree, and the outside
    world: any clock, any random bytes, any call that fails.  A failed atomic
    write leaves the file as it was; records survive their JSON text, but for the
    token of a claim, which is never written.  A run that panics ends with
    [OvPanic]. *)
From Stdlib Require Import Ascii.
From S2P Require Import Prelude GoStrings GoTime GoHash GoPath HostTree.
Open Scope Z_scope.

(** ** Records (types.go) *)

Definition PlanVersion : string := "hideout.hostfs-write-plan/v1".
Definition ResultVersion : string := "hideout.hostfs-write-result/v1".
Definition StatusVersion : string := "hideout.hostfs-write-status/v1".
Definition WriteStaged : string := "staged".
Definition WritePending : string := "pending".
Definition WriteClaimed : string := "claimed".
Definition WriteApplied : string := "applied".
Definition WriteDiscarded : string := "discarded".
Definition WriteExpired : string := "expired".
Definition WriteConflict : string := "conflict".
Definition WriteFailed : string := "failed".
Definition WriteDenied : string := "denied".
Definition DecisionAllow : string := "allow".
Definition DecisionDeny : string := "deny".

Record Snapshot := mkSnapshot {
  sn_Exists : bool; sn_Kind : string; sn_Size : Z; sn_MTime : Time; sn_Mode : string; sn_UID : Z; sn_GID : Z;
  sn_ContentHash : string; sn_LinkTarget : string }.
#[global] Instance Snapshot_eta : Eta Snapshot := λ s,
  mkSnapshot (sn_Exists s) (sn_Kind s) (sn_Size s) (sn_MTime s) (sn_Mode s) (sn_UID s) (sn_GID s)
    (sn_ContentHash s) (sn_LinkTarget s).
Definition noSnapshot : Snapshot := mkSnapshot false "" 0 zeroTime "" 0 0 "" "".
Record WritePreview := mkWritePreview {
  wp_Kind : string; wp_Summary : string; wp_Truncated : bool; wp_Bytes : Z; wp_Lines : Z }.
Definition noPreview : WritePreview := mkWritePreview "" "" false 0 0.
Record Privilege := mkPrivilege {
  pr_Status : string; pr_Reason : string; pr_Source : string; pr_CheckedAt : Time }.
Definition noPrivilege : Privilege := mkPrivilege "" "" "" zeroTime.
Record Operation := mkOperation {
  op_Version : string; op_ID : string; op_SessionID : string; op_Profile : string; op_Backend : string;
  op_Operation : string; op_RequestedPath : string; op_CanonicalPath : string; op_DestinationPath : string;
  op_GrantID : string; op_GrantSource : string; op_BaseSnapshot : Snapshot; op_NewSnapshot : Snapshot;
  op_ContentObject : string; op_Preview : WritePreview; op_RequestedMode : string; op_RequestedOwner : string;
  op_RequestedGroup : string; op_Privilege : Privilege; op_DecisionID : string; op_Status : string;
  op_CreatedAt : Time; op_UpdatedAt : Time }.
#[global] Instance Operation_eta : Eta Operation := λ o,
  mkOperation (op_Version o) (op_ID o) (op_SessionID o) (op_Profile o) (op_Backend o) (op_Operation o)
    (op_RequestedPath o) (op_CanonicalPath o) (op_DestinationPath o) (op_GrantID o) (op_GrantSource o)
    (op_BaseSnapshot o) (op_NewSnapshot o) (op_ContentObject o) (op_Preview o) (op_RequestedMode o)
    (op_RequestedOwner o) (op_RequestedGroup o) (op_Privilege o) (op_DecisionID o) (op_Status o) (op_CreatedAt o)
    (op_UpdatedAt o).
Definition noOperation : Operation :=
  mkOperation "" "" "" "" "" "" "" "" "" "" "" noSnapshot noSnapshot "" noPreview "" "" "" noPrivilege "" ""
    zeroTime zeroTime.

Record WriteClaim := mkWriteClaim {
  wc_Surface : string; wc_Operator : string; wc_ClaimedAt : Time; wc_ExpiresAt : Time; wc_Token : string;
  wc_TokenHash : string }.
Record PolicyRef := mkPolicyRef { pf_GrantID : string; pf_Source : string; pf_DenyMatched : bool }.
Record WriteDecision := mkWriteDecision {
  wd_Version : string; wd_DecisionID : string; wd_OperationID : string; wd_State : string; wd_Operation : string;
  wd_Path : string; wd_DestinationPath : string; wd_Preview : WritePreview; wd_Policy : PolicyRef;
  wd_Privilege : Privilege; wd_TimeoutAt : Time; wd_Claim : option WriteClaim; wd_Warnings : list string;
  wd_UpdatedAt : Time; wd_AuditRefs : list string }.
#[global] Instance WriteDecision_eta : Eta WriteDecision := λ d,
  mkWriteDecision (wd_Version d) (wd_DecisionID d) (wd_OperationID d) (wd_State d) (wd_Operation d) (wd_Path d)
    (wd_DestinationPath d) (wd_Preview d) (wd_Policy d) (wd_Privilege d) (wd_TimeoutAt d) (wd_Claim d)
    (wd_Warnings d) (wd_UpdatedAt d) (wd_AuditRefs d).
Definition noWriteDecision : WriteDecision :=
  mkWriteDecision "" "" "" "" "" "" "" noPreview (mkPolicyRef "" "" false) noPrivilege zeroTime None [] zeroTime [].
(** The JSON of a claim leaves the token out. *)
Definition withoutToken (c : WriteClaim) : WriteClaim :=
  mkWriteClaim (wc_Surface c) (wc_Operator c) (wc_ClaimedAt c) (wc_ExpiresAt c) "" (wc_TokenHash c).

Record ApplyResult := mkApplyResult {
  ar_Version : string; ar_DecisionID : string; ar_OperationID : string; ar_Decision : string; ar_Status : string;
  ar_ChangedPaths : list string; ar_ConflictReason : string; ar_PartialMutationPrevented : bool;
  ar_Privilege : Privilege; ar_AuditRef : string }.
#[global] Instance ApplyResult_eta : Eta ApplyResult := λ r,
  mkApplyResult (ar_Version r) (ar_DecisionID r) (ar_OperationID r) (ar_Decision r) (ar_Status r)
    (ar_ChangedPaths r) (ar_ConflictReason r) (ar_PartialMutationPrevented r) (ar_Privilege r) (ar_AuditRef r).
Definition noResult : ApplyResult := mkApplyResult "" "" "" "" "" [] "" false noPrivilege "".

Record StageRequest := mkStageRequest {
  sq_SessionID : string; sq_Profile : string; sq_Backend : string; sq_Operation : string; sq_Path : string;
  sq_DestinationPath : string; sq_GrantID : string; sq_GrantSource : string; sq_Data : list Z; sq_Offset : Z;
  sq_Size : Z; sq_Mode : string; sq_Owner : string; sq_Group : string; sq_Privilege : Privilege }.
#[global] Instance StageRequest_eta : Eta StageRequest := λ q,
  mkStageRequest (sq_SessionID q) (sq_Profile q) (sq_Backend q) (sq_Operation q) (sq_Path q)
    (sq_DestinationPath q) (sq_GrantID q) (sq_GrantSource q) (sq_Data q) (sq_Offset q) (sq_Size q) (sq_Mode q)
    (sq_Owner q) (sq_Group q) (sq_Privilege q).
Record OverlayView := mkOverlayView {
  ov_Exists : bool; ov_Deleted : bool; ov_Kind : string; ov_Size : Z; ov_Mode : string; ov_Data : list Z }.
Record OverlayEntry := mkOverlayEntry {
  oe_Name : string; oe_Deleted : bool; oe_Kind : string; oe_Size : Z; oe_Mode : string }.

(** ** The state *)

(** The three directories of an overlay, by file name. *)
Record OverlayFiles := mkOverlayFiles {
  of_objects : gmap string (list Z); of_operations : gmap string Operation;
  of_decisions : gmap string WriteDecision }.
#[global] Instance OverlayFiles_eta : Eta OverlayFiles := λ f,
  mkOverlayFiles (of_objects f) (of_operations f) (of_decisions f).
Definition emptyOverlay : OverlayFiles := mkOverlayFiles ∅ ∅ ∅.
Record Outside := mkOutside {
  ou_clock : nat → Time; ou_reads : nat; ou_io : nat → bool; ou_ios : nat;
  ou_rand : nat → option (list Z); ou_rands : nat }.
#[global] Instance Outside_eta : Eta Outside := λ o,
  mkOutside (ou_clock o) (ou_reads o) (ou_io o) (ou_ios o) (ou_rand o) (ou_rands o).
Record OverlayState := mkOverlayState { os_files : OverlayFiles; os_tree : Tree; os_out : Outside }.
#[global] Instance OverlayState_eta : Eta OverlayState := λ s,
  mkOverlayState (os_files s) (os_tree s) (os_out s).

Inductive OverlayError :=
  | OvConflict | OvUnsafePath | OvUnsupported | OvNotExist | OvIO | OvRandom
  | OvInvalid (what : string) | OvPanic.
#[global] Instance OverlayError_eq_dec : EqDecision OverlayError.
Proof. solve_decision. Defined.
Abbreviation OM := (SE OverlayState OverlayError).

Definition onow : OM Time := λ s,
  (s <| os_out ::= (λ o, o <| ou_reads ::= S |>) |>, Ok (UTC (ou_clock (os_out s) (ou_reads (os_out s))))).
Definition oio : OM () := λ s,
  (s <| os_out ::= (λ o, o <| ou_ios ::= S |>) |>,
   if ou_io (os_out s) (ou_ios (os_out s)) then Ok tt else Err OvIO).
Definition orand : OM (list Z) := λ s,
  (s <| os_out ::= (λ o, o <| ou_rands ::= S |>) |>,
   match ou_rand (os_out s) (ou_rands (os_out s)) with Some raw => Ok raw | None => Err OvRandom end).
Definition orequire (b : bool) (e : OverlayError) : OM () := if b then mret tt else fail e.

(** A call on the host's tree. *)
Definition ofOs (e : OsError) : OverlayError := match e with OsNotExist => OvNotExist | _ => OvIO end.
Definition osRead {A} (f : Tree → OR A) : OM A :=
  oio;; s ← get_state; match f (os_tree s) with Ok a => mret a | Err e => fail (ofOs e) end.
Definition osWrite (f : nat → Tree → OR Tree) : OM () :=
  s0 ← get_state;
  oio;;
  match f (ou_ios (os_out s0)) (os_tree s0) with
  | Ok t => modify (λ s, s <| os_tree := t |>)
  | Err e => fail (ofOs e)
  end.

Definition newID (prefix : string) : OM string :=
  raw ← orand; mret (prefix +:+ "_" +:+ EncodeToString raw).

(** [slices.SortFunc] by a time: it sorts, in no particular order among equal
    times. *)
Definition earlier {A} (key : A → Time) (a b : A) : Prop := unixNano (key a) ≤ unixNano (key b).
Class TimeSort := {
  sortFunc : ∀ {A}, (A → Time) → list A → list A;
  sortFunc_perm : ∀ {A} (key : A → Time) l, sortFunc key l ≡ₚ l;
  sortFunc_sorted : ∀ {A} (key : A → Time) l, StronglySorted (earlier key) (sortFunc key l) }.

(** ** The store's files *)

Definition objectName (id : string) : string := Base id.
Definition recordName (id : string) : string := Base id +:+ ".json".
Definition onFiles (f : OverlayFiles → OverlayFiles) : OM () := modify (λ s, s <| os_files ::= f |>).
Definition ensure : OM () := oio;; oio;; oio;; oio.
(** [writeFileAtomic]: the directory, the temporary file, the rename. *)
Definition writeFileAtomic (f : OverlayFiles → OverlayFiles) : OM () := oio;; oio;; oio;; onFiles f.
Definition readObject (id : string) : OM (list Z) :=
  oio;; s ← get_state;
  match of_objects (os_files s) !! objectName id with Some data => mret data | None => fail OvNotExist end.
Definition removeObject (id : string) : OM () :=
  oio;; s ← get_state;
  match of_objects (os_files s) !! objectName id with
  | Some _ => onFiles (λ f, f <| of_objects ::= delete (objectName id) |>)
  | None => fail OvNotExist
  end.
Definition writeOperation (op : Operation) : OM () :=
  writeFileAtomic (λ f, f <| of_operations ::= <[recordName (op_ID op) := op]> |>).
Definition writeDecisionFile (d : WriteDecision) : OM () :=
  writeFileAtomic (λ f, f <| of_decisions ::=
    <[recordName (wd_DecisionID d) := d <| wd_Claim ::= fmap withoutToken |>]> |>).

Definition getOperation (id : string) : OM Operation :=
  orequire (negb (String.eqb (TrimSpace id) "")) (OvInvalid "operation id is required");;
  oio;; s ← get_state;
  match of_operations (os_files s) !! recordName id with Some op => mret op | None => fail OvNotExist end.
Definition getDecision (id : string) : OM WriteDecision :=
  orequire (negb (String.eqb (TrimSpace id) "")) (OvInvalid "decision id is required");;
  oio;; s ← get_state;
  match of_decisions (os_files s) !! recordName id with Some d => mret d | None => fail OvNotExist end.
Definition SaveDecision (d : WriteDecision) : OM () :=
  orequire (negb (String.eqb (TrimSpace (wd_DecisionID d)) "")) (OvInvalid "decision id is required");;
  now ← onow;
  writeDecisionFile (d <| wd_UpdatedAt := now |>).
Definition SaveOperation (op : Operation) : OM () :=
  orequire (negb (String.eqb (TrimSpace (op_ID op)) "")) (OvInvalid "operation id is required");;
  now ← onow;
  writeOperation (op <| op_UpdatedAt := now |>).

(** The records of a directory, in the order of their names; reading any of them
    may fail. *)
Definition recordsOf {A} (m : gmap string A) : list (string * A) :=
  sort_by fst (List.filter (λ e : string * A, HasSuffix e.1 ".json") (map_to_list m)).
Fixpoint readEach {A} (l : list (string * A)) : OM (list A) :=
  match l with
  | [] => mret []
  | e :: l => oio;; rest ← readEach l; mret (e.2 :: rest)
  end.

Section store.
Context (K : Kernel) `{TimeSort}.

Definition operations : OM (list Operation) :=
  oio;; s ← get_state;
  out ← readEach (recordsOf (of_operations (os_files s)));
  mret (sortFunc op_CreatedAt out).
Definition Operations : OM (list Operation) := operations.
Definition WriteDecisions : OM (list WriteDecision) :=
  oio;; s ← get_state;
  out ← readEach (recordsOf (of_decisions (os_files s)));
  mret (sortFunc wd_UpdatedAt out).
Definition DecisionForOperation (operationID : string) : OM WriteDecision :=
  decisions ← WriteDecisions;
  match List.find (λ d, String.eqb (wd_OperationID d) operationID) decisions with
  | Some d => mret d
  | None => fail OvNotExist
  end.

Definition NewOverlayStore (root : string) : OM () :=
  orequire (negb (String.eqb (TrimSpace root) "")) (OvInvalid "hostfs overlay root is required");; ensure.

(** ** Snapshots *)

Definition fileKind (m : Z) : string :=
  if isSymlinkMode m then "symlink" else if isDirMode m then "dir"
  else if isRegularMode m then "file" else "unsupported".
Definition hashFile (path : string) : OM string :=
  data ← osRead (λ t, readFile K t path); mret ("sha256:" +:+ EncodeToString (Sum256 data)).
(** The snapshot, and whether the error beside it is [os.ErrNotExist]. *)
Definition snapshotPath (path : string) : OM (Snapshot * bool) :=
  found ← attempt (osRead (λ t, lstat K t path));
  match found with
  | Err OvNotExist => mret (mkSnapshot false "missing" 0 zeroTime "" 0 0 "" "", true)
  | Err e => fail e
  | Ok n =>
      hash ← (if isRegularMode (nd_mode n) then attempt (hashFile path) else mret (Err OvIO));
      target ← (if isSymlinkMode (nd_mode n) then attempt oio else mret (Err OvIO));
      mret (mkSnapshot true (fileKind (nd_mode n)) (nodeSize n) (UTC (nd_mtime n)) (modeString (nd_mode n))
              (nd_uid n) (nd_gid n) (match hash with Ok h => h | Err _ => "" end)
              (match target with Ok _ => nd_target n | Err _ => "" end), false)
  end.

Definition sameBaseSnapshot (a b : Snapshot) : bool :=
  if negb (Bool.eqb (sn_Exists a) (sn_Exists b)) || negb (String.eqb (sn_Kind a) (sn_Kind b)) then false
  else if negb (sn_Exists a) then true
  else if String.eqb (sn_Kind a) "file"
       then (sn_Size a =? sn_Size b) && String.eqb (sn_ContentHash a) (sn_ContentHash b)
  else if String.eqb (sn_Kind a) "symlink" then String.eqb (sn_LinkTarget a) (sn_LinkTarget b)
  else true.

(** ** Bytes *)

(** The largest slice the runtime allocates on 64-bit systems; a longer one
    panics. *)
Definition maxAlloc : Z := 281474976710656.
Definition zeros (n : Z) : list Z := replicate (Z.to_nat n) 0.
(** [copy(dst[i:], src)] *)
Definition copyAt (i : nat) (src dst : list Z) : list Z :=
  let n := Nat.min (length src) (length dst - i) in
  (take i dst ++ take n src ++ drop (i + n) dst)%list.
Definition patchBytes (prior : list Z) (offset : Z) (data : list Z) : result OverlayError (list Z) :=
  let offset := if offset <? 0 then 0 else offset in
  prior ← (if Z.of_nat (length prior) <? offset
           then guard_err (offset <=? maxAlloc) OvPanic;;
                mret (prior ++ zeros (offset - Z.of_nat (length prior)))%list
           else mret prior);
  let end_ := offset + Z.of_nat (length data) in
  prior ← (if Z.of_nat (length prior) <? end_
           then guard_err (end_ <=? maxAlloc) OvPanic;; mret (copyAt 0 prior (zeros end_))
           else mret prior);
  mret (copyAt (Z.to_nat offset) data prior).
Definition resizeBytes (prior : list Z) (size : Z) : result OverlayError (list Z) :=
  let size := if size <? 0 then 0 else size in
  guard_err (size <=? maxAlloc) OvPanic;;
  mret (copyAt 0 prior (zeros size)).

(** ** Numbers in text *)

Fixpoint digitsValue (base acc : Z) (s : string) : option Z :=
  match s with
  | EmptyString => Some acc
  | String a s =>
      let d := Z.of_N (byte_of a) - 48 in
      if (0 <=? d) && (d <? base) then digitsValue base (acc * base + d) s else None
  end.
Fixpoint leadingDigits (s : string) : string :=
  match s with
  | String a rest => if is_digit a then String a (leadingDigits rest) else EmptyString
  | EmptyString => EmptyString
  end.
(** A decimal of type [int], after its sign. *)
Definition intOf (negative : bool) (digits : string) : option Z :=
  if String.eqb digits "" then None
  else v ← digitsValue 10 0 digits;
       let v := if negative then - v else v in
       if (- maxInt64 - 1 <=? v) && (v <=? maxInt64) then Some v else None.
Definition signed {A} (s : string) (k : bool → string → A) : A :=
  if HasPrefix s "-" then k true (drop_str 1 s) else if HasPrefix s "+" then k false (drop_str 1 s) else k false s.
(** [strconv.Atoi] and [strconv.ParseUint(s, 8, 32)] *)
Definition Atoi (s : string) : option Z := signed s intOf.
Definition parseOctal32 (s : string) : option Z :=
  if String.eqb s "" then None
  else v ← digitsValue 8 0 s; if v <? 4294967296 then Some v else None.
(** [fmt.Sscanf(value, "%d", &out)] reads the number the text starts with. *)
Definition parseIntOrZero (value : string) : Z :=
  default 0 (signed (TrimLeftSet (λ a, Ascii.eqb a " " || Ascii.eqb a "009") value)
               (λ negative s, intOf negative (leadingDigits s))).
Definition modeOrDefault (value fallback : string) : string :=
  if String.eqb value "" then fallback else value.
Definition parseFileModeOrDefault (value : string) (fallback : Z) : OM Z :=
  let value := TrimSpace value in
  if String.eqb value ""
  then orequire (negb (fallback =? 0)) (OvInvalid "file mode is required");; mret fallback
  else match parseOctal32 value with
       | Some m => mret m
       | None => fail (OvInvalid "file mode")
       end.

(** ** What the session sees *)

Definition operationLive (status : string) : bool :=
  existsb (String.eqb status) [WriteStaged; WritePending; WriteClaimed; ""].
Definition touches (path : string) (op : Operation) : bool :=
  operationLive (op_Status op)
  && (String.eqb (op_RequestedPath op) path || String.eqb (op_DestinationPath op) path).
Definition latestOperation (path : string) : OM (option Operation) :=
  ops ← operations;
  mret (List.find (touches (Clean path)) (rev ops)).

Definition isContentOp (operation : string) : bool :=
  existsb (String.eqb operation) ["create"; "replace"; "append"; "truncate"].
Definition goneView : OverlayView := mkOverlayView false true "missing" 0 "" [].
Definition snapshotView (s : Snapshot) : OverlayView :=
  mkOverlayView true false (sn_Kind s) (sn_Size s) (sn_Mode s) [].
Definition viewFromOperation (op : Operation) (requested : string) : OM OverlayView :=
  if isContentOp (op_Operation op) then
    data ← readObject (op_ContentObject op);
    mret (mkOverlayView true false "file" (Z.of_nat (length data))
            (modeOrDefault (sn_Mode (op_NewSnapshot op)) "-rw-r--r--") data)
  else if String.eqb (op_Operation op) "mkdir" then
    mret (mkOverlayView true false "dir" 0 (modeOrDefault (sn_Mode (op_NewSnapshot op)) "drwxr-xr-x") [])
  else if String.eqb (op_Operation op) "delete" then mret goneView
  else if String.eqb (op_Operation op) "rename" then
    mret (if String.eqb requested (op_RequestedPath op) then goneView else snapshotView (op_NewSnapshot op))
  else if String.eqb (op_Operation op) "chmod" || String.eqb (op_Operation op) "chown" then
    mret (snapshotView (op_NewSnapshot op))
  else fail OvUnsupported.
Definition View (path : string) : OM (option OverlayView) :=
  latest ← latestOperation path;
  match latest with
  | None => mret None
  | Some op => v ← viewFromOperation op path; mret (Some v)
  end.

(** One operation's contribution to the listing of [dir]. *)
Definition entryOf (name : string) (v : OverlayView) : OverlayEntry :=
  if ov_Deleted v then mkOverlayEntry name true "" 0 "" else mkOverlayEntry name false (ov_Kind v) (ov_Size v) (ov_Mode v).
Definition entriesOfOperation (dir : string) (op : Operation) (seen : gmap string OverlayEntry) :
    OM (gmap string OverlayEntry) :=
  let source := op_RequestedPath op in
  let dest := op_DestinationPath op in
  let put path e (m : gmap string OverlayEntry) := if String.eqb (Dir path) dir then <[Base path := e]> m else m in
  if negb (operationLive (op_Status op)) then mret seen
  else
    '((seen, gone) : gmap string OverlayEntry * bool) ← (if String.eqb (Dir source) dir
                     then v ← viewFromOperation op source;
                          mret (<[Base source := entryOf (Base source) v]> seen, ov_Deleted v)
                     else mret (seen, false));
    mret (if gone then seen
          else if String.eqb (op_Operation op) "rename" && negb (String.eqb dest "")
          then put source (mkOverlayEntry (Base source) true "" 0 "")
                 (put dest (let s := op_NewSnapshot op in
                            mkOverlayEntry (Base dest) false (sn_Kind s) (sn_Size s) (sn_Mode s)) seen)
          else seen).
Fixpoint entriesOfOperations (dir : string) (ops : list Operation) (seen : gmap string OverlayEntry) :
    OM (gmap string OverlayEntry) :=
  match ops with
  | [] => mret seen
  | op :: ops => seen ← entriesOfOperation dir op seen; entriesOfOperations dir ops seen
  end.
Definition Entries (dir : string) : OM (list OverlayEntry) :=
  ops ← operations;
  seen ← entriesOfOperations (Clean dir) ops ∅;
  mret (sort_by oe_Name (map_to_list seen).*2).

(** ** Staging *)

Definition readCurrentContent (path : string) : OM (list Z) :=
  v ← View path;
  match v with
  | Some v => if ov_Deleted v then fail OvNotExist else mret (ov_Data v)
  | None => osRead (λ t, readFile K t path)
  end.
(** The content so far; a missing file has none. *)
Definition priorContent (path : string) : OM (list Z) :=
  prior ← attempt (readCurrentContent path);
  match prior with
  | Ok data => mret data
  | Err OvNotExist => mret []
  | Err e => fail e
  end.
Definition writeContentObject (content : list Z) (operation : string) : OM (string * Snapshot * WritePreview) :=
  id ← newID "hfwobj";
  writeFileAtomic (λ f, f <| of_objects ::= <[objectName id := content]> |>);;
  now ← onow;
  let size := Z.of_nat (length content) in
  mret (id,
        mkSnapshot true "file" size now "-rw-r--r--" 0 0 ("sha256:" +:+ EncodeToString (Sum256 content)) "",
        mkWritePreview "content" (operation +:+ " " +:+ pretty (Z.to_N size) +:+ " bytes") false size 0).
Definition stageContent (req : StageRequest) (prior : list Z) : OM (string * Snapshot * WritePreview) :=
  writeContentObject (prior ++ sq_Data req)%list (sq_Operation req).
Definition metadata (s : Snapshot) (summary : string) : OM (string * Snapshot * WritePreview) :=
  mret ("", s, mkWritePreview "metadata" summary false 0 0).

(** The [switch] on the operation: the content object, the snapshot to be and the
    preview. *)
Definition plan (req : StageRequest) (base : Snapshot) (now : Time) : OM (string * Snapshot * WritePreview) :=
  let isOp := String.eqb (sq_Operation req) in
  if isOp "create" then orequire (negb (sn_Exists base)) OvConflict;; stageContent req []
  else if isOp "replace" then
    content ← (if 0 <? sq_Offset req
               then prior ← priorContent (sq_Path req); lift (patchBytes prior (sq_Offset req) (sq_Data req))
               else mret (sq_Data req));
    writeContentObject content "replace"
  else if isOp "append" then
    prior ← priorContent (sq_Path req); writeContentObject (prior ++ sq_Data req)%list "append"
  else if isOp "truncate" then
    prior ← priorContent (sq_Path req);
    content ← lift (resizeBytes prior (sq_Size req));
    writeContentObject content "truncate"
  else if isOp "mkdir" then
    orequire (negb (sn_Exists base)) OvConflict;;
    metadata (mkSnapshot true "dir" 0 now (modeOrDefault (sq_Mode req) "drwxr-xr-x") 0 0 "" "") "create directory"
  else if isOp "delete" then
    orequire (sn_Exists base) OvConflict;;
    metadata (mkSnapshot false "missing" 0 now "" 0 0 "" "") "delete path"
  else if isOp "rename" then
    orequire (sn_Exists base) OvConflict;;
    orequire (negb (String.eqb (sq_DestinationPath req) "")) (OvInvalid "destinationPath is required");;
    '(dest, _) ← snapshotPath (sq_DestinationPath req);
    orequire (negb (sn_Exists dest)) OvConflict;;
    metadata base "rename path"
  else if isOp "chmod" then
    orequire (sn_Exists base) OvConflict;; metadata (base <| sn_Mode := sq_Mode req |>) "change mode"
  else if isOp "chown" then
    orequire (sn_Exists base) OvConflict;;
    metadata (base <| sn_UID := parseIntOrZero (sq_Owner req) |> <| sn_GID := parseIntOrZero (sq_Group req) |>)
      "change owner"
  else fail OvUnsupported.

Definition cleanRequest (req : StageRequest) : result OverlayError StageRequest :=
  let req := req <| sq_Path ::= Clean |> in
  guard_err (IsAbs (sq_Path req)) OvUnsafePath;;
  if String.eqb (sq_DestinationPath req) "" then mret req
  else let req := req <| sq_DestinationPath ::= Clean |> in
       guard_err (IsAbs (sq_DestinationPath req)) OvUnsafePath;; mret req.
Definition newOperation (req : StageRequest) (opID decID object : string) (base next : Snapshot)
    (preview : WritePreview) (now : Time) : Operation :=
  mkOperation "hideout.hostfs-write-operation/v1" opID (sq_SessionID req) (sq_Profile req) (sq_Backend req)
    (sq_Operation req) (sq_Path req) (sq_Path req) (sq_DestinationPath req) (sq_GrantID req) (sq_GrantSource req)
    base next object preview (sq_Mode req) (sq_Owner req) (sq_Group req) (sq_Privilege req) decID WriteStaged now now.
Definition newDecision (req : StageRequest) (opID decID : string) (preview : WritePreview) (now : Time) :
    WriteDecision :=
  mkWriteDecision PlanVersion decID opID WritePending (sq_Operation req) (sq_Path req) (sq_DestinationPath req)
    preview (mkPolicyRef (sq_GrantID req) (sq_GrantSource req) false) (sq_Privilege req) (AddDur now (5 * Minute))
    None [] now [].
Definition knownPrivilege (p : Privilege) : Privilege :=
  if String.eqb (pr_Status p) "" then mkPrivilege "unknown" (pr_Reason p) (pr_Source p) (pr_CheckedAt p) else p.

Definition Stage (req : StageRequest) : OM (Operation * WriteDecision) :=
  ensure;;
  req ← lift (cleanRequest req);
  now ← onow;
  '(base, _) ← snapshotPath (sq_Path req);
  orequire (negb (String.eqb (sn_Kind base) "symlink")) OvUnsafePath;;
  opID ← newID "hfwop";
  decID ← newID "hfwdec";
  '(object, next, preview) ← plan req base now;
  let req := req <| sq_Privilege ::= knownPrivilege |> in
  let op := newOperation req opID decID object base next preview now in
  let decision := newDecision req opID decID preview now in
  writeOperation op;;
  writeDecisionFile decision;;
  mret (op, decision).

(** ** Applying *)

Definition changedPaths (op : Operation) : list string :=
  if String.eqb (op_Operation op) "rename" && negb (String.eqb (op_DestinationPath op) "")
  then [op_RequestedPath op; op_DestinationPath op] else [op_RequestedPath op].
Definition saveApplyState (op : Operation) (d : WriteDecision) : OM () := writeOperation op;; writeDecisionFile d.
Definition CleanupArtifacts (op : Operation) : OM () :=
  if String.eqb (TrimSpace (op_ContentObject op)) "" then mret tt
  else removed ← attempt (removeObject (op_ContentObject op));
       match removed with Ok _ | Err OvNotExist => mret tt | Err e => fail e end.

Definition applyConflictReason (op : Operation) : OM string :=
  '(current, _) ← snapshotPath (op_RequestedPath op);
  if negb (sameBaseSnapshot (op_BaseSnapshot op) current) then mret "base path changed since staging"
  else if String.eqb (op_Operation op) "rename" && negb (String.eqb (op_DestinationPath op) "") then
    '(dest, _) ← snapshotPath (op_DestinationPath op);
    mret (if sn_Exists dest then "rename destination exists" else "")
  else mret "".

(** [os.CreateTemp]: a name that is not taken yet, in at most 10000 attempts. *)
Definition tempName (path : string) (n : Z) : string :=
  Join (Dir path) (".hideout-" +:+ Base path +:+ "." +:+ pretty (Z.to_N n) +:+ ".tmp").
Definition nextRandom : OM Z :=
  raw ← attempt orand;
  mret (match raw with Ok bs => foldl (λ a b, (a * 256 + b) mod 4294967296) 0 bs | Err _ => 0 end).
Fixpoint createTemp (fuel : nat) (path : string) : OM string :=
  match fuel with
  | O => fail OvIO
  | S fuel =>
      n ← nextRandom;
      let tmp := tempName path n in
      s ← get_state;
      match os_tree s !! place K (os_tree s) tmp with
      | Some _ => oio;; createTemp fuel path
      | None => osWrite (λ clock, create K clock 384 tmp);; mret tmp
      end
  end.
(** [tmpFile.Write]: a failing one has written a part. *)
Definition setData (f : list Z → list Z) (tmp : string) : OM () := modify (λ s,
  s <| os_tree ::= (λ t, alter (λ n : Node, n <| nd_data ::= f |>) (place K t tmp) t) |>).
Definition writeTemp (tmp : string) (data : list Z) : OM () :=
  s ← get_state;
  let clock := ou_ios (os_out s) in
  done ← attempt oio;
  setData (λ _, match done with Ok _ => data | Err _ => take (k_short K clock) data end) tmp;;
  lift done.
Definition osRemove (path : string) : OM () := osWrite (λ _, remove K path).

(** Run a step on the temporary file; when it fails, close and remove the file. *)
Definition orAbandon (tmp : string) (open_ : bool) (m : OM ()) : OM () :=
  r ← attempt m;
  match r with
  | Ok _ => mret tt
  | Err e => when open_ (ignore_err oio);; ignore_err (osRemove tmp);; fail e
  end.
Definition prepareTemp (tmp : string) (data : list Z) (mode : Z) : OM () :=
  orAbandon tmp true (writeTemp tmp data);;
  orAbandon tmp true (osWrite (λ _, fchmod K mode tmp));;
  orAbandon tmp true oio;;
  orAbandon tmp false oio.
Definition applyFileObject (path objectID requestedMode : string) (createOnly : bool) : OM () :=
  data ← readObject objectID;
  mode ← parseFileModeOrDefault requestedMode 420;
  tmp ← createTemp (Z.to_nat 10000) path;
  prepareTemp tmp data mode;;
  if createOnly then
    linked ← attempt (osWrite (λ _, link K tmp path));
    ignore_err (osRemove tmp);;
    lift linked
  else orAbandon tmp false (osWrite (λ _, rename K tmp path)).

Definition optionalID (text : string) (current : Z) : OM Z :=
  if String.eqb (TrimSpace text) "" then mret current
  else match Atoi (TrimSpace text) with Some v => mret v | None => fail (OvInvalid "owner") end.
Definition applyConstrainedChown (op : Operation) : OM () :=
  '(current, missing) ← snapshotPath (op_RequestedPath op);
  orequire (negb missing) OvNotExist;;
  uid ← optionalID (op_RequestedOwner op) (sn_UID current);
  gid ← optionalID (op_RequestedGroup op) (sn_GID current);
  orequire ((uid =? sn_UID current) && (gid =? sn_GID current)) OvUnsupported.

Definition applyOperation (op : Operation) : OM () :=
  let isOp := String.eqb (op_Operation op) in
  if isOp "create" then applyFileObject (op_RequestedPath op) (op_ContentObject op) (op_RequestedMode op) true
  else if isOp "replace" || isOp "append" || isOp "truncate"
       then applyFileObject (op_RequestedPath op) (op_ContentObject op) (op_RequestedMode op) false
  else if isOp "mkdir" then
    mode ← parseFileModeOrDefault (op_RequestedMode op) 493;
    osWrite (λ clock, mkdir K clock mode (op_RequestedPath op))
  else if isOp "delete" then osRemove (op_RequestedPath op)
  else if isOp "rename" then osWrite (λ _, rename K (op_RequestedPath op) (op_DestinationPath op))
  else if isOp "chmod" then
    mode ← parseFileModeOrDefault (op_RequestedMode op) 0;
    osWrite (λ _, chmod K mode (op_RequestedPath op))
  else if isOp "chown" then applyConstrainedChown op
  else fail OvUnsupported.

(** The text of an error, as far as the callers look at it. *)
Definition errorText (e : OverlayError) : string :=
  match e with
  | OvConflict => "hostfs overlay conflict" | OvUnsafePath => "hostfs overlay unsafe path"
  | OvUnsupported => "hostfs overlay operation unsupported" | OvNotExist => "file does not exist"
  | OvInvalid what => what | OvIO => "input/output error" | OvRandom => "random source failed" | OvPanic => "panic"
  end.
Definition settle (state : string) (op : Operation) (d : WriteDecision) : Operation * WriteDecision :=
  (op <| op_Status := state |>, d <| wd_State := state |> <| wd_Claim := None |>).

(** [Apply] hands back its records beside the error. *)
Record Applied := mkApplied {
  ap_Result : ApplyResult; ap_Operation : Operation; ap_Decision : WriteDecision; ap_Error : option OverlayError }.
(** The common end: save, clean up, and the given error. *)
Definition conclude (r : ApplyResult) (op : Operation) (d : WriteDecision) (e : option OverlayError) : OM Applied :=
  saved ← attempt (saveApplyState op d);
  match saved with
  | Err e => mret (mkApplied r op d (Some e))
  | Ok _ => ignore_err (CleanupArtifacts op);; mret (mkApplied r op d e)
  end.
(** The decision and its operation. *)
Definition loadApply (decisionID : string) : OM (WriteDecision * Operation) :=
  ensure;;
  decision ← getDecision decisionID;
  op ← getOperation (wd_OperationID decision);
  mret (decision, op).
Definition applyLoaded (decision : WriteDecision) (op : Operation) : OM Applied :=
  let result := mkApplyResult ResultVersion (wd_DecisionID decision) (op_ID op) DecisionAllow WriteApplied
                  (changedPaths op) "" true (wd_Privilege decision) "audit:hostfs-overlay:apply" in
  if negb (String.eqb (wd_State decision) WriteClaimed)
  then mret (mkApplied result op decision (Some (OvInvalid "HostFS write decision state")))
  else
    reason ← attempt (applyConflictReason op);
    match reason with
    | Err e => mret (mkApplied result op decision (Some e))
    | Ok reason =>
        if negb (String.eqb reason "") then
          let '(op, decision) := settle WriteConflict op decision in
          conclude (result <| ar_Decision := DecisionDeny |> <| ar_Status := WriteConflict |>
                      <| ar_ChangedPaths := [] |> <| ar_ConflictReason := reason |>) op decision (Some OvConflict)
        else
          applied ← attempt (applyOperation op);
          match applied with
          | Err e =>
              let '(op, decision) := settle WriteFailed op decision in
              conclude (result <| ar_Status := WriteFailed |> <| ar_ChangedPaths := [] |>
                          <| ar_ConflictReason := errorText e |>) op decision (Some e)
          | Ok _ =>
              let '(op, decision) := settle WriteApplied op decision in
              conclude result op decision None
          end
    end.
Definition Apply (decisionID : string) : OM Applied :=
  loaded ← attempt (loadApply decisionID);
  match loaded with
  | Err e => mret (mkApplied noResult noOperation noWriteDecision (Some e))
  | Ok (decision, op) => applyLoaded decision op
  end.
End store.
