(* ===== verification/OverlaySpec.v ===== *)
(** * What staging and applying a write do

    Bytes: [patchBytes] and [resizeBytes] against a definition byte by byte.
    Staging: the host is not touched, and only the records of the request are
    added.  Seeing: a session reads back what it staged.  Applying: the host
    changes only where the claimed operation says, after the path was found as
    it was, and a content operation leaves exactly the staged bytes. *)
From Stdlib Require Import Ascii.
From S2P Require Import Prelude StateRules GoStrings GoTime GoHash GoPath HostTree Overlay.
Open Scope Z_scope.

(** ** Bytes *)

(** A file of [prior] bytes after [data] was written at [offset]: a gap is
    filled with zeros. *)
Definition byteAt (prior : list Z) (offset : nat) (data : list Z) (i : nat) : Z :=
  if (offset <=? i)%nat && (i <? offset + length data)%nat then nth (i - offset) data 0 else nth i prior 0.
Definition writtenAt (prior : list Z) (offset : nat) (data : list Z) : list Z :=
  byteAt prior offset data <$> seq 0 (Nat.max (length prior) (offset + length data)).
(** A file of [prior] bytes cut or extended to [size]. *)
Definition resized (prior : list Z) (size : nat) : list Z := (λ i, nth i prior 0) <$> seq 0 size.

Lemma nth_default_lookup (l : list Z) i : nth i l 0 = default 0 (l !! i).
Proof. revert i. induction l as [|x l IH]; intros [|i]; simpl; auto. Qed.
Lemma nth_zeros n i : nth i (replicate n 0) 0 = 0.
Proof.
  rewrite nth_default_lookup. destruct (replicate n 0 !! i) as [x|] eqn:E; [|done].
  by apply lookup_replicate in E as [-> _].
Qed.
Lemma zeros_length n : length (zeros n) = Z.to_nat n.
Proof. apply length_replicate. Qed.
Lemma copyAt_prefix src n : (length src <= n)%nat → copyAt 0 src (zeros (Z.of_nat n)) = (src ++ zeros (Z.of_nat n - Z.of_nat (length src)))%list.
Proof.
  intros H. unfold copyAt, zeros. rewrite length_replicate, Nat2Z.id, Nat.sub_0_r, Nat.min_l by done.
  rewrite firstn_all. cbn. rewrite firstn_O, app_nil_l, drop_replicate. do 2 f_equal. lia.
Qed.
Lemma patch_prior prior offset data :
  (offset <= length prior)%nat → (offset + length data <= length prior)%nat →
  copyAt offset data prior = writtenAt prior offset data.
Proof.
  intros Ho He. unfold copyAt, writtenAt. rewrite Nat.min_l by lia. rewrite firstn_all.
  apply list_eq. intros i. rewrite list_lookup_fmap. rewrite Nat.max_l by lia.
  destruct (decide (i < length prior)%nat) as [Hi|Hi].
  - rewrite lookup_seq_lt by done. cbn. unfold byteAt.
    destruct (Nat.leb_spec offset i); destruct (Nat.ltb_spec i (offset + length data)); cbn.
    + rewrite lookup_app_r by (rewrite length_take; lia). rewrite length_take, lookup_app_l by lia.
      rewrite nth_default_lookup, Nat.min_l by lia.
      destruct (lookup_lt_is_Some_2 data (i - offset)) as [x ->]; [lia|done].
    + rewrite lookup_app_r by (rewrite length_take; lia). rewrite length_take, lookup_app_r by lia.
      rewrite lookup_drop, nth_default_lookup. replace (_ + _)%nat with i by lia.
      by destruct (lookup_lt_is_Some_2 prior i Hi) as [x ->].
    + rewrite lookup_app_l by (rewrite length_take; lia). rewrite lookup_take_lt, nth_default_lookup by lia.
      by destruct (lookup_lt_is_Some_2 prior i Hi) as [x ->].
    + lia.
  - rewrite lookup_seq_ge by lia. apply lookup_ge_None. rewrite !length_app, length_take, length_drop. lia.
Qed.
Lemma writtenAt_pad prior n offset data :
  (length prior + n <= offset + length data)%nat →
  writtenAt (prior ++ replicate n 0) offset data = writtenAt prior offset data.
Proof.
  intros Hn. unfold writtenAt. rewrite length_app, length_replicate, !Nat.max_r by lia.
  apply list_fmap_ext. intros _ i _. unfold byteAt. destruct (_ && _); [done|].
  destruct (decide (i < length prior)%nat); [by rewrite app_nth1|]. rewrite app_nth2, nth_zeros by lia.
  rewrite (nth_overflow prior) by lia. done.
Qed.

#[local] Arguments copyAt : simpl never.
(** The two loops of [patchBytes] only make room; the result is the file after a
    write at the offset, or a panic when it would not fit. *)
Lemma patchBytes_spec prior offset data :
  0 ≤ offset →
  let end_ := offset + Z.of_nat (length data) in
  patchBytes prior offset data =
    if (Z.of_nat (length prior) <? end_) && (maxAlloc <? end_) then Err OvPanic
    else Ok (writtenAt prior (Z.to_nat offset) data).
Proof.
  intros Ho end_. unfold patchBytes. rewrite (proj2 (Z.ltb_ge offset 0)) by done.
  assert (offset ≤ end_) as Hend by (unfold end_; lia).
  destruct (Z.ltb_spec (Z.of_nat (length prior)) offset) as [Hpad|Hpad].
  - rewrite (proj2 (Z.ltb_lt _ end_)) by lia. cbn [andb].
    destruct (Z.leb_spec offset maxAlloc) as [Hm|Hm]; cbn; [|by rewrite (proj2 (Z.ltb_lt _ end_)) by lia].
    set (padded := (prior ++ zeros _)%list). assert (length padded = Z.to_nat offset) as Hlen
      by (unfold padded, zeros; rewrite length_app, length_replicate; lia).
    rewrite Hlen, Z2Nat.id by done. fold end_. destruct (Z.ltb_spec offset end_) as [Hgrow|Hgrow].
    + destruct (Z.leb_spec end_ maxAlloc), (Z.ltb_spec maxAlloc end_); try lia; [|done]. cbn.
      replace end_ with (Z.of_nat (Z.to_nat end_)) by lia. rewrite copyAt_prefix by lia.
      rewrite patch_prior by (unfold zeros; rewrite ?length_app, ?length_replicate, Hlen; unfold end_ in *; lia).
      unfold zeros, padded. rewrite writtenAt_pad by (fold padded; rewrite Hlen; unfold end_; lia).
      unfold zeros. by rewrite writtenAt_pad by lia.
    + rewrite (proj2 (Z.ltb_ge maxAlloc end_)) by lia. cbn.
      rewrite patch_prior by (rewrite Hlen; unfold end_ in *; lia).
      unfold padded, zeros. by rewrite writtenAt_pad by lia.
  - cbn. fold end_. destruct (Z.ltb_spec (Z.of_nat (length prior)) end_) as [Hgrow|Hgrow]; cbn [andb].
    + destruct (Z.leb_spec end_ maxAlloc), (Z.ltb_spec maxAlloc end_); try lia; [|done]. cbn.
      replace end_ with (Z.of_nat (Z.to_nat end_)) by lia. rewrite copyAt_prefix by lia.
      rewrite patch_prior by (unfold zeros; rewrite length_app, length_replicate; unfold end_ in *; lia).
      unfold zeros. by rewrite writtenAt_pad by (unfold end_; lia).
    + cbn. by rewrite patch_prior by (unfold end_ in *; lia).
Qed.

Lemma resizeBytes_spec prior size :
  0 ≤ size →
  resizeBytes prior size = if maxAlloc <? size then Err OvPanic else Ok (resized prior (Z.to_nat size)).
Proof.
  intros Hs. unfold resizeBytes. rewrite (proj2 (Z.ltb_ge size 0)) by done. rewrite Z.leb_antisym.
  destruct (maxAlloc <? size); [done|]. cbn. f_equal. unfold copyAt. rewrite zeros_length, Nat.sub_0_r, firstn_O.
  apply list_eq. intros i. unfold resized. rewrite list_lookup_fmap. cbn.
  destruct (decide (i < Z.to_nat size)%nat) as [Hi|Hi].
  - rewrite lookup_seq_lt by done. cbn. rewrite nth_default_lookup.
    destruct (decide (i < length prior)%nat) as [Hp|Hp].
    + rewrite lookup_app_l by (rewrite length_take; lia). rewrite lookup_take_lt by lia.
      by destruct (lookup_lt_is_Some_2 prior i Hp) as [x ->].
    + rewrite lookup_app_r by (rewrite length_take; lia). rewrite lookup_drop, length_take.
      unfold zeros. rewrite lookup_replicate_2 by lia. by rewrite (lookup_ge_None_2 prior i) by lia.
  - rewrite lookup_seq_ge by lia. apply lookup_ge_None. rewrite length_app, length_take, length_drop, zeros_length. lia.
Qed.

(** C20: The bytes a staged edit makes: writing data at an offset gives the file that has the data
    there, the old bytes elsewhere and zeros in a gap, and resizing gives the file cut or extended
    with zeros; both clamp a negative argument to zero and panic exactly when the result is to grow
    beyond what the runtime allocates. *)
Theorem staged_bytes_exact prior offset data size :
  let at_ := Z.max 0 offset in
  let end_ := at_ + Z.of_nat (length data) in
  patchBytes prior offset data =
    (if (Z.of_nat (length prior) <? end_) && (maxAlloc <? end_) then Err OvPanic
     else Ok (writtenAt prior (Z.to_nat at_) data)) ∧
  resizeBytes prior size = (if maxAlloc <? Z.max 0 size then Err OvPanic else Ok (resized prior (Z.to_nat (Z.max 0 size)))).
Proof.
  intros at_ end_. split.
  - unfold end_. rewrite <-(patchBytes_spec prior at_ data) by (unfold at_; lia). unfold patchBytes, at_.
    destruct (Z.ltb_spec offset 0); [by rewrite Z.max_l by lia|by rewrite Z.max_r, (proj2 (Z.ltb_ge offset 0)) by lia].
  - rewrite <-(resizeBytes_spec prior (Z.max 0 size)) by lia. unfold resizeBytes.
    destruct (Z.ltb_spec size 0); [by rewrite Z.max_l by lia|by rewrite Z.max_r, (proj2 (Z.ltb_ge size 0)) by lia].
Qed.

(** ** Reads leave files and tree alone *)

Definition sameOutside (o o' : Outside) : Prop :=
  ou_clock o' = ou_clock o ∧ ou_io o' = ou_io o ∧ ou_rand o' = ou_rand o ∧ (ou_rands o <= ou_rands o')%nat.
#[global] Instance sameOutside_pre : PreOrder sameOutside.
Proof.
  split; [done|]. intros o1 o2 o3 (A1&A2&A3&A4) (B1&B2&B3&B4). split_and!; [congruence..|lia].
Qed.
Definition idle (s s' : OverlayState) : Prop :=
  os_files s' = os_files s ∧ os_tree s' = os_tree s ∧ sameOutside (os_out s) (os_out s').
#[global] Instance idle_pre : PreOrder idle.
Proof.
  split; [by intros s|]. intros s1 s2 s3 (A1&A2&A3) (B1&B2&B3). split_and!; [congruence..|by etrans].
Qed.
Create HintDb idle discriminated.
Ltac idly := keeps (eauto with idle).

Lemma oio_idle : preserves idle oio.
Proof. intros s. split_and!; [done..|]. repeat split; cbn; lia. Qed.
Lemma onow_idle : preserves idle onow.
Proof. intros s. split_and!; [done..|]. repeat split; cbn; lia. Qed.
Lemma orand_idle : preserves idle orand.
Proof. intros s. split_and!; [done..|]. repeat split; cbn; lia. Qed.
Lemma orequire_idle b e : preserves idle (orequire b e).
Proof. unfold orequire. idly. Qed.
#[export] Hint Resolve oio_idle onow_idle orand_idle orequire_idle : idle.
Lemma osRead_idle {A} (f : Tree → OR A) : preserves idle (osRead f).
Proof. unfold osRead. idly. Qed.
Lemma newID_idle prefix : preserves idle (newID prefix).
Proof. unfold newID. idly. Qed.
Lemma ensure_idle : preserves idle ensure.
Proof. unfold ensure. idly. Qed.
Lemma readObject_idle id : preserves idle (readObject id).
Proof. unfold readObject. idly. Qed.
Lemma getOperation_idle id : preserves idle (getOperation id).
Proof. unfold getOperation. idly. Qed.
Lemma getDecision_idle id : preserves idle (getDecision id).
Proof. unfold getDecision. idly. Qed.
Lemma readEach_idle {A} (l : list (string * A)) : preserves idle (readEach l).
Proof. induction l as [|e l IH]; simpl; idly. Qed.
#[export] Hint Resolve osRead_idle newID_idle ensure_idle readObject_idle getOperation_idle getDecision_idle
  readEach_idle : idle.

Section reads.
Context (K : Kernel) `{TimeSort}.
Lemma operations_idle : preserves idle operations.
Proof. unfold operations. idly. Qed.
Lemma WriteDecisions_idle : preserves idle WriteDecisions.
Proof. unfold WriteDecisions. idly. Qed.
#[local] Hint Resolve operations_idle WriteDecisions_idle : idle.
Lemma DecisionForOperation_idle id : preserves idle (DecisionForOperation id).
Proof. unfold DecisionForOperation. idly. Qed.
Lemma NewOverlayStore_idle root : preserves idle (NewOverlayStore root).
Proof. unfold NewOverlayStore. idly. Qed.
Lemma hashFile_idle path : preserves idle (hashFile K path).
Proof. unfold hashFile. idly. Qed.
#[local] Hint Resolve hashFile_idle : idle.
Lemma snapshotPath_idle path : preserves idle (snapshotPath K path).
Proof. unfold snapshotPath. idly. Qed.
Lemma latestOperation_idle path : preserves idle (latestOperation path).
Proof. unfold latestOperation. idly. Qed.
Lemma viewFromOperation_idle op path : preserves idle (viewFromOperation op path).
Proof. unfold viewFromOperation. idly. Qed.
#[local] Hint Resolve latestOperation_idle viewFromOperation_idle snapshotPath_idle : idle.
Lemma View_idle path : preserves idle (View path).
Proof. unfold View. idly. Qed.
#[local] Hint Resolve View_idle : idle.
Lemma entriesOfOperations_idle dir ops seen : preserves idle (entriesOfOperations dir ops seen).
Proof. revert seen. induction ops as [|op ops IH]; intros seen; simpl; [idly|]. unfold entriesOfOperation. idly. Qed.
#[local] Hint Resolve entriesOfOperations_idle : idle.
Lemma Entries_idle dir : preserves idle (Entries dir).
Proof. unfold Entries. idly. Qed.
Lemma priorContent_idle path : preserves idle (priorContent K path).
Proof. unfold priorContent, readCurrentContent. idly. Qed.
Lemma mode_idle value fallback : preserves idle (parseFileModeOrDefault value fallback).
Proof. unfold parseFileModeOrDefault. idly. Qed.
Lemma applyConflictReason_idle op : preserves idle (applyConflictReason K op).
Proof. unfold applyConflictReason. idly. Qed.
Lemma nextRandom_idle : preserves idle nextRandom.
Proof. unfold nextRandom. idly. Qed.
Lemma chown_idle op : preserves idle (applyConstrainedChown K op).
Proof. unfold applyConstrainedChown, optionalID. idly. Qed.
End reads.
#[export] Hint Resolve operations_idle WriteDecisions_idle DecisionForOperation_idle NewOverlayStore_idle
  snapshotPath_idle View_idle Entries_idle priorContent_idle mode_idle applyConflictReason_idle nextRandom_idle
  chown_idle : idle.

(** ** How records change after staging *)

(** What stays of an operation and of a decision: all but the state, the claim
    and the time of the last change. *)
Definition opCore (op : Operation) : Operation := op <| op_Status := "" |> <| op_UpdatedAt := zeroTime |>.
Definition decCore (d : WriteDecision) : WriteDecision :=
  d <| wd_State := "" |> <| wd_Claim := None |> <| wd_UpdatedAt := zeroTime |>.
(** What a claim proves. *)
Definition claimKey (c : WriteClaim) : string * Time := (wc_TokenHash c, wc_ExpiresAt c).
Definition claimFrom (C : string → string * Time → Prop) (d d' : WriteDecision) : Prop :=
  ∀ c, wd_Claim d' = Some c → (∃ c0, wd_Claim d = Some c0 ∧ claimKey c0 = claimKey c) ∨ C (wd_DecisionID d') (claimKey c).
(** [f'] holds the records of [f], moved; claims are old or allowed by [C]. *)
Definition filesEvolve (C : string → string * Time → Prop) (f f' : OverlayFiles) : Prop :=
  (∀ k op', of_operations f' !! k = Some op' → ∃ op, of_operations f !! k = Some op ∧ opCore op = opCore op') ∧
  (∀ k d', of_decisions f' !! k = Some d' →
     ∃ d, of_decisions f !! k = Some d ∧ decCore d = decCore d' ∧ claimFrom C d d') ∧
  (∀ k data, of_objects f' !! k = Some data → of_objects f !! k = Some data) ∧
  (∀ k, is_Some (of_operations f !! k) → is_Some (of_operations f' !! k)) ∧
  (∀ k, is_Some (of_decisions f !! k) → is_Some (of_decisions f' !! k)).
Lemma opCore_eq op op' : opCore op = opCore op' →
  op_ID op = op_ID op' ∧ op_Operation op = op_Operation op' ∧ op_RequestedPath op = op_RequestedPath op' ∧
  op_DestinationPath op = op_DestinationPath op' ∧ op_ContentObject op = op_ContentObject op' ∧
  op_NewSnapshot op = op_NewSnapshot op' ∧ op_BaseSnapshot op = op_BaseSnapshot op' ∧ op_Preview op = op_Preview op' ∧
  op_RequestedMode op = op_RequestedMode op'.
Proof. destruct op, op'. unfold opCore. cbn. intros [=]. by split_and!. Qed.
Lemma decCore_eq d d' : decCore d = decCore d' →
  wd_DecisionID d = wd_DecisionID d' ∧ wd_OperationID d = wd_OperationID d' ∧ wd_Operation d = wd_Operation d' ∧
  wd_Path d = wd_Path d' ∧ wd_DestinationPath d = wd_DestinationPath d' ∧ wd_Preview d = wd_Preview d'.
Proof. destruct d, d'. unfold decCore. cbn. intros [=]. by split_and!. Qed.
#[global] Instance filesEvolve_pre C : PreOrder (filesEvolve C).
Proof.
  split.
  - intros f. split_and!; [eauto| |done..]. intros k d Hd. exists d. split_and!; [done|done|].
    intros c Hc. left. eauto.
  - intros f1 f2 f3 (A1&A2&A3&A4&A5) (B1&B2&B3&B4&B5). split_and!; [| |by eauto..].
    + intros k op3 (op2&(op1&H1&E1)%A1&E2)%B1. exists op1. split; [done|congruence].
    + intros k d3 (d2&(d1&H1&E1&C1)%A2&E2&C2)%B2. exists d1. split_and!; [done|congruence|].
      intros c Hc. destruct (C2 c Hc) as [(c2&Hc2&K2)|]; [|by right].
      destruct (C1 c2 Hc2) as [(c1&Hc1&K1)|HC]; [left; exists c1; split; [done|congruence]|].
      right. rewrite <-K2. by destruct (decCore_eq _ _ E2) as [<- _].
Qed.

(** Records are filed under their own identifiers. *)
Definition filed (f : OverlayFiles) : Prop :=
  (∀ k op, of_operations f !! k = Some op → k = recordName (op_ID op)) ∧
  (∀ k d, of_decisions f !! k = Some d → k = recordName (wd_DecisionID d)).
Lemma filed_evolve C f f' : filed f → filesEvolve C f f' → filed f'.
Proof.
  intros [Hop Hdec] (A1&A2&_). split.
  - intros k op' (op&H&E)%A1. apply Hop in H. by destruct (opCore_eq _ _ E) as [<- _].
  - intros k d' (d&H&E&_)%A2. apply Hdec in H. by destruct (decCore_eq _ _ E) as [<- _].
Qed.

Definition ovEvolve (C : string → string * Time → Prop) (s s' : OverlayState) : Prop :=
  filesEvolve C (os_files s) (os_files s') ∧ sameOutside (os_out s) (os_out s').
#[global] Instance ovEvolve_pre C : PreOrder (ovEvolve C).
Proof.
  split; [done|]. intros s1 s2 s3 [A1 A2] [B1 B2]. split; by etrans.
Qed.

(** [op] and [d] are, up to their state, records of [f]. *)
Definition knownOp (op : Operation) (f : OverlayFiles) : Prop :=
  ∃ op0, of_operations f !! recordName (op_ID op) = Some op0 ∧ opCore op0 = opCore op.
Definition knownDec (d : WriteDecision) (f : OverlayFiles) : Prop :=
  ∃ d0, of_decisions f !! recordName (wd_DecisionID d) = Some d0 ∧ decCore d0 = decCore d.
Lemma knownOp_evolve C op f f' : knownOp op f → filesEvolve C f f' → knownOp op f'.
Proof.
  intros (op0&H0&E0) (A1&_&_&A4&_). destruct (A4 _ (ex_intro _ _ H0)) as [op1 H1].
  destruct (A1 _ _ H1) as (op2&H2&E2). exists op1. split; [done|congruence].
Qed.
Lemma knownDec_evolve C d f f' : knownDec d f → filesEvolve C f f' → knownDec d f'.
Proof.
  intros (d0&H0&E0) (_&A2&_&_&A5). destruct (A5 _ (ex_intro _ _ H0)) as [d1 H1].
  destruct (A2 _ _ H1) as (d2&H2&E2&_). exists d1. split; [done|congruence].
Qed.

(** Saving a known record, with no claim or an allowed one. *)
Definition allowedClaim (C : string → string * Time → Prop) (d : WriteDecision) : Prop :=
  ∀ c, wd_Claim d = Some c → C (wd_DecisionID d) (claimKey c).
Definition onOp (op : Operation) (s : OverlayState) : Prop := knownOp op (os_files s).
Definition onDec (d : WriteDecision) (s : OverlayState) : Prop := knownDec d (os_files s).

Section saving.
Context (C : string → string * Time → Prop).
Lemma idle_evolve {A} (m : OM A) : preserves idle m → preserves (ovEvolve C) m.
Proof. apply preserves_mono. intros s s' (Hf&_&Ho). split; [by rewrite Hf|done]. Qed.
Lemma writeFileAtomic_by (P : OverlayState → Prop) f :
  (∀ s s', P s → ovEvolve C s s' → P s') →
  (∀ s, P s → filesEvolve C (os_files s) (f (os_files s))) →
  preserves (guarded P (ovEvolve C)) (writeFileAtomic f).
Proof.
  intros HP Hf. unfold writeFileAtomic, onFiles.
  keeps (apply guarded_stable; [done|]; apply idle_evolve; eauto with idle).
  apply preserves_modify. intros s Hs. assert (ovEvolve C s (s <| os_files ::= f |>)) by (split; [by apply Hf|done]).
  split; [by eapply HP|done].
Qed.
Lemma onOp_evolve op s s' : onOp op s → ovEvolve C s s' → onOp op s'.
Proof. intros H [Hf _]. by eapply knownOp_evolve. Qed.
Lemma onDec_evolve d s s' : onDec d s → ovEvolve C s s' → onDec d s'.
Proof. intros H [Hf _]. by eapply knownDec_evolve. Qed.
Lemma writeOperation_evolve op : preserves (guarded (onOp op) (ovEvolve C)) (writeOperation op).
Proof.
  apply writeFileAtomic_by; [apply onOp_evolve|]. intros s (op0&H0&E0). split_and!; cbn; [|by apply filesEvolve_pre|done| |done].
  - intros k op' H. apply lookup_insert_Some in H as [[<- <-]|[_ H]]; eauto.
  - intros k H. destruct (decide (recordName (op_ID op) = k)) as [<-|]; [by rewrite lookup_insert_eq|by rewrite lookup_insert_ne].
Qed.
Lemma decCore_token d : decCore (d <| wd_Claim ::= fmap withoutToken |>) = decCore d.
Proof. done. Qed.
Lemma writeDecision_evolve d :
  allowedClaim C d → preserves (guarded (onDec d) (ovEvolve C)) (writeDecisionFile d).
Proof.
  intros HC. apply writeFileAtomic_by; [apply onDec_evolve|]. intros s (d0&H0&E0).
  split_and!; cbn; [by apply filesEvolve_pre| |done|done|].
  - intros k d' H. apply lookup_insert_Some in H as [[<- <-]|[_ H]]; [|by apply filesEvolve_pre].
    exists d0. split_and!; [done|by rewrite decCore_token|]. intros c Hc. right. cbn in Hc |- *.
    destruct (wd_Claim d) as [c0|] eqn:Hd; [|done]. injection Hc as <-. by apply (HC c0).
  - intros k H. destruct (decide (recordName (wd_DecisionID d) = k)) as [<-|]; [by rewrite lookup_insert_eq|by rewrite lookup_insert_ne].
Qed.

(** Operations of the store after staging, on known records. *)
Lemma idle_guarded {A} (P : OverlayState → Prop) (m : OM A) :
  (∀ s s', P s → ovEvolve C s s' → P s') → preserves idle m → preserves (guarded P (ovEvolve C)) m.
Proof. intros HP Hm. apply guarded_stable; [done|]. by apply idle_evolve. Qed.
Lemma SaveDecision_evolve d :
  allowedClaim C d → preserves (guarded (onDec d) (ovEvolve C)) (SaveDecision d).
Proof.
  intros HC. unfold SaveDecision.
  keeps (first [apply idle_guarded; [apply onDec_evolve|]; eauto with idle]).
  lazymatch goal with |- preserves _ (writeDecisionFile ?d') => exact (writeDecision_evolve d' HC) end.
Qed.
Lemma SaveOperation_evolve op : preserves (guarded (onOp op) (ovEvolve C)) (SaveOperation op).
Proof.
  unfold SaveOperation. keeps (first [apply idle_guarded; [apply onOp_evolve|]; eauto with idle]).
  lazymatch goal with |- preserves _ (writeOperation ?op') => exact (writeOperation_evolve op') end.
Qed.
Lemma removeObject_evolve id : preserves (ovEvolve C) (removeObject id).
Proof.
  unfold removeObject. keeps (apply idle_evolve; eauto with idle).
  apply preserves_modify. intros s. split; [|done]. split_and!; cbn; [by apply filesEvolve_pre..| |done|done].
  intros k data H. by apply lookup_delete_Some in H as [_ H].
Qed.
Lemma CleanupArtifacts_evolve op : preserves (ovEvolve C) (CleanupArtifacts op).
Proof. unfold CleanupArtifacts. keeps (first [apply removeObject_evolve|apply idle_evolve; eauto with idle]). Qed.
End saving.

(** ** Applying keeps the records *)

Definition filesStay (s s' : OverlayState) : Prop := os_files s' = os_files s ∧ sameOutside (os_out s) (os_out s').
#[global] Instance filesStay_pre : PreOrder filesStay.
Proof. split; [done|]. intros s1 s2 s3 [A1 A2] [B1 B2]. split; [congruence|by etrans]. Qed.
Lemma idle_stay {A} (m : OM A) : preserves idle m → preserves filesStay m.
Proof. apply preserves_mono. by intros s s' (?&_&?). Qed.
Lemma stay_evolve {A} C (m : OM A) : preserves filesStay m → preserves (ovEvolve C) m.
Proof. apply preserves_mono. intros s s' [Hf Ho]. split; [by rewrite Hf|done]. Qed.

Section applying.
Context (K : Kernel).
Lemma osWrite_stay f : preserves filesStay (osWrite f).
Proof.
  unfold osWrite. keeps (apply idle_stay; eauto with idle). by apply preserves_modify.
Qed.
Ltac staying := keeps (first [apply osWrite_stay|apply idle_stay; eauto with idle]).
Lemma createTemp_stay fuel path : preserves filesStay (createTemp K fuel path).
Proof. induction fuel as [|fuel IH]; simpl; [staying|]. keeps (first [apply IH|apply osWrite_stay|apply idle_stay; eauto with idle]). Qed.
Lemma writeTemp_stay tmp data : preserves filesStay (writeTemp K tmp data).
Proof. unfold writeTemp, setData. staying. by apply preserves_modify. Qed.
Lemma applyFileObject_stay path id mode createOnly : preserves filesStay (applyFileObject K path id mode createOnly).
Proof.
  unfold applyFileObject, prepareTemp, orAbandon, osRemove.
  keeps (first [apply createTemp_stay|apply writeTemp_stay|apply osWrite_stay|apply idle_stay; eauto with idle]).
Qed.
Lemma applyOperation_stay op : preserves filesStay (applyOperation K op).
Proof.
  unfold applyOperation, osRemove.
  keeps (first [apply applyFileObject_stay|apply osWrite_stay|apply idle_stay; eauto with idle]).
Qed.

Lemma getDecision_ok id s s' d :
  getDecision id s = (s', Ok d) → of_decisions (os_files s) !! recordName id = Some d.
Proof.
  unfold getDecision. intros (s1&?&I1%(quiet_run idle)&H)%bind_ok; [|eauto with idle].
  apply bind_ok in H as (s2&?&I2%(quiet_run idle)&H); [|eauto with idle]. apply bind_ok in H as (s3&?&[= <- <-]&H).
  destruct I1 as (F1&_), I2 as (F2&_). rewrite F2, F1 in H. destruct (of_decisions _ !! _); [|done]. by injection H as _ ->.
Qed.
Lemma getOperation_ok id s s' op :
  getOperation id s = (s', Ok op) → of_operations (os_files s) !! recordName id = Some op.
Proof.
  unfold getOperation. intros (s1&?&I1%(quiet_run idle)&H)%bind_ok; [|eauto with idle].
  apply bind_ok in H as (s2&?&I2%(quiet_run idle)&H); [|eauto with idle]. apply bind_ok in H as (s3&?&[= <- <-]&H).
  destruct I1 as (F1&_), I2 as (F2&_). rewrite F2, F1 in H. destruct (of_operations _ !! _); [|done]. by injection H as _ ->.
Qed.
Lemma conclude_evolve C r op d e :
  wd_Claim d = None → preserves (guarded (λ s, onOp op s ∧ onDec d s) (ovEvolve C)) (conclude r op d e).
Proof.
  intros Hd. assert (∀ s s', onOp op s ∧ onDec d s → ovEvolve C s s' → onOp op s' ∧ onDec d s') as Hst
    by (intros s s' [? ?] ?; split; [by eapply onOp_evolve|by eapply onDec_evolve]).
  assert (allowedClaim C d) as Ha by (unfold allowedClaim; rewrite Hd; done).
  unfold conclude, saveApplyState. keeps (apply guarded_stable; [done|]; apply CleanupArtifacts_evolve).
  - intros s [Hop Hdec]. destruct (writeOperation_evolve C op s Hop) as [Hop' E]. split; [|done]. by apply (Hst s).
  - intros s [Hop Hdec]. destruct (writeDecision_evolve C d Ha s Hdec) as [Hdec' E].
    split; [|done]. by apply (Hst s).
Qed.
Lemma loadApply_idle id : preserves idle (loadApply id).
Proof. unfold loadApply. idly. Qed.
Lemma loadApply_ok id s s' d op :
  loadApply id s = (s', Ok (d, op)) →
  of_decisions (os_files s) !! recordName id = Some d ∧
  of_operations (os_files s) !! recordName (wd_OperationID d) = Some op.
Proof.
  unfold loadApply. intros (s1&?&(F1&_)%(quiet_run idle)&H)%bind_ok; [|eauto with idle].
  apply bind_ok in H as (s2&d'&Hd&H). apply bind_ok in H as (s3&op'&Hop&H). injection H as _ <- <-.
  pose proof (quiet_run idle _ _ _ _ (getDecision_idle id) Hd) as (F2&_).
  apply getDecision_ok in Hd. apply getOperation_ok in Hop. rewrite F1 in Hd. by rewrite F2, F1 in Hop.
Qed.
Lemma applyLoaded_evolve C d op :
  preserves (guarded (λ s, onOp op s ∧ onDec d s) (ovEvolve C)) (applyLoaded K d op).
Proof.
  assert (∀ s s', onOp op s ∧ onDec d s → ovEvolve C s s' → onOp op s' ∧ onDec d s') as Hst
    by (intros s s' [? ?] ?; split; [by eapply onOp_evolve|by eapply onDec_evolve]).
  unfold applyLoaded, settle.
  keeps (first [lazymatch goal with |- preserves _ (conclude ?r ?op' ?d' ?e) => exact (conclude_evolve C r op' d' e eq_refl) end
    |apply guarded_stable; [done|]; apply stay_evolve; first [apply applyOperation_stay|apply idle_stay; eauto with idle]]).
Qed.
Lemma Apply_evolve C id : preserves (guarded (λ s, filed (os_files s)) (ovEvolve C)) (Apply K id).
Proof.
  intros s Hf. cut (ovEvolve C s (Apply K id s).1); [intros [H ?]; split; [by eapply filed_evolve|done]|].
  change (mwp (Apply K id) s (λ s' _, ovEvolve C s s')). unfold Apply.
  apply (mwp_bind_by idle); [apply preserves_attempt, loadApply_idle|intros s1 e (F&_&O); split; [by rewrite F|done]|].
  intros s1 loaded Hl%attempt_ok (F&_&O). assert (ovEvolve C s s1) as E1 by (split; [by rewrite F|done]).
  destruct loaded as [[d op]|e]; [|done]. apply loadApply_ok in Hl as [Hd Hop].
  destruct Hf as [Ho Hdk]. unfold mwp. etrans; [exact E1|]. apply applyLoaded_evolve. split; unfold onOp, onDec; rewrite F.
  - exists op. by rewrite <-(Ho _ _ Hop).
  - exists d. by rewrite <-(Hdk _ _ Hd).
Qed.
End applying.

(** ** Where applying changes the host *)

(** Places below the paths an operation changes, and its temporary files. *)
Definition workPath (op : Operation) (p : string) : Prop :=
  p ∈ changedPaths op ∨ (isContentOp (op_Operation op) = true ∧ ∃ n, p = tempName (op_RequestedPath op) n).
Definition touched (K : Kernel) (t : Tree) (op : Operation) (e : string) : Prop :=
  ∃ p, workPath op p ∧ (moves (place K t p) e = true ∨ e = behind K t p).

Section frame.
Context (K : Kernel).

Lemma osWrite_run f s :
  (os_tree (osWrite f s).1 = os_tree s ∧ ∃ e, (osWrite f s).2 = Err e) ∨
  (f (ou_ios (os_out s)) (os_tree s) = Ok (os_tree (osWrite f s).1) ∧ (osWrite f s).2 = Ok tt).
Proof.
  unfold osWrite, mbind, SE_bind, get_state, oio. cbn. destruct (ou_io (os_out s) (ou_ios (os_out s))); cbn; [|eauto].
  destruct (f (ou_ios (os_out s)) (os_tree s)) as [t|e]; cbn; eauto.
Qed.
Lemma osWrite_agree f s F :
  (∀ t', f (ou_ios (os_out s)) (os_tree s) = Ok t' → agreeOff F (os_tree s) t') →
  agreeOff F (os_tree s) (os_tree (osWrite f s).1).
Proof. intros H. destruct (osWrite_run f s) as [[-> _]|[Ht _]]; [done|by apply H]. Qed.

(** The files beside [path] that [applyFileObject] works with. *)
Section beside.
Context (t0 : Tree) (path : string).
Definition besides (e : string) : Prop :=
  moves (place K t0 path) e = true ∨ ∃ n, moves (place K t0 (tempName path n)) e = true.
Definition linked (s : OverlayState) : Prop := linksOf (os_tree s) = linksOf t0.
(** The temporary file, if it is there, is no link. *)
Definition working (tmp : string) (s : OverlayState) : Prop :=
  linked s ∧ ∀ n, os_tree s !! place K t0 tmp = Some n → isSymlinkMode (nd_mode n) = false.
Definition agreed (s s' : OverlayState) : Prop := agreeOff besides (os_tree s) (os_tree s').
#[local] Instance agreed_pre : PreOrder agreed.
Proof. split; [by intros s|]. intros s1 s2 s3 H1 H2. unfold agreed. by etrans. Qed.

Lemma idle_working {A} tmp (m : OM A) : preserves idle m → preserves (guarded (working tmp) agreed) m.
Proof.
  intros Hm s Hs. destruct (Hm s) as (_&Ht&_). unfold working, linked, agreed. by rewrite Ht.
Qed.
Lemma working_place tmp s : working tmp s → place K (os_tree s) tmp = place K t0 tmp.
Proof. intros [H _]. unfold place. by rewrite H. Qed.
Lemma insert_agreed k n t : besides k → agreeOff besides t (<[k := n]> t).
Proof. intros Hk e He. rewrite lookup_insert_ne; [done|]. by intros <-. Qed.
Lemma temp_besides n : besides (place K t0 (tempName path n)).
Proof. right. exists n. apply moves_refl. Qed.

Lemma insert_working tmp n s t' :
  working tmp s → isSymlinkMode (nd_mode n) = false → t' = <[place K t0 tmp := n]> (os_tree s) →
  linksOf t' = linksOf t0 ∧ ∀ n0, t' !! place K t0 tmp = Some n0 → isSymlinkMode (nd_mode n0) = false.
Proof.
  intros [Hl Hs] Hn ->. split; [by rewrite linksOf_insert|]. intros n0. rewrite lookup_insert_eq. by intros [= <-].
Qed.
Lemma osWrite_working m tmp f :
  tmp = tempName path m →
  (∀ clock t t', linksOf t = linksOf t0 → (∀ n, t !! place K t0 tmp = Some n → isSymlinkMode (nd_mode n) = false) →
     f clock t = Ok t' →
     linksOf t' = linksOf t0 ∧ (∀ n, t' !! place K t0 tmp = Some n → isSymlinkMode (nd_mode n) = false) ∧
     agreeOff besides t t') →
  preserves (guarded (working tmp) agreed) (osWrite f).
Proof.
  intros -> Hf s [Hl Hs]. unfold working, linked, agreed.
  destruct (osWrite_run f s) as [[-> _]|[Ht _]]; [done|]. destruct (Hf _ _ _ Hl Hs Ht) as (?&?&?). done.
Qed.
Lemma remove_working m : preserves (guarded (working (tempName path m)) agreed) (osRemove K (tempName path m)).
Proof.
  apply (osWrite_working m); [done|]. intros _ t t' Hl Hs Ht%remove_frame.
  unfold place in Ht. rewrite Hl in Ht. fold (place K t0 (tempName path m)) in Ht. subst t'. split_and!.
  - by rewrite linksOf_delete.
  - intros n. by rewrite lookup_delete_eq.
  - intros e He. rewrite lookup_delete_ne; [done|]. intros <-. apply He, temp_besides.
Qed.
Lemma fchmod_working m mode :
  preserves (guarded (working (tempName path m)) agreed) (osWrite (λ _, fchmod K mode (tempName path m))).
Proof.
  apply (osWrite_working m); [done|]. intros _ t t' Hl Hs (n&Hn&Ht)%fchmod_frame.
  unfold place in Hn, Ht. rewrite Hl in Hn, Ht. fold (place K t0 (tempName path m)) in Hn, Ht. subst t'.
  assert (isSymlinkMode (nd_mode n <| nd_mode ::= setMode mode |>) = false) as Hm
    by (cbn; rewrite setMode_symlink; by apply Hs).
  split_and!; [by rewrite linksOf_insert|intros n0; rewrite lookup_insert_eq; by intros [= <-]|].
  apply insert_agreed, temp_besides.
Qed.
Lemma link_working m :
  preserves (guarded (working (tempName path m)) agreed) (osWrite (λ _, link K (tempName path m) path)).
Proof.
  apply (osWrite_working m); [done|]. intros _ t t' Hl Hs (n&Hn&Hnone&Ht)%link_frame.
  unfold place in Hn, Hnone, Ht. rewrite Hl in Hn, Hnone, Ht.
  fold (place K t0 (tempName path m)) in Hn. fold (place K t0 path) in Hnone, Ht. subst t'. split_and!.
  - rewrite linksOf_insert; [done|by apply Hs|]. intros n0. by rewrite Hnone.
  - intros n0. rewrite lookup_insert_ne by congruence. apply Hs.
  - apply insert_agreed. left. apply moves_refl.
Qed.
Lemma writeTemp_working m data :
  preserves (guarded (working (tempName path m)) agreed) (writeTemp K (tempName path m) data).
Proof.
  unfold writeTemp. keeps (apply idle_working; eauto with idle). unfold setData. apply preserves_modify.
  intros s [Hl Hs]. unfold working, linked, agreed. cbn. unfold place. rewrite Hl.
  fold (place K t0 (tempName path m)). set (k := place K t0 _) in *. split; [split|].
  - rewrite <-Hl. apply map_eq. intros e. unfold linksOf. rewrite !lookup_omap.
    destruct (decide (k = e)) as [<-|]; [|by rewrite lookup_alter_ne]. rewrite lookup_alter_eq. by destruct (os_tree s !! k).
  - intros n. rewrite lookup_alter_eq. destruct (os_tree s !! k) as [n0|] eqn:E; [|done]. intros [= <-]. by apply (Hs n0).
  - intros e He. rewrite lookup_alter_ne; [done|]. intros <-. apply He, temp_besides.
Qed.
Lemma createTemp_run fuel s :
  linked s →
  mwp (createTemp K fuel path) s (λ s' r, agreed s s' ∧ linked s' ∧
    ∀ tmp, r = Ok tmp → ∃ m, tmp = tempName path m ∧ working tmp s').
Proof.
  revert s. induction fuel as [|fuel IH]; intros s Hs; simpl; [by apply mwp_fail|].
  apply (mwp_bind_by idle); [eauto with idle|intros s1 e (_&Ht&_); unfold agreed, linked; by rewrite Ht|].
  intros s1 m _ (_&Ht&_). assert (linked s1) as Hs1 by (unfold linked; by rewrite Ht).
  apply mwp_bind, mwp_get. cbn zeta.
  assert (∀ s', agreed s1 s' → agreed s s') as Hag by (intros s'; unfold agreed; by rewrite Ht).
  set (tmp := tempName path m). assert (place K (os_tree s1) tmp = place K t0 tmp) as Hp
    by (unfold place; by rewrite Hs1).
  rewrite Hp. destruct (os_tree s1 !! place K t0 tmp) as [n|] eqn:Hn.
  - apply (mwp_bind_by idle); [eauto with idle|intros s2 e (_&Ht2&_); unfold agreed, linked; by rewrite Ht2, Ht|].
    intros s2 _ _ (_&Ht2&_). eapply mwp_mono; [apply IH; unfold linked; by rewrite Ht2|].
    intros s3 r (A&B&D). split_and!; [|done|done]. apply Hag. unfold agreed in *. by rewrite <-Ht2.
  - apply mwp_bind. unfold mwp at 1. destruct (osWrite_run (λ clock, create K clock 384 tmp) s1) as [[Htr [e ->]]|[Hc ->]].
    + unfold agreed, linked. rewrite Htr, Ht. done.
    + apply create_frame in Hc as [_ Hc]. rewrite Hp in Hc. apply mwp_ret.
      assert (isSymlinkMode (nd_mode (newNode K (ou_ios (os_out s1)) 384 [])) = false) as Hm
        by (unfold isSymlinkMode, newNode; cbn [nd_mode]; by rewrite Z.land_spec).
      assert (linksOf (os_tree (osWrite (λ clock, create K clock 384 tmp) s1).1) = linksOf t0) as Hl.
      { rewrite Hc, linksOf_insert; [done|done|]. intros n0. by rewrite Hn. }
      split_and!; [apply Hag; unfold agreed; rewrite Hc; apply insert_agreed, temp_besides|done|].
      intros tmp' [= <-]. exists m. split; [done|]. split; [done|]. rewrite Hc, lookup_insert_eq. by intros n0 [= <-].
Qed.
Lemma orAbandon_working m open_ (x : OM ()) :
  preserves (guarded (working (tempName path m)) agreed) x →
  preserves (guarded (working (tempName path m)) agreed) (orAbandon K (tempName path m) open_ x).
Proof. intros Hx. unfold orAbandon. keeps (first [exact Hx|apply remove_working|apply idle_working; eauto with idle]). Qed.
Lemma prepareTemp_working m data mode :
  preserves (guarded (working (tempName path m)) agreed) (prepareTemp K (tempName path m) data mode).
Proof.
  unfold prepareTemp.
  keeps (apply orAbandon_working; first [apply writeTemp_working|apply fchmod_working|apply idle_working; eauto with idle]).
Qed.
Lemma rename_agreed m s : working (tempName path m) s → agreed s (osWrite (λ _, rename K (tempName path m) path) s).1.
Proof.
  intros [Hl _]. apply osWrite_agree. intros t' (_&_&_&H)%rename_frame. unfold place in H. rewrite Hl in H.
  eapply agreeOff_mono; [|exact H]. intros e [He|He]; [right; by exists m|by left].
Qed.
Lemma applyFileObject_agreed id mode createOnly s :
  linked s → agreed s (applyFileObject K path id mode createOnly s).1.
Proof.
  intros Hs. change (mwp (applyFileObject K path id mode createOnly) s (λ s' _, agreed s s')). unfold applyFileObject.
  assert (∀ s1 s2, idle s1 s2 → agreed s1 s2) as Hi by (intros s1 s2 (_&Ht&_); unfold agreed; by rewrite Ht).
  apply (mwp_bind_by idle); [eauto with idle|auto|]. intros s1 data _ I1.
  apply (mwp_bind_by idle); [eauto with idle|intros; apply Hi; by etrans|]. intros s2 m _ I2.
  assert (idle s s2) as I by by etrans. apply mwp_bind. eapply mwp_mono.
  { apply createTemp_run. destruct I as (_&Ht&_). unfold linked. by rewrite Ht. }
  intros s3 r (A&_&Hr). assert (agreed s s3) as A3 by (etrans; [by apply Hi|done]).
  destruct r as [tmp|e]; [|done]. destruct (Hr tmp eq_refl) as (k&->&Hw). clear Hr A I I1 I2 Hi.
  apply (mwp_bind_by (guarded (working (tempName path k)) agreed)); [apply prepareTemp_working
    |intros s4 e [_ H]; [done|by etrans]|].
  intros s4 _ _ [Hw4 A4]; [done|]. assert (agreed s s4) as A by by etrans. destruct createOnly.
  - eapply (mwp_by (guarded (working (tempName path k)) agreed)); [|intros s5 r [_ H]; [done|by etrans]].
    keeps (first [apply link_working|apply remove_working|apply idle_working; eauto with idle]).
  - unfold orAbandon. apply mwp_bind, mwp_attempt. unfold mwp at 1. pose proof (rename_agreed k s4 Hw4) as A5.
    destruct (osWrite_run (λ _, rename K (tempName path k) path) s4) as [[Ht [e ->]]|[_ ->]]; [|apply mwp_ret; by etrans].
    set (s5 := (osWrite _ s4).1) in *. assert (working (tempName path k) s5) as Hw5
      by (unfold working, linked; by rewrite Ht).
    eapply (mwp_by (guarded (working (tempName path k)) agreed)); [|intros s6 r [_ H]; [done|by do 2 (etrans; [done|])]].
    keeps (first [apply remove_working|apply idle_working; eauto with idle]).
Qed.
End beside.

Lemma besides_touched t op e :
  isContentOp (op_Operation op) = true → besides t (op_RequestedPath op) e → touched K t op e.
Proof.
  intros Hc [H|[n H]].
  - exists (op_RequestedPath op). split; [|by left]. left. unfold changedPaths. case_match; set_solver.
  - exists (tempName (op_RequestedPath op) n). split; [|by left]. right. eauto.
Qed.
Lemma requested_touched t op : touched K t op (place K t (op_RequestedPath op)).
Proof.
  exists (op_RequestedPath op). split; [|left; apply moves_refl]. left. unfold changedPaths. case_match; set_solver.
Qed.
Lemma applyOperation_frame op s :
  agreeOff (touched K (os_tree s) op) (os_tree s) (os_tree (applyOperation K op s).1).
Proof.
  assert (∀ mode createOnly, isContentOp (op_Operation op) = true →
    agreeOff (touched K (os_tree s) op) (os_tree s)
      (os_tree (applyFileObject K (op_RequestedPath op) (op_ContentObject op) mode createOnly s).1)) as Hfile.
  { intros mode createOnly Hc. eapply agreeOff_mono; [|by apply (applyFileObject_agreed (os_tree s))].
    intros e. by apply besides_touched. }
  assert (∀ (m : OM Z) f, preserves idle m →
    (∀ mode clock t', f mode clock (os_tree s) = Ok t' → agreeOff (touched K (os_tree s) op) (os_tree s) t') →
    agreeOff (touched K (os_tree s) op) (os_tree s) (os_tree ((mode ← m; osWrite (f mode)) s).1)) as Hmode.
  { intros m f Hm Hf. destruct (Hm s) as (_&Ht&_). unfold mbind, SE_bind. destruct (m s) as [s1 [mode|e]]; cbn in *.
    - rewrite <-Ht. apply osWrite_agree. rewrite Ht. apply Hf.
    - by rewrite Ht. }
  unfold applyOperation.
  destruct (String.eqb_spec (op_Operation op) "create") as [E|_]; [apply Hfile; by rewrite E|].
  destruct (String.eqb _ "replace" || _ || _) eqn:Ec.
  { apply Hfile. unfold isContentOp. cbn. destruct (String.eqb _ "create"); [done|]. cbn. by rewrite orb_false_r, orb_assoc. }
  destruct (String.eqb _ "mkdir").
  { apply Hmode; [eauto with idle|]. intros mode clock t' [_ ->]%mkdir_frame.
    intros e He. rewrite lookup_insert_ne; [done|]. intros <-. apply He, requested_touched. }
  destruct (String.eqb _ "delete").
  { apply osWrite_agree. intros t' ->%remove_frame. intros e He. rewrite lookup_delete_ne; [done|].
    intros <-. apply He, requested_touched. }
  destruct (String.eqb _ "rename") eqn:Er.
  { apply osWrite_agree. intros t' (Hq&_&_&H)%rename_frame. eapply agreeOff_mono; [|exact H].
    intros e [He|He]; [exists (op_RequestedPath op)|exists (op_DestinationPath op)]; (split; [|by left]); left;
      unfold changedPaths; rewrite Er, (proj2 (String.eqb_neq _ _) Hq); set_solver. }
  destruct (String.eqb _ "chmod").
  { apply Hmode; [eauto with idle|]. intros mode clock t' (n&_&->)%chmod_frame. intros e He.
    rewrite lookup_insert_ne; [done|]. intros <-. apply He. exists (op_RequestedPath op). split; [|by right].
    left. unfold changedPaths. rewrite Er. set_solver. }
  destruct (String.eqb _ "chown"); [|done]. by destruct (chown_idle K op s) as (_&->&_).
Qed.
End frame.

(** ** What a successful application does *)

Section effect.
Context (K : Kernel).

Lemma moveTree_to k l n t : k ≠ "/" → t !! k = Some n → moveTree k l t !! l = Some n.
Proof.
  intros Hk Hn. unfold moveTree. apply lookup_union_Some_l. apply elem_of_list_to_map_1'.
  - intros n' Hin. apply list_elem_of_fmap in Hin as ([e n2]&[= El ->]&Hin).
    apply list_elem_of_In, filter_In in Hin as [Hin Hm]. apply list_elem_of_In, elem_of_map_to_list in Hin. cbn in *.
    apply orb_true_iff in Hm as [->%String.eqb_eq|Hb]; [congruence|]. exfalso.
    unfold below in Hb. apply andb_true_iff in Hb as [Hb _]. destruct (String.eqb_spec k "/"); [done|].
    apply HasPrefix_Some in Hb. unfold movedKey in El. rewrite Hb, str_app_assoc, drop_str_app in El.
    symmetry in El. by apply app_longer in El.
  - apply list_elem_of_fmap. exists (k, n). split.
    + unfold movedKey. cbn. f_equal. rewrite <-(app_nil_r_str l) at 1. f_equal.
      rewrite <-(app_nil_r_str k) at 2. by rewrite drop_str_app.
    + apply list_elem_of_In, filter_In. cbn. split; [|apply moves_refl]. by apply list_elem_of_In, elem_of_map_to_list.
Qed.
Lemma rename_to p q t t' :
  rename K p q t = Ok t' → ∃ n, t !! place K t p = Some n ∧ t' !! place K t q = Some n.
Proof.
  unfold rename. destruct (t !! place K t p) as [n|] eqn:Hn; [|done]. intros H. exists n. split; [done|].
  apply guard_then in H as [_ H]. apply guard_then in H as [_ H]. apply guard_then in H as [Hk H].
  apply guard_then in H as [_ H]. apply result_then, mret_ok in H. subst t'.
  destruct (String.eqb_spec (place K t p) (place K t q)) as [<-|]; [done|]. apply moveTree_to; [by bool_prop|done].
Qed.

Lemma orAbandon_ok tmp open_ (m : OM ()) s s' u : orAbandon K tmp open_ m s = (s', Ok u) → m s = (s', Ok tt).
Proof.
  unfold orAbandon. intros (s1&r&Hm%attempt_ok&H)%bind_ok. destruct r as [[]|e]; [by injection H as <-|].
  apply bind_ok in H as (?&?&_&H). by apply bind_ok in H as (?&?&_&H).
Qed.
Lemma osWrite_ok f s s' u :
  osWrite f s = (s', Ok u) → f (ou_ios (os_out s)) (os_tree s) = Ok (os_tree s').
Proof. intros E. destruct (osWrite_run f s) as [[_ [e H]]|[H _]]; rewrite E in H; [done|exact H]. Qed.
Lemma idle_tree {A} (m : OM A) s s' r : preserves idle m → m s = (s', r) → os_tree s' = os_tree s.
Proof. intros Hm E. by destruct (quiet_run idle _ _ _ _ Hm E) as (_&?&_). Qed.

Lemma setMode_regular m old : isRegularMode (setMode m old) = isRegularMode old.
Proof.
  unfold isRegularMode, setMode. f_equal. rewrite Z.land_lor_distr_l, <-!Z.land_assoc.
  change (Z.land (Z.lnot chmodBits) ModeType) with ModeType. change (Z.land chmodBits ModeType) with 0.
  by rewrite Z.land_0_r, Z.lor_0_r.
Qed.
(** The temporary file holds the data, and the links are as they were. *)
Definition holds (t0 : Tree) (tmp : string) (data : list Z) (t : Tree) : Prop :=
  linksOf t = linksOf t0 ∧
  ∃ n, t !! place K t0 tmp = Some n ∧ nd_data n = data ∧ isSymlinkMode (nd_mode n) = false ∧ isDirMode (nd_mode n) = false ∧
    isRegularMode (nd_mode n) = true.
Lemma holds_place t0 tmp data t p : holds t0 tmp data t → place K t p = place K t0 p.
Proof. intros [H _]. unfold place. by rewrite H. Qed.
Lemma createTemp_ok fuel path s s' tmp :
  createTemp K fuel path s = (s', Ok tmp) → (∃ m, tmp = tempName path m) ∧ holds (os_tree s) tmp [] (os_tree s').
Proof.
  revert s. induction fuel as [|fuel IH]; intros s; simpl; [done|]. intros (s1&m&Hr&H)%bind_ok.
  apply idle_tree in Hr; [|eauto with idle]. apply bind_ok in H as (s2&x&[= <- <-]&H).
  destruct (os_tree s1 !! _) as [n|] eqn:Hn.
  - apply bind_ok in H as (s3&?&Ht%idle_tree&H); [|eauto with idle]. apply IH in H. by rewrite Ht, Hr in H.
  - apply bind_ok in H as (s3&?&Hc%osWrite_ok&H). injection H as <- <-. rewrite Hr in *.
    apply create_frame in Hc as [_ Hc]. split; [eauto|]. unfold holds. rewrite Hc. split.
    + apply linksOf_insert; [unfold isSymlinkMode, newNode; cbn [nd_mode]; by rewrite Z.land_spec|].
      intros n0. by rewrite Hn.
    + rewrite lookup_insert_eq. eexists. split; [done|]. split; [done|].
      unfold isSymlinkMode, isDirMode, isRegularMode, newNode. cbn [nd_mode]. rewrite !Z.land_spec. split_and!; [done|done|].
      by rewrite <-Z.land_assoc, (Z.land_comm _ ModeType), Z.land_assoc.
Qed.
Lemma prepareTemp_ok t0 tmp data mode s s' u :
  holds t0 tmp [] (os_tree s) → prepareTemp K tmp data mode s = (s', Ok u) → holds t0 tmp data (os_tree s').
Proof.
  intros Hh H. unfold prepareTemp in H. apply bind_ok in H as (s1&?&Hw%orAbandon_ok&H).
  apply bind_ok in H as (s2&?&Hc%orAbandon_ok&H). apply bind_ok in H as (s3&?&H3%orAbandon_ok&H).
  apply orAbandon_ok in H. apply idle_tree in H3; [|eauto with idle]. apply idle_tree in H; [|eauto with idle].
  rewrite H, H3. clear H H3. unfold writeTemp in Hw. apply bind_ok in Hw as (y1&?&[= <- <-]&Hw).
  apply bind_ok in Hw as (y2&r&Hr&Hw). apply idle_tree in Hr as Ht; [|apply preserves_attempt; eauto with idle].
  apply bind_ok in Hw as (y3&?&Hd&Hw). injection Hw as -> ->. unfold setData, modify in Hd. injection Hd as Hd.
  pose proof (holds_place _ _ _ _ tmp Hh) as Hp. destruct Hh as (Hl&n&Hn&_&Hsym&Hdir&Hreg).
  apply osWrite_ok, fchmod_frame in Hc as (n1&Hn1&Hc).
  assert (os_tree s1 = alter (λ n : Node, n <| nd_data ::= λ _, data |>) (place K t0 tmp) (os_tree s)) as H1
    by (rewrite <-Hd; cbn; by rewrite Ht, Hp).
  assert (linksOf (os_tree s1) = linksOf t0) as Hl1.
  { rewrite <-Hl, H1. apply map_eq. intros e. unfold linksOf. rewrite !lookup_omap.
    destruct (decide (place K t0 tmp = e)) as [<-|]; [|by rewrite lookup_alter_ne].
    by rewrite lookup_alter_eq, Hn. }
  unfold place in Hn1, Hc. rewrite Hl1 in Hn1, Hc. fold (place K t0 tmp) in Hn1, Hc.
  rewrite H1, lookup_alter_eq, Hn in Hn1. injection Hn1 as <-. unfold holds. rewrite Hc. split.
  - rewrite linksOf_insert; [done|cbn; by rewrite setMode_symlink|]. rewrite H1, lookup_alter_eq, Hn. by intros n0 [= <-].
  - rewrite lookup_insert_eq. eexists. split; [done|]. cbn. by rewrite setMode_symlink, setMode_dir, setMode_regular.
Qed.
Lemma readObject_ok id s s' data :
  readObject id s = (s', Ok data) → of_objects (os_files s) !! objectName id = Some data.
Proof.
  unfold readObject. intros (s1&?&(F&_)%(quiet_run idle)&H)%bind_ok; [|eauto with idle].
  apply bind_ok in H as (s2&s0&[= <- <-]&H). rewrite F in H. destruct (of_objects _ !! _); [|done]. by injection H as _ ->.
Qed.
(** A regular file with the given content. *)
Definition fileWith (data : list Z) (n : Node) : Prop :=
  nd_data n = data ∧ isSymlinkMode (nd_mode n) = false ∧ isDirMode (nd_mode n) = false ∧ isRegularMode (nd_mode n) = true.
Lemma applyFileObject_ok path id mode createOnly s s' u :
  applyFileObject K path id mode createOnly s = (s', Ok u) →
  ∃ data n, of_objects (os_files s) !! objectName id = Some data ∧
    os_tree s' !! place K (os_tree s) path = Some n ∧ fileWith data n.
Proof.
  unfold applyFileObject. intros (s1&data&Hd&H)%bind_ok. pose proof (idle_tree _ _ _ _ (readObject_idle id) Hd) as T1.
  apply readObject_ok in Hd. apply bind_ok in H as (s2&m&T2%idle_tree&H); [|eauto with idle].
  apply bind_ok in H as (s3&tmp&Hc&H). apply createTemp_ok in Hc as [_ Hh]. rewrite T2, T1 in Hh.
  apply bind_ok in H as (s4&?&Hp&H). apply (prepareTemp_ok _ _ _ _ _ _ _ Hh) in Hp. clear Hh. rename Hp into Hh.
  pose proof (holds_place _ _ _ _ path Hh) as Hpath. pose proof (holds_place _ _ _ _ tmp Hh) as Htmp.
  exists data. destruct createOnly.
  - apply bind_ok in H as (s5&r&Hl%attempt_ok&H). apply bind_ok in H as (s6&?&Hr&H). injection H as <- ->.
    apply osWrite_ok, link_frame in Hl as (n&Hn&Hnone&Ht). rewrite Htmp in Hn. rewrite Hpath in Hnone, Ht.
    destruct Hh as (Hlinks&n0&Hn0&Hf). rewrite Hn in Hn0. injection Hn0 as <-. exists n. split_and!; [done| |by apply Hf..].
    unfold ignore_err in Hr. injection Hr as <-. unfold osRemove.
    destruct (osWrite_run (λ _, remove K tmp) s5) as [[-> _]|[Hd' _]]; [by rewrite Ht, lookup_insert_eq|].
    apply remove_frame in Hd'. rewrite Hd'. rewrite lookup_delete_ne, Ht, lookup_insert_eq; [done|].
    unfold place at 1. rewrite Ht, linksOf_insert; [|by apply Hf|intros n0; by rewrite Hnone].
    rewrite Hlinks. fold (place K (os_tree s) tmp). congruence.
  - apply orAbandon_ok, osWrite_ok, rename_to in H as (n&Hn&Hn'). rewrite Htmp in Hn. rewrite Hpath in Hn'.
    destruct Hh as (_&n0&Hn0&Hf). rewrite Hn in Hn0. injection Hn0 as <-. exists n. split_and!; [done|done|by apply Hf..].
Qed.

(** What an operation is to do to the host: its reference. *)
Definition effect (op : Operation) (f : OverlayFiles) (t t' : Tree) : Prop :=
  let path := op_RequestedPath op in
  let isOp := String.eqb (op_Operation op) in
  if isContentOp (op_Operation op) then
    ∃ data n, of_objects f !! objectName (op_ContentObject op) = Some data ∧ t' !! place K t path = Some n ∧ fileWith data n
  else if isOp "mkdir" then t !! place K t path = None ∧ ∃ n, t' !! place K t path = Some n ∧ isDirMode (nd_mode n) = true
  else if isOp "delete" then t' = delete (place K t path) t
  else if isOp "rename" then
    ∃ n, t !! place K t path = Some n ∧ t' !! place K t (op_DestinationPath op) = Some n
  else if isOp "chmod" then
    ∃ n mode, t !! behind K t path = Some n ∧ t' = <[behind K t path := n <| nd_mode ::= setMode mode |>]> t
  else t' = t.
Lemma applyOperation_effect op s s' u :
  applyOperation K op s = (s', Ok u) → effect op (os_files s) (os_tree s) (os_tree s').
Proof.
  unfold applyOperation, effect. intros H.
  destruct (isContentOp (op_Operation op)) eqn:Ec.
  { unfold isContentOp in Ec. cbn in Ec. destruct (String.eqb _ "create"); [by apply applyFileObject_ok in H|].
    cbn in Ec. rewrite orb_false_r, orb_assoc in Ec. rewrite Ec in H. by apply applyFileObject_ok in H. }
  unfold isContentOp in Ec. cbn in Ec. destruct (String.eqb _ "create"); [done|]. cbn in Ec.
  rewrite orb_false_r, orb_assoc in Ec. rewrite Ec in H.
  destruct (String.eqb _ "mkdir").
  { apply bind_ok in H as (s1&m&T%idle_tree&H); [|eauto with idle]. rewrite <-T.
    apply osWrite_ok, mkdir_frame in H as [Hn ->]. split; [done|]. rewrite lookup_insert_eq. eexists. split; [done|].
    unfold isDirMode, newNode. cbn [nd_mode]. rewrite Z.land_spec, Z.lor_spec, Z.lnot_spec, !Z.land_spec by lia. reflexivity. }
  destruct (String.eqb _ "delete"); [by apply osWrite_ok, remove_frame in H|].
  destruct (String.eqb _ "rename"); [by apply osWrite_ok, rename_to in H|].
  destruct (String.eqb _ "chmod").
  { apply bind_ok in H as (s1&m&T%idle_tree&H); [|eauto with idle]. rewrite <-T.
    apply osWrite_ok, chmod_frame in H as (n&Hn&->). eauto. }
  destruct (String.eqb _ "chown"); [|done]. by apply idle_tree in H; [|eauto with idle].
Qed.
End effect.

(** ** Applying a decision *)

Section decision.
Context (K : Kernel).

(** [cur] is a snapshot of [path] in [t]; the hash is missing when the file could
    not be read. *)
Definition snapshotOf (t : Tree) (path : string) (cur : Snapshot) : Prop :=
  match t !! place K t path with
  | None => sn_Exists cur = false ∧ sn_Kind cur = "missing"
  | Some n =>
      sn_Exists cur = true ∧ sn_Kind cur = fileKind (nd_mode n) ∧ sn_Size cur = nodeSize n ∧
      (sn_ContentHash cur = "" ∨ ∃ data, readFile K t path = Ok data ∧
         sn_ContentHash cur = "sha256:" +:+ EncodeToString (Sum256 data))
  end.
Lemma osRead_ok {A} (f : Tree → OR A) s s' a : osRead f s = (s', Ok a) → f (os_tree s) = Ok a.
Proof.
  unfold osRead. intros (s1&?&T%idle_tree&H)%bind_ok; [|eauto with idle]. apply bind_ok in H as (s2&s0&[= <- <-]&H).
  rewrite T in H. destruct (f (os_tree s)); [by injection H as _ ->|done].
Qed.
Lemma osRead_missing {A} (f : Tree → OR A) s s' :
  osRead f s = (s', Err OvNotExist) → ∃ e, f (os_tree s) = Err e ∧ ofOs e = OvNotExist.
Proof.
  unfold osRead, mbind, SE_bind, oio, get_state. destruct (ou_io (os_out s) _); [|done]. cbn.
  destruct (f (os_tree s)) as [a|e]; [done|]. intros [= _ He]. eauto.
Qed.
Lemma snapshotPath_ok path s s' cur missing :
  snapshotPath K path s = (s', Ok (cur, missing)) → snapshotOf (os_tree s) path cur.
Proof.
  unfold snapshotPath, snapshotOf. intros (s1&found&Hf%attempt_ok&H)%bind_ok.
  pose proof (idle_tree _ _ _ _ (osRead_idle _) Hf) as T. destruct found as [n|e].
  - apply osRead_ok in Hf. unfold lstat in Hf. destruct (os_tree s !! place K (os_tree s) path) as [n'|]; [|done].
    injection Hf as ->. apply bind_ok in H as (s2&hash&Hh&H). apply bind_ok in H as (s3&target&_&H).
    injection H as _ <- _. cbn. split_and!; try done. destruct hash as [h|e]; [|by left]. right.
    destruct (isRegularMode (nd_mode n)); [|done]. apply attempt_ok in Hh. unfold hashFile in Hh.
    apply bind_ok in Hh as (s4&data&Hr%osRead_ok&Hh). injection Hh as _ <-. exists data. by rewrite <-T.
  - destruct e; try done. injection H as _ <- _. apply osRead_missing in Hf as (e&He&Ee). unfold lstat in He.
    by destruct (os_tree s !! place K (os_tree s) path).
Qed.
Definition baseKept (op : Operation) (t : Tree) : Prop :=
  ∃ cur, snapshotOf t (op_RequestedPath op) cur ∧ sameBaseSnapshot (op_BaseSnapshot op) cur = true.
Lemma applyConflictReason_ok op s s' :
  applyConflictReason K op s = (s', Ok "") → baseKept op (os_tree s).
Proof.
  unfold applyConflictReason. intros (s1&[cur missing]&Hs&H)%bind_ok. apply snapshotPath_ok in Hs. exists cur.
  split; [done|]. by destruct (sameBaseSnapshot (op_BaseSnapshot op) cur).
Qed.

(** The claimed decision and the operation behind a change of the host. *)
Definition appliedBy (id : string) (s s' : OverlayState) (d : WriteDecision) (op : Operation) : Prop :=
  of_decisions (os_files s) !! recordName id = Some d ∧ wd_State d = WriteClaimed ∧
  of_operations (os_files s) !! recordName (wd_OperationID d) = Some op ∧ baseKept op (os_tree s) ∧
  agreeOff (touched K (os_tree s) op) (os_tree s) (os_tree s').

Definition treeStays (s s' : OverlayState) : Prop := os_tree s' = os_tree s.
#[global] Instance treeStays_pre : PreOrder treeStays.
Proof. split; [done|]. intros s1 s2 s3 A B. unfold treeStays in *. congruence. Qed.
Lemma idle_treeStays {A} (m : OM A) : preserves idle m → preserves treeStays m.
Proof. apply preserves_mono. by intros s s' (_&?&_). Qed.
Lemma writeFileAtomic_tree f : preserves treeStays (writeFileAtomic f).
Proof. unfold writeFileAtomic, onFiles. keeps (apply idle_treeStays; eauto with idle). by apply preserves_modify. Qed.
Lemma SaveDecision_tree d : preserves treeStays (SaveDecision d).
Proof. unfold SaveDecision, writeDecisionFile. keeps (first [apply writeFileAtomic_tree|apply idle_treeStays; eauto with idle]). Qed.
Lemma SaveOperation_tree op : preserves treeStays (SaveOperation op).
Proof. unfold SaveOperation, writeOperation. keeps (first [apply writeFileAtomic_tree|apply idle_treeStays; eauto with idle]). Qed.
Lemma CleanupArtifacts_tree op : preserves treeStays (CleanupArtifacts op).
Proof.
  unfold CleanupArtifacts, removeObject, onFiles. keeps (apply idle_treeStays; eauto with idle). by apply preserves_modify.
Qed.
Lemma conclude_tree r op d e : preserves treeStays (conclude r op d e).
Proof.
  unfold conclude, saveApplyState, writeOperation, writeDecisionFile.
  keeps (first [apply writeFileAtomic_tree|apply CleanupArtifacts_tree]).
Qed.
Lemma conclude_ok r op d e s s' a :
  conclude r op d e s = (s', Ok a) → ap_Result a = r ∧ (ap_Error a = e ∨ ap_Error a ≠ None).
Proof.
  unfold conclude. intros (s1&saved&_&H)%bind_ok. destruct saved as [_|e'].
  - apply bind_ok in H as (s2&?&_&H). injection H as _ <-. by split; [|left].
  - injection H as _ <-. by split; [|right].
Qed.
Lemma conclude_total r op d e s : ∃ a, (conclude r op d e s).2 = Ok a.
Proof.
  unfold conclude, mbind, SE_bind, attempt, ignore_err. cbn.
  destruct ((saveApplyState op d s).2); cbn; eauto.
Qed.
Lemma conclude_run r op d e s s' x :
  conclude r op d e s = (s', x) →
  ∃ a, x = Ok a ∧ os_tree s' = os_tree s ∧ ap_Result a = r ∧ (ap_Error a = e ∨ ap_Error a ≠ None).
Proof.
  intros E. destruct (conclude_total r op d e s) as [a Ha]. rewrite E in Ha. cbn in Ha. subst x. exists a.
  pose proof (quiet_run treeStays _ _ _ _ (conclude_tree r op d e) E) as T. apply conclude_ok in E as [? ?]. done.
Qed.
(** The ways an application ends. *)
Definition outcome (d : WriteDecision) (op : Operation) (s s' : OverlayState) (a : Applied) : Prop :=
  (os_tree s' = os_tree s ∧ ap_Error a ≠ None) ∨
  (wd_State d = WriteClaimed ∧ baseKept op (os_tree s) ∧
   agreeOff (touched K (os_tree s) op) (os_tree s) (os_tree s') ∧
   (ap_Error a = None → effect K op (os_files s) (os_tree s) (os_tree s'))).
Lemma applyLoaded_run d op s s' x :
  applyLoaded K d op s = (s', x) → ∃ a, x = Ok a ∧ outcome d op s s' a.
Proof.
  unfold applyLoaded. destruct (String.eqb_spec (wd_State d) WriteClaimed) as [Hc|_]; cbn [negb].
  2:{ intros [= <- <-]. eexists. split; [done|]. by left. }
  unfold mbind at 1, SE_bind at 1, attempt at 1.
  destruct (applyConflictReason K op s) as [s1 reason] eqn:Er. cbn [fst snd].
  pose proof (quiet_run idle _ _ _ _ (applyConflictReason_idle K op) Er) as (F1&T1&_).
  destruct reason as [reason|e]; [|intros [= <- <-]; eexists; split; [done|]; by left].
  destruct (String.eqb_spec reason "") as [->|_]; cbn [negb settle].
  2:{ intros (a&->&T&_&He)%conclude_run. exists a. split; [done|]. left. split; [congruence|]. by destruct He as [->|]. }
  apply applyConflictReason_ok in Er. pose proof (applyOperation_frame K op s1) as Hfr. rewrite T1 in Hfr.
  unfold mbind, SE_bind, attempt. destruct (applyOperation K op s1) as [s2 r] eqn:Ea. cbn [fst snd] in *.
  destruct r as [u|e]; cbn [settle]; intros (a&->&T&_&He)%conclude_run; exists a; (split; [done|]); right;
    rewrite T; split_and!; try done.
  - intros _. apply applyOperation_effect in Ea. by rewrite F1, T1 in Ea.
  - intros Hn. rewrite Hn in He. by destruct He.
Qed.
Lemma Apply_run id s s' x :
  Apply K id s = (s', x) →
  ∃ a, x = Ok a ∧ ((os_tree s' = os_tree s ∧ ap_Error a ≠ None) ∨
    ∃ d op, appliedBy id s s' d op ∧ (ap_Error a = None → effect K op (os_files s) (os_tree s) (os_tree s'))).
Proof.
  unfold Apply, mbind at 1, SE_bind at 1, attempt at 1. destruct (loadApply id s) as [s1 loaded] eqn:El. cbn [fst snd].
  pose proof (quiet_run idle _ _ _ _ (loadApply_idle id) El) as (F1&T1&_).
  destruct loaded as [[d op]|e]; [|intros [= <- <-]; eexists; split; [done|]; by left].
  intros (a&->&Ho)%applyLoaded_run. exists a. split; [done|]. apply loadApply_ok in El as [Hd Hop].
  unfold outcome in Ho. rewrite T1, F1 in Ho. destruct Ho as [?|(?&?&?&?)]; [by left|right]. exists d, op. by split.
Qed.
End decision.
