(* ===== verification/OverlayStageSpec.v ===== *)
(** * What staging a write does

    Staging leaves the host alone and adds the records of its request.  As long as
    the random identifiers differ, every decision describes the operation it
    decides on, and the object of an operation is the content whose hash the
    operation records ([consistent]): staging keeps this, and so does everything
    after it.  A session reads back what it staged. *)
From Stdlib Require Import Ascii.
From S2P Require Import Prelude StateRules GoStrings GoTime GoHash GoPath HostTree Overlay OverlaySpec.
Open Scope Z_scope.

(** ** Identifiers *)

Definition idOf (prefix : string) (raw : list Z) : string := prefix +:+ "_" +:+ EncodeToString raw.
Definition minted (o : Outside) (prefix id : string) : Prop :=
  ∃ i raw, (i < ou_rands o)%nat ∧ ou_rand o i = Some raw ∧ id = idOf prefix raw.
(** No two draws of random bytes are the same. *)
Definition distinctDraws (rand : nat → option (list Z)) : Prop :=
  ∀ i j ri rj, rand i = Some ri → rand j = Some rj → EncodeToString ri = EncodeToString rj → i = j.

Lemma app_inj_l a b c : a +:+ b = a +:+ c → b = c.
Proof. induction a as [|x a IH]; [done|]. intros [= H]. by apply IH. Qed.
Lemma app_inj_r a b c : a +:+ c = b +:+ c → a = b.
Proof.
  revert b. induction a as [|x a IH]; intros b H.
  - destruct b as [|y b]; [done|]. apply (f_equal String.length) in H. rewrite !str_length_app in H. cbn in H. lia.
  - destruct b as [|y b].
    + apply (f_equal String.length) in H. rewrite !str_length_app in H. cbn in H. lia.
    + injection H as -> H. f_equal. by apply IH.
Qed.
Lemma SplitSlash_name s : noSlash s = true → SplitSlash s = [s].
Proof.
  unfold noSlash. induction s as [|a s IH]; [done|]. cbn [str_forall SplitSlash].
  intros [Ha Hs]%andb_true_iff. rewrite (IH Hs). by rewrite (proj1 (negb_true_iff _) Ha).
Qed.
Lemma Base_name s : noSlash s = true → s ≠ "" → Base s = s.
Proof.
  intros Hs Hne. unfold Base. destruct (String.eqb_spec s ""); [done|]. rewrite SplitSlash_name by done.
  by rewrite filter_cons_True.
Qed.
Lemma encoded_noSlash raw : noSlash (EncodeToString raw) = true.
Proof.
  apply (str_forall_impl is_lower_hex); [|apply EncodeToString_hex]. intros a Ha.
  destruct (Ascii.eqb_spec a slash) as [->|]; [by vm_compute in Ha|done].
Qed.
Lemma idOf_noSlash prefix raw : noSlash prefix = true → noSlash (idOf prefix raw) = true.
Proof.
  intros Hp. unfold idOf, noSlash in *. rewrite !str_forall_app, Hp. apply encoded_noSlash.
Qed.
Lemma Base_id prefix raw : noSlash prefix = true → Base (idOf prefix raw) = idOf prefix raw.
Proof.
  intros Hp. apply Base_name; [by apply idOf_noSlash|]. unfold idOf. destruct prefix; [|done]. by destruct (EncodeToString raw).
Qed.
Lemma recordName_minted o p a b :
  noSlash p = true → minted o p a → minted o p b → recordName a = recordName b → a = b.
Proof.
  intros Hp (i&ri&_&_&->) (j&rj&_&_&->). unfold recordName. rewrite !Base_id by done. apply app_inj_r.
Qed.
Lemma minted_mono o o' p id : sameOutside o o' → minted o p id → minted o' p id.
Proof. intros (_&_&Hr&Hn) (i&raw&Hi&H&->). exists i, raw. split_and!; [lia|by rewrite Hr|done]. Qed.
(** A new draw is no old identifier. *)
Lemma minted_fresh o p raw id :
  distinctDraws (ou_rand o) → ou_rand o (ou_rands o) = Some raw → minted o p id → id ≠ idOf p raw.
Proof.
  intros Hd Hr (i&ri&Hi&H&->) E. unfold idOf in E. do 2 apply app_inj_l in E.
  assert (i = ou_rands o) by by eapply Hd. lia.
Qed.

(** Cleaning a cleaned absolute path changes nothing. *)
Lemma clean_foldl_names rooted l kept :
  Forall (λ e, noSlash e = true) l → Forall (λ e, noSlash e = true ∧ e ≠ "") kept →
  Forall (λ e, noSlash e = true ∧ e ≠ "") (foldl (cleanElement rooted) kept l).
Proof.
  intros Hl. revert kept. induction Hl as [|e l He Hl IH]; intros kept Hk; [done|]. simpl. apply IH.
  unfold cleanElement. destruct (String.eqb_spec e "") as [|H1]; [done|]. destruct (String.eqb_spec e "."); [done|]. simpl.
  destruct (String.eqb_spec e "..") as [->|H3]; [|by constructor].
  destruct Hk as [|top kept Ht Hk]; [destruct rooted; [done|]; by apply Forall_singleton|].
  destruct (String.eqb top ".."); [|done]. constructor; [done|by constructor].
Qed.
Lemma Clean_relative p : IsAbs p = false → IsAbs (Clean p) = false.
Proof.
  intros Hp. unfold Clean. rewrite Hp.
  assert (Forall (λ e, noSlash e = true ∧ e ≠ "") (cleanElements false (SplitSlash p))) as Hf
    by (apply Forall_rev, clean_foldl_names; [apply SplitSlash_noSlash|done]).
  destruct (decide _) as [|Hne]; [done|]. destruct (cleanElements _ _) as [|x l]; [done|].
  inversion Hf as [|?? [Hx Hx'] _]; subst. destruct x as [|a x]; [done|]. unfold noSlash in Hx. cbn in Hx.
  apply andb_true_iff in Hx as [Ha%negb_true_iff _]. by destruct l.
Qed.
Lemma Clean_Clean p : IsAbs (Clean p) = true → Clean (Clean p) = Clean p.
Proof.
  destruct (IsAbs p) eqn:Hp; [intros _|by rewrite Clean_relative].
  destruct (Clean_names p Hp) as (l&->&Hl). destruct l as [|x l]; [done|]. by apply Clean_absPath.
Qed.

(** ** Consistent overlays *)

(** The decision shows the operation it decides on. *)
Definition describes (d : WriteDecision) (op : Operation) : Prop :=
  wd_Operation d = op_Operation op ∧ wd_Path d = op_RequestedPath op ∧
  wd_DestinationPath d = op_DestinationPath op ∧ wd_Preview d = op_Preview op.
Definition hashText (data : list Z) : string := "sha256:" +:+ EncodeToString (Sum256 data).
(** The object of a content operation is the content it records. *)
Definition faithful (f : OverlayFiles) (op : Operation) : Prop :=
  isContentOp (op_Operation op) = true → ∀ data, of_objects f !! objectName (op_ContentObject op) = Some data →
    sn_ContentHash (op_NewSnapshot op) = hashText data ∧ sn_Size (op_NewSnapshot op) = Z.of_nat (length data).
Definition objectOk (o : Outside) (op : Operation) : Prop :=
  isContentOp (op_Operation op) = true → minted o "hfwobj" (op_ContentObject op).
Record consistent (o : Outside) (f : OverlayFiles) : Prop := mkConsistent {
  co_filed : filed f;
  co_op : ∀ k op, of_operations f !! k = Some op → minted o "hfwop" (op_ID op) ∧ objectOk o op ∧ faithful f op;
  co_dec : ∀ k d, of_decisions f !! k = Some d →
    minted o "hfwdec" (wd_DecisionID d) ∧ minted o "hfwop" (wd_OperationID d) ∧
    ∀ op, of_operations f !! recordName (wd_OperationID d) = Some op → describes d op }.

Lemma consistent_empty o : consistent o emptyOverlay.
Proof. split; [split|..]; intros k x H; cbn in H; by rewrite lookup_empty in H. Qed.
Lemma consistent_outside o o' f : sameOutside o o' → consistent o f → consistent o' f.
Proof.
  intros Ho [Hf Hop Hdec]. split; [done| |].
  - intros k op H. destruct (Hop k op H) as (?&Hobj&?). split_and!; [by eapply minted_mono| |done].
    intros Hc. eapply minted_mono; [done|by apply Hobj].
  - intros k d H. destruct (Hdec k d H) as (?&?&?). split_and!; [by eapply minted_mono..|done].
Qed.
(** Everything after staging keeps an overlay consistent. *)
Lemma consistent_evolve C o f f' : filesEvolve C f f' → consistent o f → consistent o f'.
Proof.
  intros E [Hf Hop Hdec]. pose proof E as (A1&A2&A3&_). split; [by eapply filed_evolve| |].
  - intros k op' H. destruct (A1 k op' H) as (op&H0&Ec). destruct (Hop k op H0) as (Hid&Hobj&Hfa).
    destruct (opCore_eq _ _ Ec) as (<-&Eo&_&_&Eb&Es&_). split_and!; [done| |].
    + intros Hc. rewrite <-Eb. apply Hobj. by rewrite Eo.
    + intros Hc data Hd. rewrite <-Es. apply Hfa; [by rewrite Eo|]. apply A3. by rewrite Eb.
  - intros k d' H. destruct (A2 k d' H) as (d&H0&Ec&_). destruct (Hdec k d H0) as (Hid&Hoid&Hde).
    destruct (decCore_eq _ _ Ec) as (<-&<-&Eo&Ep&Ed&Ev). split_and!; [done..|].
    intros op' H'. destruct (A1 _ _ H') as (op&H1&Ec'). destruct (Hde op H1) as (?&?&?&?).
    destruct (opCore_eq _ _ Ec') as (_&?&?&?&_&_&_&?&_). unfold describes. split_and!; congruence.
Qed.

(** ** The steps of staging *)

Lemma writeFileAtomic_run f s s' r :
  writeFileAtomic f s = (s', r) →
  os_tree s' = os_tree s ∧ sameOutside (os_out s) (os_out s') ∧
  (os_files s' = os_files s ∧ (∃ e, r = Err e) ∨ os_files s' = f (os_files s) ∧ r = Ok tt).
Proof.
  unfold writeFileAtomic. intros E.
  assert (preserves idle (oio;; oio;; oio)) as Hi by idly.
  assert ((oio;; oio;; oio;; onFiles f) s = ((oio;; oio;; oio);; onFiles f) s) as Ea.
  { unfold mbind, SE_bind. destruct (oio s) as [s1 [[]|]]; [|done]. by destruct (oio s1) as [s2 [[]|]]. }
  rewrite Ea in E. clear Ea. revert E. unfold mbind at 1, SE_bind at 1.
  destruct ((oio;; oio;; oio) s) as [s1 [[]|e]] eqn:E1; apply (quiet_run idle _ _ _ _ Hi) in E1 as (F&T&O).
  - intros [= <- <-]. cbn. split_and!; [done|done|]. right. by rewrite F.
  - intros [= <- <-]. split_and!; [done|done|]. left. eauto.
Qed.
Lemma newID_run prefix s s' id :
  newID prefix s = (s', Ok id) →
  os_files s' = os_files s ∧ os_tree s' = os_tree s ∧ sameOutside (os_out s) (os_out s') ∧
  ou_rands (os_out s') = S (ou_rands (os_out s)) ∧
  ∃ raw, ou_rand (os_out s) (ou_rands (os_out s)) = Some raw ∧ id = idOf prefix raw.
Proof.
  intros E. pose proof (quiet_run idle _ _ _ _ (newID_idle prefix) E) as (?&?&?). unfold newID in E.
  apply bind_ok in E as (s1&raw&Hr&E). injection E as <- <-. unfold orand in Hr. injection Hr as <- Hr.
  split_and!; try done. destruct (ou_rand (os_out s) (ou_rands (os_out s))); [|done]. injection Hr as ->. eauto.
Qed.

Definition sameRecords (s s' : OverlayState) : Prop :=
  of_operations (os_files s') = of_operations (os_files s) ∧ of_decisions (os_files s') = of_decisions (os_files s) ∧
  os_tree s' = os_tree s ∧ sameOutside (os_out s) (os_out s').
#[global] Instance sameRecords_pre : PreOrder sameRecords.
Proof. split; [done|]. intros s1 s2 s3 (A1&A2&A3&A4) (B1&B2&B3&B4). split_and!; [congruence..|by etrans]. Qed.
Definition ok (s : OverlayState) : Prop := consistent (os_out s) (os_files s).
Lemma ok_idle s s' : idle s s' → ok s → ok s'.
Proof. intros (F&_&O) H. unfold ok. rewrite F. by eapply consistent_outside. Qed.
Lemma idle_records s s' : idle s s' → sameRecords s s'.
Proof. intros (F&T&O). unfold sameRecords. by rewrite F. Qed.

Lemma objectName_minted o a b : minted o "hfwobj" a → minted o "hfwobj" b → objectName a = objectName b → a = b.
Proof. intros (i&ri&_&_&->) (j&rj&_&_&->). unfold objectName. by rewrite !Base_id. Qed.
Lemma consistent_object o f id content :
  minted o "hfwobj" id → (∀ k op, of_operations f !! k = Some op → isContentOp (op_Operation op) = true → op_ContentObject op ≠ id) →
  consistent o f → consistent o (f <| of_objects ::= <[objectName id := content]> |>).
Proof.
  intros Hid Hfresh [Hf Hop Hdec]. split; [done| |done]. intros k op H. destruct (Hop k op H) as (?&Hobj&Hfa).
  split_and!; [done..|]. intros Hc data. cbn. rewrite lookup_insert_ne; [by apply Hfa|].
  intros E. eapply Hfresh; [done..|]. symmetry. eapply objectName_minted; [done|by apply Hobj|done].
Qed.

(** The result of a plan: the new object of a content operation is there, with
    the recorded hash. *)
Definition planned (operation : string) (s : OverlayState) (object : string) (next : Snapshot) : Prop :=
  isContentOp operation = true →
  minted (os_out s) "hfwobj" object ∧ ∃ content, of_objects (os_files s) !! objectName object = Some content ∧
    sn_ContentHash next = hashText content ∧ sn_Size next = Z.of_nat (length content).
Definition planPost (operation : string) (s s' : OverlayState) (r : result OverlayError (string * Snapshot * WritePreview)) : Prop :=
  sameRecords s s' ∧ ok s' ∧ ∀ object next preview, r = Ok (object, next, preview) → planned operation s' object next.

(** An identifier no record of the overlay uses. *)
Definition unused (id : string) (f : OverlayFiles) : Prop :=
  (∀ k op, of_operations f !! k = Some op → op_ID op ≠ id) ∧
  (∀ k d, of_decisions f !! k = Some d → wd_OperationID d ≠ id).
Lemma consistent_insert_op o f op :
  minted o "hfwop" (op_ID op) → unused (op_ID op) f → objectOk o op → faithful f op →
  consistent o f → consistent o (f <| of_operations ::= <[recordName (op_ID op) := op]> |>).
Proof.
  intros Hid [_ Hdf] Hobj Hfa [[Hf1 Hf2] Hop Hdec]. split; [split; [|done]| |].
  - intros k op'. cbn. by intros [[<- <-]|[_ H]]%lookup_insert_Some; [|apply Hf1].
  - intros k op'. cbn. intros [[<- <-]|[_ H]]%lookup_insert_Some; [done|]. by apply (Hop k).
  - intros k d H. destruct (Hdec k d H) as (?&Hoid&Hde). split_and!; [done..|]. intros op'. cbn.
    rewrite lookup_insert_ne; [apply Hde|]. intros E. eapply Hdf; [done|].
    symmetry. by apply (recordName_minted o "hfwop").
Qed.
Lemma consistent_insert_dec o f d op :
  minted o "hfwdec" (wd_DecisionID d) → minted o "hfwop" (wd_OperationID d) →
  of_operations f !! recordName (wd_OperationID d) = Some op → describes d op → wd_Claim d = None →
  consistent o f → consistent o (f <| of_decisions ::= <[recordName (wd_DecisionID d) := d <| wd_Claim ::= fmap withoutToken |>]> |>).
Proof.
  intros Hid Hoid Hop Hde Hc [[Hf1 Hf2] Ho Hdec]. split; [split; [done|]|done|].
  - intros k d'. cbn. by intros [[<- <-]|[_ H]]%lookup_insert_Some; [|apply Hf2].
  - intros k d'. cbn. intros [[<- <-]|[_ H]]%lookup_insert_Some; [|by apply (Hdec k)].
    split_and!; [done..|]. cbn. intros op'. rewrite Hop. by intros [= <-].
Qed.

(** What a staged operation owes its request. *)
Definition stagedOp (req : StageRequest) (op : Operation) : Prop :=
  ∃ req' opID decID object base next preview now,
    cleanRequest req = Ok req' ∧ sn_Kind base ≠ "symlink" ∧
    op = newOperation (req' <| sq_Privilege ::= knownPrivilege |>) opID decID object base next preview now.
Definition pendingDec (d : WriteDecision) : Prop := wd_State d = WritePending ∧ wd_Claim d = None.
(** The overlay after staging [req], finished or not. *)
Definition stagePost (req : StageRequest) (s s' : OverlayState) : Prop :=
  os_tree s' = os_tree s ∧ sameOutside (os_out s) (os_out s') ∧ ok s' ∧
  (∀ k op, of_operations (os_files s') !! k = Some op → of_operations (os_files s) !! k = Some op ∨ stagedOp req op) ∧
  (∀ k d, of_decisions (os_files s') !! k = Some d → of_decisions (os_files s) !! k = Some d ∨ pendingDec d).
Lemma stagePost_records req s s' : sameRecords s s' → ok s' → stagePost req s s'.
Proof. intros (A&B&T&O) Hs. split_and!; [done..|rewrite A; by left|rewrite B; by left]. Qed.

Section stage.
Context (K : Kernel) {TS : TimeSort}.

Lemma planPost_err operation s s' e : ok s → idle s s' → planPost operation s s' (Err e).
Proof. intros Hs I. split_and!; [by apply idle_records|by eapply ok_idle|done]. Qed.
Lemma planPost_idle operation s s1 s2 r : idle s s1 → planPost operation s1 s2 r → planPost operation s s2 r.
Proof. intros I (R&O&P). split_and!; [|done|done]. etrans; [by apply idle_records|done]. Qed.
Lemma writeContentObject_run operation' operation content s :
  distinctDraws (ou_rand (os_out s)) → ok s →
  mwp (writeContentObject content operation) s (planPost operation' s).
Proof.
  intros Hd Hs. unfold writeContentObject. apply (mwp_bind_by idle); [eauto with idle|intros; by apply planPost_err|].
  intros s1 id Hid I1. apply newID_run in Hid as (F1&T1&O1&R1&raw&Hr&->). assert (ok s1) as Hs1 by by eapply ok_idle.
  assert (minted (os_out s1) "hfwobj" (idOf "hfwobj" raw)) as Hm.
  { exists (ou_rands (os_out s)), raw. destruct O1 as (_&_&->&_). split_and!; [lia|done|done]. }
  apply mwp_bind. unfold mwp at 1. destruct (writeFileAtomic _ s1) as [s2 r] eqn:Ew. cbn [fst snd].
  apply writeFileAtomic_run in Ew as (T2&O2&[[F2 [e ->]]|[F2 ->]]).
  - apply planPost_err; [done|]. split_and!; [congruence|congruence|by etrans].
  - assert (sameRecords s s2) as Rs.
    { split_and!; [rewrite F2; cbn; by rewrite F1..|congruence|by etrans]. }
    assert (ok s2) as Hs2.
    { unfold ok. rewrite F2. eapply consistent_outside; [exact O2|]. apply consistent_object; [done| |exact Hs1].
      intros k op H Hc. rewrite F1 in H. destruct (co_op _ _ Hs k op H) as (_&Hobj&_). by eapply minted_fresh, Hobj. }
    apply (mwp_bind_by idle); [eauto with idle|intros s3 e I3|intros s3 now _ I3].
    + split_and!; [etrans; [done|by apply idle_records]|by eapply ok_idle|done].
    + apply mwp_ret. split_and!; [etrans; [done|by apply idle_records]|by eapply ok_idle|].
      intros object next preview [= <- <- <-] _. destruct I3 as (F3&_&O3). split; [do 2 (eapply minted_mono; [done|]); done|].
      exists content. rewrite F3, F2. cbn. by rewrite lookup_insert_eq.
Qed.
Lemma plan_run req base now s :
  distinctDraws (ou_rand (os_out s)) → ok s → mwp (plan K req base now) s (planPost (sq_Operation req) s).
Proof.
  intros Hd Hs. unfold plan.
  assert (∀ content operation s1, idle s s1 →
    mwp (writeContentObject content operation) s1 (planPost (sq_Operation req) s)) as Hw.
  { intros content operation s1 I1. eapply mwp_mono; [apply (writeContentObject_run (sq_Operation req))|].
    - by destruct I1 as (_&_&_&_&->&_).
    - by eapply ok_idle.
    - intros s2 r. by apply planPost_idle. }
  assert (∀ {A} (m : OM A) f s0, preserves idle m → idle s s0 →
    (∀ a s1, idle s s1 → mwp (f a) s1 (planPost (sq_Operation req) s)) → mwp (m ≫= f) s0 (planPost (sq_Operation req) s)) as Hb.
  { intros A m f s0 Hm I0 Hf. apply (mwp_bind_by idle); [done|intros; apply planPost_err; [done|by etrans]|].
    intros s1 a _ I1. apply Hf. by etrans. }
  assert (∀ m : OM (string * Snapshot * WritePreview), isContentOp (sq_Operation req) = false → preserves idle m →
    mwp m s (planPost (sq_Operation req) s)) as Hi.
  { intros m Hc Hm. eapply (mwp_by idle); [done|]. intros s1 r I1. split_and!; [by apply idle_records|by eapply ok_idle|].
    intros object next preview _. unfold planned. by rewrite Hc. }
  destruct (String.eqb_spec (sq_Operation req) "create"); [apply Hb; [eauto with idle|done|]; intros _ s1 I1; by apply Hw|].
  destruct (String.eqb_spec (sq_Operation req) "replace"); [apply Hb; [idly|done|]; intros content s1 I1; by apply Hw|].
  destruct (String.eqb_spec (sq_Operation req) "append"); [apply Hb; [idly|done|]; intros content s1 I1; by apply Hw|].
  destruct (String.eqb_spec (sq_Operation req) "truncate").
  { apply Hb; [idly|done|]. intros prior s1 I1. apply Hb; [idly|done|]. intros content s2 I2. by apply Hw. }
  repeat (match goal with |- context [String.eqb (sq_Operation req) ?x] =>
    destruct (String.eqb_spec (sq_Operation req) x) as [E|_]; [apply Hi; [by rewrite E|unfold metadata; idly]|] end).
  by apply planPost_err.
Qed.

Lemma writeRecords_run req s s1 req' opID decID object base next preview now :
  sameRecords s s1 → ok s1 → cleanRequest req = Ok req' → sn_Kind base ≠ "symlink" →
  minted (os_out s1) "hfwop" opID → minted (os_out s1) "hfwdec" decID → unused opID (os_files s1) →
  planned (sq_Operation req') s1 object next →
  let req'' := req' <| sq_Privilege ::= knownPrivilege |> in
  let op := newOperation req'' opID decID object base next preview now in
  let d := newDecision req'' opID decID preview now in
  mwp (writeOperation op;; writeDecisionFile d;; mret (op, d)) s1 (λ s' r, stagePost req s s' ∧
    ∀ x, r = Ok x → x = (op, d) ∧ os_files s' =
      (os_files s1) <| of_operations ::= <[recordName opID := op]> |> <| of_decisions ::= <[recordName decID := d]> |>).
Proof.
  intros R1 Hs1 Hreq Hbase Hop Hdec Hun Hpl req'' op d. pose proof (stagePost_records req _ _ R1 Hs1) as (T1&O1&_&P1&D1).
  assert (stagedOp req op) as Hst by (unfold stagedOp; naive_solver).
  apply mwp_bind. unfold mwp at 1, writeOperation. destruct (writeFileAtomic _ s1) as [s2 r] eqn:E2. cbn [fst snd].
  apply writeFileAtomic_run in E2 as (T2&O2&[[F2 [e ->]]|[F2 ->]]).
  - split; [|done]. split_and!; [congruence|by etrans| |rewrite F2; apply P1|rewrite F2; apply D1].
    unfold ok. rewrite F2. by eapply consistent_outside.
  - assert (ok s2) as Hs2.
    { unfold ok. rewrite F2. eapply consistent_outside; [exact O2|]. apply consistent_insert_op; [done|done| | |exact Hs1].
      - intros Hc. by destruct (Hpl Hc).
      - intros Hc data Hd. destruct (Hpl Hc) as (_&content&Hc1&?). cbn in Hd. rewrite Hc1 in Hd. by injection Hd as <-. }
    assert (∀ k op', of_operations (os_files s2) !! k = Some op' → of_operations (os_files s) !! k = Some op' ∨ stagedOp req op') as P2.
    { intros k op'. rewrite F2. cbn. intros [[_ <-]|[_ H]]%lookup_insert_Some; [by right|by apply P1]. }
    apply mwp_bind. unfold mwp at 1, writeDecisionFile. destruct (writeFileAtomic _ s2) as [s3 r] eqn:E3. cbn [fst snd].
    apply writeFileAtomic_run in E3 as (T3&O3&[[F3 [e ->]]|[F3 ->]]).
    + split; [|done]. split_and!; [congruence|by do 2 (etrans; [done|])| |rewrite F3; apply P2|rewrite F3, F2; apply D1].
      unfold ok. rewrite F3. by eapply consistent_outside.
    + apply mwp_ret. split; [|intros ? [= <-]; split; [done|]; by rewrite F3, F2].
      split_and!; [congruence|by do 2 (etrans; [done|])| |rewrite F3; apply P2|].
      * unfold ok. rewrite F3. eapply consistent_outside; [exact O3|].
        apply (consistent_insert_dec _ _ _ op); [by eapply minted_mono..| |done|done|exact Hs2].
        rewrite F2. cbn. by rewrite lookup_insert_eq.
      * intros k d'. rewrite F3. cbn. rewrite F2. cbn. intros [[_ <-]|[_ H]]%lookup_insert_Some; [by right|by apply D1].
Qed.
Lemma Stage_run req s :
  distinctDraws (ou_rand (os_out s)) → ok s → mwp (Stage K req) s (λ s' _, stagePost req s s').
Proof.
  intros Hd Hs. assert (∀ s', idle s s' → stagePost req s s') as Hi
    by (intros s' I; apply stagePost_records; [by apply idle_records|by eapply ok_idle]).
  unfold Stage. apply (mwp_bind_by idle); [eauto with idle|auto|]. intros s1 _ _ I1.
  destruct (cleanRequest req) as [req'|e] eqn:Hreq; [|apply mwp_bind, mwp_lift; by apply Hi]. apply mwp_bind, mwp_lift.
  apply (mwp_bind_by idle); [eauto with idle|intros; apply Hi; by etrans|]. intros s2 now _ I2.
  apply (mwp_bind_by idle); [eauto with idle|intros; apply Hi; by do 2 (etrans; [done|])|]. intros s3 [base missing] _ I3.
  apply (mwp_bind_by idle); [eauto with idle|intros; apply Hi; by do 3 (etrans; [done|])|]. intros s4 [] Hb I4.
  assert (idle s s4) as I by by do 3 (etrans; [done|]). clear I1 I2 I3 I4.
  assert (sn_Kind base ≠ "symlink") as Hbase by (destruct (String.eqb_spec (sn_Kind base) "symlink"); done).
  apply (mwp_bind_by idle); [eauto with idle|intros; apply Hi; by etrans|]. intros s5 opID Hop I5.
  apply newID_run in Hop as (F5&_&O5&R5&raw&Hraw&->).
  apply (mwp_bind_by idle); [eauto with idle|intros; apply Hi; by do 2 (etrans; [done|])|]. intros s6 decID Hdec I6.
  apply newID_run in Hdec as (F6&_&O6&R6&raw'&Hraw'&->).
  assert (idle s s6) as I' by by do 2 (etrans; [done|]). assert (ok s6) as Hs6 by by eapply ok_idle.
  assert (distinctDraws (ou_rand (os_out s6))) as Hd6 by (by destruct I' as (_&_&_&_&->&_)).
  apply mwp_bind. eapply mwp_mono; [by apply (plan_run req' base now)|].
  intros s7 r (R7&Hs7&Hpl). assert (sameRecords s s7) as R by (etrans; [by apply idle_records|done]).
  destruct r as [[[object next] preview]|e]; [|by apply stagePost_records].
  assert (sameOutside (os_out s6) (os_out s7)) as O7 by by destruct R7 as (_&_&_&?).
  assert (∀ p raw0 sa sb, ou_rand (os_out sa) (ou_rands (os_out sa)) = Some raw0 → sameOutside (os_out sa) (os_out sb) →
    ou_rands (os_out sb) = S (ou_rands (os_out sa)) → minted (os_out sb) p (idOf p raw0)) as Hmint.
  { intros p raw0 sa sb H0 (_&_&Hr&_) Hn. exists (ou_rands (os_out sa)), raw0. rewrite Hr. split_and!; [lia|done|done]. }
  eapply mwp_mono; [eapply (writeRecords_run req s); try done|by intros s8 r [H _]].
  - eapply minted_mono; [exact O7|]. eapply minted_mono; [exact O6|]. by eapply Hmint.
  - eapply minted_mono; [exact O7|]. by eapply Hmint.
  - destruct R as (A&B&_). pose proof (ok_idle _ _ I Hs) as Hs4. destruct I as (F4&_&O4).
    assert (distinctDraws (ou_rand (os_out s4))) as Hd4 by (by destruct O4 as (_&_&->&_)).
    split; intros k x Hx; [rewrite A, <-F4 in Hx|rewrite B, <-F4 in Hx].
    + destruct (co_op _ _ Hs4 k x Hx) as (Hm&_). by eapply minted_fresh.
    + destruct (co_dec _ _ Hs4 k x Hx) as (_&Hm&_). by eapply minted_fresh.
  - by eapply Hpl.
Qed.

(** ** Reading back *)

(** The newest live operation on a path, and the content a session reads there,
    when no call fails. *)
Definition calm : Outside := mkOutside (λ _, zeroTime) 0 (λ _, true) 0 (λ _, None) 0.
Definition storedOps (f : OverlayFiles) : list Operation := sortFunc op_CreatedAt (recordsOf (of_operations f)).*2.
Definition latest (f : OverlayFiles) (path : string) : option Operation :=
  List.find (touches (Clean path)) (rev (storedOps f)).
Definition viewNow (f : OverlayFiles) (path : string) : result OverlayError (option OverlayView) :=
  match latest f path with
  | None => Ok None
  | Some op =>
      if isContentOp (op_Operation op) then
        match of_objects f !! objectName (op_ContentObject op) with
        | Some data => Ok (Some (mkOverlayView true false "file" (Z.of_nat (length data))
                         (modeOrDefault (sn_Mode (op_NewSnapshot op)) "-rw-r--r--") data))
        | None => Err OvNotExist
        end
      else match (viewFromOperation op path (mkOverlayState f ∅ calm)).2 with Ok v => Ok (Some v) | Err e => Err e end
  end.
Definition contentNow (f : OverlayFiles) (t : Tree) (path : string) : result OverlayError (list Z) :=
  match viewNow f path with
  | Err e => Err e
  | Ok None => match readFile K t path with Ok data => Ok data | Err e => Err (ofOs e) end
  | Ok (Some v) => if ov_Deleted v then Err OvNotExist else Ok (ov_Data v)
  end.

Lemma readEach_run {A} (l : list (string * A)) s s' r : readEach l s = (s', r) → r = Ok l.*2 ∨ r = Err OvIO.
Proof.
  revert s s' r. induction l as [|e l IH]; intros s s' r; simpl; [intros [= <- <-]; by left|].
  unfold mbind, SE_bind, oio at 1. destruct (ou_io _ _); [|intros [= <- <-]; by right].
  destruct (readEach l _) as [s1 r1] eqn:E. apply IH in E as [->| ->]; intros [= <- <-]; [by left|by right].
Qed.
Lemma operations_run s s' r : operations s = (s', r) → idle s s' ∧ (r = Ok (storedOps (os_files s)) ∨ r = Err OvIO).
Proof.
  intros E. split; [by eapply quiet_run; [apply operations_idle|]|]. revert E. unfold operations, mbind, SE_bind, oio at 1, get_state.
  destruct (ou_io _ _); [|intros [= <- <-]; by right]. cbn.
  destruct (readEach _ _) as [s1 r1] eqn:E. apply readEach_run in E as [->| ->]; intros [= <- <-]; [by left|by right].
Qed.
Lemma View_run path s s' r :
  View path s = (s', r) → idle s s' ∧ (r = viewNow (os_files s) path ∨ r = Err OvIO).
Proof.
  intros E. split; [by eapply quiet_run; [apply View_idle|]|]. revert E. unfold View, latestOperation, mbind, SE_bind.
  destruct (operations s) as [s1 r1] eqn:E1. apply operations_run in E1 as [(F1&_) [->| ->]]; [|intros [= <- <-]; by right].
  unfold viewNow, latest. cbn [fst snd mret SE_ret]. destruct (List.find _ _) as [op|]; [|intros [= <- <-]; by left].
  unfold viewFromOperation. destruct (isContentOp _).
  - unfold readObject, mbind, SE_bind, oio, get_state. destruct (ou_io _ _); [|intros [= <- <-]; by right].
    cbn. rewrite F1. destruct (of_objects _ !! _); intros [= <- <-]; by left.
  - repeat match goal with |- context [String.eqb ?a ?b] => destruct (String.eqb a b) end; intros [= <- <-]; by left.
Qed.
Lemma readCurrentContent_run path s s' r :
  readCurrentContent K path s = (s', r) → idle s s' ∧ (r = contentNow (os_files s) (os_tree s) path ∨ r = Err OvIO).
Proof.
  intros E. split; [eapply quiet_run; [|done]; unfold readCurrentContent; idly|]. revert E.
  unfold readCurrentContent, contentNow, mbind at 1, SE_bind at 1. destruct (View path s) as [s1 r1] eqn:E1.
  apply View_run in E1 as [(F1&T1&_) [->| ->]]; [|intros [= <- <-]; by right].
  destruct (viewNow (os_files s) path) as [[v|]|e].
  - destruct (ov_Deleted v); intros [= <- <-]; by left.
  - unfold osRead, mbind, SE_bind, oio, get_state. destruct (ou_io _ _); [|intros [= <- <-]; by right].
    cbn. rewrite T1. destruct (readFile _ _ _); intros [= <- <-]; by left.
  - intros [= <- <-]. by left.
Qed.

(** The content an edit makes of the content before it: the reference of a
    content operation. *)
Definition before (f : OverlayFiles) (t : Tree) (path : string) : list Z :=
  match contentNow f t path with Ok data => data | Err _ => [] end.
Definition edited (req : StageRequest) (prior : list Z) : list Z :=
  let isOp := String.eqb (sq_Operation req) in
  if isOp "create" then sq_Data req
  else if isOp "replace" then if 0 <? sq_Offset req then writtenAt prior (Z.to_nat (sq_Offset req)) (sq_Data req) else sq_Data req
  else if isOp "append" then (prior ++ sq_Data req)%list
  else resized prior (Z.to_nat (sq_Size req)).
Lemma priorContent_ok path s s' prior :
  priorContent K path s = (s', Ok prior) → idle s s' ∧ prior = before (os_files s) (os_tree s) path.
Proof.
  intros E. split; [by eapply quiet_run; [apply priorContent_idle|]|]. unfold priorContent in E.
  apply bind_ok in E as (s1&r&Hr%attempt_ok%readCurrentContent_run&E). unfold before.
  destruct Hr as [_ [->| ->]]; [|done]. destruct (contentNow _ _ _) as [data|e]; [by injection E as _ <-|].
  destruct e; try done. by injection E as _ <-.
Qed.
Lemma writeContentObject_ok content operation s s' object next preview :
  writeContentObject content operation s = (s', Ok (object, next, preview)) →
  sameRecords s s' ∧ of_objects (os_files s') !! objectName object = Some content ∧ sn_Mode next = "-rw-r--r--".
Proof.
  unfold writeContentObject. intros (s1&id&Hid&H)%bind_ok. apply bind_ok in H as (s2&[]&Hw&H). apply bind_ok in H as (s3&now&Hn&H).
  injection H as <- <- <- <-. apply (quiet_run idle) in Hid as I1; [|eauto with idle]. apply (quiet_run idle) in Hn as I3; [|eauto with idle].
  apply writeFileAtomic_run in Hw as (T2&O2&[[_ [e He]]|[F2 _]]); [done|]. destruct I1 as (F1&T1&O1), I3 as (F3&T3&O3).
  split_and!; [|rewrite F3, F2; cbn; by rewrite lookup_insert_eq|done].
  split_and!; [rewrite F3, F2; cbn; by rewrite F1..|congruence|]. by do 2 (etrans; [done|]).
Qed.
Lemma resize_edited prior size content :
  resizeBytes prior size = Ok content → content = resized prior (Z.to_nat size).
Proof.
  destruct (Z.ltb_spec size 0) as [Hn|Hp].
  - assert (resizeBytes prior size = resizeBytes prior 0) as -> by (unfold resizeBytes; by rewrite (proj2 (Z.ltb_lt size 0))).
    rewrite resizeBytes_spec by done. replace (Z.to_nat size) with (Z.to_nat 0) by lia. by intros [= <-].
  - rewrite resizeBytes_spec by done. destruct (_ <? _); [done|]. by intros [= <-].
Qed.
Lemma patch_edited prior offset data content :
  0 < offset → patchBytes prior offset data = Ok content → content = writtenAt prior (Z.to_nat offset) data.
Proof. intros Ho. rewrite patchBytes_spec by lia. cbn zeta. destruct (_ && _); [done|]. by intros [= <-]. Qed.
Lemma plan_content q base now s s' object next preview :
  plan K q base now s = (s', Ok (object, next, preview)) → isContentOp (sq_Operation q) = true →
  sameRecords s s' ∧ sn_Mode next = "-rw-r--r--" ∧
  of_objects (os_files s') !! objectName object = Some (edited q (before (os_files s) (os_tree s) (sq_Path q))).
Proof.
  intros H Hc.
  assert (∀ content operation s1, idle s s1 → writeContentObject content operation s1 = (s', Ok (object, next, preview)) →
    sameRecords s s' ∧ sn_Mode next = "-rw-r--r--" ∧ of_objects (os_files s') !! objectName object = Some content) as Hw.
  { intros content operation s1 I (R&Ho&Hm)%writeContentObject_ok. split_and!; [|done|done]. etrans; [by apply idle_records|done]. }
  unfold plan in H. unfold isContentOp in Hc. cbn in Hc. unfold edited.
  destruct (String.eqb _ "create").
  { apply bind_ok in H as (s1&[]&H1%(quiet_run idle)&H); [|eauto with idle]. by eapply Hw. }
  destruct (String.eqb _ "replace").
  { apply bind_ok in H as (s1&content&Hp&H). destruct (Z.ltb_spec 0 (sq_Offset q)) as [Ho|Ho].
    - apply bind_ok in Hp as (s2&prior&[I ->]%priorContent_ok&Hp). unfold lift in Hp. injection Hp as -> Hp.
      apply patch_edited in Hp as ->; [|done]. by eapply Hw.
    - injection Hp as <- <-. by eapply Hw. }
  destruct (String.eqb _ "append").
  { apply bind_ok in H as (s1&prior&[I ->]%priorContent_ok&H). by eapply Hw. }
  destruct (String.eqb _ "truncate"); [|done].
  apply bind_ok in H as (s1&prior&[I ->]%priorContent_ok&H). apply bind_ok in H as (s2&content&Hp&H).
  unfold lift in Hp. injection Hp as -> Hp. apply resize_edited in Hp as ->. by eapply Hw.
Qed.
Lemma Stage_ok req s s' op d :
  Stage K req s = (s', Ok (op, d)) → isContentOp (sq_Operation req) = true →
  ∃ q, cleanRequest req = Ok q ∧ op_Operation op = sq_Operation req ∧ op_RequestedPath op = sq_Path q ∧
    op_Status op = WriteStaged ∧ sn_Mode (op_NewSnapshot op) = "-rw-r--r--" ∧ os_tree s' = os_tree s ∧
    of_operations (os_files s') = <[recordName (op_ID op) := op]> (of_operations (os_files s)) ∧
    of_objects (os_files s') !! objectName (op_ContentObject op) =
      Some (edited q (before (os_files s) (os_tree s) (sq_Path q))).
Proof.
  unfold Stage. intros (s1&?&I1%(quiet_run idle)&H)%bind_ok Hc; [|eauto with idle]. apply bind_ok in H as (s2&q&[= <- Hq]&H).
  apply bind_ok in H as (s3&now&I3%(quiet_run idle)&H); [|eauto with idle]. apply bind_ok in H as (s4&[base m]&I4%(quiet_run idle)&H); [|eauto with idle].
  apply bind_ok in H as (s5&?&I5%(quiet_run idle)&H); [|eauto with idle]. apply bind_ok in H as (s6&opID&I6%(quiet_run idle)&H); [|eauto with idle].
  apply bind_ok in H as (s7&decID&I7%(quiet_run idle)&H); [|eauto with idle]. apply bind_ok in H as (s8&[[object next] preview]&Hp&H).
  assert (idle s s7) as (F7&T7&_) by by do 6 (etrans; [done|]). clear I1 I3 I4 I5 I6 I7.
  assert (sq_Operation q = sq_Operation req) as Hop.
  { unfold cleanRequest in Hq. apply guard_then in Hq as [_ Hq]. destruct (String.eqb _ _); [by injection Hq as <-|].
    apply guard_then in Hq as [_ Hq]. by injection Hq as <-. }
  apply plan_content in Hp as ((A&_&T8&_)&Hm&Hobj); [|by rewrite Hop]. rewrite F7, T7 in *.
  apply bind_ok in H as (s9&?&H9&H). apply bind_ok in H as (s10&?&H10&H). injection H as <- <- <-.
  apply writeFileAtomic_run in H9 as (T9&_&[[_ [e He]]|[F9 _]]); [done|].
  apply writeFileAtomic_run in H10 as (T10&_&[[_ [e He]]|[F10 _]]); [done|].
  exists q. split_and!; try done; cbn; [congruence| |]; rewrite F10, F9; cbn; [by rewrite A|done].
Qed.

Lemma last_newest (l : list Operation) op :
  StronglySorted (earlier op_CreatedAt) l → op ∈ l →
  (∀ o, o ∈ l → o = op ∨ unixNano (op_CreatedAt o) < unixNano (op_CreatedAt op)) →
  ∃ rest, rev l = op :: rest.
Proof.
  induction l as [|x l _] using rev_ind; intros Hs Hin Hnew; [set_solver|]. rewrite rev_app_distr. cbn.
  destruct (Hnew x ltac:(set_solver)) as [->|Hx]; [eauto|]. apply elem_of_app in Hin as [Hin|Hin].
  - pose proof (StronglySorted_app_1_elem_of _ _ _ op x Hs Hin ltac:(set_solver)) as He. unfold earlier in He. lia.
  - apply list_elem_of_singleton in Hin as ->. eauto.
Qed.
Lemma storedOps_elem f o :
  o ∈ storedOps f ↔ ∃ k, of_operations f !! k = Some o ∧ HasSuffix k ".json" = true.
Proof.
  unfold storedOps. rewrite sortFunc_perm, list_elem_of_fmap. unfold recordsOf. split.
  - intros ([k o']&->&Hin%sort_by_elem_of%list_elem_of_In%filter_In). destruct Hin as [Hin%list_elem_of_In%elem_of_map_to_list Hk]. eauto.
  - intros (k&Ho&Hk). exists (k, o). split; [done|]. apply sort_by_elem_of, list_elem_of_In, filter_In.
    split; [by apply list_elem_of_In, elem_of_map_to_list|done].
Qed.
(** The newest operation decides what is seen. *)
Lemma latest_newest f f' op :
  of_operations f' = <[recordName (op_ID op) := op]> (of_operations f) →
  (∀ k o, of_operations f !! k = Some o → unixNano (op_CreatedAt o) < unixNano (op_CreatedAt op)) →
  touches (Clean (op_RequestedPath op)) op = true → latest f' (op_RequestedPath op) = Some op.
Proof.
  intros Hf Hnew Ht. unfold latest. destruct (last_newest (storedOps f') op) as [rest ->].
  - unfold storedOps. apply sortFunc_sorted.
  - apply storedOps_elem. exists (recordName (op_ID op)). rewrite Hf, lookup_insert_eq. split; [done|apply HasSuffix_app].
  - intros o (k&Ho&_)%storedOps_elem. rewrite Hf in Ho.
    apply lookup_insert_Some in Ho as [[_ <-]|[_ Ho]]; [by left|right; by eapply Hnew].
  - cbn. by rewrite Ht.
Qed.
Lemma cleanRequest_content req q :
  cleanRequest req = Ok q → sq_Operation q = sq_Operation req ∧ sq_Data q = sq_Data req.
Proof.
  unfold cleanRequest. intros [_ Hq]%guard_then. destruct (String.eqb _ _); [by injection Hq as <-|].
  apply guard_then in Hq as [_ Hq]. by injection Hq as <-.
Qed.
Lemma cleaned_path req q : cleanRequest req = Ok q → Clean (sq_Path q) = sq_Path q.
Proof.
  unfold cleanRequest. intros [Ha H]%guard_then. cbn in Ha.
  assert (sq_Path q = Clean (sq_Path req)) as ->; [|by apply Clean_Clean].
  destruct (String.eqb _ _); [by injection H as <-|]. apply guard_then in H as [_ H]. by injection H as <-.
Qed.

(** What a session sees where it just staged a content operation. *)
Lemma staged_view req s s1 op d :
  Stage K req s = (s1, Ok (op, d)) → isContentOp (sq_Operation req) = true →
  (∀ k o, of_operations (os_files s) !! k = Some o → unixNano (op_CreatedAt o) < unixNano (op_CreatedAt op)) →
  ∃ q, cleanRequest req = Ok q ∧ op_RequestedPath op = sq_Path q ∧
    viewNow (os_files s1) (sq_Path q) = let content := edited q (before (os_files s) (os_tree s) (sq_Path q)) in
      Ok (Some (mkOverlayView true false "file" (Z.of_nat (length content)) "-rw-r--r--" content)).
Proof.
  intros HS Hc Hnew. destruct (Stage_ok _ _ _ _ _ HS Hc) as (q&Hq&Hop&Hp&Hst&Hm&_&Ho&Hobj). exists q. split_and!; [done..|].
  assert (latest (os_files s1) (op_RequestedPath op) = Some op) as Hl.
  { eapply latest_newest; [done|done|]. unfold touches. rewrite Hst, Hp, (cleaned_path _ _ Hq), String.eqb_refl. done. }
  unfold viewNow. rewrite <-Hp, Hl, Hop, Hc, Hobj, Hm, Hp. done.
Qed.

(** C15: after a content operation was staged (create, replace, append or truncate), newer than
    the operations before it, the session that looks at the path sees a file with exactly the
    bytes the edit makes of what it saw before: written at the offset over a zero-filled gap,
    appended, or cut and zero-extended; only a failing read can say otherwise. *)
Theorem staged_write_reads_back req s s1 op d s2 v :
  Stage K req s = (s1, Ok (op, d)) → isContentOp (sq_Operation req) = true →
  (∀ k o, of_operations (os_files s) !! k = Some o → unixNano (op_CreatedAt o) < unixNano (op_CreatedAt op)) →
  View (op_RequestedPath op) s1 = (s2, v) →
  ∃ q, cleanRequest req = Ok q ∧ op_RequestedPath op = sq_Path q ∧
    let content := edited q (before (os_files s) (os_tree s) (sq_Path q)) in
    (v = Ok (Some (mkOverlayView true false "file" (Z.of_nat (length content)) "-rw-r--r--" content)) ∨ v = Err OvIO) ∧
    (before (os_files s1) (os_tree s1) (sq_Path q) = content).
Proof.
  intros HS Hc Hnew Hv. destruct (staged_view _ _ _ _ _ HS Hc Hnew) as (q&Hq&Hp&Hview). exists q. split_and!; [done..|].
  cbn zeta. split.
  - apply View_run in Hv as [_ Hv]. by rewrite Hp, Hview in Hv.
  - unfold before at 1, contentNow. by rewrite Hview.
Qed.
End stage.

(** ** The listing of a directory *)

(** The names an operation puts into a directory, the old ones as deleted: a rename
    puts its new name only into another directory than its old one. *)
Definition placed (dir : string) (op : Operation) (name : string) : Prop :=
  operationLive (op_Status op) = true ∧
  (Dir (op_RequestedPath op) = dir ∧ name = Base (op_RequestedPath op) ∨
   op_Operation op = "rename" ∧ Dir (op_RequestedPath op) ≠ dir ∧ Dir (op_DestinationPath op) = dir ∧
     name = Base (op_DestinationPath op)).
Definition accounted (dir : string) (ops : list Operation) (seen : gmap string OverlayEntry) : Prop :=
  ∀ name e, seen !! name = Some e → oe_Name e = name ∧ ∃ op, op ∈ ops ∧ placed dir op name.
Lemma entriesOfOperation_run dir op ops seen s s' seen' :
  op ∈ ops → entriesOfOperation dir op seen s = (s', Ok seen') → accounted dir ops seen → accounted dir ops seen'.
Proof.
  intros Hop. unfold entriesOfOperation. destruct (operationLive (op_Status op)) eqn:Hl; cbn [negb]; [|by intros [= _ <-]].
  intros (s1&[m gone]&H1&H)%bind_ok Hs.
  assert (∀ (n : string) e m, oe_Name e = n → placed dir op n → accounted dir ops m → accounted dir ops (<[n := e]> m)) as Hput.
  { intros n e m' Hn Hp Hm name e'. destruct (decide (n = name)) as [->|Hne];
      [rewrite lookup_insert_eq; intros [= <-]; eauto|rewrite lookup_insert_ne by done; apply Hm]. }
  assert (accounted dir ops m) as Hm.
  { destruct (String.eqb_spec (Dir (op_RequestedPath op)) dir) as [Hd|]; [|by injection H1 as _ <- _].
    apply bind_ok in H1 as (s2&v&_&H1). injection H1 as _ <- _. apply Hput; [by unfold entryOf; destruct (ov_Deleted v)|split; auto|done]. }
  destruct gone; [by injection H as _ <-|]. destruct (_ && _) eqn:Hr; [|by injection H as _ <-]. injection H as _ <-.
  apply andb_true_iff in Hr as [Hr%String.eqb_eq _]. destruct (String.eqb_spec (Dir (op_RequestedPath op)) dir) as [Hd|Hd].
  - apply bind_ok in H1 as (s2&v&Hv&H1). unfold viewFromOperation in Hv. rewrite Hr in Hv. cbn in Hv.
    rewrite String.eqb_refl in Hv. injection Hv as _ <-. by injection H1.
  - destruct (String.eqb_spec (Dir (op_DestinationPath op)) dir); [|done]. apply Hput; [done|split; auto|done].
Qed.
Lemma entriesOfOperations_run dir ops ops' seen s s' seen' :
  ops' ⊆ ops → entriesOfOperations dir ops' seen s = (s', Ok seen') → accounted dir ops seen → accounted dir ops seen'.
Proof.
  revert seen s. induction ops' as [|op ops' IH]; intros seen s Hsub; cbn [entriesOfOperations]; [by intros [= _ <-]|].
  intros (s1&m&H1&H)%bind_ok Hs. eapply IH; [set_solver|done|]. eapply entriesOfOperation_run; [|done..]. set_solver.
Qed.
Lemma Entries_placed `{TimeSort} dir s s' l x :
  Entries dir s = (s', Ok l) → x ∈ l → ∃ op, op ∈ storedOps (os_files s) ∧ placed (Clean dir) op (oe_Name x).
Proof.
  intros E Hx. unfold Entries in E. apply bind_ok in E as (s1&ops&Hops%operations_run&E). destruct Hops as [_ [[= ->]|]]; [|done].
  apply bind_ok in E as (s2&seen&Hseen&E). injection E as _ <-.
  apply sort_by_elem_of, list_elem_of_fmap in Hx as ([name e]&->&Hin). apply elem_of_map_to_list in Hin.
  apply (entriesOfOperations_run _ (storedOps (os_files s))) in Hseen; [|done|by intros ? ?; rewrite lookup_empty].
  destruct (Hseen name e Hin) as [<- Hop]. done.
Qed.

(** ** A sample host *)

Module OverlaySample.
(** No links; a clock that advances a second at a reading; calls that succeed. *)
Definition clock (n : nat) : Time := mkTime ((1000 + Z.of_nat n) * Second) 0.
Definition kernel : Kernel := mkKernel (λ _ p, p) (λ _ p, p) 18 501 20 clock (λ _, 0%nat).
Definition earlier_dec {A} (key : A → Time) (a b : A) : Decision (earlier key a b) := Z_le_dec _ _.
#[export] Instance mergeSort : TimeSort.
Proof.
  refine (Build_TimeSort (λ A key l, @merge_sort A (earlier key) (earlier_dec key) l) _ _).
  - intros A key l. apply merge_sort_Permutation.
  - intros A key l. apply StronglySorted_merge_sort.
    + intros x y z. unfold earlier. lia.
    + intros x y. unfold earlier. lia.
Defined.
Definition draws (n : nat) : option (list Z) := if (n <? 32)%nat then Some [Z.of_nat n] else None.
Lemma draws_distinct : distinctDraws draws.
Proof.
  assert (∀ i j, (i < 32)%nat → (j < 32)%nat → EncodeToString [Z.of_nat i] = EncodeToString [Z.of_nat j] → i = j) as H.
  { intros i j Hi Hj. do 32 (destruct i as [|i]; [do 32 (destruct j as [|j]; [by vm_compute|]); lia|]). lia. }
  intros i j ri rj. unfold draws. destruct (Nat.ltb_spec i 32), (Nat.ltb_spec j 32); try done. intros [= <-] [= <-]. by apply H.
Qed.
Definition dirNode : Node := mkNode (Z.lor ModeDir 493) [] "" 96 501 20 (clock 0).
Definition fileNode (data : list Z) : Node := mkNode 420 data "" 0 501 20 (clock 0).
Definition path : string := "/home/u/work/a".
Definition tree : Tree :=
  list_to_map [("/", dirNode); ("/home", dirNode); ("/home/u", dirNode); ("/home/u/work", dirNode);
               (path, fileNode [104; 105])].
Definition state : OverlayState := mkOverlayState emptyOverlay tree (mkOutside clock 0 (λ _, true) 0 draws 0).
Definition request (operation path dest : string) (data : list Z) (size : Z) (mode : string) : StageRequest :=
  mkStageRequest "ses_1" "p" "vm" operation path dest "grant" "profile" data 0 size mode "" "" noPrivilege.
Definition appending : StageRequest := request "append" path "" [33] 0 "".
Definition staged (req : StageRequest) (s : OverlayState) : OverlayState := (Stage kernel req s).1.
Definition operationOf (req : StageRequest) (s : OverlayState) : Operation :=
  match (Stage kernel req s).2 with Ok (op, _) => op | Err _ => noOperation end.
Definition decisionOf (req : StageRequest) (s : OverlayState) : WriteDecision :=
  match (Stage kernel req s).2 with Ok (_, d) => d | Err _ => noWriteDecision end.
Lemma staged_ok req s :
  is_ok (Stage kernel req s).2 = true → Stage kernel req s = (staged req s, Ok (operationOf req s, decisionOf req s)).
Proof. unfold staged, operationOf, decisionOf. by destruct (Stage kernel req s) as [s' [[op d]|e]]. Qed.
(** The operator claims what was staged. *)
Definition claimOn (req : StageRequest) (s : OverlayState) : WriteDecision :=
  (decisionOf req s) <| wd_State := WriteClaimed |>
    <| wd_Claim := Some (mkWriteClaim "tui" "local-operator" (clock 0) (clock 999) "" "hash") |>.
Definition claimed (req : StageRequest) (s : OverlayState) : OverlayState := (SaveDecision (claimOn req s) (staged req s)).1.
Lemma staged_consistent req s : distinctDraws (ou_rand (os_out s)) → ok s → ok (staged req s).
Proof. intros Hd Hs. by destruct (Stage_run kernel req s Hd Hs) as (_&_&?&_). Qed.
Lemma claimed_consistent req s :
  ok (staged req s) → of_decisions (os_files (staged req s)) !! recordName (wd_DecisionID (claimOn req s)) = Some (decisionOf req s) →
  ok (claimed req s).
Proof.
  intros Hs Hd.
  destruct (SaveDecision_evolve (λ _ _, True) (claimOn req s) (λ _ _, I) (staged req s)) as [_ [E O]].
  { by exists (decisionOf req s). }
  eapply consistent_outside; [exact O|]. by eapply consistent_evolve.
Qed.
End OverlaySample.

Import OverlaySample.
Lemma staged_write_reads_back_witness :
  before kernel (os_files (staged appending state)) tree path = [104; 105; 33].
Proof.
  destruct (staged_write_reads_back kernel appending state (staged appending state) (operationOf appending state)
    (decisionOf appending state) (View path (staged appending state)).1 (View path (staged appending state)).2)
    as (q&Hq&_&_&Hb).
  - apply staged_ok. vm_compute. reflexivity.
  - reflexivity.
  - intros k o H. cbn in H. rewrite lookup_empty in H. discriminate H.
  - vm_compute. reflexivity.
  - vm_compute in Hq. injection Hq as <-.
    transitivity (before kernel (os_files (staged appending state)) (os_tree (staged appending state)) path);
      [f_equal; vm_compute; reflexivity|]. vm_compute in Hb |- *. exact Hb.
Defined.
