(* ===== verification/OverlayApplySpec.v ===== *)
(** * Applying a claimed write

    What an application leaves on the host and in the records, that it happens
    at most once, and that it succeeds when the path is as it was and no call
    fails. *)
From Stdlib Require Import Ascii.
From S2P Require Import Prelude StateRules GoStrings GoTime GoHash GoPath HostTree Overlay OverlaySpec OverlayStageSpec.
Open Scope Z_scope.

(** ** The record of an application *)

Section record.
Context (K : Kernel).

Definition sameDecisions (s s' : OverlayState) : Prop := of_decisions (os_files s') = of_decisions (os_files s).
#[global] Instance sameDecisions_pre : PreOrder sameDecisions.
Proof. split; [done|]. intros s1 s2 s3 A B. unfold sameDecisions in *. congruence. Qed.
Lemma Cleanup_decisions op : preserves sameDecisions (CleanupArtifacts op).
Proof.
  assert (∀ A (m : OM A), preserves idle m → preserves sameDecisions m) as Hi
    by (intros A m; apply preserves_mono; intros s s' (F&_); unfold sameDecisions; by rewrite F).
  unfold CleanupArtifacts, removeObject, onFiles. keeps (apply Hi; eauto with idle). by apply preserves_modify.
Qed.
Lemma conclude_saved r op d e s s' a :
  conclude r op d e s = (s', Ok a) → ap_Error a = None →
  of_decisions (os_files s') !! recordName (wd_DecisionID d) = Some (d <| wd_Claim ::= fmap withoutToken |>).
Proof.
  unfold conclude. intros (s1&saved&Hs%attempt_ok&H)%bind_ok Ha. destruct saved as [u|e']; [|by injection H as _ <-].
  apply bind_ok in H as (s2&?&Hc&H). injection H as <- <-.
  assert (sameDecisions s1 s2) as Hsame by (eapply quiet_run; [|exact Hc]; apply preserves_ignore_err, Cleanup_decisions).
  rewrite Hsame. unfold saveApplyState in Hs. apply bind_ok in Hs as (s3&?&_&Hs).
  apply writeFileAtomic_run in Hs as (_&_&[[_ [? ?]]|[-> _]]); [done|]. cbn. by rewrite lookup_insert_eq.
Qed.
Lemma applyLoaded_saved d op s s' a :
  applyLoaded K d op s = (s', Ok a) → ap_Error a = None →
  ∃ d', of_decisions (os_files s') !! recordName (wd_DecisionID d) = Some d' ∧ wd_State d' = WriteApplied.
Proof.
  unfold applyLoaded. destruct (String.eqb (wd_State d) WriteClaimed); cbn [negb]; [|by intros [= _ <-]].
  intros (s1&reason&Hr&H)%bind_ok Ha. destruct reason as [reason|e]; [|by injection H as _ <-].
  destruct (String.eqb reason ""); cbn [negb settle] in H.
  - apply bind_ok in H as (s2&applied&_&H). destruct applied as [u|e]; cbn [settle] in H.
    + apply conclude_saved in H; [|done]. cbn in H. eauto.
    + apply conclude_ok in H as [_ [He|He]]; congruence.
  - apply conclude_ok in H as [_ [He|He]]; congruence.
Qed.

End record.

(** ** Runs that must succeed *)

Definition runs {A} (m : OM A) (s : OverlayState) (P : OverlayState → A → Prop) : Prop :=
  ∃ s' a, m s = (s', Ok a) ∧ P s' a.
Lemma runs_bind {A B} (m : OM A) (f : A → OM B) s P :
  runs m s (λ s' a, runs (f a) s' P) → runs (m ≫= f) s P.
Proof. intros (s1&a&Hm&s2&b&Hf&HP). exists s2, b. unfold mbind, SE_bind. by rewrite Hm. Qed.
Lemma runs_ret {A} (a : A) s P : P s a → runs (mret a) s P.
Proof. intros H. by exists s, a. Qed.
Lemma runs_mono {A} (m : OM A) s (P Q : OverlayState → A → Prop) :
  runs m s P → (∀ s' a, P s' a → Q s' a) → runs m s Q.
Proof. intros (s'&a&Hm&HP) H. exists s', a. auto. Qed.
Lemma runs_attempt {A} (m : OM A) s P : runs m s (λ s' a, P s' (Ok a)) → runs (attempt m) s P.
Proof. intros (s'&a&Hm&HP). exists s', (Ok a). unfold attempt. by rewrite Hm. Qed.

(** No call fails. *)
Definition calmly (s : OverlayState) : Prop := ∀ n, ou_io (os_out s) n = true.
Lemma calmly_outside s s' : sameOutside (os_out s) (os_out s') → calmly s → calmly s'.
Proof. intros (_&E&_) H n. rewrite E. apply H. Qed.
(** Calm, with the same files and tree. *)
Definition like (s s' : OverlayState) : Prop := calmly s' ∧ os_files s' = os_files s ∧ os_tree s' = os_tree s.
Lemma like_trans s1 s2 s3 : like s1 s2 → like s2 s3 → like s1 s3.
Proof. intros (_&A&B) (C&D&E). split_and!; [done|congruence..]. Qed.
Lemma idle_like s s' : calmly s → idle s s' → like s s'.
Proof. intros H (F&T&O). split_and!; [by eapply calmly_outside|done|done]. Qed.

Lemma oio_runs s : calmly s → runs oio s (λ s' _, like s s').
Proof.
  intros H. exists (oio s).1, tt. unfold oio. rewrite H. split; [done|]. by split_and!.
Qed.
Lemma onow_runs s : calmly s → runs onow s (λ s' _, like s s').
Proof. intros H. eexists _, _. split; [done|]. by split_and!. Qed.
Lemma osRead_runs {A} (f : Tree → OR A) s a : calmly s → f (os_tree s) = Ok a → runs (osRead f) s (λ s' b, like s s' ∧ b = a).
Proof.
  intros H Hf. unfold osRead. apply runs_bind. eapply runs_mono; [by apply oio_runs|]. intros s1 ? L. apply runs_bind.
  exists s1, s1. split; [done|]. destruct L as (?&?&T). rewrite T, Hf. by apply runs_ret.
Qed.
Lemma osWrite_runs f s t : calmly s → f (ou_ios (os_out s)) (os_tree s) = Ok t →
  runs (osWrite f) s (λ s' _, calmly s' ∧ os_files s' = os_files s ∧ os_tree s' = t).
Proof.
  intros H Hf. exists (osWrite f s).1, tt. unfold osWrite, mbind, SE_bind, get_state, oio. rewrite H, Hf. cbn.
  split; [done|]. by split_and!.
Qed.
Lemma ensure_runs s : calmly s → runs ensure s (λ s' _, like s s').
Proof.
  intros H. unfold ensure. apply runs_bind. eapply runs_mono; [by apply oio_runs|]. intros s1 ? (C1&F1&T1).
  apply runs_bind. eapply runs_mono; [by apply oio_runs|]. intros s2 ? (C2&F2&T2).
  apply runs_bind. eapply runs_mono; [by apply oio_runs|]. intros s3 ? (C3&F3&T3).
  eapply runs_mono; [by apply oio_runs|]. intros s4 ? (C4&F4&T4). split_and!; [done|congruence..].
Qed.
Lemma getDecision_runs id s d :
  calmly s → TrimSpace id ≠ "" → of_decisions (os_files s) !! recordName id = Some d →
  runs (getDecision id) s (λ s' x, like s s' ∧ x = d).
Proof.
  intros H Hid Hd. unfold getDecision. rewrite (proj2 (String.eqb_neq _ _) Hid). apply runs_bind, runs_ret, runs_bind.
  eapply runs_mono; [by apply oio_runs|]. intros s1 ? L. apply runs_bind. exists s1, s1. split; [done|].
  destruct L as (?&F&?). rewrite F, Hd. by apply runs_ret.
Qed.
Lemma getOperation_runs id s op :
  calmly s → TrimSpace id ≠ "" → of_operations (os_files s) !! recordName id = Some op →
  runs (getOperation id) s (λ s' x, like s s' ∧ x = op).
Proof.
  intros H Hid Hd. unfold getOperation. rewrite (proj2 (String.eqb_neq _ _) Hid). apply runs_bind, runs_ret, runs_bind.
  eapply runs_mono; [by apply oio_runs|]. intros s1 ? L. apply runs_bind. exists s1, s1. split; [done|].
  destruct L as (?&F&?). rewrite F, Hd. by apply runs_ret.
Qed.
Lemma readObject_runs id s data :
  calmly s → of_objects (os_files s) !! objectName id = Some data → runs (readObject id) s (λ s' x, like s s' ∧ x = data).
Proof.
  intros H Hd. unfold readObject. apply runs_bind. eapply runs_mono; [by apply oio_runs|]. intros s1 ? L.
  apply runs_bind. exists s1, s1. split; [done|]. destruct L as (?&F&?). rewrite F, Hd. by apply runs_ret.
Qed.
Lemma writeFileAtomic_runs f s :
  calmly s → runs (writeFileAtomic f) s (λ s' _, calmly s' ∧ os_files s' = f (os_files s) ∧ os_tree s' = os_tree s).
Proof.
  intros H. unfold writeFileAtomic. apply runs_bind. eapply runs_mono; [by apply oio_runs|]. intros s1 ? (C1&F1&T1).
  apply runs_bind. eapply runs_mono; [by apply oio_runs|]. intros s2 ? (C2&F2&T2).
  apply runs_bind. eapply runs_mono; [by apply oio_runs|]. intros s3 ? (C3&F3&T3).
  eexists _, _. split; [done|]. split_and!; [done| |]; cbn; congruence.
Qed.

(** ** Temporary names *)

Lemma digits_noSlash x s : noSlash s = true → noSlash (pretty_N_go x s) = true.
Proof.
  revert s. induction (N.lt_wf_0 x) as [x _ IH]. intros s Hs. destruct (decide (x = 0)%N) as [->|Hx]; [done|].
  rewrite pretty_N_go_step by lia. apply IH; [apply N.div_lt; lia|]. unfold noSlash in *. cbn. rewrite Hs, andb_true_r.
  unfold pretty_N_char. by repeat case_match.
Qed.
Lemma pretty_noSlash (x : N) : noSlash (pretty x) = true.
Proof. unfold pretty, pretty_N. destruct (decide _); [done|]. by apply digits_noSlash. Qed.
Definition tempBase (x : string) (n : Z) : string := ".hideout-" +:+ x +:+ "." +:+ pretty (Z.to_N n) +:+ ".tmp".
Lemma tempBase_name x n : isName x → isName (tempBase x n).
Proof.
  intros (Hx&_). unfold tempBase. split_and!; [|done..]. unfold noSlash in *. rewrite !str_forall_app, Hx.
  pose proof (pretty_noSlash (Z.to_N n)) as Hp. unfold noSlash in Hp. by rewrite Hp.
Qed.
Lemma tempName_path l x n :
  l ≠ [] → Forall isName l → isName x → tempName (absPath (l ++ [x])) n = absPath (l ++ [tempBase x n]).
Proof.
  intros Hl Fl Hx. unfold tempName. rewrite Dir_absPath, Base_absPath by done.
  change (".hideout-" +:+ x +:+ "." +:+ pretty (Z.to_N n) +:+ ".tmp") with (JoinSlash [tempBase x n]).
  apply Join_absPath; [done|done|done|]. constructor; [by apply tempBase_name|done].
Qed.
Lemma not_below l x y :
  l ≠ [] → Forall isName l → isName x → isName y → below (absPath (l ++ [x])) (absPath (l ++ [y])) = false.
Proof.
  intros Hl Fl Hx Hy. unfold below. destruct (HasPrefix _ _) eqn:E; [|done].
  assert (absPath (l ++ [x]) ≠ "/") as Hne by (destruct l as [|a l]; [done|]; intros [= E']; by destruct a, l).
  rewrite (proj2 (String.eqb_neq _ _) Hne) in E. apply HasPrefix_Some in E.
  rewrite str_app_assoc in E. apply absPath_prefix in E as (r&Er&Hr&_); try (by destruct l); try (apply Forall_app; auto).
  rewrite <-(assoc_L (++)) in Er. apply (f_equal length) in Er. rewrite !length_app in Er. destruct r; [done|cbn in Er; lia].
Qed.

(** ** Progress *)

Section progress.
(** No symbolic links on the way. *)
Context (K : Kernel) (noLinks : ∀ links p, k_parents K links p = p ∧ k_follow K links p = p).
Context (l : list string) (x : string) (nonempty : l ≠ []) (names : Forall isName l) (name : isName x).
Let dir := absPath l.
Let path := absPath (l ++ [x]).
Local Abbreviation tmp n := (absPath (l ++ [tempBase x n])).

Lemma place_id t p : place K t p = p.
Proof. apply noLinks. Qed.
Lemma dir_of y : isName y → Dir (absPath (l ++ [y])) = dir.
Proof. apply Dir_absPath; done. Qed.

(** A regular file where it was, in a directory, with no temporary file beside it. *)
Record ready (op : Operation) (n : Node) (t : Tree) : Prop := mkReady {
  rd_path : op_RequestedPath op = path;
  rd_node : t !! path = Some n;
  rd_regular : isRegularMode (nd_mode n) = true;
  rd_kind : isSymlinkMode (nd_mode n) = false ∧ isDirMode (nd_mode n) = false;
  rd_dir : isDirAt t dir = true;
  rd_free : ∀ i, t !! tmp i = None;
  rd_base : sn_Exists (op_BaseSnapshot op) = true ∧ sn_Kind (op_BaseSnapshot op) = "file" ∧
    sn_Size (op_BaseSnapshot op) = Z.of_nat (length (nd_data n)) ∧
    sn_ContentHash (op_BaseSnapshot op) = hashText (nd_data n) }.

Lemma conflict_runs op n s :
  calmly s → ready op n (os_tree s) → op_Operation op ≠ "rename" →
  runs (applyConflictReason K op) s (λ s' r, like s s' ∧ r = "").
Proof.
  intros Hc [Hp Hn Hr [Hsym Hdir] _ _ (B1&B2&B3&B4)] Hop. unfold applyConflictReason. rewrite Hp.
  apply runs_bind. eapply runs_mono with (P := λ s' r, like s s' ∧ sameBaseSnapshot (op_BaseSnapshot op) r.1 = true).
  - unfold snapshotPath. apply runs_bind, runs_attempt. eapply runs_mono.
    { apply (osRead_runs _ s n); [done|]. unfold lstat. by rewrite place_id, Hn. }
    intros s1 a [L1 ->]. rewrite Hr, Hsym. destruct L1 as (C1&F1&T1). apply runs_bind, runs_attempt.
    unfold hashFile. apply runs_bind. eapply runs_mono.
    { apply (osRead_runs _ s1 (nd_data n)); [done|]. unfold readFile, behind. destruct (noLinks (linksOf (os_tree s1)) path) as [_ ->].
      rewrite T1, Hn, Hdir. done. }
    intros s2 a [(C2&F2&T2) ->]. apply runs_ret, runs_bind, runs_ret, runs_ret. split; [split_and!; [done|congruence..]|].
    cbn. unfold sameBaseSnapshot, fileKind, nodeSize. cbn. rewrite B1, B2, B3, B4, Hsym, Hdir, Hr. cbn.
    by rewrite Z.eqb_refl, String.eqb_refl.
  - intros s1 [cur m] [L E]. cbn in E. rewrite E. cbn. rewrite (proj2 (String.eqb_neq _ _) Hop). by apply runs_ret.
Qed.
Lemma createTemp_runs fuel s :
  calmly s → isDirAt (os_tree s) dir = true → (∀ i, os_tree s !! tmp i = None) →
  runs (createTemp K (S fuel) path) s (λ s' p, calmly s' ∧ os_files s' = os_files s ∧ ∃ i node, p = tmp i ∧
    os_tree s' = <[tmp i := node]> (os_tree s) ∧ isDirMode (nd_mode node) = false).
Proof.
  intros Hc Hd Hfree. cbn [createTemp]. apply runs_bind. unfold nextRandom. apply runs_bind.
  destruct (orand s) as [s1 r] eqn:Er. exists s1, r. unfold attempt. rewrite Er. split; [done|].
  apply (quiet_run idle) in Er as (F&T&O); [|eauto with idle]. apply runs_ret, runs_bind.
  exists s1, s1. split; [done|]. cbn zeta.
  match goal with |- context [tempName _ ?n] => generalize n as i end. intros i. unfold path. rewrite tempName_path by done. rewrite place_id, T, Hfree.
  apply runs_bind. eapply runs_mono.
  { apply (osWrite_runs _ s1 (<[tmp i := newNode K (ou_ios (os_out s1)) 384 []]> (os_tree s)));
      [by eapply calmly_outside|]. unfold create. rewrite place_id, T, Hfree. unfold parentDir.
    rewrite dir_of by by apply tempBase_name. unfold isDirAt in Hd. destruct (os_tree s !! dir); [|done]. by rewrite Hd. }
  intros s2 ? (C2&F2&T2). apply runs_ret. split_and!; [done|congruence|]. exists i. eexists. split_and!; [done|done|].
  unfold isDirMode, newNode. cbn [nd_mode]. by rewrite Z.land_spec.
Qed.
Lemma orAbandon_runs p b (m : OM ()) s P : runs m s P → runs (orAbandon K p b m) s P.
Proof.
  intros (s'&u&Hm&HP). unfold orAbandon. apply runs_bind. exists s', (Ok u). unfold attempt. rewrite Hm.
  split; [done|]. destruct u. by apply runs_ret.
Qed.
(** The temporary file of a tree [t0], with some node. *)
Definition withTemp (t0 : Tree) (i : Z) (s : OverlayState) : Prop :=
  ∃ node, os_tree s = <[tmp i := node]> t0 ∧ isDirMode (nd_mode node) = false.
Lemma prepareTemp_runs t0 i data mode s :
  calmly s → withTemp t0 i s →
  runs (prepareTemp K (tmp i) data mode) s (λ s' _, calmly s' ∧ os_files s' = os_files s ∧ withTemp t0 i s').
Proof.
  intros Hc (node&Ht&Hnd). unfold prepareTemp.
  apply runs_bind, orAbandon_runs. unfold writeTemp. apply runs_bind. exists s, s. split; [done|].
  apply runs_bind, runs_attempt. eapply runs_mono; [by apply oio_runs|]. intros s1 ? (C1&F1&T1).
  apply runs_bind. eexists _, _. split; [done|]. eexists _, _. split; [done|].
  match goal with |- context [fchmod K mode (tmp i)] => set (s2 := s1 <| os_tree ::= _ |>) end.
  assert (os_tree s2 = <[tmp i := node <| nd_data := data |>]> t0) as T2.
  { unfold s2. cbn. rewrite place_id, T1, Ht. rewrite alter_insert_eq. done. }
  apply runs_bind, orAbandon_runs. eapply runs_mono.
  { apply (osWrite_runs _ s2 (<[tmp i := node <| nd_data := data |> <| nd_mode ::= setMode mode |>]> t0)); [done|].
    unfold fchmod. rewrite place_id, T2, lookup_insert_eq. cbn. by rewrite insert_insert_eq. }
  intros s3 ? (C3&F3&T3). apply runs_bind, orAbandon_runs. eapply runs_mono; [by apply oio_runs|]. intros s4 ? (C4&F4&T4).
  apply orAbandon_runs. eapply runs_mono; [by apply oio_runs|]. intros s5 ? (C5&F5&T5).
  split_and!; [done|rewrite F5, F4, F3; exact F1|]. eexists. split; [by rewrite T5, T4, T3|]. cbn. by rewrite setMode_dir.
Qed.
Lemma rename_runs t0 i n s :
  calmly s → withTemp t0 i s → t0 !! path = Some n → isDirMode (nd_mode n) = false → isDirAt t0 dir = true →
  (∀ j, t0 !! tmp j = None) →
  runs (osWrite (λ _, rename K (tmp i) path)) s (λ s' _, calmly s' ∧ os_files s' = os_files s).
Proof.
  intros Hc (node&Ht&Hnd) Hn Hnn Hdir Hfree.
  assert (tmp i ≠ path) as H1 by (intros E; rewrite <-E, Hfree in Hn; done).
  assert (tmp i ≠ dir) as H2 by (intros E; unfold isDirAt in Hdir; rewrite <-E, Hfree in Hdir; done).
  assert (isName (tempBase x i)) as Hname by by apply tempBase_name.
  assert (∃ t', rename K (tmp i) path (os_tree s) = Ok t') as [t' Hr].
  { unfold rename. rewrite !place_id, Ht, lookup_insert_eq. unfold isDirAt.
    rewrite lookup_insert_ne, Hn, Hnn by done.
    assert (below (tmp i) path = false) as -> by by apply not_below.
    assert (tmp i ≠ "/") as Hroot by (destruct l as [|a l']; [done|]; intros [= E']; by destruct a, l').
    rewrite (proj2 (String.eqb_neq _ _) Hroot), Hnd. cbn. unfold parentDir.
    assert (Dir path = dir) as -> by by apply dir_of. rewrite lookup_insert_ne by done. unfold isDirAt in Hdir. destruct (t0 !! dir); [|done]. rewrite Hdir. cbn. eauto. }
  eapply runs_mono; [by apply (osWrite_runs _ s t')|]. intros s' ? (?&?&?). done.
Qed.
Lemma applyOperation_runs op n data m s :
  calmly s → ready op n (os_tree s) → op_Operation op ∈ ["replace"; "append"; "truncate"] →
  of_objects (os_files s) !! objectName (op_ContentObject op) = Some data →
  (∀ s, parseFileModeOrDefault (op_RequestedMode op) 420 s = (s, Ok m)) →
  runs (applyOperation K op) s (λ s' _, calmly s' ∧ os_files s' = os_files s).
Proof.
  intros Hc [Hp Hn _ [_ Hdn] Hdir Hfree _] Hop Hobj Hm.
  assert (applyOperation K op = applyFileObject K path (op_ContentObject op) (op_RequestedMode op) false) as ->.
  { unfold applyOperation. rewrite Hp. by repeat (apply elem_of_cons in Hop as [->|Hop]; [done|]); apply elem_of_nil in Hop. }
  unfold applyFileObject. apply runs_bind. eapply runs_mono; [by apply readObject_runs|]. intros s1 ? [(C1&F1&T1) ->].
  apply runs_bind. exists s1, m. split; [apply Hm|]. apply runs_bind. change (Z.to_nat 10000) with (S (Z.to_nat 9999)).
  eapply runs_mono; [apply createTemp_runs; [done|by rewrite T1..]|].
  intros s2 p (C2&F2&i&node&->&T2&Hnode). rewrite T1 in T2. apply runs_bind. eapply runs_mono.
  { apply (prepareTemp_runs (os_tree s) i); [done|]. by exists node. }
  intros s3 ? (C3&F3&W3). apply orAbandon_runs. eapply runs_mono; [by apply (rename_runs (os_tree s) i n)|].
  intros s4 ? [C4 F4]. split; [done|congruence].
Qed.
Lemma conclude_runs r op d e s : calmly s → runs (conclude r op d e) s (λ _ a, ap_Error a = e ∧ ap_Result a = r).
Proof.
  intros Hc. unfold conclude. apply runs_bind, runs_attempt. unfold saveApplyState.
  apply runs_bind. eapply runs_mono; [by apply writeFileAtomic_runs|]. intros s1 ? (C1&_).
  eapply runs_mono; [by apply writeFileAtomic_runs|]. intros s2 ? _.
  apply runs_bind. eexists _, _. split; [done|]. by apply runs_ret.
Qed.

(** C23: An approved edit goes through.  Suppose that no call fails and no symbolic link is on the
    way; that the path is in a directory other than the root, with no temporary file of the store
    beside it; that it is a regular file with the size and the content recorded when the edit was
    staged; that the decision is claimed and its operation and staged object are stored; and that
    the requested mode is empty or an octal number.  Then a replace, an append or a truncate is
    applied without an error, and the path holds a regular file with exactly the staged bytes. *)
Theorem approved_edit_completes id d op n data m s :
  calmly s → ready op n (os_tree s) → op_Operation op ∈ ["replace"; "append"; "truncate"] →
  TrimSpace id ≠ "" → of_decisions (os_files s) !! recordName id = Some d → wd_State d = WriteClaimed →
  TrimSpace (wd_OperationID d) ≠ "" → of_operations (os_files s) !! recordName (wd_OperationID d) = Some op →
  of_objects (os_files s) !! objectName (op_ContentObject op) = Some data →
  (∀ s, parseFileModeOrDefault (op_RequestedMode op) 420 s = (s, Ok m)) →
  ∃ s' a node, Apply K id s = (s', Ok a) ∧ ap_Error a = None ∧ ar_Status (ap_Result a) = WriteApplied ∧
    os_tree s' !! path = Some node ∧ fileWith data node.
Proof.
  intros Hc Hr Hop Hid Hd Hst Hoid Ho Hobj Hm.
  assert (runs (Apply K id) s (λ _ a, ap_Error a = None ∧ ar_Status (ap_Result a) = WriteApplied)) as (s'&a&E&He&Hs).
  { unfold Apply. apply runs_bind, runs_attempt. unfold loadApply. apply runs_bind. eapply runs_mono; [by apply ensure_runs|].
    intros s1 ? (C1&F1&T1). apply runs_bind. eapply runs_mono; [apply (getDecision_runs _ _ d); [done..|by rewrite F1]|].
    intros s2 ? [(C2&F2&T2) ->]. apply runs_bind. eapply runs_mono; [apply (getOperation_runs _ _ op); [done..|by rewrite F2, F1]|].
    intros s3 ? [(C3&F3&T3) ->]. apply runs_ret. unfold applyLoaded. rewrite Hst. cbn [negb String.eqb]. rewrite String.eqb_refl. cbn [negb].
    apply runs_bind, runs_attempt. eapply runs_mono.
    { apply (conflict_runs op n); [done|by rewrite T3, T2, T1|]. intros E. rewrite E in Hop. set_solver. }
    intros s4 ? [(C4&F4&T4) ->]. cbn [negb String.eqb]. apply runs_bind, runs_attempt. eapply runs_mono.
    { apply (applyOperation_runs op n data m); [done|by rewrite T4, T3, T2, T1|done|by rewrite F4, F3, F2, F1|done]. }
    intros s5 ? [C5 _]. cbn [settle]. eapply runs_mono; [by apply conclude_runs|]. intros s6 r [-> ->]. done. }
  pose proof E as (a'&[= <-]&[[_ ?]|(d'&op'&(Hd'&_&Ho'&_)&Heff)])%Apply_run; [done|].
  rewrite Hd in Hd'. injection Hd' as <-. rewrite Ho in Ho'. injection Ho' as <-. specialize (Heff He). unfold effect in Heff.
  assert (isContentOp (op_Operation op) = true) as Hcont.
  { by repeat (apply elem_of_cons in Hop as [->|Hop]; [done|]); apply elem_of_nil in Hop. }
  rewrite Hcont, place_id, (rd_path _ _ _ Hr), Hobj in Heff. destruct Heff as (data'&node&[= <-]&Hn&Hf).
  by exists s', a, node.
Qed.
End progress.

Import OverlaySample.
Lemma sample_ok : ok (claimed appending state).
Proof.
  apply claimed_consistent; [|vm_compute; reflexivity].
  apply staged_consistent; [exact draws_distinct|apply consistent_empty].
Qed.
Lemma approved_edit_completes_witness :
  ∃ s' a node, Apply kernel (wd_DecisionID (claimOn appending state)) (claimed appending state) = (s', Ok a) ∧
    os_tree s' !! path = Some node ∧ nd_data node = [104; 105; 33].
Proof.
  destruct (approved_edit_completes kernel (λ _ p, conj eq_refl eq_refl) ["home"; "u"; "work"] "a" ltac:(discriminate)
    ltac:(repeat constructor; discriminate) ltac:(repeat constructor; discriminate)
    (wd_DecisionID (claimOn appending state)) ((claimOn appending state) <| wd_UpdatedAt := clock 2 |>)
    (operationOf appending state) (fileNode [104; 105]) [104; 105; 33] 420 (claimed appending state))
    as (s'&a&node&E&_&_&Hn&Hf&_).
  - intros n. vm_compute. reflexivity.
  - split; try (vm_compute; reflexivity).
    + split; vm_compute; reflexivity.
    + split_and!; vm_compute; reflexivity.
  - vm_compute. set_solver.
  - vm_compute. discriminate.
  - vm_compute. reflexivity.
  - reflexivity.
  - vm_compute. discriminate.
  - vm_compute. reflexivity.
  - vm_compute. reflexivity.
  - intros s. reflexivity.
  - exists s', a, node. split; [exact E|]. split; [exact Hn|exact Hf].
Defined.
