(* ===== verification/OverlayFindings.v ===== *)
(** * Where staged writes lose what the session sees

    What a staged change of mode hides from the edits after it, and what a staged
    rename hides from the listing of its directory; the lemmas after them are runs
    on the sample host, where no call fails. *)
From S2P Require Import Prelude StateRules GoStrings GoTime GoHash GoPath HostTree Overlay OverlaySpec OverlayStageSpec.
Import OverlaySample.
Open Scope Z_scope.

(** The operations that leave or bring a file on a path and record no content of it. *)
Definition contentless (path : string) (op : Operation) : Prop :=
  op_Operation op = "chmod" ∨ op_Operation op = "chown" ∨ (op_Operation op = "rename" ∧ op_DestinationPath op = path).
Lemma before_contentless `{TimeSort} K f t path op :
  latest f path = Some op → contentless path op → before K f t path = [].
Proof.
  intros Hl Ho. unfold before, contentNow, viewNow. rewrite Hl. unfold viewFromOperation.
  destruct Ho as [-> |[-> |[-> _]]]; [done..|]. cbn. by destruct (String.eqb _ _).
Qed.

(** C35: A staged change of mode or owner, or a staged rename to a path, hides the content of the
    file from what is staged there after it: when the newest live operation on the path is one of
    these, the object that an append, a truncate or a replace stages there is the edit of an empty
    file, whatever the host's file or earlier staged writes hold (an append stages the appended
    bytes alone). *)
Theorem staged_chmod_loses_content `{TimeSort} K req q s s' op d prior :
  Stage K req s = (s', Ok (op, d)) → isContentOp (sq_Operation req) = true → cleanRequest req = Ok q →
  latest (os_files s) (sq_Path q) = Some prior → contentless (sq_Path q) prior →
  of_objects (os_files s') !! objectName (op_ContentObject op) = Some (edited q []) ∧
  (sq_Operation req = "append" → of_objects (os_files s') !! objectName (op_ContentObject op) = Some (sq_Data req)).
Proof.
  intros HS Hc Hq Hl Hm. destruct (Stage_ok K req s s' op d HS Hc) as (q'&Hq'&_&_&_&_&_&_&Ho).
  rewrite Hq in Hq'. injection Hq' as <-. rewrite (before_contentless K _ _ _ _ Hl Hm) in Ho. split; [done|].
  intros Ha. rewrite Ho. unfold edited. cbn zeta. destruct (cleanRequest_content _ _ Hq) as [-> ->]. by rewrite Ha.
Qed.

(** C36: After a staged rename within one directory the session sees the new name when it looks at
    the path (but for a failing read), and the listing of the directory has no entry of that name
    unless another stored operation puts one there. *)
Theorem staged_rename_unlisted `{TimeSort} s op dir :
  latest (os_files s) (op_DestinationPath op) = Some op → op_Operation op = "rename" →
  Dir (op_RequestedPath op) = Clean dir → Dir (op_DestinationPath op) = Clean dir →
  Base (op_RequestedPath op) ≠ Base (op_DestinationPath op) →
  (∀ s' v, View (op_DestinationPath op) s = (s', v) →
     v = Err OvIO ∨ v = Ok (Some (snapshotView (op_NewSnapshot op)))) ∧
  (∀ s' l e, Entries dir s = (s', Ok l) → e ∈ l → oe_Name e = Base (op_DestinationPath op) →
     ∃ other, other ∈ storedOps (os_files s) ∧ other ≠ op ∧ placed (Clean dir) other (oe_Name e)).
Proof.
  intros Hl Ho Hd1 Hd2 Hb. split.
  - intros s' v [_ [->|Hv]]%View_run; [right|by left]. unfold viewNow. rewrite Hl, Ho. cbn.
    unfold viewFromOperation. rewrite Ho. cbn. destruct (String.eqb_spec (op_DestinationPath op) (op_RequestedPath op)); [congruence|done].
  - intros s' l e HE He Hn. destruct (Entries_placed dir s s' l e HE He) as (other&Hin&Hp).
    exists other. split_and!; [done| |done]. intros ->. destruct Hp as [_ [[_ Hp]|(_&Hp&_)]]; congruence.
Qed.

(** ** On the sample host *)

(** The file's mode is changed, then a byte appended, both only staged. *)
Definition remoding : StageRequest := request "chmod" path "" [] 0 "600".
Definition remoded : OverlayState := staged remoding state.
(** The operator claims and applies the second. *)
Definition applied : OverlayState * result OverlayError Applied :=
  Apply kernel (wd_DecisionID (claimOn appending remoded)) (claimed appending remoded).

Definition contentAt (t : Tree) (p : string) : option (list Z) := nd_data <$> t !! p.
Definition errorOf (r : result OverlayError Applied) : option OverlayError :=
  match r with Ok a => ap_Error a | Err e => Some e end.

Lemma staged_chmod_loses_content_witness :
  let object := objectName (op_ContentObject (operationOf appending remoded)) in
  contentAt (os_tree state) path = Some [104; 105] ∧
  of_objects (os_files (staged appending remoded)) !! object = Some [33].
Proof.
  split; [vm_compute; reflexivity|].
  apply (staged_chmod_loses_content kernel appending appending remoded (staged appending remoded)
    (operationOf appending remoded) (decisionOf appending remoded) (operationOf remoding state)).
  - apply staged_ok. vm_compute. reflexivity.
  - reflexivity.
  - vm_compute. reflexivity.
  - vm_compute. reflexivity.
  - left. vm_compute. reflexivity.
  - reflexivity.
Defined.
(** The approval finds the host's file unchanged, reports success and replaces the two bytes. *)
Lemma remoded_file_overwritten :
  errorOf applied.2 = None ∧ contentAt (os_tree applied.1) path = Some [33].
Proof. split; vm_compute; reflexivity. Qed.

(** A file renamed within its directory. *)
Definition moving : StageRequest := request "rename" path "/home/u/work/b" [] 0 "".
Definition moved : OverlayState := staged moving state.
Definition listed (s : OverlayState) : list (string * bool) :=
  match (Entries "/home/u/work" s).2 with Ok l => (λ e, (oe_Name e, oe_Deleted e)) <$> l | Err _ => [] end.

Lemma staged_rename_unlisted_witness :
  (∃ v, (View "/home/u/work/b" moved).2 = Ok (Some v) ∧ ov_Exists v = true) ∧ listed moved = [("a", true)].
Proof.
  split; [|vm_compute; reflexivity].
  destruct (staged_rename_unlisted moved (operationOf moving state) "/home/u/work") as [Hv _].
  - vm_compute. reflexivity.
  - vm_compute. reflexivity.
  - vm_compute. reflexivity.
  - vm_compute. reflexivity.
  - vm_compute. discriminate.
  - destruct (View "/home/u/work/b" moved) as [s' v] eqn:E. exists (snapshotView (op_NewSnapshot (operationOf moving state))).
    split; [|reflexivity]. destruct (Hv s' v) as [->|Hs]; [vm_compute in E |- *; exact E|vm_compute in E; discriminate E|exact Hs].
Defined.

(** Requests with a size and an offset of 2^62: the size of a staged truncate and the
    offset of a staged replace come from the guest and are only checked to be
    non-negative; beyond what the runtime can allocate, staging panics. *)
Definition growing : StageRequest := request "truncate" path "" [] 4611686018427387904 "".
Definition seeking : StageRequest := (request "replace" path "" [33] 0 "") <| sq_Offset := 4611686018427387904 |>.
Lemma staged_size_panics :
  (Stage kernel growing state).2 = Err OvPanic ∧ (Stage kernel seeking state).2 = Err OvPanic.
Proof. split; vm_compute; reflexivity. Qed.
