(* ===== verification/HostFSService.v ===== *)
(** * The HostFS service (src/internal/hostfs/service.go)

    The operations a guest reaches: stat, read, list, staged write, and the
    hand-over of a file or a tree to a host application.  The host's file system
    is the record [FileSystem], read within one operation as one snapshot; the
    answers of the overlay, the read authority and the validator of host
    applications are records of the operations the service calls. *)
From Stdlib Require Import Ascii.
From S2P Require Import Prelude GoStrings GoTime GoRunes GoPath GoGlob HostTree Overlay HostFS.
Open Scope Z_scope.

(** ** The host's files *)

Inductive FileKind := KindRegular | KindDir | KindSymlink | KindOther.
(** [fi_Identity] is what [os.SameFile] compares. *)
Record FileInfo := mkFileInfo {
  fi_Kind : FileKind; fi_Size : Z; fi_Mode : string; fi_ModTime : Time; fi_Identity : Z }.
Record FileSystem := mkFileSystem {
  fs_Host : Host;
  fs_Stat : string → result FsError FileInfo;
  fs_Lstat : string → result FsError FileInfo;
  fs_ReadDir : string → result FsError (list string);
  fs_ReadAt : string → Z → Z → result FsError (list Z * bool) }.

Definition isRegular (i : FileInfo) : bool := match fi_Kind i with KindRegular => true | _ => false end.
Definition isDir (i : FileInfo) : bool := match fi_Kind i with KindDir => true | _ => false end.
Definition isSymlink (i : FileInfo) : bool := match fi_Kind i with KindSymlink => true | _ => false end.
Definition nodeKind (i : FileInfo) : string :=
  match fi_Kind i with
  | KindSymlink => "symlink" | KindDir => "dir" | KindRegular => "file" | KindOther => "other"
  end.

(** ** Results and errors *)

Record NodeInfo := mkNodeInfo {
  ni_Kind : string; ni_Size : Z; ni_Mode : string; ni_ModTime : Time; ni_Locked : bool;
  ni_Caps : list string; ni_Coarse : bool }.
Record ReadResult := mkReadResult { rr_Info : NodeInfo; rr_Data : list Z; rr_Bytes : Z; rr_EOF : bool }.
Record DirEntry := mkDirEntry {
  de_Name : string; de_Kind : string; de_Size : Z; de_Mode : string; de_Locked : bool;
  de_Caps : list string; de_Coarse : bool }.

Inductive ErrorKind :=
  | ErrNotFound | ErrUnsupported | ErrReadApprovalRequired | ErrReadDenied | ErrDirectoryNotEnumerable
  | ErrDirectoryIncomplete | ErrWriteUnauthorized | ErrHostPrerequisite
  | ErrHostAppResourceUnauthorized | ErrHostAppResourceOwner | ErrHostAppResourceChanged
  | ErrOffset | ErrSize | ErrOverlay | ErrLifecycle.
#[global] Instance ErrorKind_eq_dec : EqDecision ErrorKind.
Proof. solve_decision. Defined.
(** An error, and for an [AccessError] the paths and the visibility it carries. *)
Record ServiceError := mkServiceError {
  se_Kind : ErrorKind; se_Access : option (string * string * VisibilityResult) }.
Abbreviation SR := (result ServiceError).
Definition plainErr {A} (k : ErrorKind) : SR A := Err (mkServiceError k None).
Definition accessErr {A} (k : ErrorKind) (requested canonical : string) (v : VisibilityResult) : SR A :=
  Err (mkServiceError k (Some (requested, canonical, v))).

Record ReadGrantCheck := mkReadGrantCheck {
  rg_RequestedPath : string; rg_CanonicalPath : string; rg_Visibility : VisibilityResult }.

(** ** Host application resources *)

Record HostAppResourceOwner := mkOwner { ow_SessionID : string; ow_Profile : string }.
Record HostAppResourceCheck := mkResourceCheck {
  hc_Owner : HostAppResourceOwner; hc_RequestedPath : string; hc_CanonicalPath : string;
  hc_ResourceType : string; hc_Operation : string; hc_RequestedDecision : FSDecision;
  hc_CanonicalDecision : FSDecision; hc_DynamicRead : bool; hc_Revalidation : bool }.
Record HostAppResource := mkResource {
  hr_requestedPath : string; hr_canonicalPath : string; hr_relativeTarget : string;
  hr_resourceType : string; hr_operation : string; hr_info : FileInfo }.

(** What a read authority offers; the last two are the optional interfaces the
    service asks it for.  An error is [true] when it is
    [ErrHostAppResourceUnauthorized]. *)
Record ReadAuthority := mkReadAuthority {
  ra_AllowsRead : ReadGrantCheck → result bool bool;
  ra_AllowsHostAppResourceRead : option (ReadGrantCheck → result bool bool);
  ra_ValidateHostAppResource : option (HostAppResourceCheck → result bool ()) }.

(** ** The overlay store *)

Record WriteRequest := mkWriteRequest {
  wr_Op : string; wr_Path : string; wr_DestinationPath : string; wr_Data : list Z; wr_Offset : Z;
  wr_Size : Z; wr_Mode : string; wr_UID : option Z; wr_GID : option Z }.
Record WriteResult := mkWriteResult {
  wo_OperationID : string; wo_DecisionID : string; wo_Staged : bool; wo_HostChanged : bool }.
Record Overlay := mkOverlay {
  o_View : string → SR (option OverlayView);
  o_Entries : string → SR (list OverlayEntry) }.
(** [hostFSService.Overlay = overlayStore]: the store of the session answers. *)
Definition storeOverlay `{TimeSort} (st : OverlayState) : Overlay :=
  mkOverlay (λ path, match (View path st).2 with Ok v => Ok v | Err _ => plainErr ErrOverlay end)
    (λ dir, match (Entries dir st).2 with Ok l => Ok l | Err _ => plainErr ErrOverlay end).
Record OverlayContext := mkOverlayContext {
  oc_SessionID : string; oc_Profile : string; oc_Backend : string; oc_Privilege : Privilege }.
Definition noContext : OverlayContext := mkOverlayContext "" "" "" noPrivilege.

Definition DefaultMaxReadBytes : Z := 1048576.
Definition DefaultMaxListEntries : Z := 4096.

(** [enumFree]: is one of the enumeration slots free? *)
Record Service := mkService {
  s_Policy : EffectivePolicy; s_MaxReadBytes : Z; s_MaxListEntries : Z; s_Overlay : option Overlay;
  s_ReadAuthority : option ReadAuthority; s_Context : OverlayContext;
  s_enumFree : bool; s_now : Time }.

Definition nodeInfo (i : FileInfo) : NodeInfo :=
  mkNodeInfo (nodeKind i) (fi_Size i) (fi_Mode i) (UTC (fi_ModTime i)) false [] false.
Definition coarseNodeInfo (i : FileInfo) : NodeInfo :=
  mkNodeInfo (nodeKind i) 0 "" zeroTime true ["discover"] true.
Definition coarseDirEntry (name : string) (i : FileInfo) : DirEntry :=
  mkDirEntry name (nodeKind i) 0 "" true ["discover"] true.
Definition syntheticDirInfo : NodeInfo := mkNodeInfo "dir" 0 "" zeroTime true ["discover"] true.

(** ** Path relations *)

Definition pathEscapes (rel : string) : bool := String.eqb rel ".." || HasPrefix rel "../".
Definition isAncestorPath (parent child : string) : bool :=
  let parent := Clean parent in
  let child := Clean child in
  if String.eqb parent child then false
  else match Rel parent child with
       | None => false
       | Some rel => negb (String.eqb rel ".") && negb (pathEscapes rel)
       end.
Definition nextPathComponent (parent child : string) : option string :=
  if negb (isAncestorPath parent child) then None
  else match Rel parent child with
       | None => None
       | Some rel =>
           if pathEscapes rel then None
           else
             let first := match Cut rel slash with Some (f, _) => f | None => rel end in
             if negb (String.eqb first "") && negb (String.eqb first ".") then Some first else None
       end.

Definition opOperation (op : string) : string := if String.eqb op OpWrite then "replace" else op.

Section service.
Context (fs : FileSystem).
Let h := fs_Host fs.

(** ** Canonical policies *)

Definition canonicalizeGlobPattern (pattern : string) : string :=
  match firstUnescapedGlobMeta pattern with
  | None => pattern
  | Some index =>
      let prefix := SplitSlash (take_str index pattern) in
      match removelast prefix with
      | [] | [EmptyString] => pattern
      | l =>
          let base := JoinSlash l in
          match h_EvalSymlinks h base with
          | Ok resolved => Clean resolved +:+ drop_str (String.length base) pattern
          | Err _ => pattern
          end
      end
  end.
Definition canonicalizeRule (rule : Rule) : Rule :=
  if String.eqb (r_Scope rule) ScopeGlob
  then rule <| r_HostPath ::= canonicalizeGlobPattern |>
  else if contains (r_Ops rule) OpDiscover
  then rule <| r_HostPath ::= visibilityPolicyPath h |>
  else match h_EvalSymlinks h (r_HostPath rule) with
       | Ok resolved => rule <| r_HostPath := resolved |>
       | Err _ => rule
       end.
Definition canonicalizeGrant (g : Grant) : Grant :=
  mkGrant (canonicalizeRule (g_Rule g)) (g_Source g) (g_Index g).
Definition canonicalizePolicy (policy : EffectivePolicy) : EffectivePolicy :=
  mkPolicy (canonicalizeGrant <$> p_Grants policy) (canonicalizeGrant <$> p_Deny policy) (p_Now policy)
    ((λ root, match h_EvalSymlinks h root with Ok r => Clean r | Err _ => root end) <$> p_ReservedRoots policy).
Definition NewService (policy : EffectivePolicy) (now : Time) : Service :=
  mkService (canonicalizePolicy policy) DefaultMaxReadBytes DefaultMaxListEntries None None noContext true now.

(** ** Authorisation *)

Definition denied (d : FSDecision) : bool := String.eqb (fd_Effect d) "deny".

Definition authorizePath (p : EffectivePolicy) (op path : string) : SR string :=
  match cleanHostPath path with
  | Err _ => plainErr ErrNotFound
  | Ok clean =>
      match h_EvalSymlinks h clean with
      | Err _ => plainErr ErrNotFound
      | Ok resolved =>
          let cleanDecision := Decide h p op clean in
          let resolvedDecision := Decide h p op resolved in
          if denied cleanDecision || denied resolvedDecision then plainErr ErrNotFound
          else if negb (String.eqb resolved clean)
               then if fd_Allowed resolvedDecision then mret resolved else plainErr ErrNotFound
          else if fd_Allowed cleanDecision then mret resolved else plainErr ErrNotFound
      end
  end.

Definition discoveryHostError {A} (path : string) (v : VisibilityResult) (e : FsError) : SR A :=
  accessErr (match e with FsPermission => ErrHostPrerequisite | FsNotExist => ErrNotFound
             | FsOther => ErrDirectoryIncomplete end) path "" v.

Definition hiddenV (v : VisibilityResult) : bool := String.eqb (v_State v) VisibilityHidden.
Definition readGrantCandidate (p : EffectivePolicy) (path : string) : SR (ReadGrantCheck * FileInfo) :=
  match cleanHostPath path with
  | Err _ => plainErr ErrNotFound
  | Ok clean =>
      let v := Visibility h p clean in
      if hiddenV v || negb (v_ExplicitDomain v) then plainErr ErrNotFound
      else match fs_Lstat fs clean with
      | Err e => discoveryHostError clean v e
      | Ok _ =>
          match h_EvalSymlinks h clean with
          | Err e => discoveryHostError clean v e
          | Ok canonical =>
              let cv := Visibility h p canonical in
              if negb (String.eqb canonical clean) && (hiddenV cv || negb (v_ExplicitDomain cv))
              then plainErr ErrNotFound
              else if denied (Decide h p OpRead clean) || denied (Decide h p OpRead canonical)
              then accessErr ErrReadDenied clean canonical v
              else match fs_Stat fs canonical with
              | Err e => discoveryHostError clean v e
              | Ok info =>
                  if negb (isRegular info) then accessErr ErrReadDenied clean canonical v
                  else mret (mkReadGrantCheck clean canonical v, info)
              end
          end
      end
  end.

(** [Some (canonical, info)] when an active session grant allows the read. *)
Definition activeSessionRead (s : Service) (path : string) : SR (option (string * FileInfo)) :=
  match s_ReadAuthority s with
  | None => mret None
  | Some authority =>
      match readGrantCandidate (s_Policy s) path with
      | Err e => if decide (se_Kind e = ErrReadDenied ∨ se_Kind e = ErrNotFound) then mret None else Err e
      | Ok (check, info) =>
          match ra_AllowsRead authority check with
          | Err _ => accessErr ErrHostPrerequisite (rg_RequestedPath check) (rg_CanonicalPath check)
                       (rg_Visibility check)
          | Ok allowed => mret (if allowed : bool then Some (rg_CanonicalPath check, info) else None)
          end
      end
  end.
Definition readDeniedError {A} (p : EffectivePolicy) (path : string) : SR A :=
  match readGrantCandidate p path with
  | Err e => Err e
  | Ok (check, _) => accessErr ErrReadApprovalRequired (rg_RequestedPath check) (rg_CanonicalPath check)
                       (rg_Visibility check)
  end.

(** ** The overlay's answers *)

Definition overlayInfo (s : Service) (path : string) : SR (option NodeInfo) :=
  match s_Overlay s with
  | None => mret None
  | Some o =>
      view ← o_View o path;
      match view with
      | None => mret None
      | Some v => if ov_Deleted v then plainErr ErrNotFound
                  else mret (Some (mkNodeInfo (ov_Kind v) (ov_Size v) (ov_Mode v) zeroTime false [] false))
      end
  end.
Definition overlayRead (s : Service) (path : string) (offset size : Z) : SR (option ReadResult) :=
  match s_Overlay s with
  | None => mret None
  | Some o =>
      view ← o_View o path;
      match view with
      | None => mret None
      | Some v =>
          if ov_Deleted v || negb (String.eqb (ov_Kind v) "file") then plainErr ErrNotFound
          else
            let total := Z.of_nat (length (ov_Data v)) in
            let info := mkNodeInfo "file" total (ov_Mode v) zeroTime false [] false in
            if total <? offset then mret (Some (mkReadResult info [] 0 true))
            else
              let last := Z.min (offset + size) total in
              let data := take (Z.to_nat (last - offset)) (drop (Z.to_nat offset) (ov_Data v)) in
              mret (Some (mkReadResult info data (Z.of_nat (length data)) (total <=? last)))
      end
  end.

(** ** Directories that exist because a grant lies below them *)

Definition candidates (clean : string) : list string :=
  clean :: match h_EvalSymlinks h clean with
           | Ok resolved => if String.eqb resolved clean then [] else [resolved]
           | Err _ => []
           end.
Definition syntheticDir (p : EffectivePolicy) (path : string) : bool :=
  match cleanHostPath path with
  | Err _ => false
  | Ok clean =>
      existsb (λ g, negb (ruleExpired (g_Rule g) (p_Now p)) &&
        existsb (λ candidate,
          let v := Visibility h p candidate in
          negb (opAllowed (g_Rule g) OpDiscover && v_DiscoverDenied v && hiddenV v)
          && ((String.eqb (r_Scope (g_Rule g)) ScopeGlob && globCouldMatchChildOf h (r_HostPath (g_Rule g)) candidate)
              || isAncestorPath candidate (r_HostPath (g_Rule g)))) (candidates clean)) (p_Grants p)
  end.

(** One step of the nested loops: the name below the candidate on the way to
    the grant, unless it was seen or must not be shown. *)
Definition syntheticEntry (p : EffectivePolicy) (g : Grant) (seen : list string) (candidate : string) :
    option DirEntry :=
  if String.eqb (r_Scope (g_Rule g)) ScopeGlob then None
  else match nextPathComponent candidate (r_HostPath (g_Rule g)) with
       | None => None
       | Some name =>
           if contains seen name then None
           else
             let v := Visibility h p (Join candidate name) in
             if v_DiscoverDenied v || (opAllowed (g_Rule g) OpDiscover && hiddenV v) then None
             else
               let kind := if String.eqb (Join candidate name) (r_HostPath (g_Rule g))
                              && String.eqb (r_Scope (g_Rule g)) ScopeExactFile then "file" else "dir" in
               Some (mkDirEntry name kind 0 "" true ["discover"] true)
       end.
Fixpoint syntheticFor (p : EffectivePolicy) (g : Grant) (entries : list DirEntry) (cs : list string) :
    list DirEntry :=
  match cs with
  | [] => entries
  | c :: cs =>
      let entries :=
        match syntheticEntry p g (de_Name <$> entries) c with Some e => (entries ++ [e])%list | None => entries end in
      syntheticFor p g entries cs
  end.
Fixpoint syntheticFrom (p : EffectivePolicy) (cs : list string) (entries : list DirEntry) (gs : list Grant) :
    list DirEntry :=
  match gs with
  | [] => entries
  | g :: gs =>
      let entries := if ruleExpired (g_Rule g) (p_Now p) then entries else syntheticFor p g entries cs in
      syntheticFrom p cs entries gs
  end.
Definition syntheticEntries (p : EffectivePolicy) (path : string) : list DirEntry :=
  match cleanHostPath path with
  | Err _ => []
  | Ok clean => syntheticFrom p (candidates clean) [] (p_Grants p)
  end.

(** ** Stat and read *)

Definition Stat (s : Service) (path : string) : SR NodeInfo :=
  let p := s_Policy s in
  overlaid ← overlayInfo s path;
  match overlaid with
  | Some info => mret info
  | None =>
      if syntheticDir p path then mret syntheticDirInfo
      else match authorizePath p OpStat path with
      | Ok resolved =>
          match fs_Stat fs resolved with Ok info => mret (nodeInfo info) | Err _ => plainErr ErrNotFound end
      | Err _ =>
          match cleanHostPath path with
          | Err _ => plainErr ErrNotFound
          | Ok clean =>
              let v := Visibility h p clean in
              if v_DepthExceeded v then accessErr ErrDirectoryIncomplete clean "" v
              else if hiddenV v then plainErr ErrNotFound
              else
                active ← activeSessionRead s path;
                match active with
                | Some (_, info) => mret (nodeInfo info)
                | None =>
                    match fs_Lstat fs clean with
                    | Err e => discoveryHostError clean v e
                    | Ok info => mret (coarseNodeInfo info)
                    end
                end
          end
      end
  end.

Definition Read (s : Service) (path : string) (offset size : Z) : SR ReadResult :=
  if offset <? 0 then plainErr ErrOffset
  else if size <? 0 then plainErr ErrSize
  else
    let maxRead := if s_MaxReadBytes s <=? 0 then DefaultMaxReadBytes else s_MaxReadBytes s in
    let size := if (size =? 0) || (maxRead <? size) then maxRead else size in
    overlaid ← overlayRead s path offset size;
    match overlaid with
    | Some r => mret r
    | None =>
        '(resolved, known) ←
          (match authorizePath (s_Policy s) OpRead path with
           | Ok resolved => mret (resolved, None)
           | Err _ =>
               active ← activeSessionRead s path;
               match active with
               | Some (resolved, info) => mret (resolved, Some info)
               | None => readDeniedError (s_Policy s) path
               end
           end : SR (string * option FileInfo));
        info ← (match known with
                | Some info => mret info
                | None => match fs_Stat fs resolved with Ok i => mret i | Err _ => plainErr ErrNotFound end
                end : SR FileInfo);
        if negb (isRegular info) then plainErr ErrNotFound
        else match fs_ReadAt fs resolved offset size with
        | Err _ => plainErr ErrNotFound
        | Ok (data, eof) =>
            let n := Z.of_nat (length data) in
            mret (mkReadResult (nodeInfo info) data n (eof || (fi_Size info <=? offset + n)))
        end
    end.

(** ** Listing *)

Definition pathVisible (p : EffectivePolicy) (op requested resolved : string) : bool :=
  match h_EvalSymlinks h resolved with
  | Err _ => false
  | Ok canonical =>
      let requestedDecision := Decide h p op requested in
      let canonicalDecision := Decide h p op canonical in
      if denied requestedDecision || denied canonicalDecision then false
      else if negb (String.eqb canonical requested) then fd_Allowed canonicalDecision
      else fd_Allowed requestedDecision
  end.
Definition entryVisible (p : EffectivePolicy) (child : string) (info : FileInfo) : bool :=
  pathVisible p OpStat child child || (negb (isDir info) && pathVisible p OpRead child child)
  || (isDir info && pathVisible p OpList child child).

Fixpoint appendMissingEntries (entries synthetic : list DirEntry) : list DirEntry :=
  match synthetic with
  | [] => entries
  | e :: synthetic =>
      appendMissingEntries
        (if contains (de_Name <$> entries) (de_Name e) then entries else (entries ++ [e])%list) synthetic
  end.
Definition mergeOverlayEntries (entries : list DirEntry) (overlay : list OverlayEntry) : list DirEntry :=
  let drop name := List.filter (λ e, negb (String.eqb (de_Name e) name)) in
  sort_by de_Name (foldl (λ acc o,
    if oe_Deleted o then drop (oe_Name o) acc
    else (drop (oe_Name o) acc ++ [mkDirEntry (oe_Name o) (oe_Kind o) (oe_Size o) (oe_Mode o) false [] false])%list)
    entries overlay).

Fixpoint legacyEntries (p : EffectivePolicy) (dir : string) (names : list string) : list DirEntry :=
  match names with
  | [] => []
  | name :: names =>
      let child := Join dir name in
      let rest := legacyEntries p dir names in
      if v_DiscoverDenied (Visibility h p child) then rest
      else match fs_Lstat fs child with
      | Err _ => rest
      | Ok info =>
          if entryVisible p child info
          then mkDirEntry name (nodeKind info) (fi_Size info) (fi_Mode info) false [] false :: rest
          else rest
      end
  end.
Definition listLegacy (s : Service) (dir : string) : SR (list DirEntry) :=
  match fs_ReadDir fs dir with
  | Err _ => plainErr ErrNotFound
  | Ok names =>
      let out := appendMissingEntries (legacyEntries (s_Policy s) dir names) (syntheticEntries (s_Policy s) dir) in
      match s_Overlay s with
      | None => mret out
      | Some o => overlay ← o_Entries o dir; mret (mergeOverlayEntries out overlay)
      end
  end.

Fixpoint discoveredEntries (p : EffectivePolicy) (dir : string) (root : VisibilityResult) (names : list string) :
    SR (list DirEntry) :=
  match names with
  | [] => mret []
  | name :: names =>
      let child := Join dir name in
      match fs_Lstat fs child with
      | Err e => discoveryHostError child root e
      | Ok info =>
          let v := Visibility h p child in
          if v_DepthExceeded v then accessErr ErrDirectoryIncomplete child "" v
          else
            rest ← discoveredEntries p dir root names;
            mret (if v_DiscoverDenied v || hiddenV v then rest
                  else if String.eqb (v_State v) VisibilityContentGranted
                  then mkDirEntry name (nodeKind info) (fi_Size info) (fi_Mode info) false [] false :: rest
                  else coarseDirEntry name info :: rest)
      end
  end.
Definition listDiscovered (s : Service) (dir : string) (root : VisibilityResult) : SR (list DirEntry) :=
  if negb (s_enumFree s) then accessErr ErrDirectoryIncomplete dir "" root
  else match fs_ReadDir fs dir with
  | Err e => discoveryHostError dir root e
  | Ok names =>
      let limit := if s_MaxListEntries s <=? 0 then DefaultMaxListEntries else s_MaxListEntries s in
      if limit <? Z.of_nat (length names) then accessErr ErrDirectoryIncomplete dir "" root
      else discoveredEntries (s_Policy s) dir root names
  end.

Definition directlyAuthorizedPath (p : EffectivePolicy) (op path : string) : option string :=
  match authorizePath p op path with
  | Err _ => None
  | Ok resolved =>
      let decision := if String.eqb resolved (Clean path) then Decide h p op path else Decide h p op resolved in
      if existsb (λ g, String.eqb (r_ID (g_Rule g)) (fd_RuleID decision)
                       && String.eqb (g_Source g) (fd_Source decision)
                       && opAllowed (g_Rule g) op) (p_Grants p)
      then Some resolved else None
  end.
Definition List_ (s : Service) (path : string) : SR (list DirEntry) :=
  let p := s_Policy s in
  match cleanHostPath path with
  | Err _ => plainErr ErrNotFound
  | Ok clean =>
      let v := Visibility h p clean in
      if v_DepthExceeded v then accessErr ErrDirectoryIncomplete clean "" v
      else if hiddenV v && v_ExplicitDomain v then plainErr ErrNotFound
      else if v_ExplicitDomain v then
        match directlyAuthorizedPath p OpList clean with
        | Some dir => listLegacy s dir
        | None => if negb (v_Enumerable v) then accessErr ErrDirectoryNotEnumerable clean "" v
                  else listDiscovered s clean v
        end
      else match authorizePath p OpList path with
      | Ok dir => listLegacy s dir
      | Err _ => if syntheticDir p clean then mret (syntheticEntries p clean) else plainErr ErrNotFound
      end
  end.

(** ** Staged writes *)

Definition visibleDomain (v : VisibilityResult) : bool := v_ExplicitDomain v && negb (hiddenV v).
Definition authorizeWritePath (p : EffectivePolicy) (op path : string) : SR FSDecision :=
  match cleanHostPath path with
  | Err _ => plainErr ErrNotFound
  | Ok clean =>
      if pathInReservedRoots clean (p_ReservedRoots p) then plainErr ErrNotFound
      else
        let v := Visibility h p clean in
        let unauthorized : SR FSDecision :=
          if visibleDomain v then accessErr ErrWriteUnauthorized clean "" v else plainErr ErrNotFound in
        let cleanDecision := Decide h p op clean in
        let final := if fd_Allowed cleanDecision then mret cleanDecision else unauthorized in
        if denied cleanDecision then unauthorized
        else match fs_Lstat fs clean with
        | Ok info =>
            if isSymlink info then plainErr ErrNotFound
            else match h_EvalSymlinks h clean with
            | Ok resolved =>
                if String.eqb resolved clean then final
                else
                  let resolvedDecision := Decide h p op resolved in
                  if denied resolvedDecision || negb (fd_Allowed resolvedDecision) then
                    if visibleDomain v && visibleDomain (Visibility h p resolved)
                    then accessErr ErrWriteUnauthorized clean "" v else plainErr ErrNotFound
                  else mret resolvedDecision
            | Err _ => final
            end
        | Err FsNotExist => final
        | Err _ => plainErr ErrNotFound
        end
  end.

Definition stageRequest (s : Service) (req : WriteRequest) (decision : FSDecision) : StageRequest :=
  let text (id : option Z) := match id with Some n => pretty n | None => "" end in
  mkStageRequest (oc_SessionID (s_Context s)) (oc_Profile (s_Context s)) (oc_Backend (s_Context s))
    (opOperation (wr_Op req)) (wr_Path req) (wr_DestinationPath req) (fd_RuleID decision) (fd_Source decision)
    (wr_Data req) (wr_Offset req) (wr_Size req) (wr_Mode req) (text (wr_UID req)) (text (wr_GID req))
    (oc_Privilege (s_Context s)).
(** The guards before anything is staged. *)
Definition authorizeStage (s : Service) (req : WriteRequest) : SR StageRequest :=
  match s_Overlay s with
  | None =>
      let v := Visibility h (s_Policy s) (wr_Path req) in
      if visibleDomain v then accessErr ErrWriteUnauthorized (wr_Path req) "" v else plainErr ErrUnsupported
  | Some _ =>
      decision ← authorizeWritePath (s_Policy s) (wr_Op req) (wr_Path req);
      (if String.eqb (wr_DestinationPath req) "" then mret tt
       else authorizeWritePath (s_Policy s) (wr_Op req) (wr_DestinationPath req);; mret tt);;
      mret (stageRequest s req decision)
  end.
(** [begin] is the service's [BeginStage], [stage] its overlay's [Stage]. *)
Definition StageWrite {S} (begin : option (SE S ServiceError (bool → SE S ServiceError ())))
    (stage : StageRequest → SE S ServiceError (string * string)) (s : Service) (req : WriteRequest) :
    SE S ServiceError WriteResult :=
  stageReq ← lift (authorizeStage s req);
  complete ← match begin with None => mret (λ _, mret tt) | Some b => b end;
  staged ← attempt (stage stageReq);
  match staged with
  | Err e => ignore_err (complete false);; fail e
  | Ok (operationID, decisionID) => complete true;; mret (mkWriteResult operationID decisionID true false)
  end.

(** ** Handing a file or a tree to a host application *)

Definition hostAppTreeDenyRelevant (rule : Rule) : bool :=
  (length (r_Ops rule) =? 0)%nat || existsb (opAllowed rule) [OpDiscover; OpStat; OpRead; OpList].
Definition hostAppTreeSelectorIntersects (rule : Rule) (root : string) : bool :=
  if String.eqb (r_Scope rule) ScopeExactFile then pathInRoot (r_HostPath rule) root
  else if String.eqb (r_Scope rule) ScopeDir
       then pathInRoot (r_HostPath rule) root || String.eqb (Dir root) (r_HostPath rule)
  else if String.eqb (r_Scope rule) ScopeRecursiveDir
       then pathInRoot (r_HostPath rule) root || pathInRoot root (r_HostPath rule)
  else if String.eqb (r_Scope rule) ScopeGlob
       then pathInRoot (globStaticBase (r_HostPath rule)) root || globMatches h (r_HostPath rule) root
            || globCouldMatchChildOf h (r_HostPath rule) root
  else true.
Definition treeGranted (p : EffectivePolicy) (root op : string) : bool :=
  existsb (λ g, negb (r_Overlay (g_Rule g)) && String.eqb (r_Scope (g_Rule g)) ScopeRecursiveDir
                && negb (ruleExpired (g_Rule g) (p_Now p)) && opAllowed (g_Rule g) op
                && ruleMatches h (g_Rule g) op root false) (p_Grants p).
Definition AuthorizesHostAppTree (p : EffectivePolicy) (path : string) : bool :=
  match cleanHostPath path with
  | Err _ => false
  | Ok root =>
      negb (existsb (λ reserved, pathInRoot root reserved || pathInRoot reserved root) (p_ReservedRoots p))
      && forallb (treeGranted p root) [OpRead; OpList]
      && negb (existsb (λ d, negb (ruleExpired (g_Rule d) (p_Now p)) && hostAppTreeDenyRelevant (g_Rule d)
                             && hostAppTreeSelectorIntersects (g_Rule d) root) (p_Deny p))
  end.

Definition boundedHostAppRelative (value : string) : string :=
  let value := TrimSpace value in
  if String.eqb value "" || HasPrefix value "/" || String.eqb value ".." || HasPrefix value "../"
     || ContainsByte value zero then ""
  else if existsb (λ t : Tok, (t.1 <? 32)%N || ((127 <=? t.1)%N && (t.1 <=? 159)%N)) (runes value) then ""
  else if (512 <? String.length value)%nat then "" else value.

Definition HostAppResourceFile : string := "file".
Definition HostAppResourceTree : string := "tree".

(** The read grant of a file that no rule grants. *)
Definition dynamicRead (authority : ReadAuthority) (p : EffectivePolicy) (clean canonical : string) : SR () :=
  let v := Visibility h p clean in
  let cv := Visibility h p canonical in
  if negb (v_ExplicitDomain v) || hiddenV v || negb (v_ExplicitDomain cv) || hiddenV cv
  then plainErr ErrHostAppResourceUnauthorized
  else
    let check := mkReadGrantCheck clean canonical v in
    let answer := match ra_AllowsHostAppResourceRead authority with
                  | Some f => f check | None => ra_AllowsRead authority check end in
    match answer with
    | Err true => plainErr ErrHostAppResourceUnauthorized
    | Err false => plainErr ErrHostAppResourceOwner
    | Ok false => plainErr ErrHostAppResourceUnauthorized
    | Ok true => mret tt
    end.

Definition resolveHostAppResource (s : Service) (owner : HostAppResourceOwner) (path : string)
    (revalidation : bool) : SR HostAppResource :=
  match s_ReadAuthority s with
  | Some authority =>
      match ra_ValidateHostAppResource authority with
      | Some validator =>
          if String.eqb (TrimSpace (ow_SessionID owner)) "" || String.eqb (TrimSpace (ow_Profile owner)) ""
          then plainErr ErrHostAppResourceOwner
          else match cleanHostPath path with
          | Err _ => plainErr ErrHostAppResourceUnauthorized
          | Ok clean =>
              let policy := (s_Policy s) <| p_Now := UTC (s_now s) |> in
              if pathInReservedRoots clean (p_ReservedRoots policy) then plainErr ErrHostAppResourceUnauthorized
              else match h_EvalSymlinks h clean with
              | Err _ => plainErr ErrHostAppResourceUnauthorized
              | Ok resolved =>
                  let canonical := Clean resolved in
                  if pathInReservedRoots canonical (p_ReservedRoots policy)
                  then plainErr ErrHostAppResourceUnauthorized
                  else match fs_Stat fs canonical with
                  | Err _ => plainErr ErrHostAppResourceUnauthorized
                  | Ok info =>
                      if negb (isRegular info) && negb (isDir info) then plainErr ErrHostAppResourceUnauthorized
                      else
                        let operation := if isDir info then OpList else OpRead in
                        let resourceType := if isDir info then HostAppResourceTree else HostAppResourceFile in
                        let requestedDecision := Decide h policy operation clean in
                        let canonicalDecision := Decide h policy operation canonical in
                        if denied requestedDecision || denied canonicalDecision
                           || (isDir info && negb (AuthorizesHostAppTree policy canonical))
                        then plainErr ErrHostAppResourceUnauthorized
                        else
                          let direct := if String.eqb canonical clean then fd_Allowed requestedDecision
                                        else fd_Allowed canonicalDecision in
                          (if direct then mret tt
                           else if isDir info then plainErr ErrHostAppResourceUnauthorized
                           else dynamicRead authority policy clean canonical);;
                          match validator (mkResourceCheck owner clean canonical resourceType operation
                                  requestedDecision canonicalDecision (negb direct) revalidation) with
                          | Err true => plainErr ErrHostAppResourceUnauthorized
                          | Err false => plainErr ErrHostAppResourceOwner
                          | Ok _ => mret (mkResource clean canonical (boundedHostAppRelative (Base clean))
                                            resourceType operation info)
                          end
                  end
              end
          end
      | None => plainErr ErrHostAppResourceOwner
      end
  | None => plainErr ErrHostAppResourceOwner
  end.
Definition ResolveHostAppResource (s : Service) (owner : HostAppResourceOwner) (path : string) :
    SR HostAppResource := resolveHostAppResource s owner path false.

(** The second component: is the loss of authority reported? *)
Definition RevalidateHostAppResource (s : Service) (owner : HostAppResourceOwner) (previous : HostAppResource) :
    SR () * bool :=
  let current := resolveHostAppResource s owner (hr_requestedPath previous) true in
  match current with
  | Ok c =>
      if negb (String.eqb (hr_canonicalPath c) (hr_canonicalPath previous))
         || negb (String.eqb (hr_resourceType c) (hr_resourceType previous))
         || negb (String.eqb (hr_operation c) (hr_operation previous))
         || negb (fi_Identity (hr_info c) =? fi_Identity (hr_info previous))
      then (plainErr ErrHostAppResourceChanged, true) else (mret tt, false)
  | Err e =>
      if decide (se_Kind e = ErrHostAppResourceOwner ∨ se_Kind e = ErrHostAppResourceUnauthorized)
      then (Err e, true) else (plainErr ErrHostAppResourceChanged, true)
  end.
End service.
