(* ===== verification/HostFSServiceSpec.v ===== *)
(** * What the HostFS service gives out

    A tree handed to a host application is no wider than the policy; the bytes
    of a file are read, its metadata shown, its name listed and a write to it
    staged only under the authority the policy and the read authority give. *)
From Stdlib Require Import Ascii.
From S2P Require Import Prelude StateRules GoStrings GoTime GoHash GoRunes GoPath GoGlob HostPathRisk HostFS.
From S2P Require Import HostTree Overlay OverlaySpec OverlayStageSpec HostFSSpec HostFSService.
Open Scope Z_scope.

(** ** Trees *)

Lemma prefix_comparable {A} (l1 l2 l : list A) :
  l1 `prefix_of` l → l2 `prefix_of` l → l1 `prefix_of` l2 ∨ l2 `prefix_of` l1.
Proof.
  intros [k1 ->] [k2 E]. revert l2 k1 k2 E. induction l1 as [|x l1 IH]; intros [|y l2] k1 k2 E; simpl in *.
  - left. apply prefix_nil.
  - left. apply prefix_nil.
  - right. apply prefix_nil.
  - injection E as -> E. destruct (IH l2 k1 k2 E) as [H|H]; [left|right]; by apply prefix_cons.
Qed.
Lemma isPath_prefix_dir c l x : isPath c (l ++ [x]) → l ≠ [] → isPath (Dir c) l.
Proof.
  intros Hc Hl. rewrite (Dir_path c l x Hc). destruct Hc as (_&_&F). apply Forall_app in F as [? _]. by split_and!.
Qed.

Section tree.
Context (fs : FileSystem).
Local Abbreviation h := (fs_Host fs).

(** A glob of literal bytes, stars and question marks that stand for single
    bytes, on a host that does not fold case. *)
Definition simpleGlob (rule : Rule) (c : string) : Prop :=
  h_FoldsCase h = false ∧ plainPattern (r_HostPath rule) = true ∧ bytewise (r_HostPath rule) c.
#[global] Instance simpleGlob_dec rule c : Decision (simpleGlob rule c).
Proof. unfold simpleGlob, bytewise. apply _. Defined.
(** The deny rules the check of a tree may pass over: expired ones, and globs
    other than simple ones. *)
Definition overlooked (now : Time) (rule : Rule) (c : string) : Prop :=
  ruleExpired rule now = true ∨ (r_Scope rule = ScopeGlob ∧ ¬ simpleGlob rule c).

(** A deny rule that matches a path of the tree intersects the tree. *)
Lemma deny_intersects rule op root rl c cl :
  wfRule rule → (r_Scope rule = ScopeGlob → simpleGlob rule c) → isPath root rl → isPath c cl → rl `prefix_of` cl →
  scopeMatches h rule op c true = true → hostAppTreeSelectorIntersects fs rule root = true.
Proof.
  intros Hw Hg Hr Hc Hpre Hm. destruct (wfRule_path rule Hw) as (hl&Hh).
  unfold scopeMatches in Hm. unfold hostAppTreeSelectorIntersects.
  destruct (String.eqb_spec (r_Scope rule) ScopeExactFile) as [E|_].
  { simpl in Hm. rewrite orb_false_r in Hm. apply String.eqb_eq in Hm as ->.
    by apply (pathInRoot_spec _ _ _ _ Hc Hr). }
  destruct (String.eqb_spec (r_Scope rule) ScopeGlob) as [E|_].
  { destruct (Hg E) as (Hcase&Hplain&Hb). simpl. rewrite E. simpl. destruct (String.eqb op OpList); [done|].
    destruct (decide (rl = cl)) as [->|Hne].
    - assert (root = c) as -> by (destruct Hr as (->&_), Hc as (->&_); done). rewrite Hm. by rewrite orb_true_r.
    - rewrite (globCouldMatch_prefix h Hcase _ hl c cl root rl) by done. by rewrite orb_true_r. }
  destruct (String.eqb_spec (r_Scope rule) ScopeDir) as [E|_].
  { apply orb_true_iff. apply orb_true_iff in Hm as [->%String.eqb_eq|[_ Hd%String.eqb_eq]%andb_true_iff].
    - left. by apply (pathInRoot_spec _ _ _ _ Hc Hr).
    - destruct (decide (rl = cl)) as [->|Hne].
      + right. apply String.eqb_eq. rewrite <-Hd. destruct Hr as (->&_), Hc as (->&_). done.
      + left. destruct Hpre as [k ->]. destruct k as [|x k _] using rev_ind; [by rewrite (right_id_L [] (++)) in Hne|].
        rewrite (assoc_L (++)) in Hc. assert (rl ++ k ≠ []) as Hrk by (destruct Hr as (_&?&_); by destruct rl).
        pose proof (isPath_prefix_dir c (rl ++ k) x Hc Hrk) as HD. rewrite Hd in HD.
        apply (pathInRoot_spec _ _ _ _ HD Hr). by exists k. }
  destruct (String.eqb_spec (r_Scope rule) ScopeRecursiveDir) as [E|_]; [|done].
  assert (hl `prefix_of` cl) as Hhl.
  { apply (recursive_matches h rule hl op c cl true); [done..|]. unfold scopeMatches. by rewrite E. }
  apply orb_true_iff. destruct (prefix_comparable _ _ _ Hhl Hpre); [right|left]; by eapply pathInRoot_spec.
Qed.

Lemma deny_relevant rule op c :
  op = OpRead ∨ op = OpList → ruleMatches h rule op c true = true → hostAppTreeDenyRelevant rule = true.
Proof.
  intros Hop Hm. unfold ruleMatches in Hm. simpl in Hm. unfold hostAppTreeDenyRelevant.
  destruct (length (r_Ops rule) =? 0)%nat; [done|]. simpl in *.
  destruct (opAllowed rule op) eqn:E; [|done]. destruct Hop as [-> | ->]; rewrite E; by rewrite ?orb_true_r.
Qed.

(** What a tree check proves of every path below the tree. *)
Lemma tree_permits p path root c op :
  wfPolicy p → AuthorizesHostAppTree fs p path = true → cleanHostPath path = Ok root → cleanHostPath c = Ok c →
  pathInRoot c root = true → op = OpRead ∨ op = OpList →
  (∀ d, d ∈ p_Deny p → ruleMatches h (g_Rule d) op c true = true → overlooked (p_Now p) (g_Rule d) c) ∧
  (Forall (λ d, ruleMatches h (g_Rule d) op c true = false) (p_Deny p) → permits h p op c).
Proof.
  intros (Wg&Wd&Wr) Hauth Hroot Hcc Hin Hop.
  destruct (cleanHostPath_path _ _ Hroot) as (rl&Hr), (cleanHostPath_path _ _ Hcc) as (cl&Hc).
  apply (pathInRoot_spec _ _ _ _ Hc Hr) in Hin. rewrite Forall_forall in Wg, Wd. rewrite Forall_forall in Wr.
  unfold AuthorizesHostAppTree in Hauth. rewrite Hroot in Hauth.
  apply andb_true_iff in Hauth as [[Hres Hgr]%andb_true_iff Hdeny]. apply negb_true_iff in Hres, Hdeny.
  rewrite existsb_false in Hres. rewrite existsb_false in Hdeny. split; [|intros Hno; rewrite Forall_forall in Hno; split_and!; [|done|]].
  - intros d Hd E. specialize (Hdeny d Hd). unfold overlooked. destruct (ruleExpired (g_Rule d) (p_Now p)); [by left|right].
    rewrite (deny_relevant _ _ _ Hop E) in Hdeny. simpl in Hdeny.
    apply ruleMatches_scope in E.
    assert (¬ (r_Scope (g_Rule d) = ScopeGlob → simpleGlob (g_Rule d) c)) as Hn
      by (intros Hg; by rewrite (deny_intersects (g_Rule d) op root rl c cl) in Hdeny; auto).
    destruct (decide (r_Scope (g_Rule d) = ScopeGlob)), (decide (simpleGlob (g_Rule d) c)); naive_solver.
  - apply existsb_false. intros r Hrin. destruct (pathInRoot c r) eqn:E; [|done].
    specialize (Hres r Hrin). apply orb_false_iff in Hres as [H1 H2].
    destruct (cleanHostPath_path _ _ (Wr r Hrin)) as (rrl&Hrr).
    apply (pathInRoot_spec _ _ _ _ Hc Hrr) in E. destruct (prefix_comparable _ _ _ E Hin) as [H|H].
    + by rewrite (proj2 (pathInRoot_spec _ _ _ _ Hr Hrr) H) in H1.
    + by rewrite (proj2 (pathInRoot_spec _ _ _ _ Hrr Hr) H) in H2.
  - rewrite forallb_forall in Hgr. assert (treeGranted fs p root op = true) as Hg.
    { apply Hgr. destruct Hop as [-> | ->]; simpl; auto. }
    apply existsb_true in Hg as (g&Hgin&Hg). exists g. split; [done|].
    apply andb_true_iff in Hg as [[[[Ho Hs]%andb_true_iff He]%andb_true_iff Ha]%andb_true_iff Hm].
    apply negb_true_iff in He. split; [done|]. apply String.eqb_eq in Hs.
    destruct (wfRule_path _ (Wg g Hgin)) as (gl&Hgl).
    apply ruleMatches_scope, (recursive_matches h (g_Rule g) gl op root rl false Hs Hgl Hr) in Hm.
    unfold ruleMatches. rewrite Ha. simpl.
    apply (recursive_matches h (g_Rule g) gl op c cl false Hs Hgl Hc). by etrans.
Qed.
End tree.

(** ** Authorised paths *)

Section service.
Context (fs : FileSystem).
Local Abbreviation h := (fs_Host fs).

Lemma not_denied d : denied d = false ↔ fd_Effect d ≠ "deny".
Proof. apply String.eqb_neq. Qed.

(** An authorised path resolves; neither name is denied; the resolved one is
    granted. *)
Lemma authorizePath_ok p op path resolved :
  authorizePath fs p op path = Ok resolved →
  ∃ clean, cleanHostPath path = Ok clean ∧ h_EvalSymlinks h clean = Ok resolved ∧
    fd_Effect (Decide h p op clean) ≠ "deny" ∧ fd_Effect (Decide h p op resolved) ≠ "deny" ∧
    fd_Allowed (Decide h p op resolved) = true.
Proof.
  unfold authorizePath. destruct (cleanHostPath path) as [clean|] eqn:Hclean; [|done].
  destruct (h_EvalSymlinks h clean) as [r|] eqn:He; [|done]. destruct (_ || _) eqn:Hd; [done|].
  apply orb_false_iff in Hd as [H1%not_denied H2%not_denied].
  destruct (String.eqb_spec r clean) as [->|Hne]; simpl.
  - destruct (fd_Allowed (Decide h p op clean)) eqn:Ha; [|done]. intros [= <-]. by exists clean.
  - destruct (fd_Allowed (Decide h p op r)) eqn:Ha; [|done]. intros [= <-]. by exists clean.
Qed.

Lemma readGrantCandidate_ok p path check info :
  readGrantCandidate fs p path = Ok (check, info) →
  cleanHostPath path = Ok (rg_RequestedPath check) ∧
  h_EvalSymlinks h (rg_RequestedPath check) = Ok (rg_CanonicalPath check) ∧
  rg_Visibility check = Visibility h p (rg_RequestedPath check) ∧
  visibleDomain (rg_Visibility check) = true ∧ visibleDomain (Visibility h p (rg_CanonicalPath check)) = true ∧
  fd_Effect (Decide h p OpRead (rg_RequestedPath check)) ≠ "deny" ∧
  fd_Effect (Decide h p OpRead (rg_CanonicalPath check)) ≠ "deny" ∧
  fs_Stat fs (rg_CanonicalPath check) = Ok info ∧ isRegular info = true.
Proof.
  unfold readGrantCandidate. destruct (cleanHostPath path) as [clean|]; [|done].
  destruct (hiddenV _ || _) eqn:Hv; [done|]. destruct (fs_Lstat fs clean); [|done].
  destruct (h_EvalSymlinks h clean) as [canonical|] eqn:He; [|done].
  destruct (negb (String.eqb canonical clean) && _) eqn:Hcv; [done|].
  destruct (denied _ || _) eqn:Hd; [done|]. destruct (fs_Stat fs canonical) as [i|] eqn:Hst; [|done].
  destruct (isRegular i) eqn:Hreg; [|done]. intros [= <- <-]. simpl.
  apply orb_false_iff in Hd as [H1%not_denied H2%not_denied].
  apply orb_false_iff in Hv as [Hh Hx%negb_false_iff]. unfold visibleDomain. rewrite Hh, Hx.
  split_and!; try done. apply andb_false_iff in Hcv as [Heq%negb_false_iff|Hcv].
  - apply String.eqb_eq in Heq as ->. by rewrite Hh, Hx.
  - apply orb_false_iff in Hcv as [-> Hx'%negb_false_iff]. by rewrite Hx'.
Qed.
Lemma activeSessionRead_ok s path canonical info :
  activeSessionRead fs s path = Ok (Some (canonical, info)) →
  ∃ authority check, s_ReadAuthority s = Some authority ∧
    readGrantCandidate fs (s_Policy s) path = Ok (check, info) ∧ rg_CanonicalPath check = canonical ∧
    ra_AllowsRead authority check = Ok true.
Proof.
  unfold activeSessionRead. destruct (s_ReadAuthority s) as [authority|]; [|done].
  destruct (readGrantCandidate _ _ _) as [[check i]|e] eqn:E; [|case_decide; done].
  destruct (ra_AllowsRead authority check) as [[]|] eqn:Ha; [|done..]. intros [= <- <-].
  by exists authority, check.
Qed.

(** What entitles the service to the content of the file behind a path. *)
Definition entitled (s : Service) (op path canonical : string) : Prop :=
  ∃ clean, cleanHostPath path = Ok clean ∧ h_EvalSymlinks h clean = Ok canonical ∧
    fd_Effect (Decide h (s_Policy s) op clean) ≠ "deny" ∧
    fd_Effect (Decide h (s_Policy s) op canonical) ≠ "deny" ∧
    (fd_Allowed (Decide h (s_Policy s) op canonical) = true ∨
     ∃ authority, s_ReadAuthority s = Some authority ∧
       visibleDomain (Visibility h (s_Policy s) clean) = true ∧
       visibleDomain (Visibility h (s_Policy s) canonical) = true ∧
       ra_AllowsRead authority (mkReadGrantCheck clean canonical (Visibility h (s_Policy s) clean)) = Ok true).

Lemma active_entitled s path canonical info :
  activeSessionRead fs s path = Ok (Some (canonical, info)) →
  entitled s OpRead path canonical ∧ fs_Stat fs canonical = Ok info ∧ isRegular info = true.
Proof.
  intros (authority&[r c v]&Hs&Hc&<-&Ha)%activeSessionRead_ok.
  apply readGrantCandidate_ok in Hc as (H1&H2&H3&H4&H5&H6&H7&H8&H9). simpl in *. subst v. split; [|done].
  exists r. split_and!; try done. right. exists authority. by split_and!.
Qed.

(** The bytes the overlay shows of a path, from an offset on. *)
Definition overlaid (s : Service) (path : string) (offset : Z) (data : list Z) : Prop :=
  ∃ o v n, s_Overlay s = Some o ∧ o_View o path = Ok (Some v) ∧ ov_Deleted v = false ∧ ov_Kind v = "file" ∧
    data = take n (drop (Z.to_nat offset) (ov_Data v)).
Lemma overlayRead_ok s path offset size r :
  overlayRead s path offset size = Ok (Some r) → overlaid s path offset (rr_Data r).
Proof.
  unfold overlayRead. destruct (s_Overlay s) as [o|] eqn:Ho; [|done]. intros (view&Hv&H)%result_bind_ok.
  destruct view as [v|]; [|done]. destruct (_ || _) eqn:Hk; [done|].
  apply orb_false_iff in Hk as [Hd Hk%negb_false_iff%String.eqb_eq]. exists o, v. destruct (Z.ltb_spec (Z.of_nat (length (ov_Data v))) offset).
  - exists 0%nat. by injection H as <-.
  - eexists. injection H as <-. by split_and!.
Qed.
(** The bytes [Read] returns are the overlay's, or those of the file the path
    resolves to, within the limit, and the service is entitled to them. *)
Lemma Read_entitled s path offset size r :
  Read fs s path offset size = Ok r → overlaid s path offset (rr_Data r) ∨
  ∃ canonical info max eof, entitled s OpRead path canonical ∧
    fs_Stat fs canonical = Ok info ∧ isRegular info = true ∧ rr_Info r = nodeInfo info ∧
    fs_ReadAt fs canonical offset max = Ok (rr_Data r, eof) ∧
    max ≤ (if s_MaxReadBytes s <=? 0 then DefaultMaxReadBytes else s_MaxReadBytes s) ∧ 0 ≤ offset.
Proof.
  unfold Read. destruct (Z.ltb_spec offset 0) as [|Hoff]; [done|].
  destruct (Z.ltb_spec size 0) as [|Hsz]; [done|]. set (limit := if s_MaxReadBytes s <=? 0 then _ else _).
  set (n := if (size =? 0) || (limit <? size) then limit else size).
  assert (n ≤ limit) as Hn by (unfold n; destruct (Z.eqb_spec size 0), (Z.ltb_spec limit size); simpl; lia).
  cbv zeta. intros (over&Hover&H)%result_bind_ok. destruct over as [r'|]; [left; injection H as <-; by eapply overlayRead_ok|right].
  apply result_bind_ok in H as ([resolved known]&Hk&H). apply result_bind_ok in H as (info&Hi&H).
  destruct (isRegular info) eqn:Hreg; [|done]. simpl in H.
  destruct (fs_ReadAt fs resolved offset n) as [[data eof]|] eqn:Hra; [|done]. injection H as <-. simpl.
  exists resolved, info, n, eof.
  assert (entitled s OpRead path resolved ∧ fs_Stat fs resolved = Ok info) as [??]; [|by split_and!].
  destruct (authorizePath fs (s_Policy s) OpRead path) as [r'|] eqn:Ha.
  - injection Hk as <- <-. apply authorizePath_ok in Ha as (clean&?&?&?&?&?). split; [exists clean; eauto 10|].
    by destruct (fs_Stat fs r'); [injection Hi as <-|].
  - apply result_bind_ok in Hk as (active&Hact&Hk). destruct active as [[rp inf]|].
    + injection Hk as <- <-. injection Hi as <-. by apply active_entitled in Hact as (?&?&_).
    + unfold readDeniedError in Hk. by destruct (readGrantCandidate _ _ _) as [[]|].
Qed.

(** ** Metadata and names *)

(** Full metadata is shown only of a file the service is entitled to stat or to
    read; otherwise only the kind is. *)
Lemma Stat_entitled s path info :
  s_Overlay s = None → Stat fs s path = Ok info →
  (ni_Coarse info = true ∧ ni_Size info = 0 ∧ ni_Mode info = "" ∧ ni_ModTime info = zeroTime) ∨
  ∃ op canonical i, (op = OpStat ∨ op = OpRead) ∧ entitled s op path canonical ∧
    fs_Stat fs canonical = Ok i ∧ info = nodeInfo i.
Proof.
  intros Ho. unfold Stat, overlayInfo. rewrite Ho. simpl. destruct (syntheticDir fs _ path); [intros [= <-]; by left|].
  destruct (authorizePath fs (s_Policy s) OpStat path) as [r|] eqn:Ha.
  { destruct (fs_Stat fs r) as [i|] eqn:Hst; [|done]. intros [= <-]. right. exists OpStat, r, i.
    apply authorizePath_ok in Ha as (clean&?&?&?&?&?). split_and!; [by left| |done..]. exists clean. auto 10. }
  destruct (cleanHostPath path) as [clean|] eqn:Hc; [|done]. destruct (v_DepthExceeded _); [done|].
  destruct (hiddenV _); [done|]. intros (active&Hact&H)%result_bind_ok. destruct active as [[rp i]|].
  - injection H as <-. right. apply active_entitled in Hact as (?&?&_). exists OpRead, rp, i. auto.
  - destruct (fs_Lstat fs clean) as [i|]; [|done]. injection H as <-. by left.
Qed.

(** The other names of a directory: what it resolves to. *)
Definition alias : relation string :=
  rtc (λ a b, h_EvalSymlinks h a = Ok b ∨ cleanHostPath a = Ok b).
Lemma candidates_alias d c : d ∈ candidates fs c → alias c d.
Proof.
  unfold candidates. intros [->|Hd]%elem_of_cons; [by apply rtc_refl|].
  destruct (h_EvalSymlinks h c) as [r|] eqn:E; [|by apply elem_of_nil in Hd].
  destruct (String.eqb r c); [by apply elem_of_nil in Hd|]. apply list_elem_of_singleton in Hd as ->.
  apply rtc_once. by left.
Qed.

(** What a listing may show of the entry [e] of the directory [dir]. *)
Definition shown (p : EffectivePolicy) (dir : string) (e : DirEntry) : Prop :=
  let child := Join dir (de_Name e) in
  let v := Visibility h p child in
  v_DiscoverDenied v = false ∧
  ((de_Coarse e = true ∧ de_Size e = 0 ∧ de_Mode e = "") ∨
   ∃ i, fs_Lstat fs child = Ok i ∧ (entryVisible fs p child i = true ∨ v_State v = VisibilityContentGranted)).

Lemma legacyEntries_shown p dir names e : e ∈ legacyEntries fs p dir names → shown p dir e.
Proof.
  induction names as [|name names IH]; [by intros ?%elem_of_nil|]. simpl.
  destruct (v_DiscoverDenied _) eqn:Hd; [done|]. destruct (fs_Lstat fs _) as [i|] eqn:Hl; [|done].
  destruct (entryVisible fs p _ i) eqn:Hv; [|done]. intros [->|?]%elem_of_cons; [|auto]. split; [done|]. right.
  exists i. auto.
Qed.
Lemma discoveredEntries_shown p dir root names es e :
  discoveredEntries fs p dir root names = Ok es → e ∈ es →
  shown p dir e ∧ hiddenV (Visibility h p (Join dir (de_Name e))) = false.
Proof.
  revert es. induction names as [|name names IH]; intros es; simpl; [by intros [= <-] ?%elem_of_nil|].
  destruct (fs_Lstat fs _) as [i|] eqn:Hl; [|done]. destruct (v_DepthExceeded _); [done|].
  intros (rest&Hrest&H)%result_bind_ok. injection H as <-. specialize (IH _ Hrest).
  destruct (_ || _) eqn:Hd; [done|]. apply orb_false_iff in Hd as [Hd Hh].
  destruct (String.eqb_spec (v_State (Visibility h p (Join dir name))) VisibilityContentGranted) as [Hc|Hc];
    (intros [->|?]%elem_of_cons; [|auto]); (split; [split; [done|]|done]).
  - right. exists i. auto.
  - by left.
Qed.
Lemma syntheticEntry_shown p g seen c e : syntheticEntry fs p g seen c = Some e → shown p c e.
Proof.
  unfold syntheticEntry. destruct (String.eqb _ ScopeGlob); [done|]. destruct (nextPathComponent _ _) as [name|]; [|done].
  destruct (contains seen name); [done|]. destruct (_ || _) eqn:Hd; [done|]. intros [= <-].
  apply orb_false_iff in Hd as [Hd _]. split; [done|by left].
Qed.
Lemma syntheticFor_shown p g entries cs e :
  e ∈ syntheticFor fs p g entries cs → e ∈ entries ∨ ∃ c, c ∈ cs ∧ shown p c e.
Proof.
  revert entries. induction cs as [|c cs IH]; intros entries; [by left|]. simpl. intros [H|(c'&?&?)]%IH.
  - destruct (syntheticEntry fs p g _ c) as [e'|] eqn:E; [|by left]. apply elem_of_app in H as [H|H]; [by left|].
    apply list_elem_of_singleton in H as ->. right. exists c. split; [by left|by eapply syntheticEntry_shown].
  - right. exists c'. split; [by right|done].
Qed.
Lemma syntheticFrom_shown p cs entries gs e :
  e ∈ syntheticFrom fs p cs entries gs → e ∈ entries ∨ ∃ c, c ∈ cs ∧ shown p c e.
Proof.
  revert entries. induction gs as [|g gs IH]; intros entries; [by left|]. simpl. intros [H|?]%IH; [|by right].
  destruct (ruleExpired _ _); [by left|]. by apply syntheticFor_shown in H.
Qed.
Lemma syntheticEntries_shown p path e :
  e ∈ syntheticEntries fs p path → ∃ d, alias path d ∧ shown p d e.
Proof.
  unfold syntheticEntries. destruct (cleanHostPath path) as [c|] eqn:Hc; [|by intros ?%elem_of_nil].
  intros [?%elem_of_nil|(d&Hd&He)]%syntheticFrom_shown; [done|]. exists d. split; [|done].
  eapply rtc_l; [right; exact Hc|by apply candidates_alias].
Qed.
Lemma appendMissing_elem es ss e : e ∈ appendMissingEntries es ss → e ∈ es ∨ e ∈ ss.
Proof.
  revert es. induction ss as [|s ss IH]; intros es; [by left|]. simpl. intros [H|H]%IH; [|right; by right].
  destruct (contains _ _); [by left|]. apply elem_of_app in H as [H|H%list_elem_of_singleton]; [by left|].
  right. subst. by left.
Qed.

(** An entry the overlay puts into the listing of a directory. *)
Definition overlaidEntry (s : Service) (dir : string) (e : DirEntry) : Prop :=
  ∃ o l x, s_Overlay s = Some o ∧ o_Entries o dir = Ok l ∧ x ∈ l ∧ oe_Deleted x = false ∧
    e = mkDirEntry (oe_Name x) (oe_Kind x) (oe_Size x) (oe_Mode x) false [] false.
Lemma mergeOverlay_elem entries l e :
  e ∈ mergeOverlayEntries entries l → e ∈ entries ∨
  ∃ x, x ∈ l ∧ oe_Deleted x = false ∧ e = mkDirEntry (oe_Name x) (oe_Kind x) (oe_Size x) (oe_Mode x) false [] false.
Proof.
  unfold mergeOverlayEntries. rewrite sort_by_elem_of. revert entries. induction l as [|x l IH]; intros entries; cbn [foldl]; [by left|].
  intros [H|(x'&?&?)]%IH; [|right; exists x'; split; [by right|done]].
  assert (∀ n, e ∈ List.filter (λ e, negb (String.eqb (de_Name e) n)) entries → e ∈ entries) as Hf
    by (intros n; rewrite !list_elem_of_In; intros [? _]%filter_In; done).
  destruct (oe_Deleted x) eqn:Hd; [left; by eapply Hf|].
  apply elem_of_app in H as [H|H%list_elem_of_singleton]; [left; by eapply Hf|right; exists x; split; [by left|done]].
Qed.
Lemma listLegacy_shown s dir es e :
  listLegacy fs s dir = Ok es → e ∈ es → overlaidEntry s dir e ∨ ∃ d, alias dir d ∧ shown (s_Policy s) d e.
Proof.
  unfold listLegacy. destruct (fs_ReadDir fs dir) as [names|]; [|done].
  set (out := appendMissingEntries _ _). assert (e ∈ out → ∃ d, alias dir d ∧ shown (s_Policy s) d e) as Hout.
  { intros [H|H]%appendMissing_elem; [exists dir; split; [by apply rtc_refl|by eapply legacyEntries_shown]|].
    by apply syntheticEntries_shown. }
  destruct (s_Overlay s) as [o|] eqn:Ho; [|intros [= <-]; by right; auto].
  intros (l&Hl&H)%result_bind_ok. injection H as <-. intros [H|(x&?&?&?)]%mergeOverlay_elem; [by right; auto|left].
  by exists o, l, x.
Qed.
Lemma authorized_alias p op path dir : authorizePath fs p op path = Ok dir → alias path dir.
Proof.
  intros (c&Hc&He&_)%authorizePath_ok. eapply rtc_l; [right; exact Hc|]. apply rtc_once. by left.
Qed.
Lemma direct_alias p op path dir : directlyAuthorizedPath fs p op path = Some dir → alias path dir.
Proof.
  unfold directlyAuthorizedPath. destruct (authorizePath fs p op path) as [r|] eqn:E; [|done].
  destruct (existsb _ _); [|done]. intros [= <-]. by eapply authorized_alias.
Qed.
Lemma List_shown s path es e :
  List_ fs s path = Ok es → e ∈ es →
  ∃ d, alias path d ∧ (overlaidEntry s d e ∨ shown (s_Policy s) d e).
Proof.
  unfold List_. destruct (cleanHostPath path) as [clean|] eqn:Hc; [|done].
  assert (∀ d, alias clean d → alias path d) as Hal by (intros d Hd; eapply rtc_l; [by right|done]).
  assert (∀ dir, alias path dir → listLegacy fs s dir = Ok es → e ∈ es →
    ∃ d, alias path d ∧ (overlaidEntry s d e ∨ shown (s_Policy s) d e)) as Hleg.
  { intros dir Hd H He. destruct (listLegacy_shown s dir es e H He) as [Ho|(d&Hd'&Hs)]; [exists dir; auto|].
    exists d. split; [by etrans|by right]. }
  destruct (v_DepthExceeded _); [done|]. destruct (hiddenV _ && _); [done|]. destruct (v_ExplicitDomain _).
  - destruct (directlyAuthorizedPath _ _ _ _) as [dir|] eqn:Hd; [apply Hleg, Hal; by eapply direct_alias|].
    destruct (negb _); [done|]. unfold listDiscovered. destruct (negb _); [done|].
    destruct (fs_ReadDir fs clean) as [names|]; [|done]. destruct (_ <? _); [done|]. intros H He.
    destruct (discoveredEntries_shown _ _ _ _ _ _ H He) as [Hs _]. exists clean. split; [apply Hal, rtc_refl|by right].
  - destruct (authorizePath fs (s_Policy s) OpList path) as [dir|] eqn:Ha; [apply Hleg; by eapply authorized_alias|].
    destruct (syntheticDir _ _ _); [|done]. intros [= <-] He. apply syntheticEntries_shown in He as (d&?&?). eauto.
Qed.

(** ** The overlay of the session's store *)

(** The bytes of a staged operation: of its content object, if it has one. *)
Definition stagedBytes (f : OverlayFiles) (op : Operation) (data : list Z) : Prop :=
  if isContentOp (op_Operation op) then of_objects f !! objectName (op_ContentObject op) = Some data else data = [].
Lemma storeOverlay_view `{TimeSort} st path v :
  o_View (storeOverlay st) path = Ok (Some v) → ov_Deleted v = false → ov_Kind v = "file" →
  ∃ op, latest (os_files st) path = Some op ∧ stagedBytes (os_files st) op (ov_Data v).
Proof.
  unfold storeOverlay. cbn [o_View]. destruct (View path st) as [st' r] eqn:E. cbn [snd].
  apply View_run in E as [_ [->| ->]]; [|done]. unfold viewNow, stagedBytes.
  destruct (latest (os_files st) path) as [op|]; [|done]. intros Hv Hd Hk. exists op. split; [done|].
  destruct (isContentOp _) eqn:Hc; [destruct (of_objects _ !! _); [by injection Hv as <-|done]|].
  unfold viewFromOperation in Hv. rewrite Hc in Hv. revert Hv.
  repeat match goal with |- context [String.eqb ?a ?b] => destruct (String.eqb a b) end; cbn; try done; by intros [= <-].
Qed.
Lemma storeOverlay_entries `{TimeSort} st dir l x :
  o_Entries (storeOverlay st) dir = Ok l → x ∈ l →
  ∃ op, op ∈ storedOps (os_files st) ∧ placed (Clean dir) op (oe_Name x).
Proof.
  unfold storeOverlay. cbn [o_Entries]. destruct (Entries dir st) as [st' [l'|]] eqn:E; [|done]. intros [= <-].
  by eapply Entries_placed.
Qed.

(** ** Writes and host applications *)

Lemma authorizeWritePath_ok p op path d :
  authorizeWritePath fs p op path = Ok d →
  ∃ clean target, cleanHostPath path = Ok clean ∧ pathInReservedRoots clean (p_ReservedRoots p) = false ∧
    fd_Effect (Decide h p op clean) ≠ "deny" ∧ (∀ i, fs_Lstat fs clean = Ok i → isSymlink i = false) ∧
    (target = clean ∨ h_EvalSymlinks h clean = Ok target) ∧ d = Decide h p op target ∧ fd_Allowed d = true.
Proof.
  unfold authorizeWritePath. destruct (cleanHostPath path) as [clean|]; [|done].
  destruct (pathInReservedRoots _ _) eqn:Hres; [done|].
  destruct (denied (Decide h p op clean)) eqn:Hd; [by destruct (visibleDomain _)|].
  apply not_denied in Hd. intros H.
  assert (∀ i, fs_Lstat fs clean = Ok i → isSymlink i = false) as Hl.
  { intros i Hi. rewrite Hi in H. by destruct (isSymlink i). }
  assert (∃ target, (target = clean ∨ h_EvalSymlinks h clean = Ok target) ∧
    d = Decide h p op target ∧ fd_Allowed d = true) as (t&?&?&?); [|by exists clean, t].
  clear Hd Hl. destruct (fs_Lstat fs clean) as [i|e]; [destruct (isSymlink i); [done|];
    destruct (h_EvalSymlinks h clean) as [r|] eqn:He; [destruct (String.eqb r clean)|]|destruct e].
  all: try discriminate H.
  2: { destruct (_ || _) eqn:Hr; [by destruct (_ && _)|]. apply orb_false_iff in Hr as [_ Hr%negb_false_iff].
       injection H as <-. exists r. auto. }
  all: destruct (fd_Allowed (Decide h p op clean)) eqn:Ha; [injection H as H; exists clean; subst; auto|by destruct (visibleDomain _)].
Qed.
End service.

(** ** Host application resources *)

Section resources.
Context (fs : FileSystem).
Local Abbreviation h := (fs_Host fs).

(** The policy a resource is judged by: the service's at the present time. *)
Definition presentPolicy (s : Service) : EffectivePolicy := (s_Policy s) <| p_Now := UTC (s_now s) |>.

Lemma dynamicRead_ok authority p clean canonical :
  dynamicRead fs authority p clean canonical = Ok tt →
  visibleDomain (Visibility h p clean) = true ∧ visibleDomain (Visibility h p canonical) = true ∧
  match ra_AllowsHostAppResourceRead authority with
  | Some f => f (mkReadGrantCheck clean canonical (Visibility h p clean)) = Ok true
  | None => ra_AllowsRead authority (mkReadGrantCheck clean canonical (Visibility h p clean)) = Ok true
  end.
Proof.
  unfold dynamicRead, visibleDomain. destruct (_ || _ || _ || _) eqn:E; [done|].
  rewrite !orb_false_iff, !negb_false_iff in E. destruct E as [[[-> ->] ->] ->].
  destruct (ra_AllowsHostAppResourceRead authority) as [f|]; [destruct (f _) as [[]|[]]|
    destruct (ra_AllowsRead authority _) as [[]|[]]]; done.
Qed.

(** A resolved resource: a tree the policy authorises as a whole, or a regular
    file the policy or the read authority grants. *)
Lemma resolve_ok s owner path revalidation r :
  resolveHostAppResource fs s owner path revalidation = Ok r →
  ∃ resolved, cleanHostPath path = Ok (hr_requestedPath r) ∧ h_EvalSymlinks h (hr_requestedPath r) = Ok resolved ∧
    hr_canonicalPath r = Clean resolved ∧ fs_Stat fs (hr_canonicalPath r) = Ok (hr_info r) ∧
    let p := presentPolicy s in
    denied (Decide h p (hr_operation r) (hr_requestedPath r)) = false ∧
    denied (Decide h p (hr_operation r) (hr_canonicalPath r)) = false ∧
    if isDir (hr_info r)
    then hr_resourceType r = HostAppResourceTree ∧ AuthorizesHostAppTree fs p (hr_canonicalPath r) = true
    else hr_resourceType r = HostAppResourceFile ∧ hr_operation r = OpRead ∧ isRegular (hr_info r) = true ∧
      (fd_Allowed (Decide h p OpRead (hr_canonicalPath r)) = true ∨
       ∃ authority, s_ReadAuthority s = Some authority ∧
         dynamicRead fs authority p (hr_requestedPath r) (hr_canonicalPath r) = Ok tt).
Proof.
  unfold resolveHostAppResource. fold (presentPolicy s). destruct (s_ReadAuthority s) as [authority|]; [|done].
  destruct (ra_ValidateHostAppResource authority) as [validator|]; [|done]. destruct (_ || _); [done|].
  destruct (cleanHostPath path) as [clean|] eqn:Hc; [|done]. destruct (pathInReservedRoots _ _); [done|].
  destruct (h_EvalSymlinks h clean) as [resolved|] eqn:He; [|done]. destruct (pathInReservedRoots _ _); [done|].
  destruct (fs_Stat fs (Clean resolved)) as [info|] eqn:Hs; [|done]. destruct (_ && _) eqn:Hkind; [done|].
  destruct (_ || _) eqn:Hd; [done|]. rewrite !orb_false_iff in Hd. destruct Hd as [[Hd1 Hd2] Htree].
  intros ([]&Hgrant&H)%result_bind_ok. destruct (validator _) as [?|[]]; [|done..]. injection H as <-. simpl.
  exists resolved. split_and!; [done..|]. destruct (isDir info) eqn:Hdir; simpl in *.
  { split; [done|]. by apply negb_false_iff in Htree. }
  rewrite andb_true_r in Hkind. apply negb_false_iff in Hkind. split_and!; [done..|].
  destruct (String.eqb_spec (Clean resolved) clean) as [Heq|Hne].
  - rewrite Heq in *. destruct (fd_Allowed _); [by left|]. right. by exists authority.
  - destruct (fd_Allowed (Decide h _ OpRead (Clean resolved))); [by left|]. right. by exists authority.
Qed.
End resources.

(** ** The properties *)

(** C16: A listing names no entry whose discovery is denied, and shows the size
    and the mode only of an entry the policy shows in full; the exceptions are the
    names of the live writes the session itself has staged in that directory. *)
Theorem listing_hides_denied `{TimeSort} fs s overlay path es e :
  s_Overlay s = storeOverlay <$> overlay → List_ fs s path = Ok es → e ∈ es →
  ∃ dir, alias fs path dir ∧
    (shown fs (s_Policy s) dir e ∨
     ∃ st op, overlay = Some st ∧ op ∈ storedOps (os_files st) ∧ placed (Clean dir) op (de_Name e)).
Proof.
  intros Ho Hl He. destruct (List_shown fs s path es e Hl He) as (d&Hd&[(o&l&x&Hs&Hx&Hin&_&->)|Hs]); exists d; (split; [done|]).
  - right. rewrite Ho in Hs. destruct overlay as [st|]; [|done]. injection Hs as <-.
    destruct (storeOverlay_entries st d l x Hx Hin) as (op&?&?). by exists st, op.
  - by left.
Qed.

(** C12: A directory is handed to a host application only when the guest could
    read and list everything below it itself: the policy allows both operations
    on every path of the tree, but for paths that match a deny rule which has
    expired, or a deny glob that has a class or an escape, that has a [?] where the
    path is not ASCII, or that is matched on a host that folds case. *)
Theorem host_app_tree_not_wider fs s owner path revalidation r q c op :
  wfPolicy (presentPolicy s) →
  resolveHostAppResource fs s owner path revalidation = Ok r → hr_resourceType r = HostAppResourceTree →
  cleanHostPath q = Ok c → pathInRoot c (hr_canonicalPath r) = true → op = OpRead ∨ op = OpList →
  fd_Allowed (Decide (fs_Host fs) (presentPolicy s) op q) = true ∨
  ∃ d, d ∈ p_Deny (s_Policy s) ∧ ruleMatches (fs_Host fs) (g_Rule d) op c true = true ∧
    overlooked fs (UTC (s_now s)) (g_Rule d) c.
Proof.
  intros Hw Hr Htype Hq Hin Hop. apply resolve_ok in Hr as (resolved&_&_&_&_&_&_&Hr).
  destruct (isDir (hr_info r)); [|destruct Hr as [Hr _]; by rewrite Hr in Htype]. destruct Hr as [_ Hauth].
  destruct (cleanHostPath (hr_canonicalPath r)) as [root|] eqn:Hroot;
    [|unfold AuthorizesHostAppTree in Hauth; by rewrite Hroot in Hauth].
  destruct (tree_permits fs (presentPolicy s) (hr_canonicalPath r) root c op) as [Hover Hperm]; auto.
  - by eapply cleanHostPath_idem.
  - pose proof (cleanHostPath_Clean _ _ Hroot) as Hcl.
    unfold pathInRoot in *. rewrite (cleanHostPath_Clean _ _ (cleanHostPath_idem _ _ Hroot)). by rewrite Hcl in Hin.
  - destruct (decide (Forall (λ d, ruleMatches (fs_Host fs) (g_Rule d) op c true = false) (p_Deny (s_Policy s)))) as [Hno|Hsome].
    + left. apply Decide_allowed. split; [by destruct Hop as [-> | ->]|]. exists c. auto.
    + right. apply not_Forall_Exists in Hsome; [|apply _]. apply Exists_exists in Hsome as (d&Hd&Hm%not_false_iff_true).
      exists d. split_and!; [done|done|by apply Hover].
Qed.

Module ServiceSample.
Import HostFSSpec.Sample.
(** A host with a directory /home/u/work of two files. *)
Definition dirInfo (id : Z) : FileInfo := mkFileInfo KindDir 0 "drwxr-xr-x" now id.
Definition fileInfo (id : Z) : FileInfo := mkFileInfo KindRegular 3 "-rw-r--r--" now id.
Definition stat (path : string) : result FsError FileInfo :=
  if String.eqb path "/home/u/work" then Ok (dirInfo 1)
  else if String.eqb path "/home/u/work/a" then Ok (fileInfo 2)
  else if String.eqb path "/home/u/work/b" then Ok (fileInfo 3) else Err FsNotExist.
Definition files (folds : bool) : FileSystem :=
  mkFileSystem (mkHost Ok "/home/u" folds (λ s, s)) stat stat
    (λ path, if String.eqb path "/home/u/work" then Ok ["a"; "b"] else Err FsNotExist)
    (λ path offset max, Ok ([104; 105; 33], true)).
Definition authority : ReadAuthority := mkReadAuthority (λ _, Ok false) None (Some (λ _, Ok tt)).
Definition service (grants denies : list Rule) : Service :=
  mkService (built (fs_Host (files false)) grants denies) 0 0 None (Some authority) noContext true now.
(** The tree is granted, one file of it denied to discovery. *)
Definition noDiscover : Rule := ruleOf "/home/u/work/b" [OpDiscover] false ScopeExactFile "private".
Definition worker : Service := service [tree "/home/u/work"] [noDiscover].
(** The tree is granted, keys elsewhere are denied. *)
Definition handover : Service := service [tree "/home/u/work"] [deny "/home/u/private/*.key" ScopeGlob].
Definition owner : HostAppResourceOwner := mkOwner "session" "profile".
End ServiceSample.

Lemma listing_hides_denied_witness :
  List_ (ServiceSample.files false) ServiceSample.worker "/home/u/work" =
    Ok [mkDirEntry "a" "file" 3 "-rw-r--r--" false [] false] ∧
  ∃ dir, alias (ServiceSample.files false) "/home/u/work" dir ∧
    shown (ServiceSample.files false) (s_Policy ServiceSample.worker) dir
      (mkDirEntry "a" "file" 3 "-rw-r--r--" false [] false).
Proof.
  assert (List_ (ServiceSample.files false) ServiceSample.worker "/home/u/work" =
    Ok [mkDirEntry "a" "file" 3 "-rw-r--r--" false [] false]) as E by (vm_compute; reflexivity).
  split; [exact E|].
  destruct (@listing_hides_denied OverlaySample.mergeSort (ServiceSample.files false) ServiceSample.worker None "/home/u/work"
    [mkDirEntry "a" "file" 3 "-rw-r--r--" false [] false] (mkDirEntry "a" "file" 3 "-rw-r--r--" false [] false))
    as (dir&Hd&[Hs|(st&op&H&_)]); [reflexivity|exact E|by left|by exists dir|discriminate H].
Defined.

Lemma host_app_tree_not_wider_witness :
  fd_Allowed (Decide (fs_Host (ServiceSample.files false)) (presentPolicy ServiceSample.handover)
    OpRead "/home/u/work/a/../b") = true.
Proof.
  destruct (host_app_tree_not_wider (ServiceSample.files false) ServiceSample.handover
    ServiceSample.owner "/home/u/work" false
    (mkResource "/home/u/work" "/home/u/work" "work" "tree" "list" (ServiceSample.dirInfo 1))
    "/home/u/work/a/../b" "/home/u/work/b" OpRead) as [H|(d&Hd&Hm&_)].
  - vm_compute. split_and!; repeat constructor.
  - vm_compute. reflexivity.
  - reflexivity.
  - reflexivity.
  - vm_compute. reflexivity.
  - by left.
  - exact H.
  - exfalso. apply list_elem_of_In in Hd. vm_compute in Hd.
    repeat (destruct Hd as [<-|Hd]; [vm_compute in Hm; discriminate Hm|]). destruct Hd.
Defined.
