(* ===== verification/HostFSFindings.v ===== *)
(** * Where the HostFS service is wider than its policy says

    An expired deny rule still binds the guest and no longer the handing over of a
    tree; only glob rules follow the case folding of the host; and an append that is
    only staged shows the session the host's file.  The lemmas after them are
    concrete policies. *)
From S2P Require Import Prelude StateRules GoStrings GoTime GoRunes GoPath GoGlob HostTree HostFS HostFSSpec.
From S2P Require Import Overlay OverlaySpec OverlayStageSpec HostFSService HostFSServiceSpec.
Import HostFSSpec.Sample ServiceSample.
Open Scope Z_scope.

(** C33: A deny rule that has expired since the policy was built is judged in two ways: the check
    that lets a whole tree be handed to a host application ignores it, while the guest is still
    refused every operation on every path the rule matches. *)
Theorem expired_deny_binds_guest_only fs p root d op q c :
  AuthorizesHostAppTree fs p root = true → ruleExpired (g_Rule d) (p_Now p) = true →
  cleanHostPath q = Ok c → ruleMatches (fs_Host fs) (g_Rule d) op c true = true →
  let p' := p <| p_Deny ::= cons d |> in
  AuthorizesHostAppTree fs p' root = true ∧ fd_Allowed (Decide (fs_Host fs) p' op q) = false.
Proof.
  intros Ha He Hq Hm p'. split.
  - revert Ha. unfold AuthorizesHostAppTree. cbn. by rewrite He.
  - apply not_true_is_false. intros (_&c'&Hq'&Hp)%Decide_allowed. rewrite Hq in Hq'. injection Hq' as <-.
    destruct Hp as (_&Hd&_).
    specialize (Hd d ltac:(by left)). congruence.
Qed.


(** C37: A staged append shows the session what the host's file holds: where nothing was staged
    before (and the clock moved on), a read through the session's service returns the bytes of the
    host's file followed by the appended ones, cut at the read limit, whatever the policy and the
    read authority of the service say; only a failing read of the store prevents it. *)
Theorem staged_append_discloses `{TimeSort} K req q s s1 op d host fs svc :
  Stage K req s = (s1, Ok (op, d)) → sq_Operation req = "append" → cleanRequest req = Ok q →
  (∀ k o, of_operations (os_files s) !! k = Some o → unixNano (op_CreatedAt o) < unixNano (op_CreatedAt op)) →
  latest (os_files s) (sq_Path q) = None → readFile K (os_tree s) (sq_Path q) = Ok host →
  s_Overlay svc = Some (storeOverlay s1) → (View (sq_Path q) s1).2 ≠ Err OvIO →
  let limit := if s_MaxReadBytes svc <=? 0 then DefaultMaxReadBytes else s_MaxReadBytes svc in
  ∃ r, Read fs svc (sq_Path q) 0 0 = Ok r ∧ rr_Data r = take (Z.to_nat limit) (host ++ sq_Data req)%list.
Proof.
  intros HS Ha Hq Hnew Hl Hh Ho Hio limit.
  destruct (staged_view K req s s1 op d HS ltac:(by rewrite Ha) Hnew) as (q'&Hq'&_&Hv). rewrite Hq in Hq'. injection Hq' as <-.
  assert (edited q (before K (os_files s) (os_tree s) (sq_Path q)) = host ++ sq_Data req)%list as Hc.
  { destruct (cleanRequest_content _ _ Hq) as [Hop Hdata]. unfold before, contentNow, viewNow, edited.
    by rewrite Hl, Hh, Hop, Hdata, Ha. }
  rewrite Hc in Hv. cbv zeta in Hv. set (content := (host ++ sq_Data req)%list) in *.
  assert ((View (sq_Path q) s1).2 = viewNow (os_files s1) (sq_Path q)) as E.
  { destruct (View (sq_Path q) s1) as [s2 v] eqn:E. apply View_run in E as [_ [->| ->]]; [done|done]. }
  assert (0 < limit) as Hpos by (unfold limit; destruct (Z.leb_spec (s_MaxReadBytes svc) 0); [done|lia]).
  eexists. split.
  { unfold Read. cbn [Z.ltb Z.eqb Z.compare orb]. fold limit. unfold overlayRead. rewrite Ho. unfold storeOverlay at 1. cbn [o_View].
    rewrite E, Hv. cbn [mbind result_bind ov_Deleted ov_Kind ov_Data negb orb].
    rewrite (proj2 (Z.ltb_ge (Z.of_nat (length content)) 0)) by lia. reflexivity. }
  cbn [rr_Data]. rewrite Z.sub_0_r, Z.add_0_l. change (drop (Z.to_nat 0) content) with content.
  destruct (Z.le_ge_cases limit (Z.of_nat (length content))); [by rewrite Z.min_l by lia|].
  rewrite Z.min_r by lia. by rewrite !firstn_all2 by lia.
Qed.

(** ** On the sample host *)

(** A host that folds case, with the lower case of ASCII letters. *)
Fixpoint asciiLower (s : string) : string :=
  match s with
  | EmptyString => EmptyString
  | String c s =>
      let n := Ascii.N_of_ascii c in
      String (if ((65 <=? n) && (n <=? 90))%N then Ascii.ascii_of_N (n + 32) else c) (asciiLower s)
  end.
Definition foldingHost : Host := mkHost Ok "/home/u" true asciiLower.
Definition guarded (denial : Rule) : EffectivePolicy := built foldingHost [tree "/home/u/work"] [denial].

(** As a glob the rule covers both spellings; with an exact path, a directory or a
    tree it covers only its own, and below a granted tree the other is readable. *)
Lemma case_variant_evades_deny :
  fd_Effect (Decide foldingHost (guarded (deny "/home/u/work/Secre[t]" ScopeGlob)) OpRead "/home/u/work/secret") = "deny" ∧
  Forall (λ scope,
    let p := guarded (deny "/home/u/work/Secret" scope) in
    fd_Effect (Decide foldingHost p OpRead "/home/u/work/Secret") = "deny" ∧
    fd_Allowed (Decide foldingHost p OpRead "/home/u/work/secret") = true)
    [ScopeExactFile; ScopeDir; ScopeRecursiveDir].
Proof. split; [vm_compute; reflexivity|]. repeat constructor; vm_compute; reflexivity. Qed.

(** A deny rule that has lapsed at the time of the check. *)
Definition lapsed : Grant :=
  mkGrant ((deny "/home/u/work/b" ScopeExactFile) <| r_ExpiresAt := Some (p_Now (presentPolicy worker)) |>) "profile" 0.
Definition granting : EffectivePolicy := presentPolicy (service [tree "/home/u/work"] []).
Lemma expired_deny_binds_guest_only_witness :
  AuthorizesHostAppTree (files false) (granting <| p_Deny ::= cons lapsed |>) "/home/u/work" = true ∧
  fd_Allowed (Decide (fs_Host (files false)) (granting <| p_Deny ::= cons lapsed |>) OpRead "/home/u/work/b") = false.
Proof.
  apply (expired_deny_binds_guest_only (files false) granting "/home/u/work" lapsed OpRead "/home/u/work/b" "/home/u/work/b");
    vm_compute; reflexivity.
Defined.

(** A session whose policy grants nothing appends to the file of the sample host. *)
#[local] Existing Instance OverlaySample.mergeSort.
Definition blind : Service :=
  mkService (built (fs_Host (files false)) [] []) 0 0
    (Some (storeOverlay (OverlaySample.staged OverlaySample.appending OverlaySample.state))) (Some authority) noContext true now.
Lemma staged_append_discloses_witness :
  ∃ r, Read (files false) blind "/home/u/work/a" 0 0 = Ok r ∧ rr_Data r = [104; 105; 33].
Proof.
  destruct (staged_append_discloses OverlaySample.kernel OverlaySample.appending OverlaySample.appending OverlaySample.state
    (OverlaySample.staged OverlaySample.appending OverlaySample.state)
    (OverlaySample.operationOf OverlaySample.appending OverlaySample.state)
    (OverlaySample.decisionOf OverlaySample.appending OverlaySample.state) [104; 105] (files false) blind) as (r&Hr&Hd).
  - apply OverlaySample.staged_ok. vm_compute. reflexivity.
  - reflexivity.
  - vm_compute. reflexivity.
  - intros k o H. cbn in H. rewrite lookup_empty in H. discriminate H.
  - vm_compute. reflexivity.
  - vm_compute. reflexivity.
  - reflexivity.
  - vm_compute. discriminate.
  - exists r. split; [exact Hr|]. rewrite Hd. vm_compute. reflexivity.
Defined.

(** A negated class matches the path separator, so this pattern matches a path
    with one name more than the pattern has elements: the tree is resolved for a
    host application although the same policy denies reading a file of it. *)
Definition crossing : Rule := deny "/home/u/work[^x]a" ScopeGlob.
Definition crossed : Service := service [tree "/home/u/work"] [crossing].
Lemma negated_class_widens_tree :
  resolveHostAppResource (files false) crossed owner "/home/u/work" false =
    Ok (mkResource "/home/u/work" "/home/u/work" "work" HostAppResourceTree OpList (dirInfo 1)) ∧
  fd_Effect (Decide (fs_Host (files false)) (presentPolicy crossed) OpRead "/home/u/work/a") = "deny".
Proof. split; vm_compute; reflexivity. Qed.
