(* ===== verification/ReadGrant.v ===== *)
(** * Read grants (src/internal/hostfs/readgrant)

    The two files a session keeps for its HostFS reads: the state of its
    requests and the manifest of its grants, with the checks both pass on every
    load and save ([Validate]), the search for an active grant ([FindActive]),
    and the outcome of probing the lock of the session's owner.  The JSON text
    of the files is not modelled: a file holds the value written to it. *)
From Stdlib Require Import Ascii.
From S2P Require Import Prelude GoStrings GoTime GoPath.
Open Scope Z_scope.

Definition GrantVersion : string := "hideout.hostfs-read-grants/v1".
Definition ProviderVersion : string := "hideout.hostfs-read-provider/v1".
Definition OperationRead : string := "read".
Definition MaxGrantLifetime : Z := 24 * Hour.

(** [session.ValidID] *)
Definition backslash : ascii := "\"%char.
Definition ValidID (sessionID : string) : bool :=
  String.eqb (TrimSpace sessionID) sessionID && HasPrefix sessionID "ses_"
  && negb (ContainsByte sessionID slash || ContainsByte sessionID backslash
           || String.eqb sessionID "." || String.eqb sessionID "..").

(** ** The records *)

Record ReadGrant := mkReadGrant {
  gr_DecisionID : string; gr_Revision : Z; gr_Operation : string; gr_RequestedPath : string;
  gr_CanonicalPath : string; gr_VisibilityRuleID : string; gr_VisibilitySource : string;
  gr_IssuedAt : Time; gr_ExpiresAt : Time }.

Record Manifest := mkManifest {
  mf_Version : string; mf_SessionID : string; mf_Generation : Z; mf_UpdatedAt : Time;
  mf_Grants : list ReadGrant }.

Record RequestRecord := mkRecord {
  rq_KeyDigest : string; rq_DecisionID : string; rq_RequestedPath : string; rq_CanonicalPath : string;
  rq_Operation : string; rq_Profile : string; rq_Backend : string; rq_VisibilityRule : string;
  rq_VisibilitySource : string; rq_VisibilityRoot : string; rq_VisibilityScope : string;
  rq_UntrustedReason : string; rq_State : string; rq_Revision : Z; rq_SuppressedCount : Z;
  rq_LastSuppressedAt : Time; rq_CreatedAt : Time; rq_TimeoutAt : Time }.
#[global] Instance RequestRecord_eta : Eta RequestRecord := λ r,
  mkRecord (rq_KeyDigest r) (rq_DecisionID r) (rq_RequestedPath r) (rq_CanonicalPath r) (rq_Operation r)
    (rq_Profile r) (rq_Backend r) (rq_VisibilityRule r) (rq_VisibilitySource r) (rq_VisibilityRoot r)
    (rq_VisibilityScope r) (rq_UntrustedReason r) (rq_State r) (rq_Revision r) (rq_SuppressedCount r)
    (rq_LastSuppressedAt r) (rq_CreatedAt r) (rq_TimeoutAt r).

(** [Requests] is never nil in a state that was loaded or built. *)
Record ProviderState := mkProviderState {
  ps_Version : string; ps_SessionID : string; ps_Requests : gmap string RequestRecord;
  ps_CreationTimes : list Time; ps_UpdatedAt : Time }.
#[global] Instance ProviderState_eta : Eta ProviderState := λ s,
  mkProviderState (ps_Version s) (ps_SessionID s) (ps_Requests s) (ps_CreationTimes s) (ps_UpdatedAt s).

(** ** Checks *)

Inductive GrantError := ErrGrant (what : string).
Abbreviation GR := (result GrantError).
Definition ensure (b : bool) (what : string) : GR () := guard_err b (ErrGrant what).

Definition validateAbsolutePath (path : string) : GR () :=
  ensure (String.eqb (TrimSpace path) path && IsAbs path && String.eqb (Clean path) path
          && negb (ContainsByte path backslash) && negb (HasPrefix path "//"))
    "path must be a clean absolute host path".

Definition oneOf (s : string) (l : list string) : bool := existsb (String.eqb s) l.
Definition visibilitySource (s : string) : bool := oneOf s ["profile"; "environment"; "run"].

Definition Grant_Validate (g : ReadGrant) : GR () :=
  ensure (HasPrefix (gr_DecisionID g) "dec_hfr_" && negb (String.eqb (gr_DecisionID g) "dec_hfr_"))
    "decisionId must be an opaque HostFS read decision id";;
  ensure (negb (gr_Revision g <? 1)) "revision must be positive";;
  ensure (String.eqb (gr_Operation g) OperationRead) "operation must be read";;
  validateAbsolutePath (gr_RequestedPath g);;
  validateAbsolutePath (gr_CanonicalPath g);;
  ensure (negb (String.eqb (TrimSpace (gr_VisibilityRuleID g)) "")) "visibilityRuleId is required";;
  ensure (visibilitySource (gr_VisibilitySource g)) "unsupported visibilitySource";;
  ensure (negb (IsZero (gr_IssuedAt g) || IsZero (gr_ExpiresAt g) || negb (After (gr_ExpiresAt g) (gr_IssuedAt g))))
    "issuedAt and later expiresAt are required";;
  ensure (negb (MaxGrantLifetime <? Sub (gr_ExpiresAt g) (gr_IssuedAt g))) "grant lifetime exceeds 24h".

Definition authorityKey (g : ReadGrant) : string :=
  gr_Operation g +:+ String zero (gr_RequestedPath g +:+ String zero (gr_CanonicalPath g)).
Fixpoint validateGrants (seen : list string) (grants : list ReadGrant) : GR () :=
  match grants with
  | [] => mret tt
  | g :: grants =>
      Grant_Validate g;;
      ensure (negb (oneOf (authorityKey g) seen)) "duplicate exact authority";;
      validateGrants (authorityKey g :: seen) grants
  end.
Definition Manifest_Validate (m : Manifest) (sessionID : string) : GR () :=
  ensure (String.eqb (mf_Version m) GrantVersion) "grant version";;
  ensure (String.eqb (mf_SessionID m) sessionID && ValidID (mf_SessionID m))
    "grant sessionId does not match store session";;
  ensure (negb (mf_Generation m =? 0)) "grant generation must be positive";;
  ensure (negb (IsZero (mf_UpdatedAt m))) "grant updatedAt is required";;
  validateGrants [] (mf_Grants m).

Definition activeGrant (operation requestedPath canonicalPath : string) (now : Time) (g : ReadGrant) : bool :=
  String.eqb (gr_Operation g) operation && String.eqb (gr_RequestedPath g) requestedPath
  && String.eqb (gr_CanonicalPath g) canonicalPath && Before now (gr_ExpiresAt g)
  && negb (Before now (gr_IssuedAt g)).
Definition FindActive (m : Manifest) (operation requestedPath canonicalPath : string) (now : Time) :
    option ReadGrant :=
  match Manifest_Validate m (mf_SessionID m) with
  | Err _ => None
  | Ok _ => List.find (activeGrant operation requestedPath canonicalPath now) (mf_Grants m)
  end.

(** The switch on the state of a request. *)
Definition requestStates : list string :=
  ["pending"; "claimed"; "applied"; "denied"; "timed-out"; "failed"; "stale"].
Definition validateRequest (key : string) (r : RequestRecord) : GR () :=
  ensure (negb (String.eqb (TrimSpace key) "" || negb (String.eqb (rq_KeyDigest r) key)
      || negb (HasPrefix (rq_DecisionID r) "dec_hfr_") || negb (String.eqb (rq_Operation r) OperationRead)
      || String.eqb (TrimSpace (rq_Profile r)) "" || String.eqb (TrimSpace (rq_Backend r)) ""
      || String.eqb (TrimSpace (rq_VisibilityRule r)) "" || (rq_Revision r <? 1)
      || IsZero (rq_CreatedAt r) || IsZero (rq_TimeoutAt r))) "invalid provider request";;
  validateAbsolutePath (rq_RequestedPath r);;
  validateAbsolutePath (rq_CanonicalPath r);;
  validateAbsolutePath (rq_VisibilityRoot r);;
  ensure (visibilitySource (rq_VisibilitySource r)) "unsupported visibilitySource";;
  ensure (oneOf (rq_VisibilityScope r) ["exact-file"; "dir"; "recursive-dir"]) "unsupported visibilityScope";;
  ensure (negb (512 <? Z.of_nat (String.length (rq_UntrustedReason r)))) "untrustedReason exceeds 512 bytes";;
  ensure (oneOf (rq_State r) requestStates) "unsupported state";;
  ensure (negb ((0 <? rq_SuppressedCount r) && IsZero (rq_LastSuppressedAt r)))
    "suppressed count requires lastSuppressedAt".
Fixpoint validateRequests (l : list (string * RequestRecord)) : GR () :=
  match l with
  | [] => mret tt
  | (key, r) :: l => validateRequest key r;; validateRequests l
  end.
Definition State_Validate (s : ProviderState) (sessionID : string) : GR () :=
  ensure (String.eqb (ps_Version s) ProviderVersion && String.eqb (ps_SessionID s) sessionID
          && ValidID (ps_SessionID s)) "provider state version/session mismatch";;
  validateRequests (map_to_list (ps_Requests s));;
  ensure (forallb (λ t, negb (IsZero t)) (ps_CreationTimes s)) "provider creationTimes contains zero timestamp";;
  ensure (negb (IsZero (ps_UpdatedAt s)
      && ((0 <? Z.of_nat (size (ps_Requests s))) || (0 <? Z.of_nat (length (ps_CreationTimes s))))))
    "provider updatedAt is required for non-empty state".

(** ** The owner of a session (owner.go)

    Probing tries to take the lock: a lock that is held proves the owner alive,
    a lock that is free proves it gone, anything else proves nothing. *)
Inductive FlockAttempt := FlockBlocked | FlockTaken | FlockFailed.
Inductive Liveness := SessionLive | SessionNotLive | SessionUnprovable.
Definition ProbeOwner (opened : bool) (flock : FlockAttempt) : Liveness :=
  if opened then
    match flock with
    | FlockBlocked => SessionLive
    | FlockTaken => SessionNotLive
    | FlockFailed => SessionUnprovable
    end
  else SessionUnprovable.

(** ** Lemmas *)

Lemma ensure_ok b what : ensure b what = Ok tt ↔ b = true.
Proof. unfold ensure. by destruct b. Qed.
Lemma oneOf_true s l : oneOf s l = true ↔ s ∈ l.
Proof.
  unfold oneOf. rewrite existsb_true. split; [by intros (x&Hx&->%String.eqb_eq)|].
  intros H. exists s. by rewrite String.eqb_refl.
Qed.

(** What the checks of a manifest say: valid grants, no authority twice. *)
Lemma validateGrants_spec seen grants :
  validateGrants seen grants = Ok tt ↔
  Forall (λ g, Grant_Validate g = Ok tt) grants ∧ NoDup (authorityKey <$> grants) ∧
  ∀ g, g ∈ grants → authorityKey g ∉ seen.
Proof.
  revert seen. induction grants as [|g grants IH]; intros seen; simpl.
  { split; [|done]. intros _. split_and!; [constructor..|]. by intros ? ?%elem_of_nil. }
  split.
  - intros ([]&Hg&H)%result_bind_ok. apply result_bind_ok in H as ([]&Hs&H).
    apply ensure_ok, negb_true_iff in Hs. rewrite <-not_true_iff_false, oneOf_true in Hs.
    apply IH in H as (Hf&Hn&Hseen). split_and!; [by constructor| |].
    + constructor; [|done]. intros (g'&E&Hin)%list_elem_of_fmap. apply (Hseen g' Hin). rewrite E. by left.
    + intros g' [->|Hin]%elem_of_cons; [done|]. specialize (Hseen g' Hin). set_solver.
  - intros (Hf&Hn&Hseen). inversion Hf as [|?? Hg Hf']; subst. inversion Hn as [|?? Hni Hn']; subst. rewrite Hg. simpl.
    assert (oneOf (authorityKey g) seen = false) as ->.
    { rewrite <-not_true_iff_false, oneOf_true. apply Hseen. by left. }
    simpl. apply IH. split_and!; [done..|]. intros g' Hin [E|?]%elem_of_cons; [|by apply (Hseen g'); [right|]].
    apply Hni, list_elem_of_fmap. by exists g'.
Qed.
