(* ===== verification/HostFSRead.v ===== *)
(** * Approving host file reads (src/internal/manager/hostfs_read.go)

    A session that may see a file by name but not read it proposes the read;
    the proposal becomes a decision for the operator and a request record of
    the session.  Claiming, approving, denying and reopening the decision move
    the decision and the record together, an approval adds a grant to the
    session's manifest, and [AllowsRead] answers the HostFS service from the
    manifest, the decision and the present policy.

    The state is the decision store, the read files of every session, the
    outcomes of probing owner locks, the audit records and the calls of the
    lifecycle registry.  File operations, locks included, and the lifecycle
    calls fail as the decision store's sequence of outcomes says; all times are
    readings of its clock. *)
From Stdlib Require Import Ascii.
From S2P Require Import Prelude GoStrings GoTime GoHash GoRunes GoPath Redact Decision.
From S2P Require Import DecisionStore GoGlob HostFS HostFSService ReadGrant.
Open Scope Z_scope.

Definition hostFSReadDecisionTimeout : Z := 5 * Minute.
Definition hostFSReadRateWindow : Z := Minute.
Definition hostFSReadGrantLifetime : Z := 24 * Hour.
Definition hostFSReadPendingLimit : nat := 8.
Definition hostFSReadRateLimit : nat := 8.
Definition hostFSReadReasonMaxBytes : nat := 512.

(** ** The state *)

(** The read directory of a session: is it a private real directory, its lock
    file ([Some false]: not a regular file), and the two files. *)
Record SessionFiles := mkSessionFiles {
  sf_private : bool; sf_lock : option bool; sf_state : option ProviderState; sf_grants : option Manifest }.
#[global] Instance SessionFiles_eta : Eta SessionFiles := λ f,
  mkSessionFiles (sf_private f) (sf_lock f) (sf_state f) (sf_grants f).
Definition newFiles : SessionFiles := mkSessionFiles true None None None.

Record AuditEvent := mkAudit {
  ev_Action : string; ev_Decision : string; ev_Session : string; ev_Profile : string; ev_Backend : string;
  ev_DecisionID : string }.

Inductive LifecycleCall :=
  | RecordFact (sessionID id : string)
  | RegisterGrant (sessionID id : string)
  | ActivateGrant (sessionID id : string)
  | ReleaseGrant (sessionID id : string).

(** [w_lifecycle]: is there a lifecycle registry?  [w_calls] are the calls made
    of it, with their outcome. *)
Record World := mkWorld {
  w_store : Store;
  w_sessions : gmap string SessionFiles;
  w_owner : nat → bool * FlockAttempt; w_probes : nat;
  w_audit : list AuditEvent;
  w_lifecycle : bool; w_calls : list (LifecycleCall * bool) }.
#[global] Instance World_eta : Eta World := λ w,
  mkWorld (w_store w) (w_sessions w) (w_owner w) (w_probes w) (w_audit w) (w_lifecycle w) (w_calls w).

Inductive ManagerError :=
  | MNotLive | MUnprovable | MNotExist
  | MDecision (e : DecisionError)
  | MGrant (e : GrantError)
  | MRefused (what : string).
Abbreviation MM := (SE World ManagerError).

Definition refuse {A} (what : string) : MM A := fail (MRefused what).
Definition require (b : bool) (what : string) : MM () := if b then mret tt else refuse what.
Definition onStore {A} (m : DM A) : MM A := λ w,
  let '(s, r) := m (w_store w) in
  (w <| w_store := s |>, match r with Ok a => Ok a | Err f => Err (MDecision (f_error f)) end).
Definition mio : MM () := onStore io.
Definition mnow : MM Time := onStore now_.
Definition ofGrant {A} (r : GR A) : MM A := match r with Ok a => mret a | Err e => fail (MGrant e) end.

(** [Core.decisionStore] *)
Definition decisionStore : MM () :=
  w ← get_state; require (negb (String.eqb (st_root (w_store w)) "")) "manager store root is required".

(** [emitOperatorCenterAudit]: the directory, the file, the record. *)
Definition emitOperatorCenterAudit (e : AuditEvent) : MM () :=
  decisionStore;; mio;; mio;; mio;; modify (λ w, w <| w_audit ::= λ l, (l ++ [e])%list |>).
Definition emitDecisionAudit (action verdict : string) (d : Decision) : MM () :=
  emitOperatorCenterAudit (mkAudit action verdict (so_Session (d_Source d)) (so_Profile (d_Source d))
    (so_Backend (d_Source d)) (d_ID d)).
Definition ActionDecisionCreate : string := "decision.create".
Definition ActionDecisionClaim : string := "decision.claim".
Definition ActionDecisionTakeover : string := "decision.claim-takeover".
Definition ActionDecisionApply : string := "decision.apply".
Definition ActionDecisionDeny : string := "decision.deny".
Definition ActionDecisionReopen : string := "decision.reopen".
Definition ActionDecisionTimeout : string := "decision.timeout".
Definition ActionDecisionStale : string := "decision.stale-claim".

Definition lifecycleCall (c : LifecycleCall) : MM () :=
  r ← attempt mio;
  modify (λ w, w <| w_calls ::= λ l, (l ++ [(c, match r with Ok _ => true | Err _ => false end)])%list |>);;
  lift r.

(** ** The read store of a session (readgrant/store.go) *)

(** A handle: the session, and whether it may create files. *)
Record ReadStore := mkReadStore { rs_session : string; rs_create : bool }.

Definition filesOf (sessionID : string) (w : World) : option SessionFiles := w_sessions w !! sessionID.
Definition updateFiles (sessionID : string) (f : SessionFiles → SessionFiles) : MM () :=
  modify (λ w, w <| w_sessions ::= <[sessionID := f (default newFiles (filesOf sessionID w))]> |>).

Definition NewStore (dir sessionID : string) : MM ReadStore :=
  require (ValidID sessionID) "invalid session id";;
  let dir := Clean (TrimSpace dir) in
  require (negb (String.eqb dir "." || negb (IsAbs dir))) "HostFS read store directory must be absolute";;
  mio;; mio;;
  updateFiles sessionID (λ f, f <| sf_private := true |>);;
  mret (mkReadStore sessionID true).
Definition OpenStore (dir sessionID : string) : MM ReadStore :=
  require (ValidID sessionID) "invalid session id";;
  let dir := Clean (TrimSpace dir) in
  require (negb (String.eqb dir "." || negb (IsAbs dir))) "HostFS read store directory must be absolute";;
  mio;;
  w ← get_state;
  match filesOf sessionID w with
  | None => fail MNotExist
  | Some f =>
      require (sf_private f) "existing HostFS read store must be a private real directory";;
      mio;;
      match sf_lock f with
      | None => fail MNotExist
      | Some regular => require regular "existing HostFS read provider lock must be a regular file"
      end;;
      mret (mkReadStore sessionID false)
  end.

(** [withLock]: the results of the callback and of the deferred unlock and
    close; it fails itself when the lock is not taken. *)
Definition holding {A} (st : ReadStore) (m : MM A) :
    MM (result ManagerError A * result ManagerError ()) :=
  mio;;
  w ← get_state;
  match filesOf (rs_session st) w ≫= sf_lock with
  | Some _ => mret tt
  | None => if rs_create st then updateFiles (rs_session st) (λ f, f <| sf_lock := Some true |>) else fail MNotExist
  end;;
  taken ← attempt mio;
  match taken with
  | Err e => ignore_err mio;; fail e
  | Ok _ =>
      r ← attempt m;
      unlocked ← attempt mio;
      closed ← attempt mio;
      mret (r, match unlocked with Ok _ => closed | Err e => Err e end)
  end.
Definition withLock {A} (st : ReadStore) (m : MM A) : MM A :=
  '(r, released) ← holding st m;
  a ← lift r;
  lift released;;
  mret a.

Definition LoadManifest (st : ReadStore) : MM Manifest :=
  mio;;
  w ← get_state;
  match filesOf (rs_session st) w ≫= sf_grants with
  | None => fail MNotExist
  | Some m => ofGrant (Manifest_Validate m (rs_session st));; mret m
  end.
Definition SaveManifest (st : ReadStore) (m : Manifest) : MM () :=
  ofGrant (Manifest_Validate m (rs_session st));;
  mio;; updateFiles (rs_session st) (λ f, f <| sf_grants := Some m |>).
Definition emptyState (sessionID : string) : ProviderState :=
  mkProviderState ProviderVersion sessionID ∅ [] zeroTime.
Definition LoadState (st : ReadStore) : MM ProviderState :=
  mio;;
  w ← get_state;
  match filesOf (rs_session st) w ≫= sf_state with
  | None => mret (emptyState (rs_session st))
  | Some s => ofGrant (State_Validate s (rs_session st));; mret s
  end.
Definition SaveState (st : ReadStore) (s : ProviderState) : MM () :=
  ofGrant (State_Validate s (rs_session st));;
  mio;; updateFiles (rs_session st) (λ f, f <| sf_state := Some s |>).

(** [readgrant.ProbeOwner] of the session's owner lock. *)
Definition probeOwner : MM () := λ w,
  let '(opened, flock) := w_owner w (w_probes w) in
  (w <| w_probes ::= S |>,
   match ProbeOwner opened flock with
   | SessionLive => Ok tt | SessionNotLive => Err MNotLive | SessionUnprovable => Err MUnprovable
   end).

Definition sessionDir (root sessionID : string) : string :=
  Join (Join (Join root "sessions") sessionID) "hostfs-read".
Definition openHostFSReadStore (sessionID : string) : MM ReadStore :=
  decisionStore;;
  require (ValidID sessionID) "valid HostFS read session id is required";;
  w ← get_state;
  OpenStore (sessionDir (st_root (w_store w)) sessionID) sessionID.
Definition liveHostFSReadStore (sessionID : string) : MM ReadStore :=
  probeOwner;; openHostFSReadStore sessionID.

(** ** Requests *)

Definition hostFSReadKey (sessionID canonicalPath : string) : string :=
  hexSum256 (sessionID +:+ String zero (canonicalPath +:+ String zero OperationRead)).
Definition decisionIDFor (key : string) : string := "dec_hfr_" +:+ take_str 24 key.

Definition timeLe (a b : Time) : Prop := unixNano a ≤ unixNano b.
#[global] Instance timeLe_dec a b : base.Decision (timeLe a b) := Z_le_dec (unixNano a) (unixNano b).
Definition compactHostFSReadCreationTimes (values : list Time) (now : Time) : list Time :=
  let cutoff := AddDur now (- hostFSReadRateWindow) in
  merge_sort timeLe (List.filter (λ v, After v cutoff) values).

(** [utf8.DecodeLastRuneInString]: the size of the last rune. *)
Definition RuneStart (b : ascii) : bool := negb (N.land (byte_of b) 192 =? 128)%N.
(** The number of bytes back to the last rune start, at most four. *)
Fixpoint backToStart (fuel back : nat) (s : string) : nat :=
  match fuel with
  | O => back
  | S fuel =>
      match String.get (String.length s - S back) s with
      | Some b => if (S back <=? String.length s)%nat then
                    if RuneStart b then S back else backToStart fuel (S back) s
                  else back
      | None => back
      end
  end.
Definition lastRuneSize (s : string) : nat :=
  match String.get (String.length s - 1) s with
  | None => 0
  | Some b =>
      if (byte_of b <? 128)%N then 1
      else
        let back := backToStart 3 1 s in
        match drop_str (String.length s - back) s with
        | EmptyString => 1
        | String a rest => if (snd (DecodeRune a rest) =? back)%nat then back else 1
        end
  end.
(** The loop that shortens a reason to its bound; each turn removes at least one
    byte, so the length is enough fuel. *)
Fixpoint shorten (fuel : nat) (s : string) : string :=
  match fuel with
  | O => s
  | S fuel =>
      if (hostFSReadReasonMaxBytes <? String.length s)%nat
      then shorten fuel (take_str (String.length s - lastRuneSize s) s) else s
  end.

(** [unicode.IsPrint] is a table of the standard library. *)
Definition sanitizeHostFSReadReason (isPrint : N → bool) (reason : string) : string :=
  let reason := TrimSpace reason in
  if negb (ValidString reason) then ""
  else
    let reason := text (List.filter (λ t, isPrint t.1) (runes reason)) in
    let reason :=
      match RedactDetails [("untrustedReason", VString reason)] with
      | [(k, VString r)] => if String.eqb k "untrustedReason" then r else ""
      | _ => ""
      end in
    shorten (String.length reason) reason.

Definition cleanHostFSReadPath (path : string) : MM string :=
  require (negb (negb (String.eqb (TrimSpace path) path) || negb (IsAbs path) || HasPrefix path "//"
                 || ContainsByte path backslash)) "HostFS read path must be a clean absolute host path";;
  require (String.eqb (Clean path) path) "HostFS read path must be canonical lexical form";;
  mret (Clean path).

Record HostFSReadProposal := mkProposal {
  pp_SessionID : string; pp_Profile : string; pp_Backend : string; pp_RequestedPath : string;
  pp_CanonicalPath : string; pp_Visibility : VisibilityResult; pp_UntrustedReason : string }.
Record HostFSReadProposalResult := mkProposalResult {
  po_Code : string; po_DecisionRef : string; po_RetryAfterMS : option Z }.
Definition HostFSErrorReadApprovalRequired : string := "hostfs.read.approval-required".
Definition HostFSErrorReadDenied : string := "hostfs.read.denied".
Definition HostFSErrorReadRequestLimited : string := "hostfs.read.request-limited".
Definition HostFSErrorBrokerUnavailable : string := "broker.unavailable".

(** The provider of one session, with the canonical form of its policy. *)
Record Provider := mkProvider { hp_sessionID : string; hp_policy : EffectivePolicy }.
Definition providerStore (p : Provider) : ReadStore := mkReadStore (hp_sessionID p) true.

Definition ActionApprove : string := "approve".
Definition ActionDeny : string := "deny".
Definition hostFSReadDecision (record : RequestRecord) (sessionID : string) : Decision :=
  let facts := ([("scope", VString "exact-file"); ("contentPreview", VOther 0);
                 ("reasonTrust", VString "untrusted-target-input")]
                ++ (if String.eqb (rq_UntrustedReason record) "" then []
                    else [("untrustedReason", VString (rq_UntrustedReason record))]))%list in
  mkDecision DecisionVersion (rq_DecisionID record) KindHostFSRead
    (mkSource (rq_Profile record) sessionID (rq_Backend record) "") StatePending
    [("hostUserData", VOther 1); ("scope", VString "exact-file")]
    [("operation", VString OperationRead); ("path", VString (rq_RequestedPath record));
     ("visibilityRuleId", VString (rq_VisibilityRule record));
     ("visibilitySource", VString (rq_VisibilitySource record)); ("lifetime", VString "session")]
    (mkPreview "Allow this running session to read one exact host file" facts None true)
    [ActionApprove; ActionDeny] "deny" (rq_TimeoutAt record) None
    (mkProviderRef KindHostFSRead "" (rq_DecisionID record) sessionID [])
    ("audit:hostfs-read:" +:+ rq_DecisionID record) (rq_Revision record) (rq_CreatedAt record) zeroTime.

Definition hostFSReadProposalResultForDecision (d : Decision) : HostFSReadProposalResult :=
  if among (d_State d) [StatePending; StateClaimed]
  then mkProposalResult HostFSErrorReadApprovalRequired (d_ID d) None
  else if among (d_State d) [StateDenied; StateTimedOut; StateApplied; StateFailed; StateStale]
  then mkProposalResult HostFSErrorReadDenied "" None
  else mkProposalResult HostFSErrorBrokerUnavailable "" None.

Definition hostFSReadVisibilityGrant (policy : EffectivePolicy) (v : VisibilityResult) : option Grant :=
  List.find (λ g, String.eqb (r_ID (g_Rule g)) (v_RuleID v) && String.eqb (g_Source g) (v_Source v)
                  && contains (r_Ops (g_Rule g)) OpDiscover) (p_Grants policy).

(** [Core.CreateDecision] *)
Definition CreateDecision (d : Decision) : MM Decision :=
  decisionStore;;
  out ← onStore (CreateOrUpdateDecision d);
  emitDecisionAudit ActionDecisionCreate "allow" out;;
  mret out.

(** The retry time of the rate limit in milliseconds, rounded up. *)
Definition retryAfter (first now : Time) : Z :=
  let retry := Sub (AddDur first hostFSReadRateWindow) now in
  Z.min 60000 (Z.max 1 (- ((- retry) / Millisecond))).

Definition openRequest (r : RequestRecord) : bool := among (rq_State r) [StatePending; StateClaimed].
Definition pendingRequests (s : ProviderState) : nat :=
  length (List.filter (λ e, openRequest e.2) (map_to_list (ps_Requests s))).

(** The assignments that bring a record up to its decision. *)
Definition follow (d : Decision) (r : RequestRecord) : RequestRecord :=
  r <| rq_State := d_State d |> <| rq_Revision := d_Revision d |> <| rq_TimeoutAt := d_TimeoutAt d |>.
Definition putRequest (key : string) (r : RequestRecord) (now : Time) (s : ProviderState) : ProviderState :=
  s <| ps_Requests ::= <[key := r]> |> <| ps_UpdatedAt := now |>.

Section manager.
(** The host's files as one operation sees them, the table of printable runes,
    the order in which a map is ranged over, and the HostFS configuration of
    each profile on disk. *)
Context (fs : FileSystem) (isPrint : N → bool).
Context (range : gmap string RequestRecord → list (string * RequestRecord)).
Context (loadProfile : string → result ManagerError Config).
Local Abbreviation h := (fs_Host fs).

Definition newHostFSReadProvider (sessionID readDir : string) (policy : EffectivePolicy) : MM Provider :=
  NewStore readDir sessionID;;
  now ← mnow;
  mret (mkProvider sessionID (s_Policy (NewService fs policy now))).

(** ** Proposing a read *)

(** Visible in an explicit domain, under both names. *)
Definition bothVisible (p : EffectivePolicy) (requested canonical : string) : bool :=
  let v := Visibility h p requested in
  let cv := Visibility h p canonical in
  negb (negb (v_ExplicitDomain v) || hiddenV v || v_DiscoverDenied v
        || negb (v_ExplicitDomain cv) || hiddenV cv || v_DiscoverDenied cv).
Definition readDenied (p : EffectivePolicy) (requested canonical : string) : bool :=
  denied (Decide h p OpRead requested) || denied (Decide h p OpRead canonical).

Definition validateProposal (p : Provider) (proposal : HostFSReadProposal) : MM (Grant * string) :=
  require (negb (negb (String.eqb (pp_SessionID proposal) (hp_sessionID p)) || blank (pp_Profile proposal)
                 || blank (pp_Backend proposal))) "proposal source does not match provider";;
  requested ← cleanHostFSReadPath (pp_RequestedPath proposal);
  match h_EvalSymlinks h requested with
  | Err _ => refuse "proposal canonical path is stale"
  | Ok canonical =>
      require (String.eqb canonical (pp_CanonicalPath proposal)) "proposal canonical path is stale";;
      canonical ← cleanHostFSReadPath canonical;
      match fs_Stat fs canonical with
      | Err _ => refuse "proposal target is not a regular file"
      | Ok info =>
          require (isRegular info) "proposal target is not a regular file";;
          let v := Visibility h (hp_policy p) requested in
          require (bothVisible (hp_policy p) requested canonical) "proposal is outside explicit discovery policy";;
          require (negb (negb (String.eqb (v_RuleID v) (v_RuleID (pp_Visibility proposal)))
                         || negb (String.eqb (v_Source v) (v_Source (pp_Visibility proposal)))))
            "proposal visibility authority drifted";;
          require (negb (readDenied (hp_policy p) requested canonical)) "read policy explicitly denies proposal";;
          match hostFSReadVisibilityGrant (hp_policy p) v with
          | None => refuse "winning visibility grant is unavailable"
          | Some grant => mret (grant, sanitizeHostFSReadReason isPrint (pp_UntrustedReason proposal))
          end
      end
  end.

Definition emitLimitAudit (proposal : HostFSReadProposal) : MM () :=
  emitOperatorCenterAudit (mkAudit "hostfs.read.limit" "deny" (pp_SessionID proposal) (pp_Profile proposal)
    (pp_Backend proposal) "").

Definition newRecord (proposal : HostFSReadProposal) (key : string) (g : Grant) (reason : string) (now : Time) :
    RequestRecord :=
  mkRecord key (decisionIDFor key) (pp_RequestedPath proposal) (pp_CanonicalPath proposal) OperationRead
    (pp_Profile proposal) (pp_Backend proposal) (r_ID (g_Rule g)) (g_Source g) (r_HostPath (g_Rule g))
    (r_Scope (g_Rule g)) reason StatePending 1 0 zeroTime now (AddDur now hostFSReadDecisionTimeout).

(** A proposal for a file that was proposed before. *)
Definition repeatProposal (st : ReadStore) (state : ProviderState) (key : string) (existing : RequestRecord)
    (now : Time) : MM HostFSReadProposalResult :=
  decisionStore;;
  raw ← attempt (onStore (RawDecision (rq_DecisionID existing)));
  match raw with
  | Err _ => refuse "HostFS read decision state is unprovable"
  | Ok d =>
      let existing := follow d existing <| rq_SuppressedCount ::= λ n, (n + 1) mod two64 |>
                        <| rq_LastSuppressedAt := now |> in
      SaveState st (putRequest key existing now state);;
      mret (hostFSReadProposalResultForDecision d)
  end.

(** A proposal for a new file, within the limits. *)
Definition createRequest (p : Provider) (st : ReadStore) (state : ProviderState) (record : RequestRecord)
    (now : Time) : MM HostFSReadProposalResult :=
  let key := rq_KeyDigest record in
  let state := putRequest key record now state <| ps_CreationTimes ::= λ l, (l ++ [now])%list |> in
  SaveState st state;;
  created ← attempt (CreateDecision (hostFSReadDecision record (hp_sessionID p)));
  match created with
  | Err e =>
      ignore_err (SaveState st (putRequest key (record <| rq_State := StateFailed |> <| rq_Revision ::= int_succ |>)
                    now state));;
      fail e
  | Ok d =>
      SaveState st (putRequest key (record <| rq_Revision := d_Revision d |>) now state);;
      w ← get_state;
      when (w_lifecycle w) (lifecycleCall (RecordFact (hp_sessionID p) (d_ID d)));;
      mret (mkProposalResult HostFSErrorReadApprovalRequired (d_ID d) None)
  end.

Definition proposeLocked (p : Provider) (proposal : HostFSReadProposal) (grant : Grant) (reason : string)
    (now : Time) : MM HostFSReadProposalResult :=
  let key := hostFSReadKey (hp_sessionID p) (pp_CanonicalPath proposal) in
  let st := providerStore p in
  state ← LoadState st;
  let state := state <| ps_CreationTimes ::= λ l, compactHostFSReadCreationTimes l now |> in
  match ps_Requests state !! key with
  | Some existing => repeatProposal st state key existing now
  | None =>
      if (hostFSReadPendingLimit <=? pendingRequests state)%nat then
        SaveState st (state <| ps_UpdatedAt := now |>);;
        emitLimitAudit proposal;;
        mret (mkProposalResult HostFSErrorReadRequestLimited "" None)
      else match ps_CreationTimes state with
      | first :: _ =>
          if (hostFSReadRateLimit <=? length (ps_CreationTimes state))%nat then
            SaveState st (state <| ps_UpdatedAt := now |>);;
            emitLimitAudit proposal;;
            mret (mkProposalResult HostFSErrorReadRequestLimited "" (Some (retryAfter first now)))
          else createRequest p st state (newRecord proposal key grant reason now) now
      | [] => createRequest p st state (newRecord proposal key grant reason now) now
      end
  end.
Definition ProposeHostFSRead (p : Provider) (proposal : HostFSReadProposal) : MM HostFSReadProposalResult :=
  checked ← attempt (validateProposal p proposal);
  match checked with
  | Err _ => mret (mkProposalResult HostFSErrorReadDenied "" None)
  | Ok (grant, reason) =>
      now ← mnow;
      withLock (providerStore p) (proposeLocked p proposal grant reason now)
  end.

(** ** Answering the HostFS service *)

Definition validateActiveGrant (p : Provider) (check : ReadGrantCheck) (g : ReadGrant) : MM () :=
  let v := Visibility h (hp_policy p) (rg_RequestedPath check) in
  require (bothVisible (hp_policy p) (rg_RequestedPath check) (rg_CanonicalPath check))
    "grant is outside current explicit visibility policy";;
  require (negb (negb (String.eqb (v_RuleID v) (gr_VisibilityRuleID g))
                 || negb (String.eqb (v_Source v) (gr_VisibilitySource g)))) "grant visibility authority drifted";;
  require (negb (readDenied (hp_policy p) (rg_RequestedPath check) (rg_CanonicalPath check)))
    "current read policy denies grant".

Definition AllowsRead (p : Provider) (check : ReadGrantCheck) : MM bool :=
  let st := providerStore p in
  withLock st (
    probeOwner;;
    loaded ← attempt (LoadManifest st);
    match loaded with
    | Err MNotExist => mret false
    | Err e => fail e
    | Ok manifest =>
        now ← mnow;
        match FindActive manifest OperationRead (rg_RequestedPath check) (rg_CanonicalPath check) now with
        | None => mret false
        | Some g =>
            validateActiveGrant p check g;;
            decisionStore;;
            d ← onStore (RawDecision (gr_DecisionID g));
            require (negb (negb (String.eqb (d_Kind d) KindHostFSRead) || negb (String.eqb (d_State d) StateApplied)
                           || negb (String.eqb (so_Session (d_Source d)) (hp_sessionID p))
                           || negb (d_Revision d =? gr_Revision g)))
              "active HostFS read grant does not match an applied decision";;
            mret true
        end
    end).

(** ** The operator's side *)

Record DecisionClaimRequest := mkClaimRequest {
  dc_DecisionID : string; dc_ExpectedVersion : string; dc_Surface : string; dc_ExpectedRevision : Z;
  dc_LeaseSeconds : Z; dc_Takeover : bool }.
Record DecisionResolveRequest := mkResolveRequest {
  dr_DecisionID : string; dr_ExpectedVersion : string; dr_ClaimToken : string; dr_Reason : string }.
Record HostFSReadReopenRequest := mkReopenRequest {
  ro_DecisionID : string; ro_ExpectedVersion : string; ro_Reason : string }.

Definition decisionClaimOperator : string := "local-operator".
Definition decisionClaimLease (seconds : Z) : MM Z :=
  if seconds =? 0 then mret DefaultClaimLease
  else
    require (negb ((seconds <? MinClaimLease / Second) || (MaxClaimLease / Second <? seconds)))
      "leaseSeconds out of range";;
    mret (seconds * Second).

Definition hostFSReadRecordByDecision (s : ProviderState) (decisionID : string) : MM (string * RequestRecord) :=
  match List.find (λ e, String.eqb (rq_DecisionID e.2) decisionID) (range (ps_Requests s)) with
  | Some e => mret e
  | None => refuse "HostFS read provider record is missing"
  end.

(** Bring the request of a decision up to the decision. *)
Definition followDecision (st : ReadStore) (d : Decision) : MM () :=
  state ← LoadState st;
  '(key, record) ← hostFSReadRecordByDecision state (d_ID d);
  now ← mnow;
  SaveState st (putRequest key (follow d record) now state).

(** The common end of an operation under the provider lock: a failure leaves a
    "stale" record in the audit log. *)
Definition orStale {A} (d : Decision) (m : MM A) : MM A :=
  r ← attempt m;
  match r with
  | Ok a => mret a
  | Err e => ignore_err (emitDecisionAudit ActionDecisionStale "deny" d);; fail e
  end.

Definition claimHostFSRead (req : DecisionClaimRequest) (d : Decision) : MM ClaimResponse :=
  st ← liveHostFSReadStore (so_Session (d_Source d));
  lease ← decisionClaimLease (dc_LeaseSeconds req);
  '(claim, updated) ← orStale d (withLock st (
    state ← LoadState st;
    '(key, record) ← hostFSReadRecordByDecision state (d_ID d);
    require (openRequest record) "HostFS read decision is not open";;
    decisionStore;;
    '(claim, updated) ← onStore (ClaimDecisionWithOptions (d_ID d)
      (mkClaimOptions (dc_Surface req) decisionClaimOperator lease (dc_ExpectedRevision req) (dc_Takeover req)));
    now ← mnow;
    SaveState st (putRequest key (follow updated record) now state);;
    mret (claim, updated)));
  emitDecisionAudit (if cr_Takeover claim then ActionDecisionTakeover else ActionDecisionClaim) "allow" updated;;
  mret claim.

Definition hostFSReadPolicyForRecord (record : RequestRecord) : MM EffectivePolicy :=
  let rule := mkRule (rq_VisibilityRule record) (rq_VisibilityRoot record) "" [OpDiscover] false
                (rq_VisibilityScope record) "" "" None None "immutable session visibility snapshot" in
  let none := mkConfig [] [] in
  let only := mkConfig [rule] [] in
  w ← get_state;
  let input profile environment run :=
    mkBuildInput profile environment run zeroTime (st_root (w_store w)) "" in
  input ← (if String.eqb (rq_VisibilitySource record) SourceProfile
           then config ← lift (loadProfile (rq_Profile record)); mret (input config none none)
           else if String.eqb (rq_VisibilitySource record) SourceEnvironment then mret (input none only none)
           else if String.eqb (rq_VisibilitySource record) SourceRun then mret (input none none only)
           else refuse "unsupported HostFS read visibility source");
  now ← mnow;
  match Build h now input with
  | Err (ErrHostFS e) => refuse e
  | Ok policy => mret (s_Policy (NewService fs policy now))
  end.

Definition validateHostFSReadRecord (record : RequestRecord) (d : Decision) (policy : EffectivePolicy) : MM () :=
  require (negb (negb (String.eqb (d_Kind d) KindHostFSRead) || negb (String.eqb (d_ID d) (rq_DecisionID record))
                 || negb (String.eqb (so_Profile (d_Source d)) (rq_Profile record))
                 || negb (String.eqb (so_Backend (d_Source d)) (rq_Backend record))))
    "HostFS read decision/provider identity mismatch";;
  match h_EvalSymlinks h (rq_RequestedPath record) with
  | Err _ => refuse "HostFS read target canonical path changed"
  | Ok canonical =>
      require (String.eqb canonical (rq_CanonicalPath record)) "HostFS read target canonical path changed";;
      match fs_Stat fs canonical with
      | Err _ => refuse "HostFS read target is no longer a regular file"
      | Ok info =>
          require (isRegular info) "HostFS read target is no longer a regular file";;
          let v := Visibility h policy (rq_RequestedPath record) in
          require (bothVisible policy (rq_RequestedPath record) (rq_CanonicalPath record))
            "HostFS read visibility is no longer allowed";;
          require (negb (negb (String.eqb (v_RuleID v) (rq_VisibilityRule record))
                         || negb (String.eqb (v_Source v) (rq_VisibilitySource record))))
            "HostFS read visibility rule drifted";;
          require (negb (readDenied policy (rq_RequestedPath record) (rq_CanonicalPath record)))
            "HostFS read is explicitly denied by current policy"
      end
  end.

(** The manifest before an approval, and whether there was one. *)
Definition loadHostFSReadManifest (st : ReadStore) (sessionID : string) : MM (Manifest * bool) :=
  loaded ← attempt (LoadManifest st);
  match loaded with
  | Ok m => mret (m, true)
  | Err MNotExist => mret (mkManifest GrantVersion sessionID 0 zeroTime [], false)
  | Err e => fail e
  end.
Definition grantFor (record : RequestRecord) (revision : Z) (now : Time) : ReadGrant :=
  mkReadGrant (rq_DecisionID record) revision OperationRead (rq_RequestedPath record) (rq_CanonicalPath record)
    (rq_VisibilityRule record) (rq_VisibilitySource record) now (AddDur now hostFSReadGrantLifetime).
Definition nextHostFSReadManifest (previous : Manifest) (hadPrevious : bool) (sessionID : string)
    (record : RequestRecord) (revision : Z) (now : Time) : Manifest :=
  let generation := if hadPrevious then (mf_Generation previous + 1) mod two64 else 1 in
  let kept := if hadPrevious
              then List.filter (λ g, Before now (gr_ExpiresAt g)
                                     && negb (String.eqb (gr_DecisionID g) (rq_DecisionID record)))
                     (mf_Grants previous)
              else [] in
  mkManifest GrantVersion sessionID generation now (kept ++ [grantFor record revision now])%list.
Definition restoreHostFSReadManifest (st : ReadStore) (previous : Manifest) (hadPrevious : bool) : MM () :=
  if hadPrevious then SaveManifest st previous
  else mio;; updateFiles (rs_session st) (λ f, f <| sf_grants := None |>).

(** It always fails, with the cause first. *)
Definition failHostFSReadActivation {A} (st : ReadStore) (state : ProviderState) (key : string)
    (record : RequestRecord) (applied : Decision) (cause : ManagerError) : MM A :=
  root ← attempt decisionStore;
  match root with
  | Err _ => fail cause
  | Ok _ =>
      failed ← attempt (onStore (FailAppliedProviderDecision (d_ID applied) KindHostFSRead));
      match failed with
      | Ok d => now ← mnow;
                ignore_err (SaveState st (putRequest key
                  (record <| rq_State := d_State d |> <| rq_Revision := d_Revision d |>) now state))
      | Err _ => mret tt
      end;;
      ignore_err (emitDecisionAudit ActionDecisionStale "deny" applied);;
      fail cause
  end.

(** ** Approving *)

(** The part of an approval after the decision was applied. *)
Definition activate (st : ReadStore) (registered : bool) (sessionID : string) (state : ProviderState) (key : string)
    (record : RequestRecord) (updated : Decision) (previous : Manifest) (hadPrevious : bool) : MM (Manifest * Time) :=
  now ← mnow;
  let record := record <| rq_State := d_State updated |> <| rq_Revision := d_Revision updated |> in
  let state := putRequest key record now state in
  let abandon {A} (e : ManagerError) : MM A := failHostFSReadActivation st state key record updated e in
  let undo {A} (e : ManagerError) : MM A :=
    ignore_err (restoreHostFSReadManifest st previous hadPrevious);; abandon e in
  saved ← attempt (SaveState st state);
  match saved with
  | Err e => abandon e
  | Ok _ =>
      let manifest := nextHostFSReadManifest previous hadPrevious sessionID record (d_Revision updated) now in
      saved ← attempt (SaveManifest st manifest);
      match saved with
      | Err e => abandon e
      | Ok _ =>
          active ← attempt (when registered (lifecycleCall (ActivateGrant sessionID (d_ID updated))));
          match active with
          | Err e => undo e
          | Ok _ =>
              audited ← attempt (emitDecisionAudit ActionDecisionApply "allow" updated);
              match audited with
              | Err e => undo e
              | Ok _ => mret (manifest, now)
              end
          end
      end
  end.

Definition approveLocked (st : ReadStore) (registered : bool) (req : DecisionResolveRequest) (d : Decision) :
    MM (Resolution * Decision) :=
  state ← LoadState st;
  '(key, record) ← hostFSReadRecordByDecision state (d_ID d);
  require (String.eqb (rq_State record) StateClaimed) "HostFS read decision is not claimed";;
  policy ← hostFSReadPolicyForRecord record;
  validateHostFSReadRecord record d policy;;
  decisionStore;;
  onStore (ValidateDecisionClaim (d_ID d) (dr_ClaimToken req));;
  '(previous, hadPrevious) ← loadHostFSReadManifest st (so_Session (d_Source d));
  '(resolution, updated) ← onStore (ResolveDecision (d_ID d) (dr_ClaimToken req) StateApplied "allow"
    (dr_Reason req) [("activated", VOther 1); ("scope", VString "exact-file")]);
  '(manifest, now) ← activate st registered (so_Session (d_Source d)) state key record updated previous hadPrevious;
  let resolution := mkResolution (rs_DecisionID resolution) (rs_Kind resolution) (rs_Status resolution)
    (rs_Decision resolution) (rs_Reason resolution)
    (setDetail "expiresAt" (VOther (unixNano (AddDur now hostFSReadGrantLifetime)))
      (setDetail "generation" (VOther (mf_Generation manifest)) (rs_ProviderResult resolution)))
    (rs_AuditRef resolution) (rs_Revision resolution) in
  mret (resolution, updated).

Definition approveHostFSRead (req : DecisionResolveRequest) (d : Decision) : MM Resolution :=
  let sessionID := so_Session (d_Source d) in
  st ← liveHostFSReadStore sessionID;
  w ← get_state;
  let registered := w_lifecycle w in
  when registered (lifecycleCall (RegisterGrant sessionID (d_ID d)));;
  outcome ← attempt (holding st (approveLocked st registered req d));
  let release := when registered (ignore_err (lifecycleCall (ReleaseGrant sessionID (d_ID d)))) in
  let stale := ignore_err (emitDecisionAudit ActionDecisionStale "deny" d) in
  match outcome with
  | Err e => stale;; release;; fail e
  | Ok (Err e, _) => stale;; release;; fail e
  | Ok (Ok _, Err e) => stale;; fail e
  | Ok (Ok (resolution, _), Ok _) => mret resolution
  end.

(** ** Denying and reopening *)

(** [hostFSReadAuditDetails] reads the record once more for the audit event. *)
Definition hostFSReadAuditDetails (d : Decision) : MM () :=
  ignore_err (st ← openHostFSReadStore (so_Session (d_Source d));
              withLock st (state ← LoadState st; hostFSReadRecordByDecision state (d_ID d))).

Definition denyHostFSRead (req : DecisionResolveRequest) (d : Decision) : MM Resolution :=
  st ← liveHostFSReadStore (so_Session (d_Source d));
  '(resolution, updated) ← orStale d (withLock st (
    state ← LoadState st;
    '(key, record) ← hostFSReadRecordByDecision state (d_ID d);
    decisionStore;;
    '(resolution, updated) ← onStore (ResolveDecision (d_ID d) (dr_ClaimToken req) StateDenied "deny"
      (dr_Reason req) []);
    now ← mnow;
    SaveState st (putRequest key (record <| rq_State := d_State updated |> <| rq_Revision := d_Revision updated |>)
      now state);;
    mret (resolution, updated)));
  hostFSReadAuditDetails updated;;
  emitDecisionAudit ActionDecisionDeny "deny" updated;;
  mret resolution.

Definition syncHostFSReadDecision (d : Decision) : MM () :=
  if negb (String.eqb (d_Kind d) KindHostFSRead) || String.eqb (so_Session (d_Source d)) "" then mret tt
  else
    live ← attempt (liveHostFSReadStore (so_Session (d_Source d)));
    match live with
    | Err (MNotLive | MUnprovable | MNotExist) => mret tt
    | Err e => fail e
    | Ok st => withLock st (followDecision st d)
    end.

(** [Core.ReopenDecision] once the decision was looked up. *)
Definition reopenHostFSRead (req : HostFSReadReopenRequest) (d : Decision) : MM Resolution :=
  require (String.eqb (d_Kind d) KindHostFSRead) "decision kind does not support reopen";;
  st ← liveHostFSReadStore (so_Session (d_Source d));
  '(resolution, updated) ← orStale d (withLock st (
    state ← LoadState st;
    '(key, record) ← hostFSReadRecordByDecision state (d_ID d);
    require (among (rq_State record) [StateDenied; StateTimedOut]) "HostFS read decision is not reopenable";;
    policy ← hostFSReadPolicyForRecord record;
    validateHostFSReadRecord record d policy;;
    decisionStore;;
    '(resolution, updated) ← onStore (ReopenProviderDecision (d_ID d) KindHostFSRead hostFSReadDecisionTimeout
      (ro_Reason req));
    now ← mnow;
    SaveState st (putRequest key (follow updated record) now state);;
    mret (resolution, updated)));
  hostFSReadAuditDetails updated;;
  emitDecisionAudit ActionDecisionReopen "allow" updated;;
  mret resolution.
End manager.
