(* ===== verification/HostFSWrite.v ===== *)
(** * Approving host file writes (src/internal/manager/hostfs_write.go)

    The operator's side of staged writes: claim the decision of a staged
    operation, apply it to the host or discard it, let it expire; and the public
    record of each in the decision store.  The state adds to that of the read
    approvals the overlay of every session, the host's tree and the audit log of
    the sessions.  The times of the overlays, of the manager and of the decision
    store are readings of one clock. *)
From Stdlib Require Import Ascii.
From S2P Require Import Prelude GoStrings GoTime GoHash GoRunes GoPath Redact Decision.
From S2P Require Import DecisionStore GoGlob HostFS HostTree Overlay HostFSService ReadGrant HostFSRead.
Open Scope Z_scope.

(** ** Equal JSON texts

    The text of a value does not depend on the order of a map's keys nor on the
    Go type of a list of strings. *)
#[global] Instance Value_eq_dec : EqDecision Value.
Proof.
  refine (fix go (x y : Value) {struct x} : base.Decision (x = y) :=
    match x, y with
    | VString a, VString b => cast_if (decide (a = b))
    | VStrings l, VStrings k => cast_if (decide (l = k))
    | VList l, VList k => cast_if (@list_eq_dec _ go l k)
    | VMap m, VMap n => cast_if (@list_eq_dec _ (λ p q : string * Value,
        match p, q with (a, v), (b, u) => cast_if_and (decide (a = b)) (go v u) end) m n)
    | VStringMap m, VStringMap n => cast_if (decide (m = n))
    | VOther a, VOther b => cast_if (decide (a = b))
    | _, _ => right _
    end); congruence.
Defined.
Fixpoint jsonValue (v : Value) : Value :=
  match v with
  | VStrings l => VList (VString <$> l)
  | VList l => VList (jsonValue <$> l)
  | VMap m => VMap (sort_by fst ((λ e : string * Value, (e.1, jsonValue e.2)) <$> m))
  | VStringMap m => VMap (sort_by fst ((λ e : string * string, (e.1, VString e.2)) <$> m))
  | _ => v
  end.
Definition jsonDetails (d : Details) : Value := jsonValue (VMap d).
#[global] Instance Source_eq_dec : EqDecision Source.
Proof. solve_decision. Defined.
#[global] Instance Claim_eq_dec : EqDecision Claim.
Proof. solve_decision. Defined.

(** ** The state *)

Record WriteAudit := mkWriteAudit {
  wa_Session : string; wa_Action : string; wa_Decision : string; wa_DecisionID : string }.
Record HostWorld := mkHostWorld {
  hw_world : World; hw_overlays : gmap string OverlayFiles; hw_tree : Tree; hw_audit : list WriteAudit }.
#[global] Instance HostWorld_eta : Eta HostWorld := λ w,
  mkHostWorld (hw_world w) (hw_overlays w) (hw_tree w) (hw_audit w).

Inductive WriteError := WManager (e : ManagerError) | WOverlay (e : OverlayError).
Abbreviation HM := (SE HostWorld WriteError).

Definition onWorld {A} (m : MM A) : HM A := λ w,
  let '(w', r) := m (hw_world w) in
  (w <| hw_world := w' |>, match r with Ok a => Ok a | Err e => Err (WManager e) end).
Definition outsideOf (s : Store) : Outside :=
  mkOutside (st_clock s) (st_reads s) (st_io s) (st_ios s) (st_rand s) (st_rands s).
Definition setOutside (o : Outside) (s : Store) : Store :=
  s <| st_reads := ou_reads o |> <| st_ios := ou_ios o |> <| st_rands := ou_rands o |>.
(** Run an operation of the overlay of a session. *)
Definition onOverlay {A} (sid : string) (m : OM A) : HM A := λ w,
  let store := w_store (hw_world w) in
  let '(s, r) := m (mkOverlayState (default emptyOverlay (hw_overlays w !! sid)) (hw_tree w) (outsideOf store)) in
  (w <| hw_world ::= (λ x, x <| w_store ::= setOutside (os_out s) |>) |>
     <| hw_overlays ::= <[sid := os_files s]> |> <| hw_tree := os_tree s |>,
   match r with Ok a => Ok a | Err e => Err (WOverlay e) end).
Definition hrequire (b : bool) (what : string) : HM () :=
  if b then mret tt else fail (WManager (MRefused what)).
Definition hnow : HM Time := onWorld mnow.
Definition hio : HM () := onWorld mio.

(** ** Requests *)

Record HostFSWritePlanRequest := mkPlanRequest { hp_OperationID : string; hp_IncludePreview : bool }.
Record HostFSWriteClaimRequest := mkWriteClaimRequest {
  hc_DecisionID : string; hc_ExpectedVersion : string; hc_Surface : string; hc_ExpectedRevision : Z;
  hc_LeaseSeconds : Z; hc_Takeover : bool }.
Record HostFSWriteApplyRequest := mkApplyRequest {
  ha_DecisionID : string; ha_ClaimToken : string; ha_ExpectedVersion : string }.
Record HostFSWriteDiscardRequest := mkDiscardRequest {
  hd_DecisionID : string; hd_ClaimToken : string; hd_ExpectedVersion : string; hd_Reason : string }.
Record WriteClaimResponse := mkWriteClaimResponse {
  wcr_DecisionID : string; wcr_State : string; wcr_ClaimToken : string; wcr_Surface : string; wcr_ClaimedAt : Time;
  wcr_ClaimExpiresAt : Time; wcr_LeaseSeconds : Z; wcr_Takeover : bool; wcr_Revision : Z }.
Record StatusEntry := mkStatusEntry {
  se_DecisionID : string; se_OperationID : string; se_Profile : string; se_State : string; se_Operation : string;
  se_Path : string; se_DestinationPath : string; se_TimeoutAt : Time; se_PrivilegeStatus : string }.
Record HostFSWriteStatusRequest := mkStatusRequest { hs_Session : string; hs_Profile : string; hs_State : string }.

Record hostFSWriteRef := mkRef { rf_sessionID : string; rf_operation : Operation; rf_decision : WriteDecision }.
#[global] Instance hostFSWriteRef_eta : Eta hostFSWriteRef := λ r,
  mkRef (rf_sessionID r) (rf_operation r) (rf_decision r).

Definition validateHostFSWriteExpectedVersion (version : string) : HM () :=
  hrequire (negb (blank version)) "expectedVersion is required";;
  hrequire (String.eqb version PlanVersion) "invalid HostFS write plan version".
Definition validateHostFSWriteClaimToken (d : WriteDecision) (token : string) : HM WriteClaim :=
  match wd_Claim d with
  | Some c =>
      hrequire (String.eqb (wd_State d) WriteClaimed) "HostFS write decision is not claimed";;
      hrequire (negb (blank token)) "claimToken is required";;
      hrequire (String.eqb (HashClaimToken token) (wc_TokenHash c)) "claimToken is invalid";;
      mret c
  | None => fail (WManager (MRefused "HostFS write decision is not claimed"))
  end.
Definition validateHostFSWriteClaim (d : WriteDecision) (token : string) : HM () :=
  c ← validateHostFSWriteClaimToken d token;
  now ← hnow;
  hrequire (Before now (wc_ExpiresAt c)) "claimToken expired".

Definition hostFSWriteDecisionVisible (state : string) : bool := among state [WritePending; WriteClaimed].
Definition publicHostFSWriteDecision (d : WriteDecision) : WriteDecision :=
  d <| wd_Claim ::= fmap (λ c, mkWriteClaim (wc_Surface c) (wc_Operator c) (wc_ClaimedAt c) (wc_ExpiresAt c) "" "") |>.
Definition hostFSDecisionState (state : string) : string :=
  if String.eqb state WritePending then StatePending
  else if String.eqb state WriteClaimed then StateClaimed
  else if String.eqb state WriteApplied then StateApplied
  else if String.eqb state WriteDiscarded then StateDiscarded
  else if String.eqb state WriteExpired then StateTimedOut
  else if among state [WriteConflict; WriteFailed] then StateFailed
  else if String.eqb state WriteDenied then StateDenied
  else StateStale.

Definition WriteActionClaim : string := "host.fs.overlay.claim".
Definition WriteActionRelease : string := "host.fs.overlay.claim-release".
Definition WriteActionExpiry : string := "host.fs.overlay.claim-expired".
Definition WriteActionApply : string := "host.fs.overlay.apply".
Definition WriteActionDiscard : string := "host.fs.overlay.discard".
Definition WriteActionTimeout : string := "host.fs.overlay.timeout".
Definition WriteActionConflict : string := "host.fs.overlay.conflict".
Definition WriteActionCleanup : string := "host.fs.overlay.cleanup".
(** The audit log of the session, if it can be opened and written. *)
Definition emitHostFSWriteAudit (ref : hostFSWriteRef) (action verdict : string) : HM () :=
  w ← get_state;
  if String.eqb (st_root (w_store (hw_world w))) "" || String.eqb (rf_sessionID ref) "" then mret tt
  else ignore_err (
    hio;; hio;;
    modify (λ w, w <| hw_audit ::= λ l,
      (l ++ [mkWriteAudit (rf_sessionID ref) action verdict (wd_DecisionID (rf_decision ref))])%list |>)).

(** The public decision of a staged write. *)
Definition overlayPath (root sid : string) : string := Join (Join (Join root "sessions") sid) "hostfs-overlay".
Definition projected (ref : hostFSWriteRef) : Decision :=
  let d := rf_decision ref in
  let op := rf_operation ref in
  let state := hostFSDecisionState (wd_State d) in
  let action := [("operation", VString (wd_Operation d)); ("path", VString (wd_Path d));
                 ("destinationPath", VString (wd_DestinationPath d))] in
  mkDecision "" (wd_DecisionID d) KindHostFSWrite
    (mkSource (op_Profile op) (rf_sessionID ref) (op_Backend op) "") state
    [("privilegeStatus", VString (pr_Status (wd_Privilege d))); ("warnings", VStrings (wd_Warnings d))]
    action
    (mkPreview (wp_Summary (wd_Preview d)) (action ++ [("previewKind", VString (wp_Kind (wd_Preview d)))])%list None
       false)
    ["apply"; "discard"] "discard" (wd_TimeoutAt d)
    (if String.eqb state StateClaimed
     then (λ c, mkClaim (wc_Surface c) (wc_Operator c) (wc_ClaimedAt c) (wc_ExpiresAt c) (wc_TokenHash c)) <$> wd_Claim d
     else None)
    (mkProviderRef KindHostFSWrite (op_ID op) (wd_DecisionID d) (rf_sessionID ref) [])
    ("audit:hostfs-write:" +:+ wd_DecisionID d) 0 (op_CreatedAt op) (wd_UpdatedAt d).
Definition sameField {A} `{EqDecision A} (f : Decision → A) (a b : Decision) : bool := bool_decide (f a = f b).
Definition sameJSON (a b : Decision) : bool :=
  let same {A} `{EqDecision A} (f : Decision → A) := sameField f a b in
  same d_Version && same d_ID && same d_Kind && same d_Source && same d_State
  && same (λ d, jsonDetails (d_Risk d)) && same (λ d, jsonDetails (d_ProposedAction d))
  && same (λ d, pv_Summary (d_Preview d)) && same (λ d, jsonDetails (pv_Facts (d_Preview d)))
  && same (λ d, jsonValue <$> pv_Diff (d_Preview d)) && same (λ d, pv_UserDataPresent (d_Preview d))
  && same d_AllowedActions && same d_DefaultOutcome && same d_TimeoutAt && same d_Claim
  && same (λ d, pr_Provider (d_ProviderRef d)) && same (λ d, pr_OperationID (d_ProviderRef d))
  && same (λ d, pr_DecisionID (d_ProviderRef d)) && same (λ d, pr_SessionID (d_ProviderRef d))
  && same (λ d, jsonDetails (pr_Data (d_ProviderRef d))) && same d_AuditRef && same d_Revision
  && same d_CreatedAt && same d_UpdatedAt.
Definition sameHostFSWriteDecisionProjection (existing projected : Decision) : bool :=
  sameJSON existing
    (projected <| d_Version := d_Version existing |> <| d_CreatedAt := d_CreatedAt existing |>
       <| d_UpdatedAt := d_UpdatedAt existing |> <| d_Revision := d_Revision existing |>
       <| d_Preview ::= RedactPreview |> <| d_Risk ::= RedactDetails |> <| d_ProposedAction ::= RedactDetails |>).
Definition upsertHostFSWriteDecision (ref : hostFSWriteRef) : HM Decision :=
  onWorld decisionStore;;
  let d := projected ref in
  existing ← attempt (onWorld (onStore (RawDecision (d_ID d))));
  match existing with
  | Ok e => if sameHostFSWriteDecisionProjection e d then mret (RedactDecision e)
            else onWorld (onStore (CreateOrUpdateDecision d))
  | Err _ => onWorld (onStore (CreateOrUpdateDecision d))
  end.

Section writes.
Context (K : Kernel) `{TimeSort}.

(** ** Finding staged writes *)

Fixpoint refsOf (sid : string) (ops : list Operation) : HM (list hostFSWriteRef) :=
  match ops with
  | [] => mret []
  | op :: ops =>
      found ← attempt (onOverlay sid (DecisionForOperation (op_ID op)));
      rest ← refsOf sid ops;
      mret (match found with Ok d => mkRef sid op d :: rest | Err _ => rest end)
  end.
(** The sessions that have an overlay, in the order of their names. *)
Fixpoint refsOfSessions (sids : list string) : HM (list hostFSWriteRef) :=
  match sids with
  | [] => mret []
  | sid :: sids =>
      hio;;
      w ← get_state;
      onOverlay sid (NewOverlayStore (overlayPath (st_root (w_store (hw_world w))) sid));;
      ops ← onOverlay sid Operations;
      refs ← refsOf sid ops;
      rest ← refsOfSessions sids;
      mret (refs ++ rest)%list
  end.
Definition listHostFSWriteRefs : HM (list hostFSWriteRef) :=
  hio;;
  w ← get_state;
  refsOfSessions (sort_strings (map_to_list (hw_overlays w)).*1).
Definition findHostFSWriteByOperation (operationID : string) : HM hostFSWriteRef :=
  refs ← listHostFSWriteRefs;
  match List.find (λ r, String.eqb (op_ID (rf_operation r)) operationID) refs with
  | Some r => mret r
  | None => fail (WManager (MRefused "HostFS write operation not found"))
  end.
Definition findHostFSWriteByDecision (decisionID : string) : HM hostFSWriteRef :=
  hrequire (negb (blank decisionID)) "decisionId is required";;
  refs ← listHostFSWriteRefs;
  match List.find (λ r, String.eqb (wd_DecisionID (rf_decision r)) decisionID) refs with
  | Some r => mret r
  | None => fail (WManager (MRefused "HostFS write decision not found"))
  end.

Definition PlanHostFSWrite (req : HostFSWritePlanRequest) : HM WriteDecision :=
  let opID := TrimSpace (hp_OperationID req) in
  hrequire (negb (String.eqb opID "")) "operationId is required";;
  ref ← findHostFSWriteByOperation opID;
  upsertHostFSWriteDecision ref;;
  let d := publicHostFSWriteDecision (rf_decision ref) in
  mret (if hp_IncludePreview req then d else d <| wd_Preview := noPreview |>).

(** ** Expiring *)

(** Both records of a write, moved to a state and saved. *)
Definition moveRef (state : string) (ref : hostFSWriteRef) : hostFSWriteRef :=
  ref <| rf_decision ::= (λ d, d <| wd_State := state |> <| wd_Claim := None |>) |>
      <| rf_operation ::= (λ o, o <| op_Status := state |>) |>.
Definition saveRef (ref : hostFSWriteRef) : HM () :=
  onOverlay (rf_sessionID ref) (SaveDecision (rf_decision ref));;
  onOverlay (rf_sessionID ref) (SaveOperation (rf_operation ref));;
  upsertHostFSWriteDecision ref;;
  mret tt.
Definition cleanupRef (ref : hostFSWriteRef) : HM () :=
  cleaned ← attempt (onOverlay (rf_sessionID ref) (CleanupArtifacts (rf_operation ref)));
  match cleaned with Ok _ => emitHostFSWriteAudit ref WriteActionCleanup "allow" | Err _ => mret tt end.
Definition expireHostFSWriteRef (ref : hostFSWriteRef) : HM () :=
  let ref := moveRef WriteExpired ref in
  saveRef ref;;
  emitHostFSWriteAudit ref WriteActionTimeout DecisionDeny;;
  cleanupRef ref.

Definition writeExpired (ref : hostFSWriteRef) (now : Time) : bool :=
  hostFSWriteDecisionVisible (wd_State (rf_decision ref)) && negb (IsZero (wd_TimeoutAt (rf_decision ref)))
  && negb (Before now (wd_TimeoutAt (rf_decision ref))).
Fixpoint expireEach (now : Time) (refs : list hostFSWriteRef) (expired : Z) : HM Z :=
  match refs with
  | [] => mret expired
  | ref :: refs =>
      if writeExpired ref now then expireHostFSWriteRef ref;; expireEach now refs (expired + 1)
      else expireEach now refs expired
  end.
Definition ExpireHostFSWriteTimeouts (at_ : Time) : HM Z :=
  now ← (if IsZero at_ then hnow else mret at_);
  refs ← listHostFSWriteRefs;
  expireEach now refs 0.

(** ** Claiming *)

(** Mirror the claim of the public decision in the overlay; a claim that cannot be
    mirrored is released. *)
Definition mirrorClaim (decisionID : string) (ref : hostFSWriteRef) (claim : ClaimResponse) (updated : Decision) :
    HM WriteClaimResponse :=
  let mirrored := mkWriteClaim (cr_Surface claim) decisionClaimOperator (cr_ClaimedAt claim)
                    (cr_ClaimExpiresAt claim) "" (HashClaimToken (cr_ClaimToken claim)) in
  let ref := ref <| rf_decision ::= (λ d, d <| wd_State := WriteClaimed |> <| wd_Claim := Some mirrored |>) |> in
  saved ← attempt (onOverlay (rf_sessionID ref) (SaveDecision (rf_decision ref)));
  match saved with
  | Err e =>
      ignore_err (onWorld (onStore (ReleaseDecisionClaim decisionID (cr_ClaimToken claim) (cr_Revision claim)
        "provider claim mirror failed")));;
      fail e
  | Ok _ =>
      emitHostFSWriteAudit ref WriteActionClaim "allow";;
      mret (mkWriteClaimResponse decisionID WriteClaimed (cr_ClaimToken claim) (cr_Surface claim)
        (cr_ClaimedAt claim) (cr_ClaimExpiresAt claim) (cr_LeaseSeconds claim) (cr_Takeover claim)
        (d_Revision updated))
  end.
Definition ClaimHostFSWrite (req : HostFSWriteClaimRequest) : HM WriteClaimResponse :=
  validateHostFSWriteExpectedVersion (hc_ExpectedVersion req);;
  let decisionID := TrimSpace (hc_DecisionID req) in
  hrequire (negb (String.eqb decisionID "")) "decisionId is required";;
  let surface := orDefault (TrimSpace (hc_Surface req)) "manager-client" in
  lease ← onWorld (decisionClaimLease (hc_LeaseSeconds req));
  ref ← findHostFSWriteByDecision decisionID;
  now ← hnow;
  if writeExpired ref now
  then expireHostFSWriteRef ref;; fail (WManager (MRefused "HostFS write decision expired"))
  else
    upsertHostFSWriteDecision ref;;
    onWorld decisionStore;;
    '(claim, updated) ← onWorld (onStore (ClaimDecisionWithOptions decisionID
      (mkClaimOptions surface decisionClaimOperator lease (hc_ExpectedRevision req) (hc_Takeover req))));
    mirrorClaim decisionID ref claim updated.

(** ** Discarding and applying *)

Definition DiscardHostFSWrite (req : HostFSWriteDiscardRequest) : HM ApplyResult :=
  validateHostFSWriteExpectedVersion (hd_ExpectedVersion req);;
  ref ← findHostFSWriteByDecision (TrimSpace (hd_DecisionID req));
  validateHostFSWriteClaim (rf_decision ref) (hd_ClaimToken req);;
  let ref := moveRef WriteDiscarded ref in
  saveRef ref;;
  emitHostFSWriteAudit ref WriteActionDiscard DecisionDeny;;
  cleanupRef ref;;
  mret (mkApplyResult ResultVersion (wd_DecisionID (rf_decision ref)) (op_ID (rf_operation ref)) DecisionDeny
    WriteDiscarded [] "" false (wd_Privilege (rf_decision ref)) "audit:hostfs-overlay:discard").

(** A result and the error beside it; the errors before the overlay is asked
    come without a result. *)
Definition ApplyHostFSWrite (req : HostFSWriteApplyRequest) : HM (ApplyResult * option WriteError) :=
  validateHostFSWriteExpectedVersion (ha_ExpectedVersion req);;
  ref ← findHostFSWriteByDecision (TrimSpace (ha_DecisionID req));
  validateHostFSWriteClaim (rf_decision ref) (ha_ClaimToken req);;
  applied ← onOverlay (rf_sessionID ref) (Apply K (wd_DecisionID (rf_decision ref)));
  let result := ap_Result applied in
  let ref := ref <| rf_operation := ap_Operation applied |> <| rf_decision := ap_Decision applied |> in
  published ← attempt (upsertHostFSWriteDecision ref);
  match published with
  | Err e => mret (result, Some e)
  | Ok _ =>
      let '(action, verdict) :=
        if String.eqb (ar_Status result) WriteConflict then (WriteActionConflict, DecisionDeny)
        else if String.eqb (ar_Status result) WriteFailed then (WriteActionApply, "error")
        else (WriteActionApply, DecisionAllow) in
      emitHostFSWriteAudit ref action verdict;;
      when (negb (String.eqb (op_ContentObject (rf_operation ref)) "")) (emitHostFSWriteAudit ref WriteActionCleanup "allow");;
      mret (result, match ap_Error applied with
                    | None | Some OvConflict => None
                    | Some e => Some (WOverlay e)
                    end)
  end.

(** ** Status *)

Definition statusShown (req : HostFSWriteStatusRequest) (ref : hostFSWriteRef) : bool :=
  let fits want got := String.eqb (TrimSpace want) "" || String.eqb got (TrimSpace want) in
  let state := wd_State (rf_decision ref) in
  fits (hs_Session req) (rf_sessionID ref) && fits (hs_Profile req) (op_Profile (rf_operation ref))
  && (if String.eqb (TrimSpace (hs_State req)) "" then hostFSWriteDecisionVisible state
      else String.eqb state (TrimSpace (hs_State req))).
Definition statusEntry (ref : hostFSWriteRef) : StatusEntry :=
  let d := rf_decision ref in
  mkStatusEntry (wd_DecisionID d) (op_ID (rf_operation ref)) (op_Profile (rf_operation ref)) (wd_State d)
    (wd_Operation d) (wd_Path d) (wd_DestinationPath d) (wd_TimeoutAt d) (pr_Status (wd_Privilege d)).
Definition HostFSWriteStatus (req : HostFSWriteStatusRequest) : HM (list StatusEntry) :=
  now ← hnow;
  ExpireHostFSWriteTimeouts now;;
  refs ← listHostFSWriteRefs;
  mret (sort_by se_DecisionID (statusEntry <$> List.filter (statusShown req) refs)).
End writes.
