(* ===== verification/DecisionCenter.v ===== *)
(** * The decision center (src/internal/manager/decisions.go, decision_service.go)

    What an operator's client calls: list, inspect, claim, approve, deny, revoke
    and release decisions of every kind.  A request first brings the public
    records up to the providers and times decisions out, then goes to the
    provider of its kind: staged writes, reads, host applications, shares of
    evidence.  Making the share itself (the export package) is an argument. *)
From Stdlib Require Import Ascii.
From S2P Require Import Prelude GoStrings GoTime GoHash GoRunes GoPath Redact Decision.
From S2P Require Import DecisionStore GoGlob HostFS HostTree Overlay HostFSService ReadGrant HostFSRead HostFSWrite.
Open Scope Z_scope.

Definition ActionDecisionRevoke : string := "decision.revoke".
Definition ActionDecisionRelease : string := "decision.claim-release".
Definition ActionDecisionExpiry : string := "decision.claim-expired".
Definition ActionNoticeCreate : string := "notice.create".
Definition ActionNoticeAck : string := "notice.ack".
Definition decisionReasonMaxBytes : nat := 512.

Record DecisionReleaseRequest := mkReleaseRequest {
  dl_DecisionID : string; dl_ExpectedVersion : string; dl_ExpectedRevision : Z; dl_ClaimToken : string;
  dl_Reason : string }.
Record DecisionRevokeRequest := mkRevokeRequest {
  dv_DecisionID : string; dv_ExpectedVersion : string; dv_Reason : string }.

Definition hrefuse {A} (what : string) : HM A := fail (WManager (MRefused what)).
Definition hstore : HM () := onWorld decisionStore.
Definition haudit (action verdict : string) (d : Decision) : HM () := onWorld (emitDecisionAudit action verdict d).
Definition versionFits (version : string) : HM () :=
  hrequire (String.eqb version "" || String.eqb version DecisionVersion) "invalid decision version".
(** An error leaves a "stale" record in the audit log. *)
Definition orStaleH {A} (d : Decision) (m : HM A) : HM A :=
  r ← attempt m;
  match r with
  | Ok a => mret a
  | Err e => ignore_err (haudit ActionDecisionStale "deny" d);; fail e
  end.

Definition validateDecisionReleaseRequest (req : DecisionReleaseRequest) : HM () :=
  versionFits (dl_ExpectedVersion req);;
  hrequire (negb (blank (dl_DecisionID req))) "decisionId is required";;
  hrequire (negb (blank (dl_ClaimToken req))) "claimToken is required";;
  hrequire (negb ((decisionReasonMaxBytes <? String.length (dl_Reason req))%nat || ContainsByte (dl_Reason req) zero))
    "decision release reason exceeds its bound or contains NUL".

(** [decision.DecisionEvent], [decision.NoticeEvent] *)
Definition noticeAudit (action verdict : string) (n : Notice) : MM () :=
  emitOperatorCenterAudit (mkAudit action verdict (so_Session (n_Source n)) (so_Profile (n_Source n))
    (so_Backend (n_Source n)) (n_ID n)).

Section center.
Context (K : Kernel) `{TimeSort} (fs : FileSystem).
Context (range : gmap string RequestRecord → list (string * RequestRecord)).
Context (loadProfile : string → result ManagerError Config).
(** Carries out an approved share: the details of its result. *)
Context (share : string → HM Details).

(** ** Keeping the records up to date *)

Definition syncHostFSWriteDecisions : HM () :=
  refs ← listHostFSWriteRefs;
  for_each (λ ref, upsertHostFSWriteDecision ref;; mret tt) refs.
Definition expireDecisionTimeouts : HM () :=
  hstore;;
  timedOut ← onWorld (onStore (TimeoutExpiredDecisions zeroTime));
  for_each (λ d,
    onWorld (syncHostFSReadDecision range d);;
    onWorld (when (String.eqb (d_Kind d) KindHostFSRead) (hostFSReadAuditDetails range d));;
    haudit ActionDecisionTimeout "deny" d) timedOut.

Definition releaseExpiredHostFSWriteClaim (now : Time) (ref : hostFSWriteRef) : HM () :=
  match wd_Claim (rf_decision ref) with
  | None => mret tt
  | Some previous =>
      if negb (String.eqb (wd_State (rf_decision ref)) WriteClaimed) || Before now (wc_ExpiresAt previous)
      then mret tt
      else
        let ref := ref <| rf_decision ::= (λ d, d <| wd_State := WritePending |> <| wd_Claim := None |>) |> in
        onOverlay (rf_sessionID ref) (SaveDecision (rf_decision ref));;
        updated ← upsertHostFSWriteDecision ref;
        emitHostFSWriteAudit ref WriteActionExpiry "allow";;
        haudit ActionDecisionExpiry "allow" updated
  end.
Definition releaseExpiredHostFSWriteClaims (now : Time) : HM () :=
  refs ← listHostFSWriteRefs;
  for_each (releaseExpiredHostFSWriteClaim now) refs.

Definition maintainDecisionCenter : HM () :=
  now ← hnow;
  ExpireHostFSWriteTimeouts now;;
  releaseExpiredHostFSWriteClaims now;;
  syncHostFSWriteDecisions;;
  expireDecisionTimeouts;;
  hstore;;
  released ← onWorld (onStore (ReleaseExpiredClaims now));
  for_each (λ item : ClaimRelease * Decision,
    onWorld (when (String.eqb (d_Kind item.2) KindHostFSRead) (syncHostFSReadDecision range item.2));;
    haudit ActionDecisionExpiry "allow" item.2) released.

(** ** Reading *)

Definition trimmed (f : ListFilter) : ListFilter :=
  mkFilter (TrimSpace (lf_Kind f)) (TrimSpace (lf_State f)) (TrimSpace (lf_Profile f)) (TrimSpace (lf_Session f))
    (TrimSpace (lf_Severity f)) (lf_IncludeTerminal f).
Definition decisionsCurrent (f : ListFilter) : HM (list Decision) :=
  hstore;; onWorld (onStore (Decisions (trimmed f))).
Definition ListDecisions (f : ListFilter) : HM (list Decision) := maintainDecisionCenter;; decisionsCurrent f.
Definition InspectDecision (id : string) : HM Decision :=
  maintainDecisionCenter;; hstore;; onWorld (onStore (GetDecision id)).
Definition inspectDecisionPrivate (id : string) : HM Decision :=
  syncHostFSWriteDecisions;; expireDecisionTimeouts;; hstore;; onWorld (onStore (RawDecision id)).

(** ** Claiming *)

Definition refuseTerminal {A} (d : Decision) (k : HM A) : HM A :=
  if DecisionTerminal (d_State d)
  then ignore_err (haudit ActionDecisionStale "deny" d);; hrefuse "decision is terminal" else k.
Definition claimOf (d : Decision) (c : WriteClaimResponse) : ClaimResponse :=
  mkClaimResponse (d_ID d) StateClaimed (wcr_ClaimToken c) (wcr_Surface c) (wcr_ClaimedAt c) (wcr_ClaimExpiresAt c)
    (wcr_LeaseSeconds c) (wcr_Takeover c) (wcr_Revision c).
Definition claimDecision (req : DecisionClaimRequest) : HM ClaimResponse :=
  versionFits (dc_ExpectedVersion req);;
  d ← inspectDecisionPrivate (dc_DecisionID req);
  refuseTerminal d (
  if String.eqb (d_Kind d) KindHostFSWrite then
    claim ← orStaleH d (ClaimHostFSWrite (mkWriteClaimRequest (pr_DecisionID (d_ProviderRef d)) PlanVersion
      (dc_Surface req) (dc_ExpectedRevision req) (dc_LeaseSeconds req) (dc_Takeover req)));
    ignore_err syncHostFSWriteDecisions;;
    mret (claimOf d claim)
  else if String.eqb (d_Kind d) KindHostFSRead then onWorld (claimHostFSRead range req d)
  else
    hstore;;
    lease ← onWorld (decisionClaimLease (dc_LeaseSeconds req));
    '(claim, updated) ← orStaleH d (onWorld (onStore (ClaimDecisionWithOptions (dc_DecisionID req)
      (mkClaimOptions (dc_Surface req) decisionClaimOperator lease (dc_ExpectedRevision req) (dc_Takeover req)))));
    haudit (if cr_Takeover claim then ActionDecisionTakeover else ActionDecisionClaim) "allow" updated;;
    mret claim).

(** ** Resolving *)

Definition writeErrorText (e : WriteError) : string :=
  match e with
  | WOverlay e => errorText e
  | WManager (MRefused what) => what
  | WManager _ => "manager error"
  end.
Definition hostFSWriteResolution (d : Decision) (r : ApplyResult) (e : option WriteError) : Resolution :=
  let reason := if String.eqb (ar_ConflictReason r) ""
                then match e with Some e => writeErrorText e | None => "" end else ar_ConflictReason r in
  RedactResolution (mkResolution (d_ID d) (d_Kind d) (hostFSDecisionState (ar_Status r)) (ar_Decision r) reason
    [("operationId", VString (ar_OperationID r)); ("changedPaths", VStrings (ar_ChangedPaths r));
     ("partialMutationPrevented", VOther (if ar_PartialMutationPrevented r then 1 else 0));
     ("privilegeStatus", VString (pr_Status (ar_Privilege r)))]
    (d_AuditRef d) (int_succ (d_Revision d))).
(** A provider's result and error, as a resolution. *)
Definition resolveWrite (d : Decision) (m : HM (ApplyResult * option WriteError)) : HM (Resolution * option WriteError) :=
  r ← attempt m;
  let '(result, e) := match r with Ok x => x | Err e => (noResult, Some e) end in
  ignore_err syncHostFSWriteDecisions;;
  mret (hostFSWriteResolution d result e, e).
(** Resolve in the store, with its audit record. *)
Definition resolveStored (req : DecisionResolveRequest) (d : Decision) (state verdict action : string)
    (result : Details) : HM Resolution :=
  hstore;;
  '(res, updated) ← orStaleH d (onWorld (onStore (ResolveDecision (dr_DecisionID req) (dr_ClaimToken req) state
    verdict (dr_Reason req) result)));
  haudit action verdict updated;;
  mret res.
Definition approveEvidenceShareDecision (req : DecisionResolveRequest) (d : Decision) : HM Resolution :=
  hstore;;
  orStaleH d (onWorld (onStore (ValidateDecisionClaim (dr_DecisionID req) (dr_ClaimToken req))));;
  result ← orStaleH d (share (dr_DecisionID req));
  resolveStored req d StateApplied "allow" ActionDecisionApply result.

Definition noError {A} (m : HM A) : HM (A * option WriteError) := a ← m; mret (a, None).
Definition resolveDecision (req : DecisionResolveRequest) (approve : bool) : HM (Resolution * option WriteError) :=
  versionFits (dr_ExpectedVersion req);;
  d ← inspectDecisionPrivate (dr_DecisionID req);
  refuseTerminal d (
  if String.eqb (d_Kind d) KindHostFSWrite then
    if approve
    then resolveWrite d (ApplyHostFSWrite K (mkApplyRequest (pr_DecisionID (d_ProviderRef d)) (dr_ClaimToken req) PlanVersion))
    else resolveWrite d (noError (DiscardHostFSWrite (mkDiscardRequest (pr_DecisionID (d_ProviderRef d))
           (dr_ClaimToken req) PlanVersion (dr_Reason req))))
  else noError (
    if String.eqb (d_Kind d) KindHostFSRead then
      if approve then onWorld (approveHostFSRead fs range loadProfile req d) else onWorld (denyHostFSRead range req d)
    else if String.eqb (d_Kind d) KindHostAppOpenResource && approve then
      resolveStored req d StateApproved "allow" ActionDecisionApply
        [("mode", VString "trusted"); ("sessionId", VString (so_Session (d_Source d)))]
    else if String.eqb (d_Kind d) KindEvidenceShare && approve then approveEvidenceShareDecision req d
    else if approve then hstore;; hrefuse "decision kind has no promoted provider"
    else resolveStored req d StateDenied "deny" ActionDecisionDeny [])).
Definition ApproveDecision (req : DecisionResolveRequest) : HM (Resolution * option WriteError) := resolveDecision req true.
Definition DenyDecision (req : DecisionResolveRequest) : HM (Resolution * option WriteError) := resolveDecision req false.
Definition ReopenDecision (req : HostFSReadReopenRequest) : HM Resolution :=
  versionFits (ro_ExpectedVersion req);;
  d ← inspectDecisionPrivate (TrimSpace (ro_DecisionID req));
  onWorld (reopenHostFSRead fs range loadProfile req d).

(** ** Revoking *)

Definition RevokeDecision (req : DecisionRevokeRequest) : HM Resolution :=
  versionFits (dv_ExpectedVersion req);;
  d ← inspectDecisionPrivate (dv_DecisionID req);
  hrequire (String.eqb (d_Kind d) KindHostAppOpenResource) "decision kind is not revocable";;
  hstore;;
  '(res, updated) ← orStaleH d (onWorld (onStore (RevokeGrantedDecision (d_ID d) KindHostAppOpenResource (dv_Reason req))));
  haudit ActionDecisionRevoke "deny" updated;;
  mret res.

(** [fmt.Sprint] of an entry of the binding; [sprint] prints what is no string. *)
Definition bindingField (sprint : Value → string) (d : Decision) (k : string) : string :=
  let entry m := snd <$> List.find (λ e : string * Value, String.eqb e.1 k) m in
  match snd <$> List.find (λ e : string * Value, String.eqb e.1 "binding") (d_ProposedAction d) with
  | Some (VMap m) => match entry m with Some (VString s) => s | Some v => sprint v | None => "<nil>" end
  | _ => "<nil>"
  end.
Definition invalidateHostAppDecisions (sprint : Value → string) (packID revisionID reason : string) : HM () :=
  hstore;;
  ds ← onWorld (onStore (Decisions (mkFilter KindHostAppOpenResource "" "" "" "" true)));
  for_each (λ d,
    if negb (String.eqb (bindingField sprint d "packId") packID)
       || (negb (String.eqb revisionID "") && negb (String.eqb (bindingField sprint d "revisionId") revisionID))
    then mret tt
    else
      '(res, updated) ← onWorld (onStore (InvalidateProviderDecision (d_ID d) KindHostAppOpenResource reason));
      if String.eqb (rs_Decision res) "unchanged" then mret tt
      else haudit ActionDecisionRevoke "deny" updated) ds.

(** ** Releasing a claim *)

Definition releaseHostFSWriteDecisionClaim (req : DecisionReleaseRequest) (d : Decision) (reason : string) :
    HM ClaimRelease :=
  match d_Claim d with
  | None => hrefuse "decision is not claimed"
  | Some c =>
      hrequire (String.eqb (d_State d) StateClaimed) "decision is not claimed";;
      hrequire (negb ((0 <? dl_ExpectedRevision req) && negb (dl_ExpectedRevision req =? d_Revision d)))
        "decision revision changed";;
      hrequire (String.eqb (HashClaimToken (dl_ClaimToken req)) (cm_TokenHash c)) "claimToken is invalid";;
      ref ← findHostFSWriteByDecision (d_ID d);
      validateHostFSWriteClaimToken (rf_decision ref) (dl_ClaimToken req);;
      let ref := ref <| rf_decision ::= (λ d, d <| wd_State := WritePending |> <| wd_Claim := None |>) |> in
      onOverlay (rf_sessionID ref) (SaveDecision (rf_decision ref));;
      hstore;;
      '(release, updated) ← onWorld (onStore (ReleaseDecisionClaim (dl_DecisionID req) (dl_ClaimToken req)
        (dl_ExpectedRevision req) reason));
      emitHostFSWriteAudit ref WriteActionRelease "allow";;
      haudit ActionDecisionRelease "allow" updated;;
      mret release
  end.
Definition releaseDecisionClaim (req : DecisionReleaseRequest) : HM ClaimRelease :=
  validateDecisionReleaseRequest req;;
  d ← inspectDecisionPrivate (dl_DecisionID req);
  if DecisionTerminal (d_State d) then hrefuse "decision is terminal"
  else
    let reason := orDefault (TrimSpace (dl_Reason req)) "deciding client disconnected" in
    if String.eqb (d_Kind d) KindHostFSWrite then releaseHostFSWriteDecisionClaim req d reason
    else
      hstore;;
      '(release, updated) ← orStaleH d (onWorld (onStore (ReleaseDecisionClaim (dl_DecisionID req)
        (dl_ClaimToken req) (dl_ExpectedRevision req) reason)));
      onWorld (when (String.eqb (d_Kind updated) KindHostFSRead) (syncHostFSReadDecision range updated));;
      haudit ActionDecisionRelease "allow" updated;;
      mret release.

(** ** Notices *)

Definition CreateNotice (n : Notice) : HM Notice :=
  hstore;; out ← onWorld (onStore (CreateOrUpdateNotice n)); onWorld (noticeAudit ActionNoticeCreate "allow" out);; mret out.
Definition ListNotices (f : ListFilter) : HM (list Notice) := hstore;; onWorld (onStore (Notices (trimmed f))).
Definition InspectNotice (id : string) : HM Notice := hstore;; onWorld (onStore (GetNotice id)).
Definition ackNotice (id surface : string) : HM Acknowledgement :=
  hstore;; '(ack, n) ← onWorld (onStore (AckNotice id surface)); onWorld (noticeAudit ActionNoticeAck "allow" n);; mret ack.
End center.
