(* ===== verification/HostAppResource.v ===== *)
(** * The authority over a session's host files
    (src/internal/manager/host_app_resource.go)

    What the HostFS service asks for a running session: whether a read is
    approved ([AllowsRead]), and, before a file or a tree is handed to a host
    application, whether the session is alive and the profile's present rules
    still give what the session's policy gave. *)
From Stdlib Require Import Ascii.
From S2P Require Import Prelude GoStrings GoTime GoPath Redact Decision DecisionStore GoGlob HostFS.
From S2P Require Import HostFSService ReadGrant HostFSRead.
Open Scope Z_scope.

Section authority.
Context (fs : FileSystem) (loadProfile : string → result ManagerError Config).
Local Abbreviation h := (fs_Host fs).

(** The session's policy with its profile rules replaced by the present ones. *)
Definition hostAppPolicyWithCurrentProfile (runPolicy profilePolicy : EffectivePolicy) : EffectivePolicy :=
  let others := List.filter (λ g, negb (String.eqb (g_Source g) SourceProfile)) in
  runPolicy <| p_Grants := (p_Grants profilePolicy ++ others (p_Grants runPolicy))%list |>
            <| p_Deny := (p_Deny profilePolicy ++ others (p_Deny runPolicy))%list |>.

Definition hostAppDecisionEquivalent (expected current : FSDecision) : bool :=
  if negb (eqb (fd_Allowed expected) (fd_Allowed current)) || negb (String.eqb (fd_Effect expected) (fd_Effect current))
  then false
  else if negb (fd_Allowed expected) then negb (denied expected)
  else String.eqb (fd_RuleID expected) (fd_RuleID current) && String.eqb (fd_Source expected) (fd_Source current).

Definition hostAppResourceDecisionsCurrent (policy : EffectivePolicy) (check : HostAppResourceCheck) : bool :=
  let requested := Decide h policy (hc_Operation check) (hc_RequestedPath check) in
  let canonical := Decide h policy (hc_Operation check) (hc_CanonicalPath check) in
  if denied requested || denied canonical then false
  else hostAppDecisionEquivalent (hc_RequestedDecision check) requested
       && hostAppDecisionEquivalent (hc_CanonicalDecision check) canonical.

Definition hostAppDynamicVisibilityCurrent (policy : EffectivePolicy) (check : HostAppResourceCheck) : bool :=
  bothVisible fs policy (hc_RequestedPath check) (hc_CanonicalPath check)
  && negb (readDenied fs policy (hc_RequestedPath check) (hc_CanonicalPath check)).

(** The visibility of a path that the profile gave it is still the profile's. *)
Definition visibilityKept (runPolicy profilePolicy : EffectivePolicy) (path : string) : bool :=
  let expected := Visibility h runPolicy path in
  let current := Visibility h profilePolicy path in
  negb (String.eqb (v_Source expected) SourceProfile)
  || negb (negb (v_ExplicitDomain current) || hiddenV current || v_DiscoverDenied current
           || negb (String.eqb (v_RuleID current) (v_RuleID expected))
           || negb (String.eqb (v_Source current) SourceProfile)).
(** So is the decision that the profile gave. *)
Definition decisionKept (profilePolicy : EffectivePolicy) (operation path : string) (expected : FSDecision) : bool :=
  let current := Decide h profilePolicy operation path in
  (negb (fd_Allowed expected) || negb (String.eqb (fd_Source expected) SourceProfile))
  || negb (negb (fd_Allowed current) || negb (String.eqb (fd_RuleID current) (fd_RuleID expected))
           || negb (String.eqb (fd_Source current) SourceProfile)).
Definition hostAppProfileAuthorityCurrent (runPolicy profilePolicy : EffectivePolicy)
    (check : HostAppResourceCheck) : bool :=
  if hc_DynamicRead check
  then visibilityKept runPolicy profilePolicy (hc_RequestedPath check)
       && visibilityKept runPolicy profilePolicy (hc_CanonicalPath check)
  else decisionKept profilePolicy (hc_Operation check) (hc_RequestedPath check) (hc_RequestedDecision check)
       && decisionKept profilePolicy (hc_Operation check) (hc_CanonicalPath check) (hc_CanonicalDecision check).

(** The errors of the validator: [true] is [ErrHostAppResourceUnauthorized],
    [false] is [ErrHostAppResourceOwner]. *)
Definition unauthorized : result bool () := Err true.
Definition notOwner : result bool () := Err false.

Definition ValidateHostAppResource (p : Provider) (check : HostAppResourceCheck) : MM (result bool ()) :=
  if negb (String.eqb (ow_SessionID (hc_Owner check)) (hp_sessionID p)) || blank (ow_Profile (hc_Owner check))
  then mret notOwner
  else
    live ← attempt probeOwner;
    match live, loadProfile (ow_Profile (hc_Owner check)) with
    | Err _, _ | _, Err _ => mret notOwner
    | Ok _, Ok config =>
        now ← mnow;
        w ← get_state;
        let runPolicy := (hp_policy p) <| p_Now := now |> in
        let none := mkConfig [] [] in
        match Build h now (mkBuildInput config none none now (st_root (w_store w)) "") with
        | Err _ => mret unauthorized
        | Ok built =>
            let profilePolicy := (s_Policy (NewService fs built now)) <| p_Now := now |> in
            let currentPolicy := hostAppPolicyWithCurrentProfile runPolicy profilePolicy in
            mret (if negb (hc_DynamicRead check) && negb (hostAppResourceDecisionsCurrent currentPolicy check)
                  then unauthorized
                  else if hc_DynamicRead check && negb (hostAppDynamicVisibilityCurrent currentPolicy check)
                  then unauthorized
                  else if negb (hostAppProfileAuthorityCurrent runPolicy profilePolicy check) then unauthorized
                  else if String.eqb (hc_ResourceType check) HostAppResourceTree
                          && negb (AuthorizesHostAppTree fs currentPolicy (hc_CanonicalPath check))
                  then unauthorized
                  else Ok tt)
        end
    end.

(** The authority of a run also fixes the profile. *)
Definition ValidateRunHostAppResource (p : Provider) (profile : string) (check : HostAppResourceCheck) :
    MM (result bool ()) :=
  if String.eqb profile "" || negb (String.eqb (ow_Profile (hc_Owner check)) profile) then mret notOwner
  else ValidateHostAppResource p check.

Definition AllowsHostAppResourceRead (p : Provider) (check : ReadGrantCheck) : MM (result bool bool) :=
  allowed ← attempt (AllowsRead fs p check);
  match allowed with
  | Ok b => mret (Ok b)
  | Err _ =>
      live ← attempt probeOwner;
      mret (match live with Err _ => Err false | Ok _ => Err true end)
  end.

(** [newHostAppRunResourceAuthority]: the authority the service is given, on
    the state [w]. *)
Definition authorityOf (p : Provider) (profileName : string) (w : World) : ReadAuthority :=
  let answer {A} (m : MM (result bool A)) : result bool A :=
    match (m w).2 with Ok r => r | Err _ => Err false end in
  mkReadAuthority
    (λ check, match (AllowsRead fs p check w).2 with Ok b => Ok b | Err _ => Err false end)
    (Some (λ check, answer (AllowsHostAppResourceRead p check)))
    (Some (λ check, answer (ValidateRunHostAppResource p (TrimSpace profileName) check))).
End authority.
