(* ===== verification/HostFSReadSpec.v ===== *)
(** * What an approved read rests on

    Which operations change the manifests of grants and what an approval adds to
    them; the histories of the read provider, the operators and the decision
    store; and the composition with the HostFS service: the bytes a guest reads
    of the host are granted by policy or by an approval of exactly this file,
    made by the holder of the claim of its decision. *)
From Stdlib Require Import Ascii.
From S2P Require Import Prelude StateRules GoStrings GoTime GoHash GoRunes GoPath Redact Decision.
From S2P Require Import DecisionStore DecisionSpec GoGlob HostPathRisk HostFS HostFSSpec.
From S2P Require Import HostTree Overlay OverlaySpec OverlayStageSpec.
From S2P Require Import HostFSService HostFSServiceSpec ReadGrant HostFSRead HostAppResource.
Open Scope Z_scope.

(** ** Running an operation *)

Lemma mwp_require b what w (Q : World → result ManagerError () → Prop) :
  (b = true → Q w (Ok tt)) → Q w (Err (MRefused what)) → mwp (require b what) w Q.
Proof. intros H1 H2. destruct b; [exact (H1 eq_refl)|exact H2]. Qed.

(** ** What stays *)

Definition manifestOf (sid : string) (w : World) : option Manifest := filesOf sid w ≫= sf_grants.
Definition stateOf (sid : string) (w : World) : option ProviderState := filesOf sid w ≫= sf_state.
Definition grantsOf (sid : string) (w : World) : list ReadGrant :=
  match manifestOf sid w with Some m => mf_Grants m | None => [] end.

(** The manifests are as they were. *)
Definition sameManifests (w w' : World) : Prop := ∀ sid, manifestOf sid w' = manifestOf sid w.
(** So are the request records, the decisions, the clock and the owners' locks. *)
Definition quiet (w w' : World) : Prop :=
  sameManifests w w' ∧ (∀ sid, stateOf sid w' = stateOf sid w) ∧
  st_decisions (w_store w') = st_decisions (w_store w) ∧ st_root (w_store w') = st_root (w_store w) ∧
  st_clock (w_store w') = st_clock (w_store w) ∧ w_owner w' = w_owner w.

#[global] Instance sameManifests_pre : PreOrder sameManifests.
Proof. split; [by intros w sid|]. intros w1 w2 w3 H1 H2 sid. by rewrite H2, H1. Qed.
#[global] Instance quiet_pre : PreOrder quiet.
Proof.
  split; [by intros w; split_and!|]. intros w1 w2 w3 (A1&A2&A3&A4&A5&A6) (B1&B2&B3&B4&B5&B6). split_and!; try congruence.
Qed.
Lemma quiet_same {A} (m : MM A) : preserves quiet m → preserves sameManifests m.
Proof. intros H w. by destruct (H w). Qed.

Create HintDb quiet discriminated.
Create HintDb keep discriminated.
#[export] Hint Resolve quiet_same : keep.

Ltac quietly := keeps (eauto with quiet).
Ltac keeping := keeps (eauto with keep quiet).

Lemma onStore_same {A} (m : DM A) : preserves sameManifests (onStore m).
Proof. intros w sid. unfold onStore. by destruct (m (w_store w)) as [s r]. Qed.
#[export] Hint Resolve onStore_same : keep.

Lemma mio_quiet : preserves quiet mio.
Proof. intros w. by split_and!. Qed.
Lemma mnow_quiet : preserves quiet mnow.
Proof. intros w. by split_and!. Qed.
#[export] Hint Resolve mio_quiet mnow_quiet : quiet.
Lemma require_quiet b what : preserves quiet (require b what).
Proof. unfold require, refuse. quietly. Qed.
#[export] Hint Resolve require_quiet : quiet.
Lemma ofGrant_quiet {A} (r : GR A) : preserves quiet (ofGrant r).
Proof. unfold ofGrant. quietly. Qed.
Lemma decisionStore_quiet : preserves quiet decisionStore.
Proof. unfold decisionStore. quietly. Qed.
#[export] Hint Resolve ofGrant_quiet decisionStore_quiet : quiet.
Lemma audit_quiet e : preserves quiet (emitOperatorCenterAudit e).
Proof. unfold emitOperatorCenterAudit. quietly. Qed.
#[export] Hint Resolve audit_quiet : quiet.
Lemma decisionAudit_quiet action verdict d : preserves quiet (emitDecisionAudit action verdict d).
Proof. apply audit_quiet. Qed.
Lemma lifecycleCall_quiet c : preserves quiet (lifecycleCall c).
Proof. unfold lifecycleCall. quietly. Qed.
Lemma probeOwner_quiet : preserves quiet probeOwner.
Proof. intros w. unfold probeOwner. destruct (w_owner w (w_probes w)). by split_and!. Qed.
#[export] Hint Resolve decisionAudit_quiet lifecycleCall_quiet probeOwner_quiet : quiet.

(** Changing the lock or the request records of a session keeps the manifests. *)
Lemma manifest_insert sid sid' f f' w :
  sf_grants f' = match filesOf sid w with Some f => sf_grants f | None => None end → f = f' →
  manifestOf sid' (w <| w_sessions ::= <[sid := f]> |>) = manifestOf sid' w.
Proof.
  intros H ->. unfold manifestOf, filesOf in *. cbn. destruct (decide (sid = sid')) as [<-|Hne].
  - rewrite lookup_insert_eq. cbn. rewrite H. by destruct (w_sessions w !! sid).
  - by rewrite lookup_insert_ne.
Qed.
Lemma updateFiles_same sid (f : SessionFiles → SessionFiles) :
  (∀ x, sf_grants (f x) = sf_grants x) → preserves sameManifests (updateFiles sid f).
Proof.
  intros Hf w sid'. unfold updateFiles, modify. cbn [fst]. eapply manifest_insert; [|reflexivity].
  rewrite Hf. unfold filesOf. by destruct (w_sessions w !! sid).
Qed.
Lemma lock_quiet sid : preserves quiet (updateFiles sid (λ f, f <| sf_lock := Some true |>)).
Proof.
  intros w. split_and!; [by apply updateFiles_same| |done..]. intros sid'. unfold stateOf, filesOf. cbn.
  destruct (decide (sid = sid')) as [<-|Hne]; [|by rewrite lookup_insert_ne].
  rewrite lookup_insert_eq. unfold filesOf. by destruct (w_sessions w !! sid).
Qed.
#[export] Hint Resolve lock_quiet : quiet.

Lemma LoadState_quiet st : preserves quiet (LoadState st).
Proof. unfold LoadState. quietly. Qed.
Lemma LoadManifest_quiet st : preserves quiet (LoadManifest st).
Proof. unfold LoadManifest. quietly. Qed.
Lemma SaveState_same st s : preserves sameManifests (SaveState st s).
Proof. unfold SaveState. keeping. by apply updateFiles_same. Qed.
Lemma OpenStore_quiet dir sid : preserves quiet (OpenStore dir sid).
Proof. unfold OpenStore. quietly. Qed.
#[export] Hint Resolve LoadState_quiet LoadManifest_quiet OpenStore_quiet : quiet.
#[export] Hint Resolve SaveState_same : keep.
Lemma openStore_quiet sid : preserves quiet (openHostFSReadStore sid).
Proof. unfold openHostFSReadStore. quietly. Qed.
#[export] Hint Resolve openStore_quiet : quiet.
Lemma liveStore_quiet sid : preserves quiet (liveHostFSReadStore sid).
Proof. unfold liveHostFSReadStore. quietly. Qed.
#[export] Hint Resolve liveStore_quiet : quiet.
Lemma holding_keeps (R : relation World) `{!PreOrder R} {A} st (m : MM A) :
  (∀ w w', quiet w w' → R w w') → preserves R m → preserves R (holding st m).
Proof.
  intros HR Hm. assert (∀ B (x : MM B), preserves quiet x → preserves R x) as Hq by (intros B x Hx w; apply HR, Hx).
  unfold holding. keeps (first [exact Hm|apply Hq; eauto with quiet]).
Qed.
Lemma withLock_keeps (R : relation World) `{!PreOrder R} {A} st (m : MM A) :
  (∀ w w', quiet w w' → R w w') → preserves R m → preserves R (withLock st m).
Proof.
  intros HR Hm. unfold withLock. keeps (by apply holding_keeps).
Qed.
Lemma withLock_quiet {A} st (m : MM A) : preserves quiet m → preserves quiet (withLock st m).
Proof. exact (withLock_keeps quiet st m (λ _ _ H, H)). Qed.
Lemma withLock_same {A} st (m : MM A) : preserves sameManifests m → preserves sameManifests (withLock st m).
Proof. exact (withLock_keeps sameManifests st m (λ _ _ H, proj1 H)). Qed.
#[export] Hint Resolve withLock_quiet : quiet.
#[export] Hint Resolve withLock_same : keep.

(** ** Operations that keep the manifests *)

Section operations.
Context (fs : FileSystem) (isPrint : N → bool).
Context (range : gmap string RequestRecord → list (string * RequestRecord)).
Context (loadProfile : string → result ManagerError Config).

Lemma record_quiet s id : preserves quiet (hostFSReadRecordByDecision range s id).
Proof. unfold hostFSReadRecordByDecision, refuse. quietly. Qed.
Lemma cleanPath_quiet path : preserves quiet (cleanHostFSReadPath path).
Proof. unfold cleanHostFSReadPath. quietly. Qed.
Lemma lease_quiet n : preserves quiet (decisionClaimLease n).
Proof. unfold decisionClaimLease. quietly. Qed.
#[local] Hint Resolve record_quiet cleanPath_quiet lease_quiet : quiet.
Lemma proposal_quiet p proposal : preserves quiet (validateProposal fs isPrint p proposal).
Proof. unfold validateProposal, refuse. quietly. Qed.
Lemma policy_quiet record : preserves quiet (hostFSReadPolicyForRecord fs loadProfile record).
Proof. unfold hostFSReadPolicyForRecord, refuse. quietly. Qed.
Lemma validateRecord_quiet record d policy : preserves quiet (validateHostFSReadRecord fs record d policy).
Proof. unfold validateHostFSReadRecord, refuse. quietly. Qed.
Lemma activeGrant_quiet p check g : preserves quiet (validateActiveGrant fs p check g).
Proof. unfold validateActiveGrant. quietly. Qed.
Lemma auditDetails_quiet d : preserves quiet (hostFSReadAuditDetails range d).
Proof. unfold hostFSReadAuditDetails. quietly. apply withLock_quiet. quietly. Qed.
#[local] Hint Resolve proposal_quiet policy_quiet validateRecord_quiet activeGrant_quiet auditDetails_quiet : quiet.

Lemma CreateDecision_same d : preserves sameManifests (CreateDecision d).
Proof. unfold CreateDecision. keeping. Qed.
#[local] Hint Resolve CreateDecision_same : keep.
Lemma repeatProposal_same st state key r now : preserves sameManifests (repeatProposal st state key r now).
Proof. unfold repeatProposal, refuse. keeping. Qed.
Lemma createRequest_same p st state r now : preserves sameManifests (createRequest p st state r now).
Proof. unfold createRequest. keeping. Qed.
#[local] Hint Resolve repeatProposal_same createRequest_same : keep.
Lemma Propose_same p proposal : preserves sameManifests (ProposeHostFSRead fs isPrint p proposal).
Proof.
  unfold ProposeHostFSRead. keeping. apply withLock_same. unfold proposeLocked, emitLimitAudit. keeping.
Qed.
Lemma AllowsRead_quiet p check : preserves sameManifests (AllowsRead fs p check).
Proof. unfold AllowsRead. apply withLock_same. keeping. Qed.
Lemma orStale_same {A} d (m : MM A) : preserves sameManifests m → preserves sameManifests (orStale d m).
Proof. intros Hm. unfold orStale. keeps (first [exact Hm|eauto with keep quiet]). Qed.
Lemma claim_same req d : preserves sameManifests (claimHostFSRead range req d).
Proof.
  unfold claimHostFSRead. keeping. apply orStale_same, withLock_same. keeping.
Qed.
Lemma deny_same req d : preserves sameManifests (denyHostFSRead range req d).
Proof. unfold denyHostFSRead. keeping. apply orStale_same, withLock_same. keeping. Qed.
Lemma reopen_same req d : preserves sameManifests (reopenHostFSRead fs range loadProfile req d).
Proof. unfold reopenHostFSRead. keeping. apply orStale_same, withLock_same. keeping. Qed.
Lemma sync_same d : preserves sameManifests (syncHostFSReadDecision range d).
Proof. unfold syncHostFSReadDecision. keeping. apply withLock_same. unfold followDecision. keeping. Qed.
Lemma newProvider_same sid dir policy : preserves sameManifests (newHostFSReadProvider fs sid dir policy).
Proof. unfold newHostFSReadProvider, NewStore. keeping. by apply updateFiles_same. Qed.
End operations.

(** ** What an approval adds *)

(** The manifests of [w] hold grants of [w0], and perhaps [g] for the session
    [sid]. *)
Definition onlyGrants (w0 : World) (sid : string) (g : ReadGrant) (w : World) : Prop :=
  ∀ sid' x, x ∈ grantsOf sid' w → x ∈ grantsOf sid' w0 ∨ (sid' = sid ∧ x = g).
Definition within (w0 : World) (sid : string) (g : ReadGrant) (w w' : World) : Prop :=
  onlyGrants w0 sid g w → onlyGrants w0 sid g w'.
#[global] Instance within_pre w0 sid g : PreOrder (within w0 sid g).
Proof. split; [intros w H; exact H|]. intros w1 w2 w3 H1 H2 H. by apply H2, H1. Qed.
Lemma same_grants w w' sid : sameManifests w w' → grantsOf sid w' = grantsOf sid w.
Proof. intros H. unfold grantsOf. by rewrite H. Qed.
Lemma same_within {A} w0 sid g (m : MM A) : preserves sameManifests m → preserves (within w0 sid g) m.
Proof. intros H w Hw sid' x. rewrite (same_grants _ _ sid' (H w)). apply Hw. Qed.

Lemma updateGrants w sid m sid' :
  let w' := (updateFiles sid (λ f, f <| sf_grants := m |>) w).1 in
  manifestOf sid' w' = if decide (sid' = sid) then m else manifestOf sid' w.
Proof.
  cbn. unfold manifestOf, filesOf. cbn. case_decide as E.
  - subst. by rewrite lookup_insert_eq.
  - by rewrite lookup_insert_ne.
Qed.
Lemma updateGrants_within w0 sid g st m :
  (∀ x, x ∈ match m with Some m => mf_Grants m | None => [] end → x ∈ grantsOf st w0 ∨ (st = sid ∧ x = g)) →
  preserves (within w0 sid g) (updateFiles st (λ f, f <| sf_grants := m |>)).
Proof.
  intros Hm w Hw sid' x. unfold grantsOf. rewrite updateGrants. case_decide as E; [subst; apply Hm|]. apply Hw.
Qed.
Lemma SaveManifest_within w0 sid g st m :
  (∀ x, x ∈ mf_Grants m → x ∈ grantsOf (rs_session st) w0 ∨ (rs_session st = sid ∧ x = g)) →
  preserves (within w0 sid g) (SaveManifest st m).
Proof.
  intros Hm. unfold SaveManifest.
  keeps (first [apply same_within; solve [eauto with keep quiet]|by apply updateGrants_within]).
Qed.

(** The previous manifest of an approval, as it was loaded. *)
Definition previousOf (w : World) (sid : string) (previous : Manifest) (hadPrevious : bool) : Prop :=
  hadPrevious = true → manifestOf sid w = Some previous.
Lemma previous_grants w sid previous x :
  manifestOf sid w = Some previous → x ∈ mf_Grants previous → x ∈ grantsOf sid w.
Proof. unfold grantsOf. by intros ->. Qed.
Lemma next_grants previous had sid record rev now x :
  x ∈ mf_Grants (nextHostFSReadManifest previous had sid record rev now) →
  (had = true ∧ x ∈ mf_Grants previous) ∨ x = grantFor record rev now.
Proof.
  unfold nextHostFSReadManifest. cbn. intros [H|H%list_elem_of_singleton]%elem_of_app; [|by right].
  destruct had; [|by apply elem_of_nil in H]. left. split; [done|].
  apply list_elem_of_In, filter_In in H as [H _]. by apply list_elem_of_In.
Qed.

Section approval.
Context (fs : FileSystem).
Context (range : gmap string RequestRecord → list (string * RequestRecord)).
Context (loadProfile : string → result ManagerError Config).

Lemma restore_within w0 sid g st previous had :
  rs_session st = sid → previousOf w0 sid previous had →
  preserves (within w0 sid g) (restoreHostFSReadManifest st previous had).
Proof.
  intros <- Hp. unfold restoreHostFSReadManifest. destruct had.
  - apply SaveManifest_within. intros x Hx. left. by eapply previous_grants; [apply Hp|].
  - keeps (first [apply same_within; solve [eauto with keep quiet]|apply updateGrants_within; by intros ? ?%elem_of_nil]).
Qed.
Lemma failActivation_same {A} st state key record applied cause :
  preserves sameManifests (failHostFSReadActivation (A := A) st state key record applied cause).
Proof. unfold failHostFSReadActivation. keeping. Qed.

Lemma mwp_mnow w (Q : World → result ManagerError Time → Prop) :
  Q (mnow w).1 (Ok (UTC (st_clock (w_store w) (st_reads (w_store w))))) → mwp mnow w Q.
Proof. done. Qed.
Lemma activate_grants w0 st registered sid state key record updated previous had w :
  rs_session st = sid → previousOf w0 sid previous had → (∀ s, grantsOf s w = grantsOf s w0) →
  st_clock (w_store w) = st_clock (w_store w0) →
  mwp (activate st registered sid state key record updated previous had) w (λ w' _,
    ∃ n, onlyGrants w0 sid (grantFor record (d_Revision updated) (UTC (st_clock (w_store w0) n))) w').
Proof.
  intros Hst Hp Hg Hclock. unfold activate. apply mwp_bind, mwp_mnow.
  pose proof (mnow_quiet w) as [Hsame _]. set (w1 := (mnow w).1) in *. rewrite Hclock.
  set (now := UTC _). set (g := grantFor record (d_Revision updated) now).
  assert (onlyGrants w0 sid g w1) as H1
    by (intros s x Hx; left; by rewrite <-Hg, <-(same_grants _ _ s Hsame)).
  eapply (mwp_by (within w0 sid g)); [|intros w' r H; exists (st_reads (w_store w)); exact (H H1)].
  keeps (first [apply same_within; first [apply failActivation_same|solve [eauto with keep quiet]]
    |by apply restore_within|apply SaveManifest_within; intros x [[-> Hx]| ->]%next_grants;
      [left; rewrite Hst; by eapply previous_grants; [apply Hp|]|by right]]).
Qed.

(** The statements before the decision is applied: what they establish when they
    succeed. *)
Lemma LoadState_ok st w w' state :
  LoadState st w = (w', Ok state) → state = default (emptyState (rs_session st)) (stateOf (rs_session st) w).
Proof.
  unfold LoadState. intros (w1&[]&Hio&H)%bind_ok. apply (quiet_run quiet) in Hio as (_&Hs&_); [|apply mio_quiet].
  apply bind_ok in H as (w2&w3&[= <- <-]&H). rewrite <-Hs. unfold stateOf.
  destruct (filesOf (rs_session st) w1 ≫= sf_state) as [s|]; [|by injection H as <-].
  apply bind_ok in H as (w2&[]&_&H). by injection H as <-.
Qed.
Lemma record_ok s id w w' key record :
  hostFSReadRecordByDecision range s id w = (w', Ok (key, record)) →
  w' = w ∧ (key, record) ∈ range (ps_Requests s) ∧ rq_DecisionID record = id.
Proof.
  unfold hostFSReadRecordByDecision. destruct (List.find _ _) as [e|] eqn:E; [|done]. intros [= <- ->].
  apply find_Some_elem in E as [Hin He%String.eqb_eq]. done.
Qed.
Lemma require_ok b what w w' u : require b what w = (w', Ok u) → w' = w ∧ b = true.
Proof. destruct b; [by intros [= <-]|done]. Qed.
(** The file behind a request is the one that was proposed. *)
Definition sameFile (requested canonical : string) : Prop :=
  h_EvalSymlinks (fs_Host fs) requested = Ok canonical ∧
  ∃ info, fs_Stat fs canonical = Ok info ∧ isRegular info = true.
Lemma validateRecord_ok record d policy w w' u :
  validateHostFSReadRecord fs record d policy w = (w', Ok u) →
  d_Kind d = KindHostFSRead ∧ sameFile (rq_RequestedPath record) (rq_CanonicalPath record) ∧
  bothVisible fs policy (rq_RequestedPath record) (rq_CanonicalPath record) = true ∧
  readDenied fs policy (rq_RequestedPath record) (rq_CanonicalPath record) = false.
Proof.
  unfold validateHostFSReadRecord. intros (w1&?&[-> Hk]%require_ok&H)%bind_ok.
  rewrite negb_true_iff, !orb_false_iff, !negb_false_iff, !String.eqb_eq in Hk. destruct Hk as [[[Hk _] _] _].
  destruct (h_EvalSymlinks (fs_Host fs) (rq_RequestedPath record)) as [canonical|] eqn:He; [|done].
  apply bind_ok in H as (w2&?&[-> ->%String.eqb_eq]%require_ok&H).
  destruct (fs_Stat fs (rq_CanonicalPath record)) as [info|] eqn:Hs; [|done].
  apply bind_ok in H as (w3&?&[-> Hreg]%require_ok&H). apply bind_ok in H as (w4&?&[-> Hv]%require_ok&H).
  apply bind_ok in H as (w5&?&[-> _]%require_ok&H). apply require_ok in H as [-> Hd%negb_true_iff].
  split_and!; try done. split; [done|eauto].
Qed.

Lemma validateClaim_ok id token v :
  wp (ValidateDecisionClaim id token) v (λ v' r, ∀ d, r = Ok d →
    v_decisions v' = v_decisions v ∧ v_root v' = v_root v ∧ v_clock v' = v_clock v).
Proof.
  unfold ValidateDecisionClaim. apply wp_locked; [|by intros f].
  eapply wp_mono; [|intros v' r H; split; [exact H|by intros f]]. repeat wp_step; intros; by try discriminate.
Qed.
Lemma resolveDecision_ok id token state decision reason result v :
  wp (ResolveDecision id token state decision reason result) v (λ v' r, ∀ a, r = Ok a →
    ∃ d0, v_decisions v !! decisionPath (v_root v) (TrimSpace id) = Some d0 ∧
      let now := UTC (v_clock v (v_reads v)) in
      validateClaim d0 token now = Ok tt ∧ a.2 = RedactDecision (moveTo state None now d0) ∧
      v_clock v' = v_clock v).
Proof.
  unfold ResolveDecision. apply wp_locked; [|by intros f].
  eapply wp_mono; [|intros v' r H; split; [exact H|by intros f]].
  repeat wp_step; intros; simplify_eq. destruct a. eexists. by split_and!.
Qed.

(** What an approval of [d] with the request [req] owes to the state it runs in,
    when it adds the grant [g] to the session [sid]. *)
Definition approved (w : World) (req : DecisionResolveRequest) (d : Decision) (sid : string) (g : ReadGrant) : Prop :=
  sid = so_Session (d_Source d) ∧ gr_DecisionID g = d_ID d ∧ d_Kind d = KindHostFSRead ∧
  (∃ d0 n, st_decisions (w_store w) !! decisionPath (st_root (w_store w)) (TrimSpace (d_ID d)) = Some d0 ∧
     validateClaim d0 (dr_ClaimToken req) (UTC (st_clock (w_store w) n)) = Ok tt ∧
     gr_Revision g = int_succ (d_Revision d0)) ∧
  (∃ key record, (key, record) ∈ range (ps_Requests (default (emptyState sid) (stateOf sid w))) ∧
     rq_State record = StateClaimed ∧ rq_DecisionID record = d_ID d ∧
     rq_RequestedPath record = gr_RequestedPath g ∧ rq_CanonicalPath record = gr_CanonicalPath g) ∧
  sameFile (gr_RequestedPath g) (gr_CanonicalPath g) ∧
  (∃ n, gr_IssuedAt g = UTC (st_clock (w_store w) n)) ∧
  gr_ExpiresAt g = AddDur (gr_IssuedAt g) hostFSReadGrantLifetime.
Definition adds (req : DecisionResolveRequest) (d : Decision) (w w' : World) : Prop :=
  ∀ sid x, x ∈ grantsOf sid w' → x ∈ grantsOf sid w ∨ approved w req d sid x.
Lemma same_adds req d w w' : sameManifests w w' → adds req d w w'.
Proof. intros H sid x. rewrite (same_grants _ _ sid H). by left. Qed.

Lemma onStore_ok {A} (m : DM A) w w1 a P :
  wp m (view (w_store w)) (λ v' r, ∀ a, r = Ok a → P v' a) → onStore m w = (w1, Ok a) → P (view (w_store w1)) a.
Proof.
  intros H. unfold onStore. specialize (H (w_store w) eq_refl). destruct (m (w_store w)) as [s [x|f]]; [|done].
  intros [= <- <-]. exact (H x eq_refl).
Qed.
Lemma LoadManifest_ok st w w' m : LoadManifest st w = (w', Ok m) → manifestOf (rs_session st) w = Some m.
Proof.
  unfold LoadManifest. intros (w1&[]&Hio&H)%bind_ok. apply (quiet_run quiet) in Hio as (Hs&_); [|apply mio_quiet].
  apply bind_ok in H as (w2&w3&[= <- <-]&H). rewrite <-Hs. unfold manifestOf.
  destruct (filesOf (rs_session st) w1 ≫= sf_grants) as [x|]; [|done].
  apply bind_ok in H as (w2&[]&_&H). injection H as <- <-. done.
Qed.
Lemma loadManifest_quiet st sid : preserves quiet (loadHostFSReadManifest st sid).
Proof. unfold loadHostFSReadManifest. quietly. Qed.
Lemma loadManifest_ok st sid w w1 previous had :
  rs_session st = sid → loadHostFSReadManifest st sid w = (w1, Ok (previous, had)) → previousOf w sid previous had.
Proof.
  intros <-. unfold loadHostFSReadManifest, mbind at 1, SE_bind, attempt.
  destruct (LoadManifest st w) as [w2 [m|e]] eqn:E; cbn [fst snd].
  - intros [= <- <- <-] _. by eapply LoadManifest_ok.
  - destruct e; intros H; try discriminate H. injection H as <- <- <-. intros H. discriminate H.
Qed.

Lemma approveLocked_adds st registered req d w :
  rs_session st = so_Session (d_Source d) →
  mwp (approveLocked fs range loadProfile st registered req d) w (λ w' _, adds req d w w').
Proof.
  intros Hst. unfold approveLocked. set (sid := so_Session (d_Source d)) in *.
  assert (∀ w', quiet w w' → adds req d w w') as Hq by (intros w' [? _]; by apply same_adds).
  apply (mwp_bind_by quiet); [apply LoadState_quiet|auto|]. intros w1 state Hload%LoadState_ok Q1.
  apply (mwp_bind_by quiet); [apply record_quiet|intros; apply Hq; by etrans|].
  intros w2 [key record] (->&Hrec&Hid)%record_ok _.
  apply (mwp_bind_by quiet); [apply require_quiet|intros; apply Hq; by etrans|].
  intros w2 _ (->&Hclaimed%String.eqb_eq)%require_ok _.
  apply (mwp_bind_by quiet); [apply policy_quiet|intros; apply Hq; by etrans|]. intros w3 policy _ Q3.
  assert (quiet w w3) as Q3' by by etrans. clear Q1 Q3. rename Q3' into Q3.
  apply (mwp_bind_by quiet); [apply validateRecord_quiet|intros; apply Hq; by etrans|].
  intros w4 _ (Hk&Hfile&_)%validateRecord_ok Q4. assert (quiet w w4) as Q4' by by etrans. clear Q3 Q4.
  apply (mwp_bind_by quiet); [apply decisionStore_quiet|intros; apply Hq; by etrans|].
  intros w5 _ _ Q5. assert (quiet w w5) as Q5' by by etrans. clear Q4' Q5. destruct Q5' as (M5&_&D5&R5&C5&_).
  apply (mwp_bind_by sameManifests); [apply onStore_same|intros; apply same_adds; by etrans|].
  intros w6 a (D6&R6&C6)%(onStore_ok _ _ _ _ (λ v' _, _) (validateClaim_ok _ _ _)) M6. cbn in D6, R6, C6.
  apply (mwp_bind_by quiet); [apply loadManifest_quiet|intros w' e []; apply same_adds; by do 2 (etrans; [done|])|].
  intros w7 [previous had] Hp%loadManifest_ok (M7&_&D7&R7&C7&_); [|done].
  apply (mwp_bind_by sameManifests); [apply onStore_same|intros; apply same_adds; by do 3 (etrans; [done|])|].
  intros w8 [resolution updated] Hres M8.
  apply (onStore_ok _ _ _ _ (λ v' x, _) (resolveDecision_ok _ _ _ _ _ _ _)) in Hres as (d0&Hd0&Hclaim&Hup&C8).
  cbn in Hd0, Hclaim, C8, Hup. rewrite D7, D6, D5, R7, R6, R5 in Hd0. rewrite C7, C6, C5 in Hclaim, C8.
  assert (sameManifests w w8) as M by (do 3 (etrans; [done|]); done).
  apply mwp_bind. eapply mwp_mono; [apply (activate_grants w); [done| |intros s; by apply same_grants|by rewrite C8]|].
  { intros Hhad. rewrite <-M5, <-M6. by apply Hp. }
  intros w9 r (n&Hn). assert (adds req d w w9) as Hadds; [|by destruct r as [[]|]].
  intros sid' x [Hx|[-> ->]]%Hn; [by left|right]. unfold approved. cbn.
  split_and!; [done|done|done| | |done|by exists n|done].
  - exists d0, (st_reads (w_store w7)). split_and!; [done|done|]. by rewrite Hup.
  - exists key, record. rewrite Hload, Hst in Hrec. done.
Qed.

Lemma adds_quiet req d w w1 w2 : quiet w w1 → adds req d w1 w2 → adds req d w w2.
Proof.
  intros (M&S&D&R&C&_) H sid x [Hx|Hx]%H; [left; by rewrite <-(same_grants _ _ sid M)|right].
  unfold approved in *. by rewrite D, R, C, S in Hx.
Qed.
Lemma adds_same req d w w1 w2 : adds req d w w1 → sameManifests w1 w2 → adds req d w w2.
Proof. intros H M sid x. rewrite (same_grants _ _ sid M). apply H. Qed.
(** Around a locked body everything is quiet. *)
Lemma holding_rule {A} st (m : MM A) w (P : World → Prop) :
  (∀ w1, quiet w w1 → P w1) → (∀ w1 w2, P w1 → quiet w1 w2 → P w2) →
  (∀ w1, quiet w w1 → P (m w1).1) → mwp (holding st m) w (λ w2 _, P w2).
Proof.
  intros Hq Hp Hm. unfold holding. apply (mwp_bind_by quiet); [apply mio_quiet|auto|]. intros w1 _ _ Q1.
  apply (mwp_bind_by quiet); [apply preserves_get; apply _|intros; apply Hq; by etrans|]. intros w2 x _ Q2.
  assert (quiet w w2) as Q by by etrans. clear Q1 Q2.
  apply (mwp_bind_by quiet); [quietly|intros; apply Hq; by etrans|]. intros w3 _ _ Q3.
  assert (quiet w w3) as Q' by by etrans. clear Q Q3.
  apply (mwp_bind_by quiet); [quietly|intros; apply Hq; by etrans|]. intros w4 taken _ Q4.
  assert (quiet w w4) as Q by by etrans. clear Q' Q4. destruct taken as [_|e].
  - apply mwp_bind, mwp_attempt. eapply (mwp_mono _ _ (λ w5 _, P w5)); [by apply Hm|]. intros w5 r H5.
    eapply (mwp_by quiet); [quietly|]. intros w6 r' Q6. by eapply Hp.
  - eapply (mwp_by quiet); [quietly|]. intros. apply Hq. by etrans.
Qed.
Lemma withLock_rule {A} st (m : MM A) w (P : World → Prop) :
  (∀ w1, quiet w w1 → P w1) → (∀ w1 w2, P w1 → quiet w1 w2 → P w2) →
  (∀ w1, quiet w w1 → P (m w1).1) → mwp (withLock st m) w (λ w2 _, P w2).
Proof.
  intros Hq Hp Hm. unfold withLock. apply mwp_bind. eapply mwp_mono; [by apply holding_rule|].
  intros w1 r H1. destruct r as [[r released]|]; [|done].
  eapply (mwp_by quiet); [quietly|]. intros w2 r' Q. by eapply Hp.
Qed.
Lemma liveStore_session sid w w' st : liveHostFSReadStore sid w = (w', Ok st) → rs_session st = sid.
Proof.
  intros (w1&?&_&H)%bind_ok. apply bind_ok in H as (w2&?&_&H). apply bind_ok in H as (w3&?&_&H).
  apply bind_ok in H as (w4&?&_&H). apply bind_ok in H as (w5&?&_&H). apply bind_ok in H as (w6&?&_&H).
  apply bind_ok in H as (w7&?&_&H). apply bind_ok in H as (w8&s&_&H).
  destruct (filesOf sid s) as [f|]; [|done]. apply bind_ok in H as (w9&?&_&H). apply bind_ok in H as (w10&?&_&H).
  apply bind_ok in H as (w11&?&_&H). by injection H as _ <-.
Qed.
Lemma approve_adds req d w :
  mwp (approveHostFSRead fs range loadProfile req d) w (λ w' _, adds req d w w').
Proof.
  assert (∀ w', quiet w w' → adds req d w w') as Hq by (intros w' [? _]; by apply same_adds).
  unfold approveHostFSRead. apply (mwp_bind_by quiet); [apply liveStore_quiet|auto|].
  intros w1 st Hst%liveStore_session Q1.
  apply (mwp_bind_by quiet); [apply preserves_get; apply _|intros; apply Hq; by etrans|]. intros w2 x _ Q2.
  assert (quiet w w2) as Q by by etrans. clear Q1 Q2.
  apply (mwp_bind_by quiet); [quietly|intros; apply Hq; by etrans|]. intros w3 _ _ Q3.
  assert (quiet w w3) as Q' by by etrans. clear Q Q3. apply mwp_bind, mwp_attempt.
  eapply mwp_mono; [apply (holding_rule _ _ _ (adds req d w3)); [intros ? []; by apply same_adds
    |intros w5 w6 ? []; by eapply adds_same|intros w5 Q5; eapply adds_quiet; [done|]; by apply approveLocked_adds]|].
  intros w4 r H4.
  assert (adds req d w w4) as H by by eapply adds_quiet.
  eapply (mwp_by quiet); [destruct r as [[[[]|] []]|]; quietly|]. intros w5 r' [M5 _]. by eapply adds_same.
Qed.
End approval.

(** ** What an allowed read rests on *)

Section allowed.
Context (fs : FileSystem).

Lemma withLock_ok {A} st (m : MM A) w w' a :
  withLock st m w = (w', Ok a) → ∃ w1 w2, quiet w w1 ∧ m w1 = (w2, Ok a).
Proof.
  unfold withLock. intros (w1&[r released]&Hh&H)%bind_ok. apply bind_ok in H as (w2&a'&[= <- Hr]&H).
  apply bind_ok in H as (w3&?&_&H). injection H as <- <-. subst r. revert Hh.
  unfold holding. intros (y1&?&Q1%(quiet_run quiet)&H)%bind_ok; [|apply mio_quiet].
  apply bind_ok in H as (y2&s2&[= <- <-]&H).
  apply bind_ok in H as (y3&?&Q3%(quiet_run quiet)&H); [|quietly].
  apply bind_ok in H as (y4&taken&Q4%(quiet_run quiet)&H); [|quietly].
  destruct taken as [_|e]; [|apply bind_ok in H as (?&?&_&H); done].
  apply bind_ok in H as (y5&r&Hm&H). unfold attempt in Hm.
  apply bind_ok in H as (y6&?&_&H). apply bind_ok in H as (y7&?&_&H). injection H as <- -> _.
  exists y4, y5. split; [by do 2 (etrans; [done|])|]. injection Hm as <- Hr. rewrite <-Hr. by destruct (m y4).
Qed.

Lemma FindActive_ok m op requested canonical now g :
  FindActive m op requested canonical now = Some g →
  g ∈ mf_Grants m ∧ gr_Operation g = op ∧ gr_RequestedPath g = requested ∧ gr_CanonicalPath g = canonical ∧
  Before now (gr_ExpiresAt g) = true ∧ Before now (gr_IssuedAt g) = false ∧ Grant_Validate g = Ok tt.
Proof.
  unfold FindActive. destruct (Manifest_Validate m _) as [[]|] eqn:Hv; [|done].
  intros [Hin Ha]%find_Some_elem. unfold activeGrant in Ha.
  rewrite !andb_true_iff, !String.eqb_eq, negb_true_iff in Ha. destruct Ha as [[[[-> ->] ->] ?] ?].
  split_and!; try done. unfold Manifest_Validate in Hv. repeat (apply result_bind_ok in Hv as (?&_&Hv)).
  apply validateGrants_spec in Hv as (Hf&_&_). rewrite Forall_forall in Hf. by apply Hf.
Qed.
Lemma rawDecision_ok id w w' d :
  onStore (RawDecision id) w = (w', Ok d) →
  st_decisions (w_store w) !! decisionPath (st_root (w_store w)) (TrimSpace id) = Some d.
Proof.
  apply (onStore_ok _ _ _ _ (λ _ d, st_decisions (w_store w) !! decisionPath (st_root (w_store w)) (TrimSpace id) = Some d)).
  apply wp_decisionLocked; [by intros d0 H ? [= <-]|by intros]. 
Qed.

(** The grant and the decision behind an allowed read, and the present policy. *)
Definition allowedBy (p : Provider) (check : ReadGrantCheck) (w : World) (g : ReadGrant) (d : Decision) (n : nat) : Prop :=
  let now := UTC (st_clock (w_store w) n) in
  g ∈ grantsOf (hp_sessionID p) w ∧ Grant_Validate g = Ok tt ∧ gr_Operation g = OperationRead ∧
  gr_RequestedPath g = rg_RequestedPath check ∧ gr_CanonicalPath g = rg_CanonicalPath check ∧
  Before now (gr_ExpiresAt g) = true ∧ Before now (gr_IssuedAt g) = false ∧
  st_decisions (w_store w) !! decisionPath (st_root (w_store w)) (TrimSpace (gr_DecisionID g)) = Some d ∧
  d_Kind d = KindHostFSRead ∧ d_State d = StateApplied ∧ so_Session (d_Source d) = hp_sessionID p ∧
  d_Revision d = gr_Revision g ∧
  bothVisible fs (hp_policy p) (rg_RequestedPath check) (rg_CanonicalPath check) = true ∧
  readDenied fs (hp_policy p) (rg_RequestedPath check) (rg_CanonicalPath check) = false ∧
  ∃ k, ProbeOwner (w_owner w k).1 (w_owner w k).2 = SessionLive.

Lemma AllowsRead_ok p check w w' :
  AllowsRead fs p check w = (w', Ok true) → ∃ g d n, allowedBy p check w g d n.
Proof.
  unfold AllowsRead. intros (w1&w2&Q1&H)%withLock_ok.
  apply bind_ok in H as (w3&?&Hp&H). pose proof (quiet_run quiet _ _ _ _ probeOwner_quiet Hp) as Q3.
  apply bind_ok in H as (w4&loaded&Hl%attempt_ok&H).
  pose proof (quiet_run quiet _ _ _ _ (LoadManifest_quiet _) Hl) as Q4.
  destruct loaded as [m|e]; [|by destruct e]. apply LoadManifest_ok in Hl.
  change (manifestOf (hp_sessionID p) w3 = Some m) in Hl.
  apply bind_ok in H as (w5&now&Hn&H). pose proof (quiet_run quiet _ _ _ _ mnow_quiet Hn) as Q5.
  injection Hn as Hw5 <-.
  destruct (FindActive m _ _ _ _) as [g|] eqn:Hf; [|done]. apply FindActive_ok in Hf as (Hin&Hop&Hr&Hc&He&Hi&Hv).
  apply bind_ok in H as (w6&?&Ha&H). pose proof (quiet_run quiet _ _ _ _ (activeGrant_quiet _ _ _ _) Ha) as Q6.
  apply bind_ok in H as (w7&?&Q7%(quiet_run quiet)&H); [|apply decisionStore_quiet].
  apply bind_ok in H as (w8&d&Hd%rawDecision_ok&H). apply bind_ok in H as (w9&?&[_ Hk]%require_ok&H). clear H.
  unfold validateActiveGrant in Ha. apply bind_ok in Ha as (?&?&[-> Hvis]%require_ok&Ha).
  apply bind_ok in Ha as (?&?&[-> _]%require_ok&Ha). apply require_ok in Ha as [_ Hden%negb_true_iff].
  assert (quiet w w7) as (M&_&D&R&C&_) by by do 5 (etrans; [done|]).
  assert (quiet w w4) as (M4&_&_&_&C4&_) by by do 2 (etrans; [done|]).
  rewrite negb_true_iff, !orb_false_iff, !negb_false_iff, !String.eqb_eq, Z.eqb_eq in Hk. destruct Hk as [[[??]?]?].
  exists g, d, (st_reads (w_store w4)). unfold allowedBy. cbn zeta. rewrite <-C4. split_and!; try done.
  - unfold grantsOf. destruct Q1 as (M1&_), Q3 as (M3&_). by rewrite <-M1, <-M3, Hl.
  - by rewrite <-D, <-R.
  - destruct Q1 as (_&_&_&_&_&O1). exists (w_probes w1). unfold probeOwner in Hp. rewrite <-O1.
    destruct (w_owner w1 (w_probes w1)) as [opened flock]. cbn in *. by destruct (ProbeOwner opened flock).
Qed.
End allowed.

(** ** Histories *)

(** The host as an operation sees it. *)
Record Env := mkEnv {
  e_fs : FileSystem; e_isPrint : N → bool;
  e_range : gmap string RequestRecord → list (string * RequestRecord);
  e_loadProfile : string → result ManagerError Config }.
Inductive Step :=
  | StepProvider (sid dir : string) (policy : EffectivePolicy)
  | StepPropose (p : Provider) (proposal : HostFSReadProposal)
  | StepAllows (p : Provider) (check : ReadGrantCheck)
  | StepClaim (req : DecisionClaimRequest) (d : Decision)
  | StepApprove (req : DecisionResolveRequest) (d : Decision)
  | StepDeny (req : DecisionResolveRequest) (d : Decision)
  | StepReopen (req : HostFSReadReopenRequest) (d : Decision)
  | StepSync (d : Decision)
  | StepDecision (op : Op).
Definition step (es : Env * Step) (w : World) : World :=
  let e := es.1 in
  match es.2 with
  | StepProvider sid dir policy => (newHostFSReadProvider (e_fs e) sid dir policy w).1
  | StepPropose p proposal => (ProposeHostFSRead (e_fs e) (e_isPrint e) p proposal w).1
  | StepAllows p check => (AllowsRead (e_fs e) p check w).1
  | StepClaim req d => (claimHostFSRead (e_range e) req d w).1
  | StepApprove req d => (approveHostFSRead (e_fs e) (e_range e) (e_loadProfile e) req d w).1
  | StepDeny req d => (denyHostFSRead (e_range e) req d w).1
  | StepReopen req d => (reopenHostFSRead (e_fs e) (e_range e) (e_loadProfile e) req d w).1
  | StepSync d => (syncHostFSReadDecision (e_range e) d w).1
  | StepDecision op => w <| w_store := exec op (w_store w) |>
  end.
Definition run (hist : list (Env * Step)) (w : World) : World := foldl (λ w s, step s w) w hist.

(** Only an approval adds a grant. *)
Lemma step_grants es w sid g :
  g ∈ grantsOf sid (step es w) → g ∈ grantsOf sid w ∨
  ∃ req d, es.2 = StepApprove req d ∧ approved (e_fs es.1) (e_range es.1) w req d sid g.
Proof.
  destruct es as [e s]. cbn [fst snd]. intros Hg.
  assert (sameManifests w (step (e, s) w) ∨ ∃ req d, s = StepApprove req d) as [Hs|(req&d&->)].
  { destruct s; [left; apply newProvider_same|left; apply Propose_same|left; apply AllowsRead_quiet|left; apply claim_same
      |right; eauto|left; apply deny_same|left; apply reopen_same|left; apply sync_same|left; by intros s]. }
  - left. by rewrite <-(same_grants _ _ sid Hs).
  - apply (approve_adds (e_fs e) (e_range e) (e_loadProfile e) req d w) in Hg as [Hg|Hg]; [by left|right; eauto].
Qed.
(** Every grant was added by an approval of the history. *)
Definition grantedIn (hist : list (Env * Step)) (w0 : World) (sid : string) (g : ReadGrant) : Prop :=
  ∃ pre e req d post, hist = pre ++ (e, StepApprove req d) :: post ∧
    approved (e_fs e) (e_range e) (run pre w0) req d sid g.
Lemma run_grants hist w0 sid g :
  grantsOf sid w0 = [] → g ∈ grantsOf sid (run hist w0) → grantedIn hist w0 sid g.
Proof.
  intros H0. induction hist as [|[e s] hist IH] using rev_ind; [cbn; rewrite H0; by intros ?%elem_of_nil|].
  unfold run. rewrite foldl_app. cbn [foldl]. intros [Hg|(req&d&Hs&Ha)]%step_grants.
  - destruct (IH Hg) as (pre&e'&req&d&post&->&Ha). exists pre, e', req, d, (post ++ [(e, s)]).
    split; [by rewrite <-(assoc_L (++))|done].
  - cbn in Hs, Ha. subst s. by exists hist, e, req, d, [].
Qed.

(** ** The properties *)

(** C2: Every byte a guest reads, at most a limit's worth at a time, through the
    service of a session whose read authority is the approval chain and whose
    overlay, if it has one, is the store of its staged writes, is a byte of the
    session's own live staged write to that path; or it is a byte of the host's
    file and granted by a rule of the policy, or was approved: some approval in
    the history, made with the token of a live claim of the file's decision while
    the decision's file still was the regular file that had been proposed, issued
    a grant for exactly these two names; the grant is less than 24 hours old, its
    decision still stands as applied at the grant's revision, the session's owner
    is alive and the present policy shows the file and does not deny reading it.
    (The session has no grants when the history begins.  A staged edit of a file
    contains what the file held, see [staged_append_discloses].) *)
Theorem host_read_needs_approval `{TimeSort} fs loadProfile s overlay p profile hist w0 path offset size r :
  let w := run hist w0 in
  grantsOf (hp_sessionID p) w0 = [] →
  s_Overlay s = storeOverlay <$> overlay → s_ReadAuthority s = Some (authorityOf fs loadProfile p profile w) →
  Read fs s path offset size = Ok r →
  (∃ st op data n, overlay = Some st ∧ latest (os_files st) path = Some op ∧ stagedBytes (os_files st) op data ∧
     rr_Data r = take n (drop (Z.to_nat offset) data)) ∨
  ∃ clean canonical max eof,
    cleanHostPath path = Ok clean ∧ h_EvalSymlinks (fs_Host fs) clean = Ok canonical ∧
    fs_ReadAt fs canonical offset max = Ok (rr_Data r, eof) ∧
    max ≤ (if s_MaxReadBytes s <=? 0 then DefaultMaxReadBytes else s_MaxReadBytes s) ∧
    (fd_Allowed (Decide (fs_Host fs) (s_Policy s) OpRead canonical) = true ∨
     ∃ g d n, grantedIn hist w0 (hp_sessionID p) g ∧
       allowedBy fs p (mkReadGrantCheck clean canonical (Visibility (fs_Host fs) (s_Policy s) clean)) w g d n ∧
       unixNano (UTC (st_clock (w_store w) n)) - unixNano (gr_IssuedAt g) < hostFSReadGrantLifetime).
Proof.
  intros w H0 Ho Ha [(o&v&n&Hs&Hv&Hd&Hk&Hr)|(canonical&info&max&eof&(clean&Hc&He&_&_&Hor)&_&_&_&Hread&Hmax&_)]%Read_entitled.
  { left. rewrite Ho in Hs. destruct overlay as [st|]; [|done]. injection Hs as <-.
    destruct (storeOverlay_view st path v Hv Hd Hk) as (op&Hl&Hb). by exists st, op, (ov_Data v), n. }
  right. exists clean, canonical, max, eof. split_and!; try done. destruct Hor as [Hor|(authority&Hs&_&_&Hall)]; [by left|right].
  rewrite Ha in Hs. injection Hs as <-. cbn in Hall.
  destruct (AllowsRead fs p _ w) as [w' [[]|]] eqn:E; try done. apply AllowsRead_ok in E as (g&d&n&Hg).
  pose proof Hg as (Hin&_&_&_&_&Hbefore&_). apply run_grants in Hin; [|done].
  exists g, d, n. split_and!; [done..|]. destruct Hin as (?&?&?&?&?&_&_&_&_&_&_&_&_&Hexp).
  unfold Before in Hbefore. rewrite Hexp in Hbefore. unfold AddDur in Hbefore. cbn in *. lia.
Qed.

Module ReadSample.
Import HostFSSpec.Sample ServiceSample.
Definition fs : FileSystem := files false.
Definition root : string := "/home/u/.hideout".
Definition w0 : World :=
  mkWorld (DecisionSpec.Sample.empty root) ∅ (λ _, (true, FlockBlocked)) 0 [] false [].
Definition profiles : string → result ManagerError Config := λ _, Ok (mkConfig [see "/home/u/work"] []).
Definition env : Env := mkEnv fs (λ r, (32 <=? r)%N) map_to_list profiles.
Definition policy : EffectivePolicy := built (fs_Host fs) [see "/home/u/work"] [].
Definition provider : Provider := mkProvider "ses_1" (canonicalizePolicy fs policy).
Definition path : string := "/home/u/work/a".
Definition proposal : HostFSReadProposal :=
  mkProposal "ses_1" "p" "vm" path path (Visibility (fs_Host fs) policy path) "please".
Definition opening : list (Env * Step) :=
  [(env, StepProvider "ses_1" (sessionDir root "ses_1") policy); (env, StepPropose provider proposal)].
Definition decisionOf (w : World) : Decision :=
  default DecisionSpec.Sample.asked
    (st_decisions (w_store w) !! decisionPath root (decisionIDFor (hostFSReadKey "ses_1" path))).
Definition asked : Decision := decisionOf (run opening w0).
Definition claim : DecisionClaimRequest := mkClaimRequest (d_ID asked) "" "tui" 0 0 false.
Definition approval : DecisionResolveRequest := mkResolveRequest (d_ID asked) "" DecisionSpec.Sample.token "ok".
Definition history : list (Env * Step) :=
  opening ++ [(env, StepClaim claim asked); (env, StepApprove approval asked)].
Definition service (w : World) : Service :=
  mkService (hp_policy provider) 0 0 None (Some (authorityOf fs profiles provider "p" w)) noContext true now.
Definition content : ReadResult := mkReadResult (nodeInfo (fileInfo 2)) [104; 105; 33] 3 true.
End ReadSample.

Lemma host_read_needs_approval_witness :
  fd_Allowed (Decide (fs_Host ReadSample.fs) (hp_policy ReadSample.provider) OpRead ReadSample.path) = false ∧
  ∃ g, grantedIn ReadSample.history ReadSample.w0 "ses_1" g.
Proof.
  assert (fd_Allowed (Decide (fs_Host ReadSample.fs) (hp_policy ReadSample.provider) OpRead ReadSample.path) = false)
    as Hno by (vm_compute; reflexivity).
  split; [exact Hno|].
  destruct (@host_read_needs_approval OverlayStageSpec.OverlaySample.mergeSort ReadSample.fs ReadSample.profiles
    (ReadSample.service (run ReadSample.history ReadSample.w0)) None ReadSample.provider "p" ReadSample.history
    ReadSample.w0 ReadSample.path 0 10 ReadSample.content)
    as [(st&op&data&n&H&_)|(clean&canonical&max&eof&Hc&He&_&_&Hor)].
  - reflexivity.
  - reflexivity.
  - reflexivity.
  - vm_compute. reflexivity.
  - discriminate H.
  - assert (cleanHostPath ReadSample.path = Ok ReadSample.path) as E by (vm_compute; reflexivity).
    rewrite E in Hc. injection Hc as <-. injection He as <-.
    destruct Hor as [Hor|(g&d&n&Hg&_)]; [|exists g; exact Hg].
    change (s_Policy (ReadSample.service (run ReadSample.history ReadSample.w0))) with (hp_policy ReadSample.provider) in Hor.
    rewrite Hno in Hor. discriminate Hor.
Defined.
