(* ===== verification/HostFSWriteFrame.v ===== *)
(** * What the operations of the manager leave alone

    Random bytes are drawn once ([drawn]); listing, planning, publishing and the
    reads of the decision center leave overlays and tree alone ([still]); expiry,
    discarding and releasing move records as [filesEvolve] allows ([evolved]);
    claiming adds the claim it hands out; applying changes the tree only with the
    token of a live claim ([applies]). *)
From Stdlib Require Import Ascii.
From S2P Require Import Prelude StateRules GoStrings GoTime GoHash GoRunes GoPath Redact Decision.
From S2P Require Import DecisionStore DecisionSpec GoGlob HostPathRisk HostFS HostFSSpec HostTree Overlay.
From S2P Require Import HostFSService HostFSServiceSpec ReadGrant HostFSRead HostFSReadSpec HostFSWrite DecisionCenter.
From S2P Require Import OverlaySpec OverlayStageSpec.
Open Scope Z_scope.

(** ** Random bytes are drawn once *)

Definition drawn (w w' : World) : Prop := sameWorld (w_store w) (w_store w').
#[global] Instance drawn_pre : PreOrder drawn.
Proof. split; [done|]. intros w1 w2 w3 H1 H2. unfold drawn. by etrans. Qed.
Create HintDb drawn discriminated.
Ltac drawing := keeps (first [by apply preserves_modify|eauto with drawn]).

Lemma onStore_drawn {A} (m : DM A) : preserves sameWorld m → preserves drawn (onStore m).
Proof. intros H w. unfold drawn, onStore. specialize (H (w_store w)). by destruct (m (w_store w)). Qed.
#[export] Hint Resolve onStore_drawn : drawn.
#[export] Hint Resolve io_world now_world : drawn.
Lemma Create_world d : preserves sameWorld (CreateOrUpdateDecision d).
Proof. exact (exec_world (DecisionSpec.OpCreate d)). Qed.
Lemma Claim_world id opts : preserves sameWorld (ClaimDecisionWithOptions id opts).
Proof. exact (exec_world (DecisionSpec.OpClaim id opts)). Qed.
Lemma Release_world id token rev reason : preserves sameWorld (ReleaseDecisionClaim id token rev reason).
Proof. exact (exec_world (DecisionSpec.OpRelease id token rev reason)). Qed.
Lemma Resolve_world id token state decision reason result :
  preserves sameWorld (ResolveDecision id token state decision reason result).
Proof. exact (exec_world (DecisionSpec.OpResolve id token state decision reason result)). Qed.
Lemma Revoke_world id kind reason : preserves sameWorld (RevokeGrantedDecision id kind reason).
Proof. exact (exec_world (DecisionSpec.OpRevoke id kind reason)). Qed.
Lemma Invalidate_world id kind reason : preserves sameWorld (InvalidateProviderDecision id kind reason).
Proof. exact (exec_world (DecisionSpec.OpInvalidate id kind reason)). Qed.
Lemma Reopen_world id kind timeout reason : preserves sameWorld (ReopenProviderDecision id kind timeout reason).
Proof. exact (exec_world (DecisionSpec.OpReopen id kind timeout reason)). Qed.
Lemma Fail_world id kind : preserves sameWorld (FailAppliedProviderDecision id kind).
Proof. exact (exec_world (DecisionSpec.OpFail id kind)). Qed.
Lemma Validate_world id token : preserves sameWorld (ValidateDecisionClaim id token).
Proof. exact (exec_world (DecisionSpec.OpValidateClaim id token)). Qed.
Lemma ReleaseExpired_world at_ : preserves sameWorld (ReleaseExpiredClaims at_).
Proof. exact (exec_world (DecisionSpec.OpReleaseExpired at_)). Qed.
Lemma Timeout_world at_ : preserves sameWorld (TimeoutExpiredDecisions at_).
Proof. exact (exec_world (DecisionSpec.OpTimeoutExpired at_)). Qed.
Lemma Notice_world n : preserves sameWorld (CreateOrUpdateNotice n).
Proof. exact (exec_world (DecisionSpec.OpNotice n)). Qed.
Lemma Ack_world id surface : preserves sameWorld (AckNotice id surface).
Proof. exact (exec_world (DecisionSpec.OpAck id surface)). Qed.
Lemma Raw_world id : preserves sameWorld (RawDecision id).
Proof. apply decisionLocked_world. Qed.
Lemma Get_world id : preserves sameWorld (GetDecision id).
Proof. unfold GetDecision. world. Qed.
Lemma Decisions_world f : preserves sameWorld (Decisions f).
Proof.
  unfold Decisions. world. generalize (decisionsDir (st_root a)) as dir. intros dir.
  generalize (entriesOf dir (st_decisions a)) as names. induction names; simpl; world.
Qed.
Lemma Notices_world f : preserves sameWorld (Notices f).
Proof.
  unfold Notices. world. generalize (noticesDir (st_root a)) as dir. intros dir.
  generalize (entriesOf dir (st_notices a)) as names. induction names; simpl; unfold readNotice; world.
Qed.
Lemma GetNotice_world id : preserves sameWorld (GetNotice id).
Proof. unfold GetNotice. world. Qed.
#[export] Hint Resolve Create_world Claim_world Release_world Resolve_world Revoke_world Invalidate_world Reopen_world
  Fail_world Validate_world ReleaseExpired_world Timeout_world Notice_world Ack_world Raw_world Get_world
  Decisions_world Notices_world GetNotice_world : drawn.

Lemma mio_drawn : preserves drawn mio.
Proof. apply onStore_drawn, io_world. Qed.
Lemma mnow_drawn : preserves drawn mnow.
Proof. apply onStore_drawn, now_world. Qed.
Lemma require_drawn b what : preserves drawn (require b what).
Proof. unfold require, refuse. drawing. Qed.
Lemma ofGrant_drawn {A} (r : GR A) : preserves drawn (ofGrant r).
Proof. unfold ofGrant. drawing. Qed.
Lemma updateFiles_drawn sid f : preserves drawn (updateFiles sid f).
Proof. unfold updateFiles. drawing. Qed.
Lemma probeOwner_drawn : preserves drawn probeOwner.
Proof. intros w. unfold probeOwner. by destruct (w_owner w (w_probes w)). Qed.
#[export] Hint Resolve mio_drawn mnow_drawn require_drawn ofGrant_drawn updateFiles_drawn probeOwner_drawn : drawn.
Lemma decisionStore_drawn : preserves drawn decisionStore.
Proof. unfold decisionStore. drawing. Qed.
#[export] Hint Resolve decisionStore_drawn : drawn.
Lemma audit_drawn e : preserves drawn (emitOperatorCenterAudit e).
Proof. unfold emitOperatorCenterAudit. drawing. Qed.
#[export] Hint Resolve audit_drawn : drawn.
Lemma decisionAudit_drawn action verdict d : preserves drawn (emitDecisionAudit action verdict d).
Proof. apply audit_drawn. Qed.
Lemma noticeAudit_drawn action verdict n : preserves drawn (noticeAudit action verdict n).
Proof. apply audit_drawn. Qed.
Lemma lifecycleCall_drawn c : preserves drawn (lifecycleCall c).
Proof. unfold lifecycleCall. drawing. Qed.
Lemma LoadState_drawn st : preserves drawn (LoadState st).
Proof. unfold LoadState. drawing. Qed.
Lemma SaveState_drawn st s : preserves drawn (SaveState st s).
Proof. unfold SaveState. drawing. Qed.
Lemma LoadManifest_drawn st : preserves drawn (LoadManifest st).
Proof. unfold LoadManifest. drawing. Qed.
Lemma SaveManifest_drawn st m : preserves drawn (SaveManifest st m).
Proof. unfold SaveManifest. drawing. Qed.
Lemma OpenStore_drawn dir sid : preserves drawn (OpenStore dir sid).
Proof. unfold OpenStore. drawing. Qed.
Lemma NewStore_drawn dir sid : preserves drawn (NewStore dir sid).
Proof. unfold NewStore. drawing. Qed.
#[export] Hint Resolve decisionAudit_drawn noticeAudit_drawn lifecycleCall_drawn LoadState_drawn SaveState_drawn
  LoadManifest_drawn SaveManifest_drawn OpenStore_drawn NewStore_drawn : drawn.
Lemma openStore_drawn sid : preserves drawn (openHostFSReadStore sid).
Proof. unfold openHostFSReadStore. drawing. Qed.
#[export] Hint Resolve openStore_drawn : drawn.
Lemma liveStore_drawn sid : preserves drawn (liveHostFSReadStore sid).
Proof. unfold liveHostFSReadStore. drawing. Qed.
Lemma holding_drawn {A} st (m : MM A) : preserves drawn m → preserves drawn (holding st m).
Proof. intros H. unfold holding. drawing. Qed.
#[export] Hint Resolve liveStore_drawn holding_drawn : drawn.
Lemma withLock_drawn {A} st (m : MM A) : preserves drawn m → preserves drawn (withLock st m).
Proof. intros H. unfold withLock. drawing. Qed.
Lemma CreateDecision_drawn d : preserves drawn (CreateDecision d).
Proof. unfold CreateDecision. drawing. Qed.
Lemma lease_drawn n : preserves drawn (decisionClaimLease n).
Proof. unfold decisionClaimLease. drawing. Qed.
Lemma orStale_drawn {A} d (m : MM A) : preserves drawn m → preserves drawn (orStale d m).
Proof. intros H. unfold orStale. drawing. Qed.
#[export] Hint Resolve withLock_drawn CreateDecision_drawn lease_drawn orStale_drawn : drawn.

Lemma when_drawn b (m : MM ()) : preserves drawn m → preserves drawn (when b m).
Proof. intros H. drawing. Qed.
#[export] Hint Resolve when_drawn : drawn.

Section reads.
Context (fs : FileSystem) (isPrint : N → bool).
Context (range : gmap string RequestRecord → list (string * RequestRecord)).
Context (loadProfile : string → result ManagerError Config).
Lemma recordBy_drawn s id : preserves drawn (hostFSReadRecordByDecision range s id).
Proof. unfold hostFSReadRecordByDecision, refuse. drawing. Qed.
#[local] Hint Resolve recordBy_drawn : drawn.
Lemma follow_drawn st d : preserves drawn (followDecision range st d).
Proof. unfold followDecision. drawing. Qed.
Lemma newProvider_drawn sid dir policy : preserves drawn (newHostFSReadProvider fs sid dir policy).
Proof. unfold newHostFSReadProvider. drawing. Qed.
Lemma cleanPath_drawn path : preserves drawn (cleanHostFSReadPath path).
Proof. unfold cleanHostFSReadPath. drawing. Qed.
#[local] Hint Resolve follow_drawn cleanPath_drawn : drawn.
Lemma proposal_drawn p proposal : preserves drawn (validateProposal fs isPrint p proposal).
Proof. unfold validateProposal, refuse. drawing. Qed.
#[local] Hint Resolve proposal_drawn : drawn.
Lemma Propose_drawn p proposal : preserves drawn (ProposeHostFSRead fs isPrint p proposal).
Proof.
  unfold ProposeHostFSRead. drawing. apply withLock_drawn.
  unfold proposeLocked, repeatProposal, createRequest, emitLimitAudit, refuse. drawing.
Qed.
Lemma AllowsRead_drawn p check : preserves drawn (AllowsRead fs p check).
Proof. unfold AllowsRead. apply withLock_drawn. unfold validateActiveGrant. drawing. Qed.
Lemma claimRead_drawn req d : preserves drawn (claimHostFSRead range req d).
Proof. unfold claimHostFSRead. drawing. apply orStale_drawn, withLock_drawn. drawing. Qed.
Lemma policy_drawn record : preserves drawn (hostFSReadPolicyForRecord fs loadProfile record).
Proof. unfold hostFSReadPolicyForRecord, refuse. drawing. Qed.
Lemma validateRecord_drawn record d policy : preserves drawn (validateHostFSReadRecord fs record d policy).
Proof. unfold validateHostFSReadRecord, refuse. drawing. Qed.
#[local] Hint Resolve policy_drawn validateRecord_drawn : drawn.
Lemma failActivation_drawn {A} st state key record applied cause :
  preserves drawn (failHostFSReadActivation (A := A) st state key record applied cause).
Proof. unfold failHostFSReadActivation. drawing. Qed.
#[local] Hint Resolve failActivation_drawn : drawn.
Lemma approveRead_drawn req d : preserves drawn (approveHostFSRead fs range loadProfile req d).
Proof.
  unfold approveHostFSRead. drawing. apply holding_drawn.
  unfold approveLocked, loadHostFSReadManifest, activate, restoreHostFSReadManifest. drawing.
Qed.
Lemma auditDetails_drawn d : preserves drawn (hostFSReadAuditDetails range d).
Proof. unfold hostFSReadAuditDetails. drawing. apply withLock_drawn. drawing. Qed.
#[local] Hint Resolve auditDetails_drawn : drawn.
Lemma denyRead_drawn req d : preserves drawn (denyHostFSRead range req d).
Proof. unfold denyHostFSRead. drawing. apply orStale_drawn, withLock_drawn. drawing. Qed.
Lemma reopenRead_drawn req d : preserves drawn (reopenHostFSRead fs range loadProfile req d).
Proof. unfold reopenHostFSRead. drawing. apply orStale_drawn, withLock_drawn. drawing. Qed.
Lemma syncRead_drawn d : preserves drawn (syncHostFSReadDecision range d).
Proof. unfold syncHostFSReadDecision. drawing. Qed.
End reads.
#[export] Hint Resolve newProvider_drawn Propose_drawn AllowsRead_drawn claimRead_drawn approveRead_drawn
  auditDetails_drawn denyRead_drawn reopenRead_drawn syncRead_drawn : drawn.

(** ** The overlays and the tree *)

Definition overlayOf (w : HostWorld) (sid : string) : OverlayFiles := default emptyOverlay (hw_overlays w !! sid).
Definition outOf (w : HostWorld) : Outside := outsideOf (w_store (hw_world w)).
Definition allFiled (w : HostWorld) : Prop := ∀ sid, OverlaySpec.filed (overlayOf w sid).
(** Which claims may appear: of a decision in the overlay of a session. *)
Abbreviation Claims := (string → string → string * Time → Prop).
Definition noClaims : Claims := λ _ _ _, False.

(** Nothing but the outside world moved on. *)
Definition still (w w' : HostWorld) : Prop :=
  hw_tree w' = hw_tree w ∧ (∀ sid, overlayOf w' sid = overlayOf w sid) ∧ drawn (hw_world w) (hw_world w').
(** The records of every overlay evolved, the tree stayed. *)
Definition evolved (C : Claims) (w w' : HostWorld) : Prop :=
  hw_tree w' = hw_tree w ∧ (∀ sid, filesEvolve (C sid) (overlayOf w sid) (overlayOf w' sid)) ∧
  drawn (hw_world w) (hw_world w').
#[global] Instance still_pre : PreOrder still.
Proof. split; [done|]. intros w1 w2 w3 (A1&A2&A3) (B1&B2&B3). split_and!; [congruence|intros sid; by rewrite B2|by etrans]. Qed.
#[global] Instance evolved_pre C : PreOrder (evolved C).
Proof. split; [done|]. intros w1 w2 w3 (A1&A2&A3) (B1&B2&B3). split_and!; [congruence|intros sid; etrans; [apply A2|apply B2]|by etrans]. Qed.
Lemma still_evolved C w w' : still w w' → evolved C w w'.
Proof. intros (A&B&D). split_and!; [done|intros sid; by rewrite B|done]. Qed.
Lemma filesEvolve_mono (C C' : string → string * Time → Prop) f f' :
  (∀ id k, C id k → C' id k) → filesEvolve C f f' → filesEvolve C' f f'.
Proof.
  intros HC (A1&A2&A3&A4&A5). split_and!; try done. intros k d' (d&H&E&Hc)%A2. exists d. split_and!; [done..|].
  intros c Hc'. destruct (Hc c Hc') as [|]; [by left|right; by apply HC].
Qed.
Lemma evolved_mono (C C' : Claims) w w' : (∀ sid id k, C sid id k → C' sid id k) → evolved C w w' → evolved C' w w'.
Proof. intros HC (A&B&D). split_and!; [done| |done]. intros sid. eapply filesEvolve_mono; [apply HC|done]. Qed.
Lemma filed_evolved C w w' : allFiled w → evolved C w w' → allFiled w'.
Proof. intros H (_&B&_) sid. eapply filed_evolve; [apply H|apply B]. Qed.

Lemma onWorld_still {A} (m : MM A) : preserves drawn m → preserves still (onWorld m).
Proof. intros H w. unfold onWorld. specialize (H (hw_world w)). by destruct (m (hw_world w)) as [w' r]. Qed.
Lemma overlayOf_insert w sid f sid' :
  overlayOf (w <| hw_overlays ::= <[sid := f]> |>) sid' = if decide (sid = sid') then f else overlayOf w sid'.
Proof. unfold overlayOf. cbn. destruct (decide _) as [->|]; [by rewrite lookup_insert_eq|by rewrite lookup_insert_ne]. Qed.
Lemma outside_drawn w s : sameOutside (outOf w) (os_out s) →
  drawn (hw_world w) ((hw_world w) <| w_store ::= setOutside (os_out s) |>).
Proof. intros (_&_&_&Hn). unfold drawn. by split_and!. Qed.
Definition overlayState (w : HostWorld) (sid : string) : OverlayState :=
  mkOverlayState (overlayOf w sid) (hw_tree w) (outOf w).
(** The world after the operation of an overlay. *)
Definition after (sid : string) (s : OverlayState) (w : HostWorld) : HostWorld :=
  w <| hw_world ::= (λ x, x <| w_store ::= setOutside (os_out s) |>) |>
    <| hw_overlays ::= <[sid := os_files s]> |> <| hw_tree := os_tree s |>.
Lemma onOverlay_run {A} sid (m : OM A) w w' r :
  onOverlay sid m w = (w', r) → ∃ s x, m (overlayState w sid) = (s, x) ∧ w' = after sid s w ∧
    r = match x with Ok a => Ok a | Err e => Err (WOverlay e) end.
Proof.
  unfold onOverlay, overlayState, overlayOf, outOf. destruct (m _) as [s x]. intros [= <- <-]. eauto.
Qed.
Lemma onOverlay_keeps {A} sid (m : OM A) (R : relation OverlayState) (R' : relation HostWorld) :
  preserves R m → (∀ w s, R (overlayState w sid) s → R' w (after sid s w)) → preserves R' (onOverlay sid m).
Proof.
  intros Hm HR w. destruct (onOverlay sid m w) as [w' r] eqn:E. apply onOverlay_run in E as (s&x&E&->&_).
  apply HR. by eapply quiet_run.
Qed.
Lemma onOverlay_still {A} sid (m : OM A) : preserves idle m → preserves still (onOverlay sid m).
Proof.
  intros H. apply (onOverlay_keeps _ _ idle); [done|]. intros w s (F&T&O). split_and!; [done| |by apply outside_drawn].
  intros sid'. unfold after. change (overlayOf (_ <| hw_tree := _ |>) sid') with (overlayOf (w <| hw_overlays ::= <[sid := os_files s]> |>) sid').
  rewrite overlayOf_insert. destruct (decide _) as [->|]; [|done]. exact F.
Qed.

(** ** What leaves overlays and tree alone *)

Create HintDb still discriminated.
#[export] Hint Resolve onWorld_still onOverlay_still : still.
Ltac stilling := keeps (first [by apply preserves_modify|eauto with still drawn idle]).
Lemma hnow_still : preserves still hnow.
Proof. unfold hnow. stilling. Qed.
Lemma hio_still : preserves still hio.
Proof. unfold hio. stilling. Qed.
Lemma hrequire_still b what : preserves still (hrequire b what).
Proof. unfold hrequire. stilling. Qed.
Lemma hrefuse_still {A} what : preserves still (hrefuse (A := A) what).
Proof. unfold hrefuse. stilling. Qed.
Lemma hstore_still : preserves still hstore.
Proof. unfold hstore. stilling. Qed.
Lemma haudit_still action verdict d : preserves still (haudit action verdict d).
Proof. unfold haudit. stilling. Qed.
#[export] Hint Resolve hnow_still hio_still hrequire_still hrefuse_still hstore_still haudit_still : still.
Lemma versionFits_still v : preserves still (versionFits v).
Proof. unfold versionFits. stilling. Qed.
Lemma writeVersion_still v : preserves still (validateHostFSWriteExpectedVersion v).
Proof. unfold validateHostFSWriteExpectedVersion. stilling. Qed.
Lemma claimToken_still d token : preserves still (validateHostFSWriteClaimToken d token).
Proof. unfold validateHostFSWriteClaimToken. stilling. Qed.
#[export] Hint Resolve versionFits_still writeVersion_still claimToken_still : still.
Lemma writeClaim_still d token : preserves still (validateHostFSWriteClaim d token).
Proof. unfold validateHostFSWriteClaim. stilling. Qed.
Lemma writeAudit_still ref action verdict : preserves still (emitHostFSWriteAudit ref action verdict).
Proof. unfold emitHostFSWriteAudit. stilling. Qed.
Lemma upsert_still ref : preserves still (upsertHostFSWriteDecision ref).
Proof. unfold upsertHostFSWriteDecision. stilling. Qed.
Lemma orStaleH_keeps (R : relation HostWorld) `{!PreOrder R} {A} d (m : HM A) :
  (∀ w w', still w w' → R w w') → preserves R m → preserves R (orStaleH d m).
Proof.
  intros HR H. unfold orStaleH.
  keeps (first [exact H|eapply preserves_mono; [exact HR|]; stilling]).
Qed.
#[export] Hint Resolve writeClaim_still writeAudit_still upsert_still : still.

(** A write as it is stored. *)
Definition storedRef (w : HostWorld) (ref : hostFSWriteRef) : Prop :=
  let f := overlayOf w (rf_sessionID ref) in
  let d := rf_decision ref in
  of_operations f !! recordName (op_ID (rf_operation ref)) = Some (rf_operation ref) ∧
  of_decisions f !! recordName (wd_DecisionID d) = Some d ∧ wd_OperationID d = op_ID (rf_operation ref).
Lemma storedRef_still w w' ref : still w w' → storedRef w' ref → storedRef w ref.
Proof. intros (_&H&_). unfold storedRef. by rewrite H. Qed.

Section refs.
Context {TS : TimeSort}.
Lemma Decisions_ok s s' r : WriteDecisions s = (s', Ok r) → ∀ d, d ∈ r → ∃ k, of_decisions (os_files s) !! k = Some d.
Proof.
  unfold WriteDecisions. intros (s1&?&(F1&_)%(quiet_run idle)&H)%bind_ok; [|eauto with idle].
  apply bind_ok in H as (s2&s0&[= <- <-]&H). apply bind_ok in H as (s3&out&Hr&H). injection H as _ <-.
  apply readEach_run in Hr as [[= ->]|?]; [|done]. rewrite F1. intros d Hd. rewrite sortFunc_perm in Hd.
  apply list_elem_of_fmap in Hd as ([k d']&->&Hin). unfold recordsOf in Hin.
  apply sort_by_elem_of, list_elem_of_In, filter_In in Hin as [Hin%list_elem_of_In%elem_of_map_to_list _]. eauto.
Qed.
Lemma DecisionForOperation_ok id s s' d :
  DecisionForOperation id s = (s', Ok d) → (∃ k, of_decisions (os_files s) !! k = Some d) ∧ wd_OperationID d = id.
Proof.
  unfold DecisionForOperation. intros (s1&ds&Hd&H)%bind_ok.
  destruct (List.find _ ds) as [d'|] eqn:Ef; [|done]. injection H as _ <-. apply find_some in Ef as [Hin He].
  split; [|by apply String.eqb_eq]. eapply Decisions_ok; [done|by apply list_elem_of_In].
Qed.
Lemma refsOf_still sid ops : preserves still (refsOf sid ops).
Proof. induction ops as [|op ops IH]; simpl; stilling. Qed.
#[local] Hint Resolve refsOf_still : still.
Lemma refsOfSessions_still sids : preserves still (refsOfSessions sids).
Proof. induction sids as [|sid sids IH]; simpl; unfold Operations; stilling. Qed.
#[local] Hint Resolve refsOfSessions_still : still.
Lemma list_still : preserves still listHostFSWriteRefs.
Proof. unfold listHostFSWriteRefs. stilling. Qed.

Lemma refsOf_ok sid ops w w' refs :
  allFiled w → (∀ op, op ∈ ops → ∃ k, of_operations (overlayOf w sid) !! k = Some op) →
  refsOf sid ops w = (w', Ok refs) → Forall (storedRef w) refs.
Proof.
  revert w w' refs. induction ops as [|op ops IH]; intros w w' refs Hf Hops; simpl; [by intros [= _ <-]|].
  intros (w1&found&H1%attempt_ok&H)%bind_ok. apply bind_ok in H as (w2&rest&H2&H). injection H as _ <-.
  assert (still w w1) as S1 by (eapply quiet_run; [|exact H1]; eauto with still idle).
  assert (Forall (storedRef w) rest) as Hrest.
  { eapply Forall_impl; [eapply IH; [|..|exact H2]|intros ref; by apply storedRef_still].
    - by eapply filed_evolved, (still_evolved noClaims).
    - intros op' Hop'. destruct S1 as (_&->&_). apply Hops. set_solver. }
  destruct found as [d|]; [|done]. constructor; [|done]. apply onOverlay_run in H1 as (s&x&H1&_&Hx).
  destruct x as [d'|]; [|done]. injection Hx as ->. apply DecisionForOperation_ok in H1 as [[k Hk] Hid]. cbn in Hk.
  destruct (Hf sid) as [Fo Fd]. destruct (Hops op ltac:(set_solver)) as [k' Hk'].
  unfold storedRef. cbn. by rewrite <-(Fo _ _ Hk'), <-(Fd _ _ Hk).
Qed.
Lemma refsOfSessions_ok sids w w' refs :
  allFiled w → refsOfSessions sids w = (w', Ok refs) → Forall (storedRef w) refs.
Proof.
  revert w w' refs. induction sids as [|sid sids IH]; intros w w' refs Hf; simpl; [by intros [= _ <-]|].
  intros (w1&?&S1%(quiet_run still)&H)%bind_ok; [|eauto with still]. apply bind_ok in H as (w2&?&[= <- <-]&H).
  apply bind_ok in H as (w3&?&S3%(quiet_run still)&H); [|eauto with still idle].
  apply bind_ok in H as (w4&ops&Hops&H). pose proof Hops as S4%(quiet_run still); [|unfold Operations; eauto with still idle].
  apply bind_ok in H as (w5&refs1&H5&H). pose proof H5 as S5%(quiet_run still); [|eauto with still].
  apply bind_ok in H as (w6&rest&H6&H). injection H as _ <-.
  assert (still w w3) as S by by etrans. assert (still w w4) as S' by by etrans.
  apply Forall_app. split.
  - eapply Forall_impl; [eapply refsOf_ok; [|..|exact H5]|intros ref; by apply storedRef_still].
    + by eapply filed_evolved, (still_evolved noClaims).
    + apply onOverlay_run in Hops as (s&r&Ho&_&Hx). destruct r as [ops'|]; [|done]. injection Hx as ->.
      apply operations_run in Ho as [_ [[= ->]|?]]; [|done]. intros op (k&Hk&_)%storedOps_elem.
      exists k. destruct S4 as (_&->&_). exact Hk.
  - eapply Forall_impl; [eapply IH; [|exact H6]|intros ref; apply storedRef_still; by etrans].
    eapply filed_evolved, (still_evolved noClaims); [done|by etrans].
Qed.
Lemma list_ok w w' refs :
  allFiled w → listHostFSWriteRefs w = (w', Ok refs) → Forall (storedRef w) refs.
Proof.
  unfold listHostFSWriteRefs. intros Hf (w1&?&S1%(quiet_run still)&H)%bind_ok; [|eauto with still].
  apply bind_ok in H as (w2&?&[= <- <-]&H).
  eapply Forall_impl; [eapply refsOfSessions_ok; [|exact H]|intros ref; by apply storedRef_still].
  by eapply filed_evolved, (still_evolved noClaims).
Qed.
End refs.
#[export] Hint Resolve list_still : still.

(** ** How records evolve *)

(** A write that is, up to its state, on record. *)
Definition knownRef (w : HostWorld) (ref : hostFSWriteRef) : Prop :=
  knownOp (rf_operation ref) (overlayOf w (rf_sessionID ref)) ∧ knownDec (rf_decision ref) (overlayOf w (rf_sessionID ref)).
Definition refsKnown (refs : list hostFSWriteRef) (w : HostWorld) : Prop := allFiled w ∧ Forall (knownRef w) refs.
Lemma stored_known w ref : storedRef w ref → knownRef w ref.
Proof. intros (Ho&Hd&_). split; eexists; split; done. Qed.
Lemma refsKnown_evolved C refs w w' : refsKnown refs w → evolved C w w' → refsKnown refs w'.
Proof.
  intros [Hf Hr] E. split; [by eapply filed_evolved|]. destruct E as (_&E&_). eapply Forall_impl; [exact Hr|].
  intros ref [Ho Hd]. split; [by eapply knownOp_evolve|by eapply knownDec_evolve].
Qed.
Definition implied (refs : list hostFSWriteRef) (ref : hostFSWriteRef) : Prop := ∀ w, refsKnown refs w → knownRef w ref.
Lemma implied_in refs ref : ref ∈ refs → implied refs ref.
Proof. intros Hin w [_ Hr]. rewrite Forall_forall in Hr. by apply Hr. Qed.
Lemma implied_move refs state ref : implied refs ref → implied refs (moveRef state ref).
Proof. intros H w Hw. exact (H w Hw). Qed.

(** Keeping the records, given that [refs] are on record. *)
Definition keepsRefs (C : Claims) (refs : list hostFSWriteRef) {A} (m : HM A) : Prop :=
  preserves (guarded (refsKnown refs) (evolved C)) m.
Lemma still_keeps C refs {A} (m : HM A) : preserves still m → keepsRefs C refs m.
Proof.
  intros H. apply guarded_stable; [intros w w'; apply refsKnown_evolved|].
  eapply preserves_mono; [apply still_evolved|done].
Qed.
Lemma onOverlay_evolve C refs sid {A} (m : OM A) (P : OverlayState → Prop) :
  preserves (guarded P (ovEvolve (C sid))) m → preserves treeStays m →
  (∀ w, refsKnown refs w → P (overlayState w sid)) → keepsRefs C refs (onOverlay sid m).
Proof.
  intros Hm Ht HP w Hw. destruct (onOverlay sid m w) as [w' r] eqn:E. apply onOverlay_run in E as (s&x&E&->&_). cbn [fst].
  pose proof (Hm (overlayState w sid)) as Hev. specialize (Ht (overlayState w sid)). rewrite E in Hev, Ht. cbn in Hev.
  destruct (Hev (HP w Hw)) as [_ [Hf Ho]]. cut (evolved C w (after sid s w)); [intros He; split; [by eapply refsKnown_evolved|done]|].
  split_and!; [exact Ht| |by apply outside_drawn]. intros sid'. unfold after.
  change (overlayOf (_ <| hw_tree := _ |>) sid') with (overlayOf (w <| hw_overlays ::= <[sid := os_files s]> |>) sid').
  rewrite overlayOf_insert. destruct (decide _) as [<-|]; [exact Hf|done].
Qed.
Lemma saveDecision_keeps C refs ref :
  implied refs ref → allowedClaim (C (rf_sessionID ref)) (rf_decision ref) →
  keepsRefs C refs (onOverlay (rf_sessionID ref) (SaveDecision (rf_decision ref))).
Proof.
  intros Hi Ha. eapply onOverlay_evolve; [by apply SaveDecision_evolve|apply SaveDecision_tree|].
  intros w Hw. by destruct (Hi w Hw).
Qed.
Lemma saveOperation_keeps C refs ref :
  implied refs ref → keepsRefs C refs (onOverlay (rf_sessionID ref) (SaveOperation (rf_operation ref))).
Proof.
  intros Hi. eapply onOverlay_evolve; [by apply SaveOperation_evolve|apply SaveOperation_tree|].
  intros w Hw. by destruct (Hi w Hw).
Qed.
Lemma cleanup_keeps C refs sid op : keepsRefs C refs (onOverlay sid (CleanupArtifacts op)).
Proof.
  eapply (onOverlay_evolve _ _ _ _ (λ _, True)); [|apply CleanupArtifacts_tree|done].
  apply guarded_stable; [done|apply CleanupArtifacts_evolve].
Qed.
Lemma noClaim_allowed C d : wd_Claim d = None → allowedClaim C d.
Proof. intros H c. by rewrite H. Qed.
Ltac evolving := unfold keepsRefs; keeps (apply still_keeps; stilling).

Lemma saveRef_keeps C refs ref : implied refs ref → wd_Claim (rf_decision ref) = None → keepsRefs C refs (saveRef ref).
Proof.
  intros Hi Hc. unfold saveRef.
  evolving; [by apply saveDecision_keeps, noClaim_allowed|by apply saveOperation_keeps].
Qed.
Lemma cleanupRef_keeps C refs ref : keepsRefs C refs (cleanupRef ref).
Proof. unfold cleanupRef. evolving. apply cleanup_keeps. Qed.
Lemma expireRef_keeps C refs ref : implied refs ref → keepsRefs C refs (expireHostFSWriteRef ref).
Proof.
  intros Hi. unfold expireHostFSWriteRef.
  evolving; [by apply saveRef_keeps, eq_refl; apply implied_move|apply cleanupRef_keeps].
Qed.

(** Operations that need no write on record beforehand. *)
Definition keepsRecords (C : Claims) {A} (m : HM A) : Prop := preserves (guarded allFiled (evolved C)) m.
Lemma still_records C {A} (m : HM A) : preserves still m → keepsRecords C m.
Proof.
  intros H. apply guarded_stable; [intros w w'; apply filed_evolved|]. eapply preserves_mono; [apply still_evolved|done].
Qed.
Ltac still_then := apply preserves_bind; [apply _|apply still_records; by stilling|intros ?].
Ltac recording := unfold keepsRecords; keeps (apply still_records; stilling).

Section operations.
Context (K : Kernel) {TS : TimeSort}.
Lemma with_refs C {A} (f : list hostFSWriteRef → HM A) :
  (∀ refs, keepsRefs C refs (f refs)) → keepsRecords C (listHostFSWriteRefs ≫= f).
Proof.
  intros Hf w Hw. cut (evolved C w ((listHostFSWriteRefs ≫= f) w).1); [intros E; split; [by eapply filed_evolved|done]|].
  change (mwp (listHostFSWriteRefs ≫= f) w (λ w' _, evolved C w w')).
  apply (mwp_bind_by still); [eauto with still|intros; by apply still_evolved|].
  intros w1 refs Hl S. pose proof (list_ok _ _ _ Hw Hl) as Hs. unfold mwp. etrans; [by apply still_evolved|].
  apply (Hf refs). split; [by eapply filed_evolved, (still_evolved C)|].
  eapply Forall_impl; [exact Hs|]. intros ref H. apply stored_known. unfold storedRef in *. destruct S as (_&S&_). by rewrite S.
Qed.
Lemma with_ref C id {A} (f : hostFSWriteRef → HM A) :
  (∀ ref, keepsRefs C [ref] (f ref)) → keepsRecords C (findHostFSWriteByDecision id ≫= f).
Proof.
  intros Hf. unfold findHostFSWriteByDecision.
  assert (keepsRecords C (hrequire (negb (blank id)) "decisionId is required" ≫= λ _, listHostFSWriteRefs ≫= λ refs,
    match List.find (λ r, String.eqb (wd_DecisionID (rf_decision r)) id) refs with
    | Some r => f r | None => fail (WManager (MRefused "HostFS write decision not found")) end)) as H.
  { apply preserves_bind; [apply _|apply still_records; eauto with still|intros _]. apply with_refs. intros refs.
    destruct (List.find _ refs) as [r|] eqn:E; [|by evolving]. apply find_some in E as [Hin _].
    intros w Hw. destruct (Hf r w) as [[H1 _] H2]; [split; [apply Hw|]|].
    - apply Forall_singleton. apply (implied_in refs); [by apply list_elem_of_In|done].
    - split; [by eapply refsKnown_evolved|done]. }
  intros w Hw. specialize (H w Hw). revert H. unfold mbind, SE_bind. destruct (hrequire _ _ w) as [w1 [[]|e]]; [|done].
  destruct (listHostFSWriteRefs w1) as [w2 [refs|e]]; [|done]. by destruct (List.find _ refs).
Qed.

Lemma expireEach_keeps C refs now l n : (∀ r, r ∈ l → implied refs r) → keepsRefs C refs (expireEach now l n).
Proof.
  revert n. induction l as [|r l IH]; intros n Hl; simpl; [by evolving|].
  assert (∀ n, keepsRefs C refs (expireEach now l n)) as IH' by (intros; apply IH; set_solver).
  destruct (writeExpired r now); [|apply IH']. evolving; [apply expireRef_keeps, Hl; set_solver|apply IH'].
Qed.
Lemma Expire_keeps C at_ : keepsRecords C (ExpireHostFSWriteTimeouts at_).
Proof.
  unfold ExpireHostFSWriteTimeouts. still_then. apply with_refs. intros refs. apply expireEach_keeps. apply implied_in.
Qed.
Lemma Status_keeps C req : keepsRecords C (HostFSWriteStatus req).
Proof. unfold HostFSWriteStatus. recording. apply Expire_keeps. Qed.
Lemma Plan_still req : preserves still (PlanHostFSWrite req).
Proof. unfold PlanHostFSWrite, findHostFSWriteByOperation. stilling. Qed.
Lemma Discard_keeps C req : keepsRecords C (DiscardHostFSWrite req).
Proof.
  unfold DiscardHostFSWrite. still_then. apply with_ref. intros ref.
  evolving; [|apply cleanupRef_keeps]. apply saveRef_keeps, eq_refl. apply implied_move, implied_in. set_solver.
Qed.

(** ** The decision center *)

Context (fs : FileSystem) (range : gmap string RequestRecord → list (string * RequestRecord)).
Context (loadProfile : string → result ManagerError Config).

Lemma sync_still : preserves still syncHostFSWriteDecisions.
Proof. unfold syncHostFSWriteDecisions. stilling. Qed.
Lemma expireTimeouts_still : preserves still (expireDecisionTimeouts range).
Proof. unfold expireDecisionTimeouts. stilling. Qed.
#[local] Hint Resolve sync_still expireTimeouts_still : still.
Lemma inspectPrivate_still id : preserves still (inspectDecisionPrivate range id).
Proof. unfold inspectDecisionPrivate. stilling. Qed.
#[local] Hint Resolve inspectPrivate_still : still.
Lemma implied_release refs ref :
  implied refs ref → implied refs (ref <| rf_decision ::= (λ d, d <| wd_State := WritePending |> <| wd_Claim := None |>) |>).
Proof. intros H w Hw. exact (H w Hw). Qed.
Lemma releaseExpired_keeps C refs now ref : implied refs ref → keepsRefs C refs (releaseExpiredHostFSWriteClaim now ref).
Proof.
  intros Hi. unfold releaseExpiredHostFSWriteClaim. evolving.
  lazymatch goal with |- preserves _ (onOverlay (rf_sessionID ?r) _) => apply (saveDecision_keeps C refs r) end;
    [by apply implied_release|by apply noClaim_allowed].
Qed.
Lemma maintain_keeps C : keepsRecords C (maintainDecisionCenter range).
Proof.
  unfold maintainDecisionCenter. recording; [apply Expire_keeps|]. unfold releaseExpiredHostFSWriteClaims.
  apply with_refs. intros refs.
  assert (∀ l, (∀ r, r ∈ l → implied refs r) → keepsRefs C refs (for_each (releaseExpiredHostFSWriteClaim a) l)) as H.
  { induction l as [|r l IH]; intros Hl; simpl; [by evolving|].
    apply preserves_bind; [apply _|apply releaseExpired_keeps, Hl; set_solver|intros _; apply IH; set_solver]. }
  apply H, implied_in.
Qed.
Lemma ListDecisions_keeps C f : keepsRecords C (ListDecisions range f).
Proof. unfold ListDecisions, decisionsCurrent. recording. apply maintain_keeps. Qed.
Lemma InspectDecision_keeps C id : keepsRecords C (InspectDecision range id).
Proof. unfold InspectDecision. recording. apply maintain_keeps. Qed.
Lemma Reopen_still req : preserves still (ReopenDecision fs range loadProfile req).
Proof. unfold ReopenDecision. stilling. Qed.
Lemma orStaleH_still {A} d (m : HM A) : preserves still m → preserves still (orStaleH d m).
Proof. intros H. by apply orStaleH_keeps; [apply _| |]. Qed.
#[local] Hint Resolve orStaleH_still : still.
Lemma RevokeDecision_still req : preserves still (RevokeDecision range req).
Proof. unfold RevokeDecision. stilling. Qed.
Lemma invalidate_still sprint packID revisionID reason : preserves still (invalidateHostAppDecisions sprint packID revisionID reason).
Proof. unfold invalidateHostAppDecisions. stilling. Qed.
Lemma releaseClaim_keeps C req : keepsRecords C (releaseDecisionClaim range req).
Proof.
  unfold releaseDecisionClaim, validateDecisionReleaseRequest. recording. unfold releaseHostFSWriteDecisionClaim.
  destruct (d_Claim _); [|by recording]. do 3 still_then. apply with_ref. intros ref. evolving.
  lazymatch goal with |- preserves _ (onOverlay (rf_sessionID ?r) _) => apply (saveDecision_keeps C [ref] r) end;
    [apply implied_release, implied_in; set_solver|by apply noClaim_allowed].
Qed.
Lemma resolveStored_still req d state verdict action result : preserves still (resolveStored req d state verdict action result).
Proof. unfold resolveStored. stilling. Qed.
#[local] Hint Resolve resolveStored_still : still.
Lemma CreateNotice_still n : preserves still (CreateNotice n).
Proof. unfold CreateNotice. stilling. Qed.
Lemma ListNotices_still f : preserves still (ListNotices f).
Proof. unfold ListNotices. stilling. Qed.
Lemma InspectNotice_still id : preserves still (InspectNotice id).
Proof. unfold InspectNotice. stilling. Qed.
Lemma ackNotice_still id surface : preserves still (ackNotice id surface).
Proof. unfold ackNotice. stilling. Qed.

(** ** Claiming *)

(** The claim a response hands out. *)
Definition claimsOf (decisionID : string) (r : result WriteError WriteClaimResponse) : Claims := λ _ id key,
  match r with
  | Ok c => id = decisionID ∧ key = (HashClaimToken (wcr_ClaimToken c), wcr_ClaimExpiresAt c)
  | Err _ => False
  end.
Lemma find_ok id w w' ref :
  allFiled w → findHostFSWriteByDecision id w = (w', Ok ref) →
  still w w' ∧ storedRef w ref ∧ wd_DecisionID (rf_decision ref) = id.
Proof.
  intros Hf H. split; [eapply quiet_run; [|exact H]; unfold findHostFSWriteByDecision; stilling|].
  unfold findHostFSWriteByDecision in H. apply bind_ok in H as (w1&?&S1%(quiet_run still)&H); [|eauto with still].
  apply bind_ok in H as (w2&refs&Hl&H). apply list_ok in Hl; [|by eapply filed_evolved, (still_evolved noClaims)].
  destruct (List.find _ refs) as [r|] eqn:E; [|done]. injection H as _ <-. apply find_some in E as [Hin He].
  rewrite Forall_forall in Hl. split; [|by apply String.eqb_eq]. eapply storedRef_still; [done|]. by apply Hl, list_elem_of_In.
Qed.
Lemma SaveDecision_failed d s s' e : SaveDecision d s = (s', Err e) → idle s s'.
Proof.
  unfold SaveDecision, mbind, SE_bind. destruct (orequire _ _ s) as [s1 r1] eqn:E1.
  apply (quiet_run idle) in E1 as I1; [|eauto with idle]. destruct r1 as [[]|e1]; [|by intros [= <- <-]].
  destruct (onow s1) as [s2 r2] eqn:E2. apply (quiet_run idle) in E2 as I2; [|eauto with idle].
  destruct r2 as [now|e2]; [|intros [= <- <-]; by etrans]. intros H.
  apply writeFileAtomic_run in H as (T&O&[[F _]|[_ H]]); [|done]. do 2 (etrans; [done|]). done.
Qed.
Lemma idle_after w sid s : idle (overlayState w sid) s → still w (after sid s w).
Proof.
  intros (F&T&O). split_and!; [exact T| |by apply outside_drawn]. intros sid'.
  unfold after. change (overlayOf (_ <| hw_tree := _ |>) sid') with (overlayOf (w <| hw_overlays ::= <[sid := os_files s]> |>) sid').
  rewrite overlayOf_insert. destruct (decide _) as [->|]; [|done]. exact F.
Qed.
Lemma saveClaim_run C ref w w' r :
  allFiled w → knownRef w ref → allowedClaim (C (rf_sessionID ref)) (rf_decision ref) →
  onOverlay (rf_sessionID ref) (SaveDecision (rf_decision ref)) w = (w', r) →
  match r with Ok _ => evolved C w w' | Err _ => still w w' end.
Proof.
  intros Hf Hk Ha H. destruct r as [u|e].
  - pose proof (saveDecision_keeps C [ref] ref (implied_in [ref] ref ltac:(set_solver)) Ha w) as Hs. rewrite H in Hs.
    by apply Hs; split; [|apply Forall_singleton].
  - apply onOverlay_run in H as (s&x&H&->&Hx). destruct x; [done|]. apply SaveDecision_failed in H. by apply idle_after.
Qed.
Lemma writeAudit_run ref action verdict w w' r :
  emitHostFSWriteAudit ref action verdict w = (w', r) → still w w' ∧ r = Ok tt.
Proof.
  intros E. split; [by eapply quiet_run; [apply writeAudit_still|]|]. revert E.
  unfold emitHostFSWriteAudit, mbind at 1, SE_bind at 1, get_state at 1. cbn [fst snd].
  destruct (_ || _); by intros [= _ <-].
Qed.
Lemma mirrorClaim_run decisionID ref claim updated w :
  allFiled w → knownRef w ref → wd_DecisionID (rf_decision ref) = decisionID →
  mwp (mirrorClaim decisionID ref claim updated) w (λ w' r, evolved (claimsOf decisionID r) w w').
Proof.
  intros Hf Hk Hid. unfold mirrorClaim. set (ref' := ref <| rf_decision ::= _ |>). set (resp := mkWriteClaimResponse _ _ _ _ _ _ _ _ _).
  apply mwp_bind, mwp_attempt. unfold mwp at 1.
  destruct (onOverlay (rf_sessionID ref') (SaveDecision (rf_decision ref')) w) as [w1 r] eqn:E. cbn [fst snd].
  apply (saveClaim_run (claimsOf decisionID (Ok resp))) in E; [|done|exact Hk|].
  2:{ intros c [= <-]. cbn. split; [exact Hid|done]. }
  destruct r as [u|e].
  - apply mwp_bind. unfold mwp at 1. destruct (emitHostFSWriteAudit _ _ _ w1) as [w2 r] eqn:E2.
    apply writeAudit_run in E2 as [S ->]. cbn [fst snd]. apply mwp_ret. etrans; [exact E|by apply still_evolved].
  - apply (mwp_bind_by still); [stilling|intros; apply still_evolved; by etrans|]. intros w2 _ _ S2.
    apply mwp_fail. apply still_evolved. by etrans.
Qed.
Lemma known_still w w' ref : still w w' → knownRef w ref → knownRef w' ref.
Proof. intros (_&Ho&_). unfold knownRef. by rewrite Ho. Qed.
Lemma filed_still w w' : still w w' → allFiled w → allFiled w'.
Proof. intros S H. by eapply filed_evolved, (still_evolved noClaims). Qed.
Lemma evolved_after_still C w w1 w2 : still w w1 → evolved C w1 w2 → evolved C w w2.
Proof. intros S E. etrans; [by apply still_evolved|done]. Qed.
Lemma find_still id : preserves still (findHostFSWriteByDecision id).
Proof. unfold findHostFSWriteByDecision. stilling. Qed.
#[local] Hint Resolve find_still : still.
(** A step that moves nothing, in a run whose effect is known. *)
Lemma still_step {A B} (m : HM A) (f : A → HM B) w (Cs : result WriteError B → Claims) :
  preserves still m → (∀ w1 a, m w = (w1, Ok a) → still w w1 → mwp (f a) w1 (λ w' r, evolved (Cs r) w1 w')) →
  mwp (m ≫= f) w (λ w' r, evolved (Cs r) w w').
Proof.
  intros Hm Hf. apply (mwp_bind_by still); [done|intros; by apply still_evolved|]. intros w1 a E S.
  eapply mwp_mono; [by eapply Hf|]. intros w' r H. cbn in *. by eapply evolved_after_still.
Qed.
Lemma ClaimHostFSWrite_run req w :
  allFiled w → mwp (ClaimHostFSWrite req) w (λ w' r, evolved (claimsOf (TrimSpace (hc_DecisionID req)) r) w w').
Proof.
  intros Hf. unfold ClaimHostFSWrite.
  apply still_step; [eauto with still|]. intros w1 _ _ S1. apply still_step; [eauto with still|]. intros w2 _ _ S2.
  apply still_step; [eauto with still drawn|]. intros w3 lease _ S3.
  assert (allFiled w3) as Hf3 by by do 3 (eapply filed_still; [done|]).
  apply still_step; [eauto with still|]. intros w4 ref Hfind S4. apply find_ok in Hfind as (_&Hst%stored_known&Hid); [|done].
  apply still_step; [eauto with still|]. intros w5 now _ S5.
  assert (knownRef w5 ref) as Hk by by do 2 (eapply known_still; [done|]).
  assert (allFiled w5) as Hf5 by by do 2 (eapply filed_still; [done|]).
  destruct (writeExpired ref now).
  - apply mwp_bind. unfold mwp at 1.
    pose proof (expireRef_keeps noClaims [ref] ref (implied_in [ref] ref ltac:(set_solver)) w5) as He.
    destruct (expireHostFSWriteRef ref w5) as [w6 r]. cbn [fst snd] in *. destruct He as [_ He]; [by split; [|apply Forall_singleton]|].
    destruct r; [apply mwp_fail|]; by eapply evolved_mono; [|exact He].
  - apply still_step; [eauto with still|]. intros w6 _ _ S6. apply still_step; [eauto with still drawn|]. intros w7 _ _ S7.
    apply still_step; [eauto with still drawn|]. intros w8 [claim updated] _ S8.
    apply mirrorClaim_run; [by do 3 (eapply filed_still; [done|])|by do 3 (eapply known_still; [done|])|done].
Qed.
Definition centerClaims (req : DecisionClaimRequest) (w : HostWorld) (r : result WriteError ClaimResponse) : Claims := λ _ id key,
  ∃ w1 d c, inspectDecisionPrivate range (dc_DecisionID req) w = (w1, Ok d) ∧ r = Ok c ∧
    id = TrimSpace (pr_DecisionID (d_ProviderRef d)) ∧ key = (HashClaimToken (cr_ClaimToken c), cr_ClaimExpiresAt c).
Lemma versionFits_id v w w' r : versionFits v w = (w', r) → w' = w.
Proof. unfold versionFits, hrequire. by destruct (_ || _); intros [= <-]. Qed.
Lemma claimDecision_run req w :
  allFiled w → mwp (claimDecision range req) w (λ w' r, evolved (centerClaims req w r) w w').
Proof.
  intros Hf. unfold claimDecision. apply still_step; [eauto with still|]. intros w0 u E0 S0.
  apply versionFits_id in E0 as ->. clear S0.
  apply (still_step _ _ _ (centerClaims req w)); [eauto with still|]. intros w1 d Hd S1. unfold refuseTerminal.
  destruct (DecisionTerminal _).
  { eapply (mwp_by still); [stilling|intros; by apply still_evolved]. }
  destruct (String.eqb _ KindHostFSWrite).
  2:{ eapply (mwp_by still); [destruct (String.eqb _ _); stilling|intros; by apply still_evolved]. }
  assert (allFiled w1) as Hf1 by by eapply filed_still.
  apply mwp_bind. unfold orStaleH. apply mwp_bind, mwp_attempt. eapply mwp_mono; [by apply ClaimHostFSWrite_run|].
  intros w2 r E. change (hc_DecisionID _) with (pr_DecisionID (d_ProviderRef d)) in E. destruct r as [c|e].
  - apply mwp_ret, mwp_bind, mwp_ignore. eapply (mwp_by still); [eauto with still|]. intros w3 _ S3. apply mwp_ret.
    etrans; [|by apply still_evolved]. eapply evolved_mono; [|exact E]. intros sid id key [-> ->]. exists w1, d, (claimOf d c). done.
  - apply mwp_bind, mwp_ignore. eapply (mwp_by still); [eauto with still|]. intros w3 _ S3. apply mwp_fail.
    etrans; [|by apply still_evolved]. eapply evolved_mono; [|exact E]. by intros sid id key [].
Qed.

(** ** Applying *)

(** What stands behind a change of the tree from [t] to [t']: a claimed decision
    of an overlay, its operation, and the token of its live claim. *)
Record appliedWith (token : string) (w : HostWorld) (t' : Tree) (sid : string) (d : WriteDecision) (op : Operation)
    (c : WriteClaim) (n : nat) : Prop := mkAppliedWith {
  aw_decision : of_decisions (overlayOf w sid) !! recordName (wd_DecisionID d) = Some d;
  aw_operation : of_operations (overlayOf w sid) !! recordName (wd_OperationID d) = Some op;
  aw_state : wd_State d = WriteClaimed;
  aw_claim : wd_Claim d = Some c;
  aw_token : HashClaimToken token = wc_TokenHash c;
  aw_live : Before (UTC (st_clock (w_store (hw_world w)) n)) (wc_ExpiresAt c) = true;
  aw_base : baseKept K op (hw_tree w);
  aw_frame : agreeOff (touched K (hw_tree w) op) (hw_tree w) t' }.
(** The records evolved, and the tree is as it was or changed by an application. *)
Definition applies (token : string) (w w' : HostWorld) : Prop :=
  (∀ sid, filesEvolve (noClaims sid) (overlayOf w sid) (overlayOf w' sid)) ∧ drawn (hw_world w) (hw_world w') ∧
  (hw_tree w' = hw_tree w ∨ ∃ sid d op c n, appliedWith token w (hw_tree w') sid d op c n).
Lemma still_applies token w w1 w2 : still w w1 → applies token w1 w2 → applies token w w2.
Proof.
  intros (T&O&D) (A&B&H). split_and!; [intros sid; rewrite <-O; apply A|by etrans|]. rewrite T in H.
  destruct H as [H|(sid&d&op&c&n&[H1 H2 H3 H4 H5 H6 H7 H8])]; [by left|right]. exists sid, d, op, c, n.
  rewrite O in H1, H2. rewrite T in H7, H8. destruct D as (_&Hc&_). rewrite Hc in H6. by split.
Qed.
Lemma applies_still token w w1 w2 : applies token w w1 → still w1 w2 → applies token w w2.
Proof. intros (A&B&H) (T&O&D). unfold applies. rewrite T. split_and!; [intros sid; rewrite O; apply A|by etrans|done]. Qed.
Lemma evolved_applies token w w' : evolved noClaims w w' → applies token w w'.
Proof. intros (T&O&D). split_and!; [done|done|by left]. Qed.
Lemma hrequire_ok b what w w' u : hrequire b what w = (w', Ok u) → b = true.
Proof. by destruct b. Qed.
Lemma writeClaim_ok d token w w' u :
  validateHostFSWriteClaim d token w = (w', Ok u) →
  ∃ c n, wd_Claim d = Some c ∧ HashClaimToken token = wc_TokenHash c ∧
    Before (UTC (st_clock (w_store (hw_world w)) n)) (wc_ExpiresAt c) = true.
Proof.
  unfold validateHostFSWriteClaim. intros (w1&c&H1&H)%bind_ok. apply (quiet_run still) in H1 as S1; [|eauto with still].
  apply bind_ok in H as (w2&now&H2&H). apply hrequire_ok in H. unfold validateHostFSWriteClaimToken in H1.
  destruct (wd_Claim d) as [c0|]; [|done]. apply bind_ok in H1 as (v1&?&E1&H1). apply bind_ok in H1 as (v2&?&E2&H1).
  apply bind_ok in H1 as (v3&?&E3%hrequire_ok&H1). injection H1 as _ ->. apply String.eqb_eq in E3.
  exists c, (st_reads (w_store (hw_world w1))). split_and!; [done..|]. destruct S1 as (_&_&_&Hc&_). rewrite <-Hc.
  unfold hnow, onWorld, mnow, onStore in H2. destruct (now_ (w_store (hw_world w1))) as [s r] eqn:En.
  unfold now_ in En. injection En as <- <-. injection H2 as _ <-. done.
Qed.
Lemma Apply_onOverlay token ref w w' r c n :
  allFiled w → storedRef w ref → wd_Claim (rf_decision ref) = Some c → HashClaimToken token = wc_TokenHash c →
  Before (UTC (st_clock (w_store (hw_world w)) n)) (wc_ExpiresAt c) = true →
  onOverlay (rf_sessionID ref) (Apply K (wd_DecisionID (rf_decision ref))) w = (w', r) → applies token w w'.
Proof.
  intros Hf (_&Hst&_) Hc Ht Hb (s&x&E&->&_)%onOverlay_run. set (sid := rf_sessionID ref) in *.
  pose proof (Apply_evolve K (noClaims sid) (wd_DecisionID (rf_decision ref)) (overlayState w sid)) as Hev.
  rewrite E in Hev. destruct Hev as [_ [He Ho]]; [apply Hf|]. cbn in He, Ho. split_and!.
  - intros sid'. unfold after. change (overlayOf (_ <| hw_tree := _ |>) sid') with (overlayOf (w <| hw_overlays ::= <[sid := os_files s]> |>) sid').
    rewrite overlayOf_insert. destruct (decide _) as [<-|]; [exact He|done].
  - by apply outside_drawn.
  - apply Apply_run in E as (a&_&[[T _]|(d&op&(Hd&Hs&Hop&Hba&Hag)&_)]); [by left|right].
    cbn in Hd, Hop, Hba, Hag. rewrite Hst in Hd. injection Hd as <-. exists sid, (rf_decision ref), op, c, n. by split.
Qed.
Lemma ApplyHostFSWrite_run req w :
  allFiled w → mwp (ApplyHostFSWrite K req) w (λ w' _, applies (ha_ClaimToken req) w w').
Proof.
  intros Hf. assert (∀ w', still w w' → applies (ha_ClaimToken req) w w') as Hs
    by (intros; by apply evolved_applies, still_evolved).
  unfold ApplyHostFSWrite. apply (mwp_bind_by still); [eauto with still|auto|]. intros w1 _ _ S1.
  apply (mwp_bind_by still); [eauto with still|intros; apply Hs; by etrans|]. intros w2 ref Hfind S2.
  apply find_ok in Hfind as (_&Hst&_); [|by eapply filed_still].
  apply (mwp_bind_by still); [eauto with still|intros; apply Hs; by do 2 (etrans; [done|])|]. intros w3 [] Hv S3.
  apply writeClaim_ok in Hv as (c&n&Hc&Ht&Hb). assert (still w w3) as S by by do 2 (etrans; [done|]).
  assert (still w1 w3) as S13 by by etrans.
  apply mwp_bind. unfold mwp at 1. destruct (onOverlay _ _ w3) as [w4 r] eqn:E. cbn [fst snd].
  apply (Apply_onOverlay (ha_ClaimToken req) _ _ _ _ c n) in E.
  - apply (still_applies _ _ _ _ S) in E. destruct r as [a|e]; [|done].
    eapply (mwp_by still); [stilling|]. intros w5 r S5. by eapply applies_still.
  - by apply (filed_still w).
  - destruct S13 as (_&Ho&_). unfold storedRef in *. by rewrite Ho.
  - done.
  - done.
  - destruct S3 as (_&_&_&Hck&_). by rewrite Hck.
Qed.
(** ** Sharing evidence *)

(** The records of the overlays stay; the tree may change. *)
Definition spares (w w' : HostWorld) : Prop :=
  (∀ sid, overlayOf w' sid = overlayOf w sid) ∧ drawn (hw_world w) (hw_world w').
#[global] Instance spares_pre : PreOrder spares.
Proof. split; [done|]. intros w1 w2 w3 (A1&A2) (B1&B2). split; [intros sid; by rewrite B1|by etrans]. Qed.
Lemma still_spares w w' : still w w' → spares w w'.
Proof. by intros (_&A&B). Qed.
(** The approval of a share: the decision read for it is one, and is claimed with
    the token that came with the approval, by a claim that has not expired. *)
Definition sharedWith (req : DecisionResolveRequest) (w : HostWorld) (d : Decision) (c : Claim) (n : nat) : Prop :=
  (inspectDecisionPrivate range (dr_DecisionID req) w).2 = Ok d ∧ d_Kind d = KindEvidenceShare ∧
  d_State d = StateClaimed ∧ d_Claim d = Some c ∧ HashClaimToken (dr_ClaimToken req) = cm_TokenHash c ∧
  Before (UTC (st_clock (w_store (hw_world w)) n)) (cm_ExpiresAt c) = true.

Lemma decisionLocked_ok id s s' d :
  decisionLocked id s = (s', Ok d) →
  st_decisions s !! decisionPath (st_root s) (TrimSpace id) = Some d ∧
  st_decisions s' = st_decisions s ∧ st_root s' = st_root s.
Proof.
  unfold decisionLocked. intros (s1&?&H1&H)%bind_ok. assert (s1 = s) as -> by (by unfold guardE in H1; destruct (negb _); injection H1).
  apply bind_ok in H as (s2&?&[= <- <-]&H). unfold readDecision in H. apply bind_ok in H as (s3&?&H3&H).
  unfold io in H3. injection H3 as <- _. apply bind_ok in H as (s4&?&[= <- <-]&H). cbn in H.
  destruct (st_decisions s !! _) as [d'|] eqn:E; [|done]. by injection H as <- <-.
Qed.
Lemma locked_ok {A} (m : DM A) s s' a :
  locked m s = (s', Ok a) → ∃ s1 s2, m s1 = (s2, Ok a) ∧ st_decisions s1 = st_decisions s ∧
    st_root s1 = st_root s ∧ st_clock s1 = st_clock s.
Proof.
  unfold locked. intros (s1&?&[= <- <-]&H)%bind_ok. apply bind_ok in H as (s2&?&H2&H).
  assert (s2 = s) as -> by (by unfold guardE in H2; destruct (negb _); injection H2).
  apply bind_ok in H as (s3&?&H3&H). unfold io in H3. injection H3 as <- _.
  apply bind_ok in H as (s4&r&H4%attempt_ok&H). apply bind_ok in H as (s5&u&_&H).
  exists (s <| st_ios ::= S |>), s4. split; [|done]. destruct r as [b|e], u as [[]|f]; try discriminate H. by injection H as _ <-.
Qed.
Lemma ValidateDecisionClaim_ok id token s s' r :
  ValidateDecisionClaim id token s = (s', Ok r) →
  ∃ d c n, st_decisions s !! decisionPath (st_root s) (TrimSpace id) = Some d ∧ d_State d = StateClaimed ∧
    d_Claim d = Some c ∧ HashClaimToken token = cm_TokenHash c ∧ Before (UTC (st_clock s n)) (cm_ExpiresAt c) = true.
Proof.
  unfold ValidateDecisionClaim. intros (s1&s2&H&E1&E2&E3)%locked_ok.
  apply bind_ok in H as (s3&now&H3&H). unfold now_ in H3. injection H3 as <- <-.
  apply bind_ok in H as (s4&d&(Hd&_)%decisionLocked_ok&H). apply bind_ok in H as (s5&?&_&H).
  apply bind_ok in H as (s6&?&Hv&_). cbn in Hd. rewrite E1, E2 in Hd. unfold checkD in Hv.
  destruct (validateClaim d token _) as [[]|] eqn:E; [|done]. apply validateClaim_spec in E as (c&?&?&?&Hb).
  exists d, c, (st_reads s1). rewrite E3 in Hb. by split_and!.
Qed.
Lemma onStore_run_ok {A} (m : DM A) w w' a :
  onWorld (onStore m) w = (w', Ok a) → ∃ s, m (w_store (hw_world w)) = (s, Ok a) ∧ w_store (hw_world w') = s.
Proof.
  unfold onWorld, onStore. destruct (m (w_store (hw_world w))) as [s [b|f]] eqn:E; [|done].
  intros [= <- <-]. by exists s.
Qed.
Lemma hstore_id w w' u : hstore w = (w', Ok u) → w_store (hw_world w') = w_store (hw_world w).
Proof.
  unfold hstore, onWorld, decisionStore, require, mbind, SE_bind, get_state. cbn. by destruct (negb _); intros [= <-].
Qed.
Lemma inspectPrivate_stored id w w' d :
  inspectDecisionPrivate range id w = (w', Ok d) →
  st_decisions (w_store (hw_world w')) !! decisionPath (st_root (w_store (hw_world w'))) (TrimSpace id) = Some d.
Proof.
  unfold inspectDecisionPrivate. intros (w1&?&_&H)%bind_ok. apply bind_ok in H as (w2&?&_&H).
  apply bind_ok in H as (w3&?&_&H). apply onStore_run_ok in H as (s&H%decisionLocked_ok&->).
  destruct H as (H&E1&E2). by rewrite E1, E2.
Qed.

Context (share : string → HM Details) (shareSpares : ∀ id, preserves spares (share id)).
Lemma deny_keeps C req : keepsRecords C (resolveDecision K fs range loadProfile share req false).
Proof.
  unfold resolveDecision, refuseTerminal, resolveWrite, noError. do 2 still_then. rewrite !andb_false_r.
  recording; [apply Discard_keeps|..].
  all: apply still_records; stilling.
Qed.
(** A share with a live claim, or nothing but still steps. *)
Lemma evidenceShare_run req d w0 w :
  still w0 w → st_decisions (w_store (hw_world w)) !! decisionPath (st_root (w_store (hw_world w)))
    (TrimSpace (dr_DecisionID req)) = Some d →
  mwp (approveEvidenceShareDecision share req d) w (λ w' _, still w w' ∨ spares w w' ∧
    ∃ c n, d_State d = StateClaimed ∧ d_Claim d = Some c ∧ HashClaimToken (dr_ClaimToken req) = cm_TokenHash c ∧
      Before (UTC (st_clock (w_store (hw_world w0)) n)) (cm_ExpiresAt c) = true).
Proof.
  intros S0 Hd. unfold approveEvidenceShareDecision.
  apply (mwp_bind_by still); [eauto with still|by left|]. intros w1 u E1 S1. apply hstore_id in E1.
  apply (mwp_bind_by still); [stilling|intros; left; by etrans|]. intros w2 u2 E2 S2.
  unfold orStaleH in E2. apply bind_ok in E2 as (w3&x&E2%attempt_ok&E3). destruct x as [x|e]; [|by apply bind_ok in E3 as (?&?&_&?)].
  apply onStore_run_ok in E2 as (s&E2&_). apply ValidateDecisionClaim_ok in E2 as (d'&c&n&Hd'&Hs&Hc&Ht&Hb).
  rewrite E1, Hd in Hd'. injection Hd' as <-. rewrite E1 in Hb. destruct S0 as (_&_&_&Hck&_). rewrite Hck in Hb.
  eapply (mwp_by spares).
  - apply preserves_bind; [apply _|apply orStaleH_keeps; [apply _|apply still_spares|done]|intros result].
    eapply preserves_mono; [apply still_spares|stilling].
  - intros w4 r S4. right. split; [|by exists c, n]. do 2 (etrans; [by apply still_spares|]). done.
Qed.
Lemma approve_run req w :
  allFiled w →
  mwp (resolveDecision K fs range loadProfile share req true) w (λ w' _,
    applies (dr_ClaimToken req) w w' ∨ spares w w' ∧ ∃ d c n, sharedWith req w d c n).
Proof.
  intros Hf. assert (∀ w', still w w' → applies (dr_ClaimToken req) w w') as Hs
    by (intros; by apply evolved_applies, still_evolved).
  unfold resolveDecision. apply (mwp_bind_by still); [eauto with still|intros; left; auto|]. intros w1 u1 E1 S1.
  apply versionFits_id in E1 as ->. clear S1.
  apply (mwp_bind_by still); [eauto with still|intros; left; by apply Hs|]. intros w2 d Hd S. unfold refuseTerminal. destruct (DecisionTerminal _).
  { eapply (mwp_by still); [stilling|]. intros w3 r S3. left. apply Hs. by etrans. }
  destruct (String.eqb (d_Kind d) KindHostFSWrite).
  - eapply (mwp_mono _ _ (λ w' _, applies (dr_ClaimToken req) w w')); [|by left].
    unfold resolveWrite. apply mwp_bind, mwp_attempt. eapply mwp_mono; [apply ApplyHostFSWrite_run; by apply (filed_still w)|].
    intros w3 r H. apply (still_applies _ _ _ _ S) in H. cbn in H.
    eapply (mwp_by still); [destruct r as [[result e]|e]; stilling|]. intros w4 r' S4. by eapply applies_still.
  - unfold noError. apply mwp_bind. destruct (String.eqb_spec (d_Kind d) KindEvidenceShare) as [Ek|Hk].
    + rewrite Ek. cbn [String.eqb andb]. eapply mwp_mono; [by eapply evidenceShare_run; [done|eapply inspectPrivate_stored]|].
      intros w3 r [S3|[S3 (c&n&H1&H2&H3&H4)]].
      * assert (still w w3) by by etrans. by destruct r; [apply mwp_ret|]; left; apply Hs.
      * assert (spares w w3) by (etrans; [by apply still_spares|done]).
        assert (sharedWith req w d c n) as Hsh by (unfold sharedWith; by rewrite Hd).
        by destruct r; [apply mwp_ret|]; right; eauto.
    + eapply (mwp_by still); [repeat (destruct (String.eqb _ _); cbn [andb]); stilling|]. intros w3 r S3.
      assert (still w w3) by by etrans. by destruct r; [apply mwp_ret|]; left; apply Hs.
Qed.
End operations.
