(* ===== verification/HostFSWriteSpec.v ===== *)
(** * What a change of the host rests on

    The histories of staged writes: sessions that stage, operators that claim,
    apply, discard and release, expiry, everything else the decision center
    does, and the host's own changes.  The records of an overlay only change as
    [filesEvolve] allows; a change of the host's tree that is not the host's own
    is the application of an operation that a session staged with the policy's
    permission, by the holder of an unexpired claim on a decision that shows
    exactly this operation. *)
From Stdlib Require Import Ascii.
From S2P Require Import Prelude StateRules GoStrings GoTime GoHash GoRunes GoPath Redact Decision.
From S2P Require Import DecisionStore DecisionSpec GoGlob HostPathRisk HostFS HostFSSpec HostTree Overlay.
From S2P Require Import HostFSService HostFSServiceSpec ReadGrant HostFSRead HostFSReadSpec HostFSWrite DecisionCenter.
From S2P Require Import OverlaySpec OverlayStageSpec HostFSWriteFrame.
Open Scope Z_scope.

(** ** Histories *)

(** The world of an operation: the host as the policy sees it, and the export of
    evidence. *)
Record WEnv := mkWEnv { we_env : Env; we_share : string → HM Details }.
(** [hook]: the answers of [BeginStage] and of the function it returns. *)
Inductive WStep :=
  | WStage (s : Service) (req : WriteRequest) (hook : option (SR (bool → SR ())))
  | WPlan (req : HostFSWritePlanRequest) | WStatus (req : HostFSWriteStatusRequest) | WExpire (at_ : Time)
  | WClaim (req : HostFSWriteClaimRequest) | WDiscard (req : HostFSWriteDiscardRequest)
  | WApply (req : HostFSWriteApplyRequest)
  | WList (f : ListFilter) | WInspect (id : string) | WCenterClaim (req : DecisionClaimRequest)
  | WResolve (req : DecisionResolveRequest) (approve : bool) | WReopen (req : HostFSReadReopenRequest)
  | WRevoke (req : DecisionRevokeRequest) | WRelease (req : DecisionReleaseRequest)
  | WInvalidate (sprint : Value → string) (packID revisionID reason : string)
  | WCreateNotice (n : Notice) | WListNotices (f : ListFilter) | WInspectNotice (id : string)
  | WAckNotice (id surface : string)
  | WRead (s : Step)
  | WHost (t : Tree).

Section histories.
Context (K : Kernel) {TS : TimeSort}.

(** [Overlay.Stage] of a session's store, as its service calls it. *)
Definition stageIn (sid : string) (q : StageRequest) : SE HostWorld ServiceError (string * string) := λ w,
  let '(w', r) := onOverlay sid (Stage K q) w in
  (w', match r with Ok (op, d) => Ok (op_ID op, wd_DecisionID d) | Err _ => plainErr ErrOverlay end).
Definition beginHook (hook : option (SR (bool → SR ()))) :
    option (SE HostWorld ServiceError (bool → SE HostWorld ServiceError ())) :=
  (λ r, complete ← lift r; mret (λ b, lift (complete b))) <$> hook.
Definition wstep (es : WEnv * WStep) (w : HostWorld) : HostWorld :=
  let e := we_env es.1 in
  let share := we_share es.1 in
  match es.2 with
  | WStage s req hook =>
      (StageWrite (e_fs e) (beginHook hook) (stageIn (oc_SessionID (s_Context s))) s req w).1
  | WPlan req => (PlanHostFSWrite req w).1
  | WStatus req => (HostFSWriteStatus req w).1
  | WExpire at_ => (ExpireHostFSWriteTimeouts at_ w).1
  | WClaim req => (ClaimHostFSWrite req w).1
  | WDiscard req => (DiscardHostFSWrite req w).1
  | WApply req => (ApplyHostFSWrite K req w).1
  | WList f => (ListDecisions (e_range e) f w).1
  | WInspect id => (InspectDecision (e_range e) id w).1
  | WCenterClaim req => (claimDecision (e_range e) req w).1
  | WResolve req approve => (resolveDecision K (e_fs e) (e_range e) (e_loadProfile e) share req approve w).1
  | WReopen req => (ReopenDecision (e_fs e) (e_range e) (e_loadProfile e) req w).1
  | WRevoke req => (RevokeDecision (e_range e) req w).1
  | WRelease req => (releaseDecisionClaim (e_range e) req w).1
  | WInvalidate sprint packID revisionID reason => (invalidateHostAppDecisions sprint packID revisionID reason w).1
  | WCreateNotice n => (CreateNotice n w).1
  | WListNotices f => (ListNotices f w).1
  | WInspectNotice id => (InspectNotice id w).1
  | WAckNotice id surface => (ackNotice id surface w).1
  | WRead s => w <| hw_world ::= step (e, s) |>
  | WHost t => w <| hw_tree := t |>
  end.
Definition wrun (hist : list (WEnv * WStep)) (w : HostWorld) : HostWorld := foldl (λ w s, wstep s w) w hist.

(** The claims a step hands out, and the token an approval comes with. *)
Definition stepClaims (es : WEnv * WStep) (w : HostWorld) : Claims :=
  match es.2 with
  | WClaim req => claimsOf (TrimSpace (hc_DecisionID req)) (ClaimHostFSWrite req w).2
  | WCenterClaim req => centerClaims (e_range (we_env es.1)) req w (claimDecision (e_range (we_env es.1)) req w).2
  | _ => noClaims
  end.
Definition approves (es : WEnv * WStep) (token : string) : Prop :=
  match es.2 with
  | WApply req => token = ha_ClaimToken req
  | WResolve req true => token = dr_ClaimToken req
  | _ => False
  end.
(** A step that stages [op] in the overlay of [sid], with the policy's leave. *)
Definition stages (es : WEnv * WStep) (sid : string) (op : Operation) : Prop :=
  ∃ s req hook q op0, es.2 = WStage s req hook ∧ oc_SessionID (s_Context s) = sid ∧
    authorizeStage (e_fs (we_env es.1)) s req = Ok q ∧ stagedOp q op0 ∧ opCore op0 = opCore op.

(** ** One step *)

Lemma drawn_outside w w' : drawn (hw_world w) (hw_world w') → sameOutside (outOf w) (outOf w').
Proof. intros (_&A&B&C&D). by split_and!. Qed.
Definition allConsistent (w : HostWorld) : Prop := ∀ sid, consistent (outOf w) (overlayOf w sid).
Lemma consistent_filed w : allConsistent w → allFiled w.
Proof. intros H sid. by apply co_filed with (outOf w). Qed.

(** What a step does to the records of the overlays. *)
Record recordsStep (es : WEnv * WStep) (w w' : HostWorld) : Prop := mkRecordsStep {
  rs_drawn : drawn (hw_world w) (hw_world w');
  rs_consistent : allConsistent w';
  rs_ops : ∀ sid k op', of_operations (overlayOf w' sid) !! k = Some op' →
    (∃ op, of_operations (overlayOf w sid) !! k = Some op ∧ opCore op = opCore op') ∨ stages es sid op';
  rs_claims : ∀ sid k d' c, of_decisions (overlayOf w' sid) !! k = Some d' → wd_Claim d' = Some c →
    (∃ d c0, of_decisions (overlayOf w sid) !! k = Some d ∧ wd_DecisionID d = wd_DecisionID d' ∧
       wd_Claim d = Some c0 ∧ claimKey c0 = claimKey c) ∨ stepClaims es w sid (wd_DecisionID d') (claimKey c) }.
Lemma evolve_records es w w' :
  allConsistent w → (∀ sid, filesEvolve (stepClaims es w sid) (overlayOf w sid) (overlayOf w' sid)) →
  drawn (hw_world w) (hw_world w') → recordsStep es w w'.
Proof.
  intros Hc He Hd. split; [done| | |].
  - intros sid. eapply consistent_outside; [by apply drawn_outside|]. eapply consistent_evolve; [apply He|apply Hc].
  - intros sid k op' H. left. destruct (He sid) as (A&_). by apply A.
  - intros sid k d' c H Hcl. destruct (He sid) as (_&A&_). destruct (A k d' H) as (d&H0&E&Hf).
    destruct (Hf c Hcl) as [(c0&Hc0&Ek)|]; [left|by right]. exists d, c0. destruct (decCore_eq _ _ E) as [? _]. done.
Qed.
Lemma overlayOf_after w sid s sid' : overlayOf (after sid s w) sid' = if decide (sid = sid') then os_files s else overlayOf w sid'.
Proof. apply (overlayOf_insert w). Qed.
Lemma StageWrite_state fs hook s req w :
  let w' := (StageWrite fs (beginHook hook) (stageIn (oc_SessionID (s_Context s))) s req w).1 in
  w' = w ∨ ∃ q, authorizeStage fs s req = Ok q ∧ w' = (stageIn (oc_SessionID (s_Context s)) q w).1.
Proof.
  unfold StageWrite, mbind at 1, SE_bind at 1, lift at 1. destruct (authorizeStage fs s req) as [q|e]; [|by left].
  assert (∀ (complete : bool → SE HostWorld ServiceError ()), (∀ b, preserves eq (complete b)) →
    ((staged ← attempt (stageIn (oc_SessionID (s_Context s)) q);
      match staged with
      | Err e => ignore_err (complete false);; fail e
      | Ok (operationID, decisionID) => complete true;; mret (mkWriteResult operationID decisionID true false)
      end) w).1 = (stageIn (oc_SessionID (s_Context s)) q w).1) as Hc.
  { intros complete Hp. unfold mbind, SE_bind, attempt, ignore_err.
    destruct (stageIn _ q w) as [w1 [[op d]|e]]; cbn.
    - specialize (Hp true w1). by destruct (complete true w1) as [w2 [[]|]].
    - specialize (Hp false w1). by destruct (complete false w1) as [w2 r]. }
  destruct hook as [[complete|e]|]; cbn.
  - right. exists q. split; [done|]. by apply Hc.
  - by left.
  - right. exists q. split; [done|]. by apply Hc.
Qed.
Lemma stage_records e s req hook w :
  distinctDraws (ou_rand (outOf w)) → allConsistent w →
  recordsStep (e, WStage s req hook) w (wstep (e, WStage s req hook) w) ∧
  hw_tree (wstep (e, WStage s req hook) w) = hw_tree w.
Proof.
  intros Hd Hc. assert (recordsStep (e, WStage s req hook) w w) as Hw by (apply evolve_records; [done|by intros|done]).
  unfold wstep. cbn [fst snd]. destruct (StageWrite_state (e_fs (we_env e)) hook s req w) as [->|(q&Hq&->)]; [done|].
  set (sid := oc_SessionID (s_Context s)). unfold stageIn.
  destruct (onOverlay sid (Stage K q) w) as [w' r] eqn:E. apply onOverlay_run in E as (st&x&E&->&_). cbn [fst].
  pose proof (Stage_run K q (overlayState w sid) Hd (Hc sid)) as (T&O&Hok&Hops&Hdecs). rewrite E in T, O, Hok, Hops, Hdecs.
  cbn [fst] in *. cbn in T. split; [|exact T]. assert (sameOutside (outOf w) (os_out st)) as O' by exact O.
  assert (drawn (hw_world w) (hw_world (after sid st w))) as D by by apply outside_drawn.
  split; [done| | |].
  - intros sid'. rewrite overlayOf_after. destruct (decide _) as [<-|].
    + eapply consistent_outside; [|exact Hok]. destruct O' as (A&B&R&_). by split_and!; [rewrite A|rewrite B|rewrite R|].
    + eapply consistent_outside; [by apply drawn_outside|apply Hc].
  - intros sid' k op'. rewrite overlayOf_after. destruct (decide _) as [<-|]; [|by eauto].
    intros [H|Hst]%Hops; [left; by eauto|right]. by exists s, req, hook, q, op'.
  - intros sid' k d' c. rewrite overlayOf_after. destruct (decide _) as [<-|]; [|intros H Hcl; left; by exists d', c].
    intros [H|[_ Hn]]%Hdecs Hcl; [left; by exists d', c|]. by rewrite Hn in Hcl.
Qed.
Lemma readStep_drawn e s w : drawn w (step (e, s) w).
Proof.
  destruct s; unfold step; cbn [fst snd];
    [apply newProvider_drawn|apply Propose_drawn|apply AllowsRead_drawn|apply claimRead_drawn|apply approveRead_drawn
    |apply denyRead_drawn|apply reopenRead_drawn|apply syncRead_drawn|apply exec_world].
Qed.
(** The approval of a share of evidence, with the token of its claim. *)
Definition sharesEvidence (es : WEnv * WStep) (w : HostWorld) : Prop :=
  ∃ req d c n, es.2 = WResolve req true ∧ sharedWith (e_range (we_env es.1)) req w d c n.
(** A step leaves the tree alone, is the host's own, makes an approved share, or
    applies a claimed write. *)
Definition treeStep (es : WEnv * WStep) (w w' : HostWorld) : Prop :=
  hw_tree w' = hw_tree w ∨ (∃ t, es.2 = WHost t) ∨ sharesEvidence es w ∨
  ∃ token sid d op c n, approves es token ∧ appliedWith K token w (hw_tree w') sid d op c n.
Lemma evolved_step es w w' :
  allConsistent w → evolved (stepClaims es w) w w' → recordsStep es w w' ∧ treeStep es w w'.
Proof. intros Hc (T&E&D). split; [by apply evolve_records|by left]. Qed.
Lemma records_step es w {A} (m : HM A) :
  allConsistent w → keepsRecords noClaims m → recordsStep es w (m w).1 ∧ treeStep es w (m w).1.
Proof.
  intros Hc Hm. apply evolved_step; [done|]. destruct (Hm w) as [_ E]; [by apply consistent_filed|].
  by eapply evolved_mono; [|exact E].
Qed.
Lemma still_step' es w {A} (m : HM A) :
  allConsistent w → preserves still m → recordsStep es w (m w).1 ∧ treeStep es w (m w).1.
Proof. intros Hc Hm. apply evolved_step; [done|]. apply still_evolved, Hm. Qed.
Lemma applies_step es token w w' :
  allConsistent w → approves es token → (∀ sid id key, noClaims sid id key → stepClaims es w sid id key) →
  applies K token w w' → recordsStep es w w' ∧ treeStep es w w'.
Proof.
  intros Hc Ha Hn (E&D&Ht). split.
  - apply evolve_records; [done| |done]. intros sid. eapply filesEvolve_mono; [apply Hn|apply E].
  - destruct Ht as [|(sid&d&op&c&n&H)]; [by left|right; right; right]. by exists token, sid, d, op, c, n.
Qed.
Lemma wstep_run es w :
  (∀ id, preserves spares (we_share es.1 id)) → distinctDraws (ou_rand (outOf w)) → allConsistent w →
  recordsStep es w (wstep es w) ∧ treeStep es w (wstep es w).
Proof.
  destruct es as [e s]. cbn [fst]. intros Hsh Hd Hc. pose proof (consistent_filed _ Hc) as Hf.
  destruct s as [s req hook|req|req|at_|req|req|req|f|id|req|req [] |req|req|req|sprint p r reason|n|f|id|id surface|s|t].
  - destruct (stage_records e s req hook w Hd Hc) as [H T]. split; [done|by left].
  - by apply still_step'; [|apply Plan_still].
  - by apply records_step; [|apply Status_keeps].
  - by apply records_step; [|apply Expire_keeps].
  - apply evolved_step; [done|]. exact (ClaimHostFSWrite_run req w Hf).
  - by apply records_step; [|apply Discard_keeps].
  - eapply (applies_step _ (ha_ClaimToken req)); [done|done|done|]. exact (ApplyHostFSWrite_run K req w Hf).
  - by apply records_step; [|apply ListDecisions_keeps].
  - by apply records_step; [|apply InspectDecision_keeps].
  - apply evolved_step; [done|]. exact (claimDecision_run (e_range (we_env e)) req w Hf).
  - destruct (approve_run K (e_fs (we_env e)) (e_range (we_env e)) (e_loadProfile (we_env e)) (we_share e) Hsh req w Hf)
      as [H|[[Ho D] (d&c&n&H)]]; [by eapply (applies_step _ (dr_ClaimToken req))|].
    split; [apply evolve_records; [done|intros sid; unfold wstep; cbn [fst snd]; by rewrite Ho|done]|].
    right; right; left. by exists req, d, c, n.
  - by apply records_step; [|apply deny_keeps].
  - by apply still_step'; [|apply Reopen_still].
  - by apply still_step'; [|apply RevokeDecision_still].
  - by apply records_step; [|apply releaseClaim_keeps].
  - by apply still_step'; [|apply invalidate_still].
  - by apply still_step'; [|apply CreateNotice_still].
  - by apply still_step'; [|apply ListNotices_still].
  - by apply still_step'; [|apply InspectNotice_still].
  - by apply still_step'; [|apply ackNotice_still].
  - apply evolved_step; [done|]. apply still_evolved. split_and!; [done|done|]. apply readStep_drawn.
  - split; [|right; left; by exists t]. by apply evolve_records.
Qed.

(** ** Histories from the start *)

Definition stagedIn (hist : list (WEnv * WStep)) (sid : string) (op : Operation) : Prop :=
  ∃ pre es post, hist = pre ++ es :: post ∧ stages es sid op.
Definition claimedIn (hist : list (WEnv * WStep)) (w0 : HostWorld) (sid id : string) (key : string * Time) : Prop :=
  ∃ pre es post, hist = pre ++ es :: post ∧ stepClaims es (wrun pre w0) sid id key.
(** A share may write its artifact anywhere in the tree, and leaves the records of
    the overlays alone. *)
Definition sharesSpare (hist : list (WEnv * WStep)) : Prop :=
  Forall (λ es, ∀ id, preserves spares (we_share es.1 id)) hist.
Record historyFacts (hist : list (WEnv * WStep)) (w0 w : HostWorld) : Prop := mkFacts {
  hf_draws : ou_rand (outOf w) = ou_rand (outOf w0);
  hf_consistent : allConsistent w;
  hf_ops : ∀ sid k op, of_operations (overlayOf w sid) !! k = Some op → stagedIn hist sid op;
  hf_claims : ∀ sid k d c, of_decisions (overlayOf w sid) !! k = Some d → wd_Claim d = Some c →
    claimedIn hist w0 sid (wd_DecisionID d) (claimKey c) }.
Lemma wrun_facts hist w0 :
  hw_overlays w0 = ∅ → distinctDraws (ou_rand (outOf w0)) → sharesSpare hist → historyFacts hist w0 (wrun hist w0).
Proof.
  intros H0 Hd Hs. assert (∀ sid, overlayOf w0 sid = emptyOverlay) as He
    by (intros sid; unfold overlayOf; by rewrite H0, lookup_empty).
  induction hist as [|es hist IH] using rev_ind.
  { split; [done|intros sid; rewrite He; apply consistent_empty|..]; intros sid k x; rewrite He; cbn; by rewrite lookup_empty. }
  apply Forall_app in Hs as [Hs1 Hs2]. apply Forall_cons in Hs2 as [Hs2 _]. destruct (IH Hs1) as [A B Ops Cls]. clear IH.
  unfold wrun. rewrite foldl_app. cbn [foldl]. fold (wrun hist w0). set (w := wrun hist w0) in *.
  destruct (wstep_run es w Hs2) as [[D B' Ops' Cls'] _]; [by rewrite A|done|]. split; [|done| |].
  - destruct (drawn_outside _ _ D) as (_&_&R&_). by rewrite R.
  - intros sid k op' [(op&Hop&E)|Hst]%Ops'.
    + destruct (Ops sid k op Hop) as (pre&es'&post&->&s&req&hook&q&op0&?&?&?&?&E0).
      exists pre, es', (post ++ [es]). split; [by rewrite <-(assoc_L (++))|]. exists s, req, hook, q, op0. by rewrite <-E.
    + by exists hist, es, [].
  - intros sid k d' c Hd' Hc. destruct (Cls' sid k d' c Hd' Hc) as [(d&c0&H&Eid&Hc0&Ek)|Hst].
    + destruct (Cls sid k d c0 H Hc0) as (pre&es'&post&Eh&Hcl). exists pre, es', (post ++ [es]).
      split; [by rewrite Eh, <-(assoc_L (++))|]. by rewrite <-Eid, <-Ek.
    + by exists hist, es, [].
Qed.
End histories.

(** ** What the policy permitted *)

(** The policy allows [op] on the path or on what it leads to; it does not deny
    it on the path, which is neither reserved nor a symbolic link. *)
Definition writePermitted (fs : FileSystem) (p : EffectivePolicy) (op path : string) : Prop :=
  pathInReservedRoots path (p_ReservedRoots p) = false ∧ fd_Effect (Decide (fs_Host fs) p op path) ≠ "deny" ∧
  (∀ i, fs_Lstat fs path = Ok i → isSymlink i = false) ∧
  ∃ target, (target = path ∨ h_EvalSymlinks (fs_Host fs) path = Ok target) ∧
    fd_Allowed (Decide (fs_Host fs) p op target) = true.
Definition permittedIn (hist : list (WEnv * WStep)) (sid : string) (op : Operation) : Prop :=
  ∃ pre e s req hook post, hist = pre ++ (e, WStage s req hook) :: post ∧ oc_SessionID (s_Context s) = sid ∧
    op_Operation op = opOperation (wr_Op req) ∧
    writePermitted (e_fs (we_env e)) (s_Policy s) (wr_Op req) (op_RequestedPath op) ∧
    (op_DestinationPath op ≠ "" → writePermitted (e_fs (we_env e)) (s_Policy s) (wr_Op req) (op_DestinationPath op)).
Lemma writePath_permitted fs p op path d :
  authorizeWritePath fs p op path = Ok d → writePermitted fs p op (Clean path).
Proof.
  intros (clean&target&Hc&Hr&He&Hl&Ht&->&Ha)%authorizeWritePath_ok. apply cleanHostPath_Clean in Hc as <-.
  split_and!; [done..|]. by exists target.
Qed.
Lemma staged_permitted hist sid op : stagedIn hist sid op → permittedIn hist sid op.
Proof.
  intros (pre&[e st]&post&->&s&req&hook&q&op0&Hs&Hsid&Hq&Hst&Hcore). cbn in Hs, Hq. subst st.
  exists pre, e, s, req, hook, post. destruct (opCore_eq _ _ Hcore) as (_&<-&<-&<-&_). split; [done|]. split; [done|].
  unfold authorizeStage in Hq. destruct (s_Overlay s); [|by destruct (visibleDomain _)].
  destruct (authorizeWritePath (e_fs (we_env e)) (s_Policy s) (wr_Op req) (wr_Path req)) as [d|] eqn:Hw; [|done]. cbn in Hq.
  destruct Hst as (q'&?&?&?&?&?&?&?&Hclean&_&->). cbn. unfold cleanRequest in Hclean. apply guard_then in Hclean as [_ Hclean].
  destruct (String.eqb_spec (wr_DestinationPath req) "") as [E|Hne].
  - injection Hq as <-. cbn in Hclean |- *. rewrite E in Hclean. injection Hclean as <-. cbn.
    split_and!; [done|by eapply writePath_permitted|by rewrite E].
  - destruct (authorizeWritePath _ _ _ (wr_DestinationPath req)) as [d'|] eqn:Hw'; [|done]. injection Hq as <-. cbn in Hclean |- *.
    rewrite (proj2 (String.eqb_neq _ _) Hne) in Hclean. apply guard_then in Hclean as [_ Hclean]. injection Hclean as <-. cbn.
    split_and!; [done|by eapply writePath_permitted|intros _; by eapply writePath_permitted].
Qed.

(** C3: A change of the host that is not the host's own is an approval.  In any history, from a start
    without staged writes and with random draws that never repeat, of sessions staging writes,
    operators planning, claiming, applying, discarding, releasing and reading, of expiry and of the
    host's own changes, a step that changes the host's tree approves a share of evidence or a staged
    write, with the token of a claim of that decision that has not expired.  For a staged write
    moreover an earlier step handed that claim out; the decision is claimed and shows exactly the
    operation it decides on; a session staged that operation when the policy permitted it on both its
    paths; the path still is as it was then; every place that changes is one the operation works on;
    and the content is the one whose hash the record holds.  (The export that makes a share may write
    anywhere but into the records of the overlays.) *)
Theorem host_write_needs_approval (K : Kernel) {TS : TimeSort} hist es w0 :
  let w := wrun K hist w0 in
  hw_overlays w0 = ∅ → distinctDraws (st_rand (w_store (hw_world w0))) → sharesSpare (hist ++ [es]) →
  (∀ t, es.2 ≠ WHost t) → hw_tree (wstep K es w) ≠ hw_tree w →
  sharesEvidence es w ∨
  ∃ token sid d op c n,
    approves es token ∧ claimedIn K hist w0 sid (wd_DecisionID d) (claimKey c) ∧
    appliedWith K token w (hw_tree (wstep K es w)) sid d op c n ∧ describes d op ∧
    permittedIn hist sid op ∧ faithful (overlayOf w sid) op.
Proof.
  intros w H0 Hd Hs Hhost Hk. apply Forall_app in Hs as [Hs1 Hs2]. apply Forall_cons in Hs2 as [Hs2 _].
  destruct (wrun_facts K hist w0 H0 Hd Hs1) as [A Hc Hops Hcl]. fold w in A, Hc, Hops, Hcl.
  destruct (wstep_run K es w Hs2) as [_ [T|[[t Ht]|[Hsh|(token&sid&d&op&c&n&Ha&Hw)]]]];
    [by rewrite A|done..|by destruct (Hhost t)|by left|right].
  exists token, sid, d, op, c, n. pose proof Hw as [Hdec Hop _ Hclaim _ _ _ _].
  destruct (co_op _ _ (Hc sid) _ _ Hop) as (_&_&Hfa). destruct (co_dec _ _ (Hc sid) _ _ Hdec) as (_&_&Hde).
  split_and!; [done|by eapply Hcl|done|by apply Hde|by eapply staged_permitted, Hops|done].
Qed.

Module WriteSample.
Import HostFSSpec.Sample ServiceSample OverlaySample.
Definition fs : FileSystem := files false.
Definition edit (path : string) : Rule := ruleOf path [OpAppend] true ScopeRecursiveDir "work".
Definition policy : EffectivePolicy := built (fs_Host fs) [edit "/home/u/work"] [].
Definition session : Service :=
  mkService policy 0 0 (Some (HostFSService.mkOverlay (λ _, Ok None) (λ _, Ok []))) None
    (mkOverlayContext "ses_1" "p" "vm" noPrivilege) true now.
Definition append : WriteRequest := mkWriteRequest OpAppend OverlaySample.path "" [33] 0 0 "" None None.
Definition root : string := "/home/u/.hideout".
Definition w0 : HostWorld :=
  mkHostWorld (mkWorld (mkStore root ∅ ∅ clock 0 (λ _, true) 0 draws 0) ∅ (λ _, (true, FlockBlocked)) 0 [] false [])
    ∅ OverlaySample.tree [].
Definition env : WEnv := mkWEnv ReadSample.env (λ _, mret []).
Definition opening : list (WEnv * WStep) := [(env, WStage session append None)].
Definition decisionID : string :=
  default "" (wd_DecisionID ∘ snd <$> head (map_to_list (of_decisions (overlayOf (wrun kernel opening w0) "ses_1")))).
Definition claim : HostFSWriteClaimRequest := mkWriteClaimRequest decisionID PlanVersion "tui" 0 0 false.
Definition history : list (WEnv * WStep) := opening ++ [(env, WClaim claim)].
Definition token : string :=
  match (ClaimHostFSWrite claim (wrun kernel opening w0)).2 with Ok c => wcr_ClaimToken c | Err _ => "" end.
Definition approval : WEnv * WStep := (env, WApply (mkApplyRequest decisionID token PlanVersion)).
End WriteSample.

#[local] Existing Instance OverlaySample.mergeSort.
Lemma host_write_needs_approval_witness :
  ∃ sid d op c n,
    appliedWith OverlaySample.kernel WriteSample.token (wrun OverlaySample.kernel WriteSample.history WriteSample.w0)
      (hw_tree (wstep OverlaySample.kernel WriteSample.approval
        (wrun OverlaySample.kernel WriteSample.history WriteSample.w0))) sid d op c n.
Proof.
  destruct (host_write_needs_approval OverlaySample.kernel WriteSample.history WriteSample.approval WriteSample.w0)
    as [(req&d&c&n&H&_)|(token&sid&d&op&c&n&Ha&_&Hw&_)].
  - reflexivity.
  - exact OverlaySample.draws_distinct.
  - repeat constructor; intros id w; reflexivity.
  - intros t H. discriminate H.
  - intros H. apply (f_equal (lookup OverlaySample.path)) in H. vm_compute in H. discriminate H.
  - discriminate H.
  - change (token = WriteSample.token) in Ha. subst token. exists sid, d, op, c, n. exact Hw.
Defined.
