(* ===== verification/HostFSReadInvariant.v ===== *)
(** * Read grants stay loadable, and handed-over resources stay current

    The manifest an approval writes passes the checks of the next load; a
    resource goes to a host application only while the profile's present rules
    still give it; and a request whose decision was never created is stuck. *)
From Stdlib Require Import Ascii.
From S2P Require Import Prelude StateRules GoStrings GoTime GoHash GoRunes GoPath Redact Decision.
From S2P Require Import DecisionStore DecisionSpec GoGlob HostPathRisk HostFS HostFSSpec.
From S2P Require Import HostFSService HostFSServiceSpec ReadGrant HostFSRead HostAppResource.
From S2P Require Import HostFSReadSpec.
Open Scope Z_scope.

(** ** Manifests *)

Lemma no_byte_app b s t : ContainsByte (s +:+ t) b = ContainsByte s b || ContainsByte t b.
Proof.
  unfold ContainsByte, str_exists. rewrite str_forall_app. by destruct (str_forall _ s), (str_forall _ t).
Qed.
(** The text behind the last separator. *)
Lemma split_last b s1 s2 t1 t2 :
  ContainsByte t1 b = false → ContainsByte t2 b = false → s1 +:+ String b t1 = s2 +:+ String b t2 → t1 = t2.
Proof.
  intros H1 H2. assert (∀ t, ContainsByte (String b t) b = true) as Hb.
  { intros t. unfold ContainsByte, str_exists. cbn. by rewrite Ascii.eqb_refl. }
  revert s2. induction s1 as [|a s1 IH]; intros [|a2 s2]; cbn; intros E; injection E.
  - done.
  - intros -> ->. exfalso. rewrite no_byte_app, Hb, orb_true_r in H1. done.
  - intros E' ->. exfalso. rewrite <-E', no_byte_app, Hb, orb_true_r in H2. done.
  - intros E' ->. by apply (IH s2).
Qed.

(** The grants of a session's manifest: each names the decision of its file. *)
Definition ownDecision (sid : string) (g : ReadGrant) : Prop :=
  gr_DecisionID g = decisionIDFor (hostFSReadKey sid (gr_CanonicalPath g)) ∧
  ContainsByte (gr_CanonicalPath g) zero = false.

Lemma authorityKey_canonical sid g1 g2 :
  ownDecision sid g1 → ownDecision sid g2 → authorityKey g1 = authorityKey g2 → gr_DecisionID g1 = gr_DecisionID g2.
Proof.
  intros [D1 N1] [D2 N2] E. rewrite D1, D2. unfold authorityKey in E. do 2 f_equal.
  apply (split_last zero (gr_Operation g1 +:+ String zero (gr_RequestedPath g1))
    (gr_Operation g2 +:+ String zero (gr_RequestedPath g2))); [done..|].
  rewrite !str_app_assoc. exact E.
Qed.

Lemma decisionID_prefix key : HasPrefix (decisionIDFor key) "dec_hfr_" = true.
Proof. unfold decisionIDFor. apply HasPrefix_app. Qed.
Lemma decisionID_long x : String.eqb (decisionIDFor (hexSum256 x)) "dec_hfr_" = false.
Proof.
  apply String.eqb_neq. unfold decisionIDFor. pose proof (hash_not_blank x) as H. unfold HashClaimToken in H.
  destruct (hexSum256 x) as [|a s]; [done|]. cbn. intros E. discriminate E.
Qed.

(** A grant for a checked record is valid. *)
Lemma grantFor_valid sid key record revision now :
  validateRequest key record = Ok tt → rq_DecisionID record = decisionIDFor (hostFSReadKey sid (rq_CanonicalPath record)) →
  1 ≤ revision → 0 < unixNano now → Grant_Validate (grantFor record revision now) = Ok tt.
Proof.
  unfold validateRequest. intros ([]&H1%ensure_ok&H)%result_bind_ok. apply result_bind_ok in H as ([]&H2&H).
  apply result_bind_ok in H as ([]&H3&H). apply result_bind_ok in H as ([]&_&H).
  apply result_bind_ok in H as ([]&H4%ensure_ok&_). intros Hid Hrev Hnow.
  rewrite negb_true_iff, !orb_false_iff in H1. destruct H1 as [[[[_ H1] _] _] _].
  unfold Grant_Validate, grantFor. cbn [gr_DecisionID gr_Revision gr_Operation gr_RequestedPath gr_CanonicalPath
    gr_VisibilityRuleID gr_VisibilitySource gr_IssuedAt gr_ExpiresAt].
  rewrite Hid, decisionID_prefix. unfold hostFSReadKey at 1. rewrite decisionID_long. rewrite H2, H3, H1, H4.
  assert ((revision <? 1) = false) as -> by lia. cbn -[Z.leb Sub].
  unfold IsZero, After, Sub, AddDur, hostFSReadGrantLifetime, MaxGrantLifetime. cbn -[Hour].
  assert ((unixNano now =? 0) = false) as -> by lia.
  assert ((unixNano now + 24 * Hour =? 0) = false) as -> by (unfold Hour, Minute, Second, Millisecond in *; lia).
  assert ((unixNano now <? unixNano now + 24 * Hour) = true) as -> by (unfold Hour, Minute, Second, Millisecond in *; lia).
  replace (unixNano now + 24 * Hour - unixNano now) with (24 * Hour) by lia. vm_compute. reflexivity.
Qed.

(** What is true of a session's manifest between operations. *)
Definition goodManifest (sid : string) (m : Manifest) : Prop :=
  Manifest_Validate m sid = Ok tt ∧ Forall (ownDecision sid) (mf_Grants m).

Lemma manifest_ok sid m :
  Manifest_Validate m sid = Ok tt ↔
  mf_Version m = GrantVersion ∧ mf_SessionID m = sid ∧ ValidID sid = true ∧ mf_Generation m ≠ 0 ∧
  IsZero (mf_UpdatedAt m) = false ∧ validateGrants [] (mf_Grants m) = Ok tt.
Proof.
  unfold Manifest_Validate, ensure. rewrite !guard_then. rewrite String.eqb_eq, andb_true_iff, String.eqb_eq,
    !negb_true_iff, Z.eqb_neq. naive_solver.
Qed.

(** The manifest an approval writes passes the checks of the next load: over
    a manifest that passes them, with the checked record of a request whose
    decision is the one of its file, the new manifest is valid, again names the
    decision of each file, holds the new grant for 24 hours from now, and keeps
    every other grant that has not expired. *)
Theorem approved_manifest_loads sid previous had key record revision now :
  ValidID sid = true → (had = true → goodManifest sid previous ∧ 0 ≤ mf_Generation previous < two64 - 1) →
  validateRequest key record = Ok tt → rq_DecisionID record = decisionIDFor (hostFSReadKey sid (rq_CanonicalPath record)) →
  ContainsByte (rq_CanonicalPath record) zero = false → 1 ≤ revision → 0 < unixNano now →
  let m := nextHostFSReadManifest previous had sid record revision now in
  goodManifest sid m ∧ grantFor record revision now ∈ mf_Grants m ∧
  (∀ g, had = true → g ∈ mf_Grants previous → Before now (gr_ExpiresAt g) = true →
     gr_DecisionID g ≠ rq_DecisionID record → g ∈ mf_Grants m).
Proof.
  intros Hsid Hprev Hrec Hid Hnul Hrev Hnow. set (new := grantFor record revision now).
  assert (ownDecision sid new) as Hown by done.
  cbn zeta. unfold nextHostFSReadManifest.
  set (gs := if had then List.filter _ (mf_Grants previous) else []).
  assert (∀ g, g ∈ gs → had = true ∧ g ∈ mf_Grants previous ∧ gr_DecisionID g ≠ rq_DecisionID record) as Hgs.
  { intros g. unfold gs. destruct had; [|by intros ?%elem_of_nil].
    rewrite list_elem_of_In, filter_In, andb_true_iff, negb_true_iff, String.eqb_neq, list_elem_of_In. tauto. }
  assert (Forall (λ g, Grant_Validate g = Ok tt ∧ ownDecision sid g) gs ∧ NoDup (authorityKey <$> gs)) as [Hf Hnd].
  { unfold gs. destruct had; [|by split; constructor]. destruct (Hprev eq_refl) as [[Hv Ho] _].
    apply manifest_ok in Hv as (_&_&_&_&_&(Hf&Hn&_)%validateGrants_spec). split.
    - rewrite Forall_forall in *. intros g [Hg _]%list_elem_of_In%filter_In. apply list_elem_of_In in Hg. auto.
    - eapply sublist_NoDup; [exact Hn|]. apply fmap_sublist. clear. induction (mf_Grants previous) as [|g l IH]; [done|].
      cbn. case_match; by constructor. }
  split_and!.
  - split.
    + apply manifest_ok. cbn. split_and!; [done..| | |].
      * destruct had; [|done]. destruct (Hprev eq_refl) as [_ ?]. unfold two64 in *. rewrite Z.mod_small; lia.
      * unfold IsZero. lia.
      * apply validateGrants_spec. split_and!; [| |by intros ? _ ?%elem_of_nil].
        -- apply Forall_app. split; [eapply Forall_impl; [exact Hf|by intros g []]|].
           constructor; [by eapply grantFor_valid|done].
        -- rewrite fmap_app. apply NoDup_app. split_and!; [done| |apply NoDup_singleton].
           intros k (g&->&Hg)%list_elem_of_fmap Hk%list_elem_of_singleton. apply Hgs in Hg as Hg'.
           rewrite Forall_forall in Hf. destruct (Hf g Hg) as [_ Hog], Hg' as (_&_&Hne). apply Hne.
           by apply (authorityKey_canonical sid g new).
    + cbn. apply Forall_app. split; [eapply Forall_impl; [exact Hf|by intros g []]|by constructor].
  - cbn. apply elem_of_app. right. by apply list_elem_of_singleton.
  - intros g Hhad Hg Hb Hne. cbn. apply elem_of_app. left. unfold gs. rewrite Hhad.
    apply list_elem_of_In, filter_In. split; [by apply list_elem_of_In|]. rewrite Hb. apply String.eqb_neq in Hne. by rewrite Hne.
Qed.

(** ** Handing a resource over *)

Section handover.
Context (fs : FileSystem) (loadProfile : string → result ManagerError Config).

(** The policy of a session with the profile's present rules. *)
Definition currentPolicy (p : Provider) (config : Config) (root : string) (now : Time) : option EffectivePolicy :=
  match Build (fs_Host fs) now (mkBuildInput config (mkConfig [] []) (mkConfig [] []) now root "") with
  | Ok built => Some (hostAppPolicyWithCurrentProfile ((hp_policy p) <| p_Now := now |>)
                        ((s_Policy (NewService fs built now)) <| p_Now := now |>))
  | Err _ => None
  end.

Lemma validate_ok p check w w' :
  ValidateHostAppResource fs loadProfile p check w = (w', Ok (Ok tt)) →
  ow_SessionID (hc_Owner check) = hp_sessionID p ∧
  (∃ k, ProbeOwner (w_owner w k).1 (w_owner w k).2 = SessionLive) ∧
  ∃ config n current, loadProfile (ow_Profile (hc_Owner check)) = Ok config ∧
    currentPolicy p config (st_root (w_store w)) (UTC (st_clock (w_store w) n)) = Some current ∧
    (hc_DynamicRead check = false → hostAppResourceDecisionsCurrent fs current check = true) ∧
    (hc_DynamicRead check = true → hostAppDynamicVisibilityCurrent fs current check = true) ∧
    (hc_ResourceType check = HostAppResourceTree → AuthorizesHostAppTree fs current (hc_CanonicalPath check) = true).
Proof.
  unfold ValidateHostAppResource. destruct (_ || _) eqn:Ho; [done|].
  apply orb_false_iff in Ho as [Ho%negb_false_iff%String.eqb_eq _].
  intros (w1&live&Hp%attempt_ok&H)%bind_ok. pose proof (quiet_run quiet _ _ _ _ probeOwner_quiet Hp) as Q1.
  destruct live as [[]|]; [|done]. destruct (loadProfile _) as [config|] eqn:Hl; [|done].
  apply bind_ok in H as (w2&now&Hn&H). pose proof (quiet_run quiet _ _ _ _ mnow_quiet Hn) as Q2.
  injection Hn as _ <-. apply bind_ok in H as (w3&w3'&[= <- <-]&H).
  destruct (Build _ _ _) as [built|] eqn:Hb; [|done]. injection H as _ H.
  assert (quiet w w2) as (_&_&_&R2&_) by by etrans. destruct Q1 as (_&_&_&_&C1&_).
  split_and!; [done| |].
  - exists (w_probes w). unfold probeOwner in Hp. destruct (w_owner w (w_probes w)) as [opened flock]. cbn in *.
    by destruct (ProbeOwner opened flock).
  - exists config, (st_reads (w_store w1)). unfold currentPolicy. rewrite <-C1, <-R2, Hb. eexists.
    destruct (negb (hc_DynamicRead check) && _) eqn:E1 in H; [discriminate H|].
    destruct (hc_DynamicRead check && _) eqn:E2 in H; [discriminate H|]. destruct (negb _) in H; [discriminate H|].
    destruct (_ && _) eqn:E4 in H; [discriminate H|]. split_and!; [done|done|intros Hd|intros Hd|intros Ht].
    + rewrite Hd in E1. by apply negb_false_iff in E1.
    + rewrite Hd in E2. by apply negb_false_iff in E2.
    + rewrite Ht in E4. by apply negb_false_iff in E4.
Qed.

Lemma resolve_validated s owner path revalidation r authority validator :
  s_ReadAuthority s = Some authority → ra_ValidateHostAppResource authority = Some validator →
  resolveHostAppResource fs s owner path revalidation = Ok r →
  ∃ check u, validator check = Ok u ∧ hc_Owner check = owner ∧ hc_RequestedPath check = hr_requestedPath r ∧
    hc_CanonicalPath check = hr_canonicalPath r ∧ hc_ResourceType check = hr_resourceType r ∧
    hc_Operation check = hr_operation r ∧
    (hc_DynamicRead check = false → fd_Allowed (hc_CanonicalDecision check) = true) ∧
    (hc_DynamicRead check = true → hr_resourceType r = HostAppResourceFile ∧ hr_operation r = OpRead ∧
       dynamicRead fs authority (presentPolicy s) (hr_requestedPath r) (hr_canonicalPath r) = Ok tt).
Proof.
  intros Ha Hv. unfold resolveHostAppResource. rewrite Ha, Hv. destruct (_ || _); [done|].
  destruct (cleanHostPath path) as [clean|]; [|done]. destruct (pathInReservedRoots _ _); [done|].
  destruct (h_EvalSymlinks (fs_Host fs) clean) as [resolved|]; [|done]. destruct (pathInReservedRoots _ _); [done|].
  destruct (fs_Stat fs (Clean resolved)) as [info|]; [|done]. destruct (_ && _); [done|].
  destruct (_ || _); [done|]. intros ([]&Hg&H)%result_bind_ok.
  destruct (validator _) as [u|[]] eqn:E; [|done..]. injection H as <-. eexists _, u. split; [exact E|]. cbn.
  split_and!; [done..| |].
  - intros Hd%negb_false_iff. by destruct (String.eqb_spec (Clean resolved) clean) as [->|].
  - intros Hd%negb_true_iff. rewrite Hd in Hg. destruct (isDir info); [done|]. by destruct (dynamicRead _ _ _ _ _) as [[]|].
Qed.
Lemma decisions_current policy check :
  hostAppResourceDecisionsCurrent fs policy check = true → fd_Allowed (hc_CanonicalDecision check) = true →
  fd_Allowed (Decide (fs_Host fs) policy (hc_Operation check) (hc_CanonicalPath check)) = true.
Proof.
  unfold hostAppResourceDecisionsCurrent. destruct (_ || _); [done|]. intros [_ H]%andb_true_iff Hall. revert H.
  unfold hostAppDecisionEquivalent. rewrite Hall. by destruct (fd_Allowed (Decide _ _ _ _)).
Qed.
End handover.

(** The answer of the approval chain to a read for a host application. *)
Lemma authority_read fs loadProfile p profile w policy clean canonical :
  dynamicRead fs (authorityOf fs loadProfile p profile w) policy clean canonical = Ok tt →
  ∃ g d n, allowedBy fs p (mkReadGrantCheck clean canonical (Visibility (fs_Host fs) policy clean)) w g d n.
Proof.
  intros (_&_&H)%dynamicRead_ok. cbn in H. unfold AllowsHostAppResourceRead, mbind, SE_bind, attempt in H.
  destruct (AllowsRead fs p _ w) as [w1 [b|e]] eqn:E; cbn in H.
  - injection H as ->. by eapply AllowsRead_ok.
  - by destruct (probeOwner w1) as [w2 [[]|]].
Qed.

(** C17: A file or a tree is handed to a host application only for the session's
    own, living run and its own profile, and only while the profile's rules as
    they are now give it: the session's policy with the profile's present rules
    allows the operation on the resolved path, or, for a file, an approved read
    grant of the session for exactly these two names is in force, whose decision
    still stands, and the present rules still show the file and do not deny
    reading it; a tree is still authorised as a whole. *)
Theorem handover_is_current fs loadProfile s p profile w owner path revalidation r :
  s_ReadAuthority s = Some (authorityOf fs loadProfile p profile w) →
  resolveHostAppResource fs s owner path revalidation = Ok r →
  ow_SessionID owner = hp_sessionID p ∧ ow_Profile owner = TrimSpace profile ∧
  (∃ k, ProbeOwner (w_owner w k).1 (w_owner w k).2 = SessionLive) ∧
  ∃ config n current, loadProfile (ow_Profile owner) = Ok config ∧
    currentPolicy fs p config (st_root (w_store w)) (UTC (st_clock (w_store w) n)) = Some current ∧
    (fd_Allowed (Decide (fs_Host fs) current (hr_operation r) (hr_canonicalPath r)) = true ∨
     hr_resourceType r = HostAppResourceFile ∧ hr_operation r = OpRead ∧
     (∃ g d k, allowedBy fs p (mkReadGrantCheck (hr_requestedPath r) (hr_canonicalPath r)
        (Visibility (fs_Host fs) (presentPolicy s) (hr_requestedPath r))) w g d k) ∧
     bothVisible fs current (hr_requestedPath r) (hr_canonicalPath r) = true ∧
     readDenied fs current (hr_requestedPath r) (hr_canonicalPath r) = false) ∧
    (hr_resourceType r = HostAppResourceTree → AuthorizesHostAppTree fs current (hr_canonicalPath r) = true).
Proof.
  intros Ha Hr. destruct (resolve_validated fs s owner path revalidation r _ _ Ha eq_refl Hr)
    as (check&u&Hv&<-&Hreq&Hcan&Htype&Hop&Hdirect&Hdynamic).
  cbn in Hv. unfold ValidateRunHostAppResource in Hv. destruct (_ || _) eqn:Ho in Hv; [done|].
  apply orb_false_iff in Ho as [_ Ho%negb_false_iff%String.eqb_eq]. destruct u.
  destruct (ValidateHostAppResource fs loadProfile p check w) as [w' [res|]] eqn:E; cbn in Hv; [|done]. subst res.
  apply validate_ok in E as (Hsid&Hlive&config&n&current&Hl&Hcur&Hd&Hdyn&Ht).
  rewrite <-Hreq, <-Hcan, <-Htype, <-Hop in Hdynamic |- *.
  split_and!; [done..|]. exists config, n, current. split_and!; [done|done| |done].
  destruct (hc_DynamicRead check).
  - right. destruct (Hdynamic eq_refl) as (?&?&Hdr). apply authority_read in Hdr.
    specialize (Hdyn eq_refl). by apply andb_true_iff in Hdyn as [? ?%negb_true_iff].
  - left. apply decisions_current; auto.
Qed.

(** ** A request whose decision was never created *)

(** The session's records name a decision that is not in the store. *)
Definition orphaned (sid key : string) (w : World) : Prop :=
  ∃ state record, stateOf sid w = Some state ∧ ps_Requests state !! key = Some record ∧
    st_decisions (w_store w) !! decisionPath (st_root (w_store w)) (TrimSpace (rq_DecisionID record)) = None.
Lemma orphaned_quiet sid key w w' : quiet w w' → orphaned sid key w → orphaned sid key w'.
Proof. intros (_&S&D&R&_) (state&record&?&?&?). exists state, record. by rewrite S, D, R. Qed.

Lemma onStore_quiet {A} (m : DM A) :
  (∀ v, wp m v (λ v' _, v_decisions v' = v_decisions v ∧ v_root v' = v_root v ∧ v_clock v' = v_clock v)) →
  preserves quiet (onStore m).
Proof.
  intros H w. unfold onStore. specialize (H _ (w_store w) eq_refl). destruct (m (w_store w)) as [s r].
  destruct H as (H1&H2&H3). by split_and!.
Qed.
Lemma rawDecision_quiet id : preserves quiet (onStore (RawDecision id)).
Proof. apply onStore_quiet. intros v. by apply wp_decisionLocked; intros. Qed.
Lemma rawDecision_missing id w :
  st_decisions (w_store w) !! decisionPath (st_root (w_store w)) (TrimSpace id) = None →
  ∃ e, (onStore (RawDecision id) w).2 = Err e.
Proof.
  intros Hn. destruct (onStore (RawDecision id) w) as [w' [d|e]] eqn:E; [|by exists e].
  apply rawDecision_ok in E. congruence.
Qed.


(** Proposing the file again fails and changes nothing of this. *)
Lemma orphaned_body p proposal grant reason now w :
  orphaned (hp_sessionID p) (hostFSReadKey (hp_sessionID p) (pp_CanonicalPath proposal)) w →
  mwp (proposeLocked p proposal grant reason now) w (λ w' r, quiet w w' ∧ ∃ e, r = Err e).
Proof.
  intros (state&record&Hs&Hr&Hd). unfold proposeLocked. apply (mwp_bind_by quiet); [apply LoadState_quiet|eauto|].
  intros w1 st Hl%LoadState_ok Q1. change (rs_session (providerStore p)) with (hp_sessionID p) in Hl.
  rewrite Hs in Hl. change (st = state) in Hl. subst st.
  change (ps_Requests state) with
    (ps_Requests (state <| ps_CreationTimes ::= λ l, compactHostFSReadCreationTimes l now |>)) in Hr. rewrite Hr.
  unfold repeatProposal. apply (mwp_bind_by quiet); [apply decisionStore_quiet|split; [by etrans|eauto]|].
  intros w2 _ _ Q2. assert (quiet w w2) as Q by by etrans. clear Q1 Q2. apply mwp_bind, mwp_attempt.
  pose proof Q as (_&_&D&R&_).
  rewrite <-D, <-R in Hd. apply rawDecision_missing in Hd as (e&He).
  unfold mwp at 1. rewrite He. split; [|eauto]. etrans; [exact Q|]. apply rawDecision_quiet.
Qed.
Lemma orphaned_proposal fs isPrint p proposal w :
  orphaned (hp_sessionID p) (hostFSReadKey (hp_sessionID p) (pp_CanonicalPath proposal)) w →
  mwp (ProposeHostFSRead fs isPrint p proposal) w (λ w' r,
    quiet w w' ∧ ∀ result, r = Ok result → po_Code result = HostFSErrorReadDenied).
Proof.
  intros Ho. unfold ProposeHostFSRead. apply mwp_bind, mwp_attempt.
  eapply (mwp_by quiet); [apply proposal_quiet|]. intros w1 r Q1. destruct r as [[grant reason]|e].
  2: { split; [done|]. by intros ? [= <-]. }
  apply mwp_bind. eapply (mwp_by quiet); [apply mnow_quiet|]. intros w2 r Q2.
  assert (quiet w w2) as Q by by etrans. clear Q1 Q2. destruct r as [now|e]; [|split; [done|by intros]].
  pose proof (orphaned_quiet _ _ _ _ Q Ho) as Ho2.
  destruct (withLock (providerStore p) (proposeLocked p proposal grant reason now) w2) as [w3 r] eqn:E.
  unfold mwp. rewrite E. cbn [fst snd]. split.
  - etrans; [exact Q|]. refine (mwp_run _ w2 (λ w' _, quiet w2 w') w3 r _ E). apply withLock_rule; [done|by etrans|].
    intros w4 Q4. etrans; [exact Q4|]. apply orphaned_body. by eapply orphaned_quiet.
  - intros result ->. apply withLock_ok in E as (w4&w5&Q4&E). exfalso.
    destruct (orphaned_body p proposal grant reason now w4) as [_ [e He]]; [by eapply orphaned_quiet|].
    by rewrite E in He.
Qed.

(** ** How it comes about *)

Lemma SaveState_run st s w w' r :
  SaveState st s w = (w', r) →
  st_decisions (w_store w') = st_decisions (w_store w) ∧ st_root (w_store w') = st_root (w_store w) ∧
  stateOf (rs_session st) w' = match r with Ok _ => Some s | Err _ => stateOf (rs_session st) w end.
Proof.
  unfold SaveState, mbind, SE_bind, ofGrant. destruct (State_Validate _ _); [|by intros [= <- <-]].
  cbn. unfold mio, onStore, io. destruct (st_io _ _); cbn; [|by intros [= <- <-]]. intros [= <- <-]. cbn.
  split_and!; [done..|]. unfold stateOf, filesOf. cbn. by rewrite lookup_insert_eq.
Qed.
(** The sessions' files and the place of the store stay. *)
Definition sameSessions (w w' : World) : Prop :=
  w_sessions w' = w_sessions w ∧ st_root (w_store w') = st_root (w_store w).
#[global] Instance sameSessions_pre : PreOrder sameSessions.
Proof. split; [done|]. intros w1 w2 w3 [A1 A2] [B1 B2]. split; congruence. Qed.
Lemma onStore_sessions {A} (m : DM A) : preserves sameWorld m → preserves sameSessions (onStore m).
Proof. intros H w. unfold onStore. specialize (H (w_store w)) as (H&_). by destruct (m (w_store w)) as [s r]. Qed.
Lemma CreateDecision_sessions d : preserves sameSessions (CreateDecision d).
Proof.
  unfold CreateDecision, emitDecisionAudit, emitOperatorCenterAudit, decisionStore, require, refuse, mio.
  keeps (first [by apply preserves_modify|apply onStore_sessions; first [exact (exec_world (DecisionSpec.OpCreate d))|apply io_world]]).
Qed.
(** The record was written, the decision was not: the record stays. *)
Lemma createRequest_orphans p state record now w w1 e :
  let key := rq_KeyDigest record in
  is_ok (SaveState (providerStore p)
    (putRequest key record now state <| ps_CreationTimes ::= λ l, (l ++ [now])%list |>) w).2 = true →
  createRequest p (providerStore p) state record now w = (w1, Err e) →
  st_decisions (w_store w1) !! decisionPath (st_root (w_store w1)) (TrimSpace (rq_DecisionID record)) = None →
  orphaned (hp_sessionID p) key w1.
Proof.
  cbv zeta. unfold createRequest. intros Hok H Hn.
  assert (∀ w4 state' record', stateOf (hp_sessionID p) w4 = Some state' →
    ps_Requests state' !! rq_KeyDigest record = Some record' → rq_DecisionID record' = rq_DecisionID record →
    stateOf (hp_sessionID p) w1 = stateOf (hp_sessionID p) w4 → orphaned (hp_sessionID p) (rq_KeyDigest record) w1) as Hdone.
  { intros w4 state' record' H1 H2 H3 H4. exists state', record'. by rewrite H4, H3. }
  apply bind_inv in H as [(w2&[]&E2&H)|(e2&E2&_)]; [|by rewrite E2 in Hok].
  apply SaveState_run in E2 as (_&_&S2). change (rs_session (providerStore p)) with (hp_sessionID p) in S2.
  apply bind_inv in H as [(w3&r&E3%attempt_ok&H)|(e3&E3&_)]; [|by unfold attempt in E3; destruct (CreateDecision _ w2)].
  apply (quiet_run sameSessions) in E3 as [S3 _]; [|apply CreateDecision_sessions].
  assert (stateOf (hp_sessionID p) w3 = stateOf (hp_sessionID p) w2) as Hst by (unfold stateOf, filesOf; by rewrite S3).
  rewrite S2 in Hst. destruct r as [d|e3]; apply bind_inv in H as [(w4&[]&E4&H)|(e4&E4&_)].
  - apply SaveState_run in E4 as (_&_&S4). apply (quiet_run sameSessions) in H as [S5 _];
      [|unfold lifecycleCall, mio; keeps (first [by apply preserves_modify|apply onStore_sessions, io_world])].
    eapply (Hdone w4); [exact S4|cbn; by rewrite lookup_insert_eq|done|unfold stateOf, filesOf; by rewrite S5].
  - apply SaveState_run in E4 as (_&_&S4). eapply (Hdone w3); [exact Hst|cbn; by rewrite lookup_insert_eq|done|exact S4].
  - injection H as <- _. unfold ignore_err in E4. destruct (SaveState _ _ w3) as [w5 r5] eqn:E5. injection E4 as <-.
    apply SaveState_run in E5 as (_&_&S5). destruct r5.
    + eapply (Hdone w5); [exact S5|cbn; by rewrite lookup_insert_eq|done|done].
    + eapply (Hdone w3); [exact Hst|cbn; by rewrite lookup_insert_eq|done|exact S5].
  - unfold ignore_err in E4. by destruct (SaveState _ _ w3).
Qed.

Module OrphanSample.
Import HostFSSpec.Sample ServiceSample ReadSample.
(** The session after its start, where the file operations from the second on
    fail: the one that stores the decision of the first proposal does. *)
Definition before : World :=
  (run [(env, StepProvider "ses_1" (sessionDir root "ses_1") policy)] w0)
    <| w_store ::= λ s, s <| st_ios := 0%nat |> <| st_io := λ n, negb (n =? 1)%nat |> |>.
Definition key : string := hostFSReadKey "ses_1" path.
Definition fresh : RequestRecord :=
  newRecord proposal key (default (mkGrant (see "/home/u/work") "profile" 0) (head (p_Grants policy))) "please" now.
Definition failed : World * result ManagerError HostFSReadProposalResult :=
  createRequest provider (providerStore provider) (emptyState "ses_1") fresh now before.
Definition broken : World := failed.1.

(** The two files of a session with a grant for one of its files. *)
Definition request (path : string) : RequestRecord :=
  let key := hostFSReadKey "ses_1" path in
  mkRecord key (decisionIDFor key) path path OperationRead "p" "vm" "profile-0" "profile" "/home/u/work"
    "recursive-dir" "" StateClaimed 2 0 zeroTime now (AddDur now hostFSReadDecisionTimeout).
Definition first : Manifest :=
  nextHostFSReadManifest (mkManifest "" "" 0 zeroTime []) false "ses_1" (request "/home/u/work/a") 3 now.
Lemma first_good : goodManifest "ses_1" first.
Proof. split; [vm_compute; reflexivity|]. repeat constructor; vm_compute; reflexivity. Qed.
(** A session whose profile grants the tree. *)
Definition treeProfiles : string → result ManagerError Config := λ _, Ok (mkConfig [tree "/home/u/work"] []).
Definition treeProvider : Provider :=
  mkProvider "ses_1" (canonicalizePolicy fs (built (fs_Host fs) [tree "/home/u/work"] [])).
Definition treeService : Service :=
  mkService (hp_policy treeProvider) 0 0 None (Some (authorityOf fs treeProfiles treeProvider "p" w0)) noContext true now.
End OrphanSample.

(** C38: One failed file operation can cost a session the approval of a file:
    when a first proposal has written its request record and its decision is
    then not stored, every later proposal of that file, as long as nothing else
    changes the session's records or the decisions, is refused with an error or a
    denial and itself leaves records, grants and decisions as they are. *)
Theorem failed_creation_blocks_file fs isPrint p proposal state record now w w1 e :
  rq_KeyDigest record = hostFSReadKey (hp_sessionID p) (pp_CanonicalPath proposal) →
  is_ok (SaveState (providerStore p) (putRequest (rq_KeyDigest record) record now state
    <| ps_CreationTimes ::= λ l, (l ++ [now])%list |>) w).2 = true →
  createRequest p (providerStore p) state record now w = (w1, Err e) →
  st_decisions (w_store w1) !! decisionPath (st_root (w_store w1)) (TrimSpace (rq_DecisionID record)) = None →
  ∀ w2 w3 r, quiet w1 w2 → ProposeHostFSRead fs isPrint p proposal w2 = (w3, r) →
    quiet w2 w3 ∧ ∀ result, r = Ok result → po_Code result = HostFSErrorReadDenied.
Proof.
  intros Hk Hs Hc Hn w2 w3 r Q E. pose proof (createRequest_orphans p state record now w w1 e Hs Hc Hn) as Ho.
  rewrite Hk in Ho. apply (orphaned_quiet _ _ _ _ Q) in Ho.
  exact (mwp_run _ _ _ _ _ (orphaned_proposal fs isPrint p proposal w2 Ho) E).
Qed.
(** After the failed file operation of the sample: an error. *)
Lemma failed_creation_blocks_file_witness :
  is_ok (ProposeHostFSRead ReadSample.fs (λ r, (32 <=? r)%N) ReadSample.provider ReadSample.proposal OrphanSample.broken).2 = false ∧
  quiet OrphanSample.broken
    (ProposeHostFSRead ReadSample.fs (λ r, (32 <=? r)%N) ReadSample.provider ReadSample.proposal OrphanSample.broken).1.
Proof.
  split; [vm_compute; reflexivity|].
  refine (proj1 (failed_creation_blocks_file ReadSample.fs (λ r, (32 <=? r)%N) ReadSample.provider ReadSample.proposal
    (emptyState "ses_1") OrphanSample.fresh HostFSSpec.Sample.now OrphanSample.before OrphanSample.broken _ _ _ _ _
    OrphanSample.broken _ _ _ _)).
  - vm_compute. reflexivity.
  - vm_compute. reflexivity.
  - vm_compute. reflexivity.
  - vm_compute. reflexivity.
  - reflexivity.
  - apply surjective_pairing.
Defined.

Lemma approved_manifest_loads_witness :
  grantFor (OrphanSample.request "/home/u/work/b") 4 HostFSSpec.Sample.now ∈
    mf_Grants (nextHostFSReadManifest OrphanSample.first true "ses_1" (OrphanSample.request "/home/u/work/b") 4
      HostFSSpec.Sample.now).
Proof.
  destruct (approved_manifest_loads "ses_1" OrphanSample.first true (hostFSReadKey "ses_1" "/home/u/work/b")
    (OrphanSample.request "/home/u/work/b") 4 HostFSSpec.Sample.now) as (_&H&_).
  - reflexivity.
  - intros _. split; [exact OrphanSample.first_good|split; vm_compute; [intros E; discriminate E|reflexivity]].
  - vm_compute. reflexivity.
  - reflexivity.
  - reflexivity.
  - lia.
  - vm_compute. reflexivity.
  - exact H.
Defined.

Lemma handover_is_current_witness :
  ∃ config n current, OrphanSample.treeProfiles "p" = Ok config ∧
    currentPolicy ReadSample.fs OrphanSample.treeProvider config (st_root (w_store ReadSample.w0))
      (UTC (st_clock (w_store ReadSample.w0) n)) = Some current ∧
    AuthorizesHostAppTree ReadSample.fs current "/home/u/work" = true.
Proof.
  destruct (handover_is_current ReadSample.fs OrphanSample.treeProfiles OrphanSample.treeService
    OrphanSample.treeProvider "p" ReadSample.w0 (mkOwner "ses_1" "p") "/home/u/work" false
    (mkResource "/home/u/work" "/home/u/work" "work" HostAppResourceTree OpList (ServiceSample.dirInfo 1)))
    as (_&_&_&config&n&current&Hc&Hp&_&Ht).
  - reflexivity.
  - vm_compute. reflexivity.
  - exists config, n, current. exact (conj Hc (conj Hp (Ht eq_refl))).
Defined.
